(* ===== verification/_CoqProject ===== *)
-Q . S2P
Prelude.v
GoLib.v
Crypto.v
Json.v
JsonParse.v
AesGcm.v
Eth.v
Database.v
World.v
Chain.v
SignerPool.v
RefEnv.v
AppService.v
FileSystem.v
Keystore.v
KeystoreSafety.v
RelayService.v
RelayStatus.v
Watcher.v
Webhook.v
Deliveries.v
Alert.v
Gas.v
Treasury.v
Api.v
Config.v
Interleave.v
System.v
SystemSteps.v
Concurrent.v
Schema.v
Main.v
TestDb.v
Process.v
Accounts.v
Wired.v
Quiet.v
Lifecycle.v
