(* ===== verification/Prelude.v ===== *)
(** * txmill: a verification development

    txmill relays contract calls of backend applications to an EVM chain: it
    keeps, per app, a pool of signer keys funded from a treasury, sends each
    call through an idle signer, watches for the receipt and notifies the app by
    webhook.  This library models the Go packages under [src/internal] that do
    this, the commands under [src/cmd] that start them and the database schema under
    [src/migrations] they work on, and proves what makes them correct.

    ** The program and the files that model it

    Foundations:
    - [Prelude] (this file): Go's [error] values and results, the sentinels
      compared with [errors.Is], sorting (ORDER BY), shared lemmas.
    - [GoLib]: [uint64]/[int64] wrap-around, [math/big] printing and parsing,
      hexadecimal, the functions of [strings], [strconv] and [net/url] the code
      calls.
    - [Crypto]: SHA-256, HMAC-SHA256, base64 and base64url from their
      specifications, with the published test vectors evaluated; [AesGcm]: AES and
      GCM (FIPS 197, SP 800-38D), likewise.
    - [Json]: the JSON and time formats that reach callers; [JsonParse]: a parser
      and indented printer of JSON documents and the decoding of structs as
      [encoding/json] performs it.
    - [Eth]: addresses, hashes, transactions, receipts; go-ethereum's functions
      as the class [GoEthereum] with its documented laws [GoEthereumLaws].
    - [Database]: [migrations/*.sql] — each table a finite map on its primary
      key, each INSERT and UPDATE form one operation with the schema's defaults,
      CHECK, UNIQUE and FOREIGN KEY constraints and the [updated_at] trigger.
      PostgreSQL's input functions are the class [Postgres].
    - [World]: the shared state (tables, signer pool, key files, throttle,
      history of interactions), the [Environment] that answers for everything
      outside, and programs over them: [prog] is a tree of atomic actions, with
      [let?] for [if err != nil { return ... }].  A statement sent to PostgreSQL
      may be served, fail, or fail after having taken effect; a transaction takes
      effect at its commit or not at all.

    Components:
    - [Chain]: [internal/chain] ([Dial], the forwarding calls).
    - [SignerPool]: [internal/signer] ([Signer] with its atomic nonce, [Pool]
      with [Load], [Checkout], [Release], [Size]); every critical section, channel
      operation and counter operation is one action, signers live in a heap and
      are shared by pointer as in the code.
    - [FileSystem]: [path/filepath] and the calls of [os] the key store makes, with
      their faults (class [Host]); [Keystore]: [internal/keystore] ([New],
      [Generate], [Load], [List], the file format); [KeystoreSafety]: its theorems.
      It implements the interfaces [KeystoreLoader] and [KeystoreGenerator] of its
      clients.
    - [AppService]: [internal/app] ([Create], [Authenticate], [Accounts],
      [ListSigners]); it is the [SignerLister] the pool works with.
    - [RelayService]: [internal/relay/service.go] ([Submit] with every error
      path).
    - [RelayStatus]: [internal/relay/get.go] and [recovery.go] ([Get], [GetRaw],
      [Recover]).
    - [Watcher]: [internal/relay/watcher.go] ([tick], [process],
      [fetchRevertReason]).
    - [Webhook]: [internal/webhook] ([Enqueue], [sign], the worker's tick,
      [deliver], [recordFailure]); it is the enqueuer of the relay service and the
      watcher, and reads [GetRaw] through the interface [StatusFetcher].
      [Deliveries]: the life of one delivery over many ticks.
    - [Alert]: [internal/alert] ([Multi], [Throttled], the webhook and Telegram
      transports).
    - [Gas]: [internal/gas] (the top-up worker's tick).
    - [Treasury]: [internal/treasury] ([Sweep]).
    - [Api]: [internal/api] (routes, bearer middleware, panic recovery, every
      handler).
    - [Config]: [internal/config] (environment variables and their defaults).
    - [Main]: [cmd/txmill] (startup, wiring, [buildNotifier]), [internal/store]
      ([NewPool]), [cmd/alert-test], [cmd/migrate] around goose (class [Goose]), and
      the ticker loops [Run] of the three workers.
    - [TestDb]: [internal/store/dbtest] ([New], [applyMigrations], [truncateAll]).

    Composition:
    - [RefEnv]: a concrete PostgreSQL and node on which the theorems with
      hypotheses are evaluated.
    - [Interleave]: systems of goroutines with crashes, and two program logics for
      them, [okp] (ghost states and a global invariant) and [guar] (rely and
      guarantee on the tables).
    - [System], [SystemSteps], [Concurrent]: the invariant of the relay, and
      [Submit] calls and watcher ticks under any interference.
    - [Schema], [Process]: the tables' well-formedness and growth, and all
      interleavings of everything [main] starts.
    - [Accounts]: the two invariants joined with the key files — who holds which
      key — and [Create] in the joint logic; [Wired]: every other goroutine of the
      process in it, by the lemmas that lift the proofs of [Concurrent] and
      [Process], and the theorems about the process as a whole.
    - [Quiet]: what the goroutines leave to [main]; [Lifecycle]: the rest of [main]
      — the server's goroutine, the wait for a signal, the shutdown, the deferred
      calls — and the life of the service, with launches, stops, failures, panics,
      crashes and relaunches, as a step relation around the goroutines of the system
      that the startup returned.

    The services are records with the fields of the Go structs ([SignerPool],
    [AppSvc], [Service], [Watcher], [Worker], [TreasuryService], [Handlers]); which
    client, key store and enqueuer they hold is what [Main.wire] gives them, as
    [main] does.

    Names follow the source.  A Go function that touches the outside is a [prog]
    of the same name; an SQL query is a function on the tables, named after what
    it selects; a loop over a slice is a structural recursion.  Fuel is used twice.
    The JSON parser is given twice the length of the text, which
    [JsonParse.parsers_fuel] shows to be enough: more fuel never changes its
    answer.  The workers' loops, which in the code run until the process ends, are
    cut after any number [n] of rounds, and the theorems about them hold for all
    [n].

    ** What the theorems show

    - The whole process ([Wired]), from a clean first start ([clean_start]), in every
      state reachable by any interleaving of requests (relays, app creations, sweeps,
      queries), the three workers and crashes: the transactions the node took in from
      a signer have consecutive nonces, up to and including the first whose answer
      was lost; each is a treasury's or has its attempt row, written before it was
      sent, and not marked failed when the node had answered without error; every
      registered account has a key file from which its key is loaded; a goroutine
      panics only for a cause in [panic_cause] (an interval that is not positive, a
      receipt without block number, an amount [NaN] in a top-up policy); nothing
      deadlocks, and when all is quiet every signer is idle with its counter in step
      with the node unless an answer was lost.  The invariant
      ([Accounts.process_inv]) relates pool, counters, tables, key files, the log of
      broadcasts and a ghost state per goroutine.  The nonces of treasuries are not
      coordinated; [WiredDemo.sweep_race_nonces] evaluates two overlapping sweeps.
    - The record ([Process]): handlers and worker loops in any interleaving, with
      crashes, keep the tables well-formed ([Schema.schema]) and only ever add to
      the record ([Schema.grows]).
    - The life of the service ([Lifecycle]): its states are among those of [Wired],
      across startups, shutdowns and crashes; the exit status tells how the process
      ended — gracefully with every deferred call in order, by a failed listener, by
      a panic, or by a refused startup.
    - The API ([Api]): authentication before anything else, isolation between
      apps — whose signers, balances, requests and treasury an endpoint touches —,
      the contract of a relay request field by field.
    - The key store ([KeystoreSafety]): it refines a map from addresses to keys;
      what [Generate] writes [Load] reads; a crash never damages a key file; on
      which files [Load] returns and on which it panics.
    - One submission ([RelayService]): what success leaves behind, at most one
      transaction, what each failure leaves behind, bounds of the gas buffer.
    - The pool ([SignerPool]): exclusive checkout, release that never waits,
      loading, the counter at 64 bits.
    - Receipts ([Watcher]), status and recovery ([RelayStatus]): receipts are
      recorded atomically in both tables, only in-flight attempts change, batches
      are the oldest first; when one processing step settles an attempt and when it
      never does; status is isolated per app and equals the webhook
      payload; the startup scan is exact.
    - Webhooks ([Webhook], [Deliveries]): the delivery state machine (at most five
      attempts, dead exactly after the fifth), the effect of enqueuing, the
      signature format; a delivery the worker keeps reading is settled after at most
      five ticks when the receiver's failures can be stored, and stays due when they
      cannot.
    - Apps ([AppService]): creation is all-or-nothing; token and signer round
      trips; authentication is sound; the gas policy check.
    - Money ([Gas], [Treasury]): the nonces of a top-up pass, at most one top-up
      per signer and window, only below the threshold; a policy amount that is not a
      number stops the process; sweeps are exact, also about a lost answer.
    - Alerts ([Alert]): fan-out and spacing.
    - The test database ([TestDb]): a test gets empty tables, the migrations run
      once and only under the lock, which is free again on every path.
    - Startup and loops ([Main]): what must hold before the process serves and how
      it is wired, when the workers' ticks return and their loops keep running, and
      the intervals with which they cannot start.

    ** Parameters and assumptions

    The classes [Environment], [GoEthereum], [Postgres], [Host] (file system,
    key generation, argon2, the curve's encoding), [PgxPool], [Goose],
    [TestHarness], [Binder] (the web framework's decoding of bodies) and
    [HttpServer] (its listener, and the arrival of signals) stand for code that is
    not part of this repository.  Their laws are separate classes, named where a
    theorem uses them: [GoEthereumLaws], [PostgresLaws], [HostLaws], [UuidLaws], [NodeAccepts] (a
    broadcast answered without error was taken in), [NodeLaws] (nonce queries of an
    account none of whose answers was lost count what was taken in), [FreshKeys] (a
    generated key is a new one), [HttpServerLaws] (a server that was shut down
    reports [ErrServerClosed]) and [AdvisoryLaws].  The laws a client asks of the
    keystore, [KeystoreFrame], [GeneratorFrame] and [KeystoreSound], are discharged by
    [Keystore].  Nothing is assumed of a broadcast that is answered with an error: the
    node may have taken it in, and the history records both ([World.sent_log]).  The
    code's nonce rewind is wrong then, which [RelayDemo.lost_answer_wedges] evaluates.
    Transactions of PostgreSQL are modelled by their effect at the commit; isolation
    anomalies between statements of open transactions are not.

    In [Wired] nobody but the process writes its tables and key files or sends
    transactions of its accounts ([undisturbed]); the database, the files and the
    chain survive a crash, memory does not ([System.reboot]).

    ** Not modelled

    Logging; HTTP and context timeouts, which are among the answers of the
    outside; the web framework's request logging, and what its [Shutdown] waits
    for; goose and the Down migrations; the loss of unsynced writes when the machine,
    rather than the process, goes down: [Keystore.write] calls no fsync before the
    rename, and a write that was served is kept here. *)

From Stdlib Require Import ZArith Lia Sorting.Sorted Sorting.Permutation.
From Stdlib Require Export String Ascii.
From stdpp Require Export base gmap strings list.

#[export] Set Default Goal Selector "!".

Declare Scope txmill_scope.
Delimit Scope txmill_scope with txmill.

(** ** Go errors

    A Go [error] value is compared by identity ([errors.Is]) and printed
    ([err.Error()]).  The sentinels are the package-level error variables the
    code compares against; [EText] is any other error value, whose identity
    nothing tests; [EWrap] is [fmt.Errorf("ctx: %w", err)] and [EJoin] pairs
    the errors of an [errors.Join] list, right-nested. *)
Inductive sentinel :=
| ErrAppNotLoaded       (* signer.ErrAppNotLoaded *)
| ErrChainIDMismatch    (* relay.ErrChainIDMismatch *)
| ErrPastDeadline       (* relay.ErrPastDeadline *)
| ErrNotFound           (* relay.ErrNotFound *)
| ErrAppNotFound        (* treasury.ErrAppNotFound *)
| ErrInvalidToken       (* app.ErrInvalidToken *)
| ErrNoRows             (* pgx.ErrNoRows *)
| EthNotFound           (* ethereum.NotFound *)
| CtxDone               (* ctx.Err() *)
| ErrServerClosed.      (* http.ErrServerClosed *)

#[export] Instance sentinel_eq_dec : EqDecision sentinel.
Proof. solve_decision. Defined.

Inductive error :=
| EText (msg : string)
| ESentinel (s : sentinel)
| EWrap (ctx : string) (e : error)
| EJoin (e1 e2 : error).

(** [errors.Is(err, target)] for a sentinel target. *)
Fixpoint errors_Is (e : error) (target : sentinel) : bool :=
  match e with
  | EText _ => false
  | ESentinel s => bool_decide (s = target)
  | EWrap _ e' => errors_Is e' target
  | EJoin e1 e2 => errors_Is e1 target || errors_Is e2 target
  end.

(** The text of the package-level errors. *)
Definition sentinel_text (s : sentinel) : string :=
  match s with
  | ErrAppNotLoaded => "signer pool: app not loaded"
  | ErrChainIDMismatch => "chain_id does not match server"
  | ErrPastDeadline => "deadline is in the past"
  | ErrNotFound => "relay request not found"
  | ErrAppNotFound => "app not found"
  | ErrInvalidToken => "invalid token"
  | ErrNoRows => "no rows in result set"
  | EthNotFound => "not found"
  | ErrServerClosed => "http: Server closed"
  | CtxDone => "context canceled"
  end.

(** [err.Error()]: a wrapped error prints as ["ctx: inner"], joined errors
    one per line. *)
Fixpoint error_text (e : error) : string :=
  match e with
  | EText s => s
  | ESentinel s => sentinel_text s
  | EWrap ctx e' => ctx +:+ ": " +:+ error_text e'
  | EJoin e1 e2 => error_text e1 +:+ String "010"%char (error_text e2)
  end.

(** ** Results: the [(value, error)] pair of a fallible Go function *)
Inductive result (A : Type) :=
| Ok (a : A)
| Err (e : error).
Arguments Ok {A} a.
Arguments Err {A} e.

Definition is_ok {A} (r : result A) : bool :=
  match r with Ok _ => true | Err _ => false end.

Definition result_of_option {A} (e : error) (o : option A) : result A :=
  match o with Some a => Ok a | None => Err e end.

(** ** Tactics *)

Create HintDb txmill.

(** Case on the scrutinee of the first [match] or [if] of the goal. *)
Ltac break_goal :=
  match goal with
  | |- context [match ?x with _ => _ end] =>
      let E := fresh "E" in destruct x eqn:E
  end.

(** The same in a hypothesis. *)
Ltac break_in H :=
  match type of H with
  | context [match ?x with _ => _ end] =>
      let E := fresh "E" in destruct x eqn:E
  end.

(** Break every [match] of a hypothesis, discarding the impossible cases. *)
Ltac crush_in H :=
  repeat (break_in H; simplify_eq/=; try done).

(** ** Generic lemmas on lists *)

(** Stable sorting by an integer key: the model of [ORDER BY key]. *)
Section sort_by.
Context {A : Type} (key : A -> Z).

Fixpoint insert_by (x : A) (l : list A) : list A :=
  match l with
  | [] => [x]
  | y :: l' => if (key x <=? key y)%Z then x :: l else y :: insert_by x l'
  end.

Fixpoint sort_by (l : list A) : list A :=
  match l with
  | [] => []
  | x :: l' => insert_by x (sort_by l')
  end.

Lemma insert_by_perm x l : insert_by x l ≡ₚ x :: l.
Proof.
  induction l as [|y l IH]; simpl; [done|].
  destruct (key x <=? key y)%Z; [done|].
  rewrite IH. apply Permutation_swap.
Qed.

Lemma sort_by_perm l : sort_by l ≡ₚ l.
Proof.
  induction l as [|x l IH]; simpl; [done|].
  by rewrite insert_by_perm, IH.
Qed.

Lemma sort_by_elem x l : x ∈ sort_by l <-> x ∈ l.
Proof. by rewrite sort_by_perm. Qed.

Lemma sort_by_length l : length (sort_by l) = length l.
Proof. by rewrite sort_by_perm. Qed.

Lemma insert_by_sorted x l :
  StronglySorted (fun a b => key a <= key b)%Z l ->
  StronglySorted (fun a b => key a <= key b)%Z (insert_by x l).
Proof.
  induction 1 as [|y l Hs IH Hall]; simpl; [repeat constructor|].
  destruct (Z.leb_spec (key x) (key y)) as [Hle|Hgt].
  - constructor; [by constructor|]. constructor; [done|].
    eapply Forall_impl; [exact Hall|]. simpl. lia.
  - constructor; [done|]. rewrite insert_by_perm. constructor; [lia|done].
Qed.

Lemma sort_by_sorted l :
  StronglySorted (fun a b => key a <= key b)%Z (sort_by l).
Proof.
  induction l as [|x l IH]; simpl; [constructor|]. by apply insert_by_sorted.
Qed.

(** A prefix of the sorted list holds the smallest keys. *)
Lemma sort_by_take_le n l x y :
  x ∈ take n (sort_by l) -> y ∈ drop n (sort_by l) -> (key x <= key y)%Z.
Proof.
  pose proof (sort_by_sorted l) as Hs. revert Hs.
  generalize (sort_by l). intros s Hs. revert n.
  induction Hs as [|z s Hs IH Hall]; intros [|n]; simpl;
    try (intros Hin; by inversion Hin).
  rewrite list_elem_of_In; simpl. rewrite <- list_elem_of_In.
  intros [<-|Hx] Hy; [|by eapply IH].
  rewrite Forall_forall in Hall. apply Hall.
  rewrite <- (take_drop n s). apply elem_of_app. by right.
Qed.
End sort_by.
