(* ===== verification/GoLib.v ===== *)
(** * The parts of Go's standard library the program uses

    Machine integers at their width, [strings], [strconv], [math/big] decimal
    text and [encoding/hex].  Go strings and byte slices are both byte
    sequences, carried as [string]. *)

From Stdlib Require Import ZArith Lia DecimalString DecimalZ.
From S2P Require Import Prelude.

Local Open Scope Z_scope.

(** ** Machine integers *)

Definition two64 : Z := 2 ^ 64.
Definition max_int64 : Z := 2 ^ 63 - 1.

(** The value of a [uint64] expression: arithmetic wraps modulo 2^64. *)
Definition u64 (z : Z) : Z := z mod 2 ^ 64.

(** The conversion [int64(x)]: two's complement reinterpretation. *)
Definition int64_of (z : Z) : Z := (z + 2 ^ 63) mod 2 ^ 64 - 2 ^ 63.

Definition in_u64 (z : Z) : Prop := 0 <= z < 2 ^ 64.

Lemma u64_range z : in_u64 (u64 z).
Proof. unfold in_u64, u64. apply Z.mod_pos_bound. lia. Qed.

Lemma u64_small z : in_u64 z -> u64 z = z.
Proof. unfold in_u64, u64. apply Z.mod_small. Qed.

Lemma u64_u64 z : u64 (u64 z) = u64 z.
Proof. apply u64_small, u64_range. Qed.

Lemma u64_add_l a b : u64 (u64 a + b) = u64 (a + b).
Proof. unfold u64. by rewrite Zplus_mod_idemp_l. Qed.

Lemma u64_sub_l a b : u64 (u64 a - b) = u64 (a - b).
Proof. unfold u64. by rewrite Zminus_mod_idemp_l. Qed.

Lemma int64_of_small z : 0 <= z <= max_int64 -> int64_of z = z.
Proof. unfold int64_of, max_int64. intros H. rewrite Z.mod_small; lia. Qed.

Lemma int64_of_inj a b :
  in_u64 a -> in_u64 b -> int64_of a = int64_of b -> a = b.
Proof.
  unfold in_u64, int64_of. intros Ha Hb H.
  pose proof (Z.div_mod (a + 2^63) (2^64)). pose proof (Z.div_mod (b + 2^63) (2^64)).
  pose proof (Z.mod_pos_bound (a + 2^63) (2^64)).
  pose proof (Z.mod_pos_bound (b + 2^63) (2^64)).
  assert (a + 2^63 < 2 * 2^64 /\ b + 2^63 < 2 * 2^64) by lia.
  assert (0 <= (a + 2^63) / 2^64 <= 1) by
    (split; [apply Z.div_pos; lia|apply Z.lt_succ_r, Z.div_lt_upper_bound; lia]).
  assert (0 <= (b + 2^63) / 2^64 <= 1) by
    (split; [apply Z.div_pos; lia|apply Z.lt_succ_r, Z.div_lt_upper_bound; lia]).
  lia.
Qed.

#[export] Hint Resolve u64_range : txmill.

(** ** Package [strings] *)

(** [s[n:]] *)
Fixpoint string_drop (n : nat) (s : string) : string :=
  match n, s with
  | O, _ => s
  | S n', EmptyString => EmptyString
  | S n', String _ s' => string_drop n' s'
  end.

Fixpoint string_rev_app (s acc : string) : string :=
  match s with
  | EmptyString => acc
  | String c s' => string_rev_app s' (String c acc)
  end.

Definition string_rev (s : string) : string := string_rev_app s "".

Definition HasPrefix (s p : string) : bool := String.prefix p s.
Definition HasSuffix (s p : string) : bool := String.prefix (string_rev p) (string_rev s).

Definition TrimPrefix (s p : string) : string :=
  if HasPrefix s p then string_drop (String.length p) s else s.

Definition TrimSuffix (s p : string) : string :=
  if HasSuffix s p
  then string_rev (string_drop (String.length p) (string_rev s)) else s.

(** [strings.Index]: the offset of the first occurrence. *)
Definition strings_Index (s sub : string) : option nat := String.index 0 sub s.

Definition map_string (f : ascii -> ascii) : string -> string :=
  fix go (s : string) : string :=
    match s with
    | EmptyString => EmptyString
    | String c s' => String (f c) (go s')
    end.

Definition in_range (lo hi n : nat) : bool := (Nat.leb lo n && Nat.leb n hi)%bool.

(** ASCII case mapping; the program only lowers hexadecimal text and only
    uppers the three alert levels, all of it ASCII. *)
Definition lower_ascii (c : ascii) : ascii :=
  let n := nat_of_ascii c in
  if in_range 65 90 n then ascii_of_nat (n + 32) else c.
Definition upper_ascii (c : ascii) : ascii :=
  let n := nat_of_ascii c in
  if in_range 97 122 n then ascii_of_nat (n - 32) else c.
Definition ToLower : string -> string := map_string lower_ascii.
Definition ToUpper : string -> string := map_string upper_ascii.

(** Every byte satisfies [p]. *)
Fixpoint all_chars (p : ascii -> bool) (s : string) : bool :=
  match s with
  | EmptyString => true
  | String c s' => p c && all_chars p s'
  end.

Definition bytes_of (l : list nat) : string :=
  foldr (fun n s => String (ascii_of_nat n) s) "" l.

(** The UTF-8 encodings of the code points [unicode.IsSpace] accepts. *)
Definition space_runes : list string :=
  List.map bytes_of
    ([[9]; [10]; [11]; [12]; [13]; [32]; [194; 133]; [194; 160]; [225; 154; 128]]
     ++ List.map (fun n => [226; 128; 128 + n]%nat) (List.seq 0 11)
     ++ [[226; 128; 168]; [226; 128; 169]; [226; 128; 175]; [226; 129; 159];
         [227; 128; 128]])%nat.

(** Drop leading runes of [runes]; the fuel is the length of the string, and
    every dropped rune is at least one byte long. *)
Fixpoint trim_left_fuel (runes : list string) (fuel : nat) (s : string) : string :=
  match fuel with
  | O => s
  | S fuel' =>
      match List.find (fun r => String.prefix r s) runes with
      | Some r => trim_left_fuel runes fuel' (string_drop (String.length r) s)
      | None => s
      end
  end.

Definition trim_left (runes : list string) (s : string) : string :=
  trim_left_fuel runes (String.length s) s.

(** [strings.TrimSpace] *)
Definition TrimSpace (s : string) : string :=
  let l := trim_left space_runes s in
  string_rev (trim_left (List.map string_rev space_runes) (string_rev l)).

(** ** Decimal text: [big.Int] and [strconv] *)

(** [z.String()] for a [*big.Int]. *)
Definition bigint_String (z : Z) : string := NilEmpty.string_of_int (Z.to_int z).

(** A nonempty run of decimal digits. *)
Definition parse_digits (s : string) : option Z :=
  match s with
  | EmptyString => None
  | _ => option_map Z.of_uint (NilEmpty.uint_of_string s)
  end.

(** [new(big.Int).SetString(s, 10)]: an optional sign, then digits. *)
Definition SetString10 (s : string) : option Z :=
  match s with
  | String "-" r => option_map Z.opp (parse_digits r)
  | String "+" r => parse_digits r
  | _ => parse_digits s
  end.

(** [strconv.ParseUint(s, 10, 64)] *)
Definition ParseUint64 (s : string) : option Z :=
  match parse_digits s with
  | Some z => if z <? two64 then Some z else None
  | None => None
  end.

(** ** [encoding/hex] *)

Definition hex_digit (n : nat) : ascii :=
  if Nat.ltb n 10 then ascii_of_nat (48 + n) else ascii_of_nat (87 + n).

Fixpoint hex_EncodeToString (s : string) : string :=
  match s with
  | EmptyString => EmptyString
  | String c s' =>
      let n := nat_of_ascii c in
      String (hex_digit (n / 16)) (String (hex_digit (n mod 16)) (hex_EncodeToString s'))
  end.

Definition from_hex_char (c : ascii) : option nat :=
  let n := nat_of_ascii c in
  if in_range 48 57 n then Some (n - 48)%nat
  else if in_range 97 102 n then Some (n - 87)%nat
  else if in_range 65 70 n then Some (n - 55)%nat
  else None.

Definition ErrLength : error := EText "encoding/hex: odd length hex string".
Definition InvalidByteError : error := EText "encoding/hex: invalid byte".

(** [hex.DecodeString]: pairs of digits; a trailing single character is an
    invalid byte if it is not a digit and an odd length otherwise. *)
Fixpoint hex_DecodeString (s : string) : result string :=
  match s with
  | EmptyString => Ok ""
  | String a EmptyString =>
      match from_hex_char a with Some _ => Err ErrLength | None => Err InvalidByteError end
  | String a (String b s') =>
      match from_hex_char a, from_hex_char b with
      | Some x, Some y =>
          match hex_DecodeString s' with
          | Ok r => Ok (String (ascii_of_nat (16 * x + y)) r)
          | Err e => Err e
          end
      | _, _ => Err InvalidByteError
      end
  end.

(** ** [net/url] *)

(** The characters [url.QueryEscape] leaves as they are. *)
Definition query_plain (c : ascii) : bool :=
  let n := nat_of_ascii c in
  in_range 48 57 n || in_range 65 90 n || in_range 97 122 n ||
  Nat.eqb n 45 || Nat.eqb n 46 || Nat.eqb n 95 || Nat.eqb n 126.

Fixpoint QueryEscape (s : string) : string :=
  match s with
  | EmptyString => EmptyString
  | String c s' =>
      let n := nat_of_ascii c in
      if query_plain c then String c (QueryEscape s')
      else if Nat.eqb n 32 then String "+" (QueryEscape s')
      else String "%" (String (upper_ascii (hex_digit (n / 16)))
             (String (upper_ascii (hex_digit (n mod 16))) (QueryEscape s')))
  end.

Fixpoint QueryUnescape (s : string) : option string :=
  match s with
  | EmptyString => Some ""
  | String c s' =>
      if Ascii.eqb c "%" then
        match s' with
        | String a (String b s'') =>
            match from_hex_char a, from_hex_char b with
            | Some x, Some y =>
                option_map (String (ascii_of_nat (16 * x + y))) (QueryUnescape s'')
            | _, _ => None
            end
        | _ => None
        end
      else option_map (String (if Ascii.eqb c "+" then " "%char else c)) (QueryUnescape s')
  end.

Example query_escape : QueryEscape "a b&c=[1]~" = "a+b%26c%3D%5B1%5D~".
Proof. reflexivity. Qed.

(** ** Concatenation *)

Lemma sapp_cons x a b : String x a +:+ b = String x (a +:+ b).
Proof. reflexivity. Qed.

Lemma sapp_assoc a b c : (a +:+ b) +:+ c = a +:+ (b +:+ c).
Proof. induction a as [|x a IH]; [done|]. by rewrite !sapp_cons, IH. Qed.

Lemma sapp_nil_r a : a +:+ "" = a.
Proof. induction a as [|x a IH]; [done|]. by rewrite sapp_cons, IH. Qed.

Lemma sapp_length a b : String.length (a +:+ b) = (String.length a + String.length b)%nat.
Proof. induction a as [|x a IH]; [done|]. rewrite sapp_cons. simpl. by rewrite IH. Qed.

Lemma sapp_inj_r a b c : a +:+ c = b +:+ c -> a = b.
Proof.
  revert b. induction a as [|x a IH]; intros [|y b] E; [done| | |].
  - apply (f_equal String.length) in E. rewrite !sapp_length in E. simpl in E. lia.
  - apply (f_equal String.length) in E. rewrite !sapp_length in E. simpl in E. lia.
  - rewrite !sapp_cons in E. injection E as -> E. f_equal. by apply IH.
Qed.

Lemma sapp_inj_l a b c : a +:+ b = a +:+ c -> b = c.
Proof.
  induction a as [|x a IH]; [done|]. rewrite !sapp_cons. intros [= E]. by apply IH.
Qed.

Lemma all_chars_app p a b : all_chars p (a +:+ b) = all_chars p a && all_chars p b.
Proof.
  induction a as [|x a IH]; [done|]. rewrite sapp_cons. simpl. by rewrite IH, andb_assoc.
Qed.

(** ** Prefixes and suffixes *)

Lemma prefix_app a b : String.prefix a (a +:+ b) = true.
Proof.
  induction a as [|x a IH]; [by destruct b|]. rewrite sapp_cons. cbn [String.prefix].
  destruct (ascii_dec x x); [exact IH|done].
Qed.

Lemma string_drop_app a b : string_drop (String.length a) (a +:+ b) = b.
Proof. induction a as [|x a IH]; [done|]. exact IH. Qed.

Lemma prefix_inv a s : String.prefix a s = true -> s = a +:+ string_drop (String.length a) s.
Proof.
  revert s. induction a as [|x a IH]; intros s H; [done|]. destruct s as [|y s]; [done|].
  cbn [String.prefix] in H. destruct (ascii_dec x y) as [->|]; [|done].
  rewrite sapp_cons. cbn [String.length string_drop]. f_equal. by apply IH.
Qed.

Lemma string_rev_app_spec s acc : string_rev_app s acc = string_rev s +:+ acc.
Proof.
  unfold string_rev. revert acc. induction s as [|c s IH]; intros acc; [done|].
  cbn [string_rev_app]. rewrite IH, (IH (String c "")), sapp_assoc. done.
Qed.

Lemma string_rev_cons c s : string_rev (String c s) = string_rev s +:+ String c "".
Proof. unfold string_rev at 1. cbn [string_rev_app]. apply string_rev_app_spec. Qed.

Lemma string_rev_sapp a b : string_rev (a +:+ b) = string_rev b +:+ string_rev a.
Proof.
  induction a as [|c a IH]; [by rewrite sapp_nil_r|].
  by rewrite sapp_cons, !string_rev_cons, IH, sapp_assoc.
Qed.

Lemma string_rev_rev s : string_rev (string_rev s) = s.
Proof. induction s as [|c s IH]; [done|]. by rewrite string_rev_cons, string_rev_sapp, IH. Qed.

Lemma string_rev_length s : String.length (string_rev s) = String.length s.
Proof.
  induction s as [|c s IH]; [done|]. rewrite string_rev_cons, sapp_length, IH. simpl. lia.
Qed.

Lemma HasSuffix_app a b : HasSuffix (a +:+ b) b = true.
Proof. unfold HasSuffix. rewrite string_rev_sapp. apply prefix_app. Qed.

Lemma TrimSuffix_app a b : TrimSuffix (a +:+ b) b = a.
Proof.
  unfold TrimSuffix. rewrite HasSuffix_app, string_rev_sapp, <- (string_rev_length b).
  by rewrite string_drop_app, string_rev_rev.
Qed.

Lemma HasSuffix_inv s b : HasSuffix s b = true -> s = TrimSuffix s b +:+ b.
Proof.
  intros H. unfold TrimSuffix. rewrite H. unfold HasSuffix in H. apply prefix_inv in H.
  rewrite <- (string_rev_rev s), H at 1. by rewrite string_rev_sapp, string_rev_rev, string_rev_length.
Qed.

(** ** Round trips *)

Lemma parse_digits_uint u :
  u <> Decimal.Nil -> parse_digits (NilEmpty.string_of_uint u) = Some (Z.of_uint u).
Proof.
  intros Hu. unfold parse_digits. rewrite NilEmpty.usu.
  by destruct u.
Qed.

Lemma string_of_uint_head u :
  match NilEmpty.string_of_uint u with
  | String c _ => c <> "-"%char /\ c <> "+"%char
  | EmptyString => u = Decimal.Nil
  end.
Proof. by destruct u. Qed.

Lemma SetString10_no_sign s :
  match s with String c _ => c <> "-"%char /\ c <> "+"%char | EmptyString => True end ->
  SetString10 s = parse_digits s.
Proof.
  destruct s as [|c r]; [done|]. intros [Hm Hp].
  destruct c as [[] [] [] [] [] [] [] []]; done.
Qed.

(** The digits of an integer are never the empty numeral. *)
Lemma Z_to_int_nonnil z :
  match Z.to_int z with Decimal.Pos u | Decimal.Neg u => u <> Decimal.Nil end.
Proof.
  destruct z as [|p|p]; simpl; [done| |];
    apply DecimalPos.Unsigned.to_uint_nonnil.
Qed.

Lemma SetString10_String z : SetString10 (bigint_String z) = Some z.
Proof.
  unfold bigint_String. pose proof (Z_to_int_nonnil z) as Hn.
  pose proof (DecimalZ.of_to z) as Hz.
  destruct (Z.to_int z) as [u|u]; simpl in *.
  - rewrite SetString10_no_sign.
    + by rewrite parse_digits_uint, <- Hz.
    + pose proof (string_of_uint_head u). by destruct (NilEmpty.string_of_uint u).
  - by rewrite parse_digits_uint, <- Hz.
Qed.

Lemma parse_digits_String z : 0 <= z -> parse_digits (bigint_String z) = Some z.
Proof.
  intros H. unfold bigint_String. pose proof (Z_to_int_nonnil z) as Hn.
  pose proof (DecimalZ.of_to z) as Hz. destruct z as [|p|p]; [done| |lia].
  simpl in *. by rewrite parse_digits_uint, <- Hz.
Qed.

Lemma parse_digits_nonneg s z : parse_digits s = Some z -> 0 <= z.
Proof.
  unfold parse_digits. destruct s; [done|]. destruct (NilEmpty.uint_of_string _) as [u|]; [|done].
  intros [= <-]. unfold Z.of_uint. lia.
Qed.

Lemma bigint_String_inj z z' : bigint_String z = bigint_String z' -> z = z'.
Proof.
  intros H. apply (f_equal SetString10) in H. rewrite !SetString10_String in H. congruence.
Qed.

Lemma hex_digit_from n : (n < 16)%nat -> from_hex_char (hex_digit n) = Some n.
Proof. intros H. do 16 (destruct n as [|n]; [reflexivity|]). lia. Qed.

Lemma upper_hex_digit_from n : (n < 16)%nat -> from_hex_char (upper_ascii (hex_digit n)) = Some n.
Proof. intros H. do 16 (destruct n as [|n]; [reflexivity|]). lia. Qed.

(** Form values survive the encoding. *)
Lemma QueryUnescape_Escape s : QueryUnescape (QueryEscape s) = Some s.
Proof.
  induction s as [|c s IH]; [done|]. cbn [QueryEscape]. destruct (query_plain c) eqn:Ep.
  - cbn [QueryUnescape]. rewrite IH.
    destruct (Ascii.eqb_spec c "%") as [->|_]; [discriminate|].
    destruct (Ascii.eqb_spec c "+") as [->|_]; [discriminate|]. done.
  - destruct (Nat.eqb_spec (nat_of_ascii c) 32) as [E|_].
    + cbn [QueryUnescape]. rewrite IH. cbn. f_equal. f_equal.
      by rewrite <- (ascii_nat_embedding c), E.
    + cbn [QueryUnescape]. rewrite Ascii.eqb_refl.
      pose proof (nat_ascii_bounded c) as Hc.
      rewrite !upper_hex_digit_from, IH.
      * cbn [option_map]. by rewrite <- (Nat.div_mod_eq (nat_of_ascii c) 16), ascii_nat_embedding.
      * apply Nat.mod_upper_bound. lia.
      * apply Nat.Div0.div_lt_upper_bound. lia.
Qed.

Lemma hex_decode_encode s : hex_DecodeString (hex_EncodeToString s) = Ok s.
Proof.
  induction s as [|c s IH]; [done|].
  cbn [hex_EncodeToString hex_DecodeString].
  pose proof (nat_ascii_bounded c) as Hc.
  rewrite !hex_digit_from, IH.
  - rewrite <- (Nat.div_mod_eq (nat_of_ascii c) 16). by rewrite ascii_nat_embedding.
  - apply Nat.mod_upper_bound. lia.
  - apply Nat.Div0.div_lt_upper_bound. lia.
Qed.

Lemma hex_encode_length s :
  String.length (hex_EncodeToString s) = (2 * String.length s)%nat.
Proof. induction s as [|c s IH]; simpl in *; lia. Qed.

Lemma lower_ascii_idemp c : lower_ascii (lower_ascii c) = lower_ascii c.
Proof. destruct c as [[] [] [] [] [] [] [] []]; reflexivity. Qed.

Lemma ToLower_idemp s : ToLower (ToLower s) = ToLower s.
Proof.
  induction s as [|c s IH]; [done|]. unfold ToLower in *. simpl.
  by rewrite lower_ascii_idemp, IH.
Qed.
