(* ===== verification/Crypto.v ===== *)
(** * Hashes and encodings of Go's standard library

    [crypto/sha256], [crypto/hmac] over it, and [encoding/base64]'s raw URL
    alphabet, executable on byte strings.  The program uses them for bearer
    tokens and webhook signatures. *)

From Stdlib Require Import ZArith Lia.
From S2P Require Import Prelude GoLib.

Local Open Scope Z_scope.

(** ** Bytes *)

Fixpoint bytes (s : string) : list Z :=
  match s with
  | EmptyString => []
  | String c s' => Z.of_nat (nat_of_ascii c) :: bytes s'
  end.

Fixpoint string_of_bytes (l : list Z) : string :=
  match l with
  | [] => EmptyString
  | b :: l' => String (ascii_of_nat (Z.to_nat b)) (string_of_bytes l')
  end.

Lemma bytes_length s : length (bytes s) = String.length s.
Proof. induction s as [|c s IH]; simpl; congruence. Qed.

Lemma string_of_bytes_length l : String.length (string_of_bytes l) = length l.
Proof. induction l as [|b l IH]; simpl; congruence. Qed.

Lemma string_of_bytes_bytes s : string_of_bytes (bytes s) = s.
Proof.
  induction s as [|c s IH]; simpl; [done|].
  by rewrite Nat2Z.id, ascii_nat_embedding, IH.
Qed.

(** ** SHA-256 *)

Definition u32 (z : Z) : Z := z mod 2 ^ 32.
Definition rotr (n x : Z) : Z := Z.lor (Z.shiftr x n) (u32 (Z.shiftl x (32 - n))).

Definition sha_K : list Z := [
   1116352408; 1899447441; 3049323471; 3921009573;
   961987163; 1508970993; 2453635748; 2870763221;
   3624381080; 310598401; 607225278; 1426881987;
   1925078388; 2162078206; 2614888103; 3248222580;
   3835390401; 4022224774; 264347078; 604807628;
   770255983; 1249150122; 1555081692; 1996064986;
   2554220882; 2821834349; 2952996808; 3210313671;
   3336571891; 3584528711; 113926993; 338241895;
   666307205; 773529912; 1294757372; 1396182291;
   1695183700; 1986661051; 2177026350; 2456956037;
   2730485921; 2820302411; 3259730800; 3345764771;
   3516065817; 3600352804; 4094571909; 275423344;
   430227734; 506948616; 659060556; 883997877;
   958139571; 1322822218; 1537002063; 1747873779;
   1955562222; 2024104815; 2227730452; 2361852424;
   2428436474; 2756734187; 3204031479; 3329325298].

Definition sha_H0 : list Z := [
   1779033703; 3144134277; 1013904242; 2773480762;
   1359893119; 2600822924; 528734635; 1541459225].

(** [n] bytes of [z], big endian. *)
Fixpoint be_bytes (n : nat) (z : Z) (acc : list Z) : list Z :=
  match n with
  | O => acc
  | S n' => be_bytes n' (z / 256) (z mod 256 :: acc)
  end.

Definition sha_pad (msg : list Z) : list Z :=
  let n := Z.of_nat (length msg) in
  msg ++ [128] ++ replicate (Z.to_nat ((55 - n) mod 64)) 0 ++ be_bytes 8 (8 * n) [].

(** Big-endian 32-bit words. *)
Fixpoint sha_words (l : list Z) : list Z :=
  match l with
  | a :: b :: c :: d :: l' => (((a * 256 + b) * 256 + c) * 256 + d) :: sha_words l'
  | _ => []
  end.

(** The message schedule, newest word first. *)
Fixpoint sha_extend (n : nat) (ws : list Z) : list Z :=
  match n with
  | O => ws
  | S n' =>
      let w i := nth i ws 0 in
      let s0 := Z.lxor (Z.lxor (rotr 7 (w 14%nat)) (rotr 18 (w 14%nat))) (Z.shiftr (w 14%nat) 3) in
      let s1 := Z.lxor (Z.lxor (rotr 17 (w 1%nat)) (rotr 19 (w 1%nat))) (Z.shiftr (w 1%nat) 10) in
      sha_extend n' (u32 (w 15%nat + s0 + w 6%nat + s1) :: ws)
  end.

Definition sha_round (st : list Z) (kw : Z * Z) : list Z :=
  match st with
  | [a; b; c; d; e; f; g; h] =>
      let S1 := Z.lxor (Z.lxor (rotr 6 e) (rotr 11 e)) (rotr 25 e) in
      let ch := Z.lxor (Z.land e f) (Z.land (Z.lxor e (2 ^ 32 - 1)) g) in
      let t1 := h + S1 + ch + kw.1 + kw.2 in
      let S0 := Z.lxor (Z.lxor (rotr 2 a) (rotr 13 a)) (rotr 22 a) in
      let maj := Z.lxor (Z.lxor (Z.land a b) (Z.land a c)) (Z.land b c) in
      [u32 (t1 + S0 + maj); a; b; c; u32 (d + t1); e; f; g]
  | _ => st
  end.

Definition sha_block (st : list Z) (block : list Z) : list Z :=
  let ws := rev (sha_extend 48 (rev (sha_words block))) in
  zip_with (fun x y => u32 (x + y)) st (fold_left sha_round (zip sha_K ws) st).

Fixpoint sha_blocks (n : nat) (st : list Z) (msg : list Z) : list Z :=
  match n with
  | O => st
  | S n' => sha_blocks n' (sha_block st (take 64 msg)) (drop 64 msg)
  end.

Definition sha256_bytes (msg : list Z) : list Z :=
  let p := sha_pad msg in
  mjoin (List.map (fun w => be_bytes 4 w []) (sha_blocks (length p / 64) sha_H0 p)).

(** [sha256.Sum256] *)
Definition Sum256 (s : string) : string := string_of_bytes (sha256_bytes (bytes s)).

(** ** HMAC-SHA-256 *)

Definition hmac_key (key : list Z) : list Z :=
  let k := if Nat.ltb 64 (length key) then sha256_bytes key else key in
  k ++ replicate (64 - length k) 0.

Definition hmac_sha256 (key msg : string) : string :=
  let k := hmac_key (bytes key) in
  let inner := sha256_bytes (List.map (Z.lxor 54) k ++ bytes msg) in
  string_of_bytes (sha256_bytes (List.map (Z.lxor 92) k ++ inner)).

(** ** base64.RawURLEncoding *)

Definition b64_char (n : Z) : ascii :=
  let n := Z.to_nat n in
  if Nat.ltb n 26 then ascii_of_nat (65 + n)
  else if Nat.ltb n 52 then ascii_of_nat (71 + n)
  else if Nat.ltb n 62 then ascii_of_nat (n - 4)
  else if Nat.eqb n 62 then "-"%char else "_"%char.

Fixpoint b64_encode (l : list Z) : string :=
  match l with
  | a :: b :: c :: l' =>
      String (b64_char (a / 4)) (String (b64_char (a mod 4 * 16 + b / 16))
        (String (b64_char (b mod 16 * 4 + c / 64)) (String (b64_char (c mod 64)) (b64_encode l'))))
  | [a; b] =>
      String (b64_char (a / 4)) (String (b64_char (a mod 4 * 16 + b / 16))
        (String (b64_char (b mod 16 * 4)) EmptyString))
  | [a] => String (b64_char (a / 4)) (String (b64_char (a mod 4 * 16)) EmptyString)
  | [] => EmptyString
  end.

Definition RawURLEncode (s : string) : string := b64_encode (bytes s).

(** ** Test vectors *)

Example sha256_empty :
  hex_EncodeToString (Sum256 "") =
  "e3b0c44298fc1c149afbf4c8996fb92427ae41e4649b934ca495991b7852b855".
Proof. vm_compute. reflexivity. Qed.

Example sha256_abc :
  hex_EncodeToString (Sum256 "abc") =
  "ba7816bf8f01cfea414140de5dae2223b00361a396177a9cb410ff61f20015ad".
Proof. vm_compute. reflexivity. Qed.

Example hmac_rfc4231_2 :
  hex_EncodeToString (hmac_sha256 "Jefe" "what do ya want for nothing?") =
  "5bdcc146bf60754e6a042426089575c75a003f089d2739839dec58b964ec3843".
Proof. vm_compute. reflexivity. Qed.

Example base64_url : RawURLEncode (bytes_of [251; 255; 254; 1]%nat) = "-__-AQ".
Proof. vm_compute. reflexivity. Qed.

(** ** Lengths *)

Lemma be_bytes_length n z acc : length (be_bytes n z acc) = (n + length acc)%nat.
Proof.
  revert z acc. induction n as [|n IH]; intros z acc; simpl; [done|].
  rewrite IH. simpl. lia.
Qed.

Lemma sha_round_length st kw : length st = 8%nat -> length (sha_round st kw) = 8%nat.
Proof.
  intros H. do 8 (destruct st as [|? st]; [done|]). by destruct st.
Qed.

Lemma sha_rounds_length kws st :
  length st = 8%nat -> length (fold_left sha_round kws st) = 8%nat.
Proof.
  revert st. induction kws as [|kw kws IH]; intros st H; simpl; [done|].
  by apply IH, sha_round_length.
Qed.

Lemma sha_blocks_length n st msg :
  length st = 8%nat -> length (sha_blocks n st msg) = 8%nat.
Proof.
  revert st msg. induction n as [|n IH]; intros st msg H; simpl; [done|].
  apply IH. unfold sha_block. rewrite length_zip_with, sha_rounds_length by done. lia.
Qed.

Lemma mjoin_const_length {A B} (f : A -> list B) n l :
  (forall a, length (f a) = n) -> length (mjoin (List.map f l)) = (length l * n)%nat.
Proof.
  intros Hf. induction l as [|a l IH]; simpl; [done|].
  rewrite length_app, Hf, <- IH. done.
Qed.

Lemma sha256_bytes_length msg : length (sha256_bytes msg) = 32%nat.
Proof.
  unfold sha256_bytes.
  rewrite (mjoin_const_length _ 4) by (intros; by rewrite be_bytes_length).
  by rewrite sha_blocks_length.
Qed.

Lemma Sum256_length s : String.length (Sum256 s) = 32%nat.
Proof. unfold Sum256. by rewrite string_of_bytes_length, sha256_bytes_length. Qed.

Lemma hmac_length key msg : String.length (hmac_sha256 key msg) = 32%nat.
Proof. unfold hmac_sha256. by rewrite string_of_bytes_length, sha256_bytes_length. Qed.

(** The decoder of one character, to show the encoding loses nothing. *)
Definition b64_val (c : ascii) : Z :=
  let n := Z.of_nat (nat_of_ascii c) in
  if n =? 45 then 62 else if n =? 95 then 63
  else if n <? 58 then n + 4 else if n <? 91 then n - 65 else n - 71.

Lemma b64_val_char n : 0 <= n < 64 -> b64_val (b64_char n) = n.
Proof.
  intros H. rewrite <- (Z2Nat.id n) by lia. set (m := Z.to_nat n).
  assert (m < 64)%nat as Hm by lia. clearbody m. clear H n.
  do 64 (destruct m as [|m]; [reflexivity|]). lia.
Qed.

Lemma b64_char_inj x y : 0 <= x < 64 -> 0 <= y < 64 -> b64_char x = b64_char y -> x = y.
Proof. intros Hx Hy E. rewrite <- (b64_val_char x), <- (b64_val_char y) by done. by rewrite E. Qed.

Definition is_byte (b : Z) : Prop := 0 <= b < 256.

Lemma bytes_are_bytes s : Forall is_byte (bytes s).
Proof.
  induction s as [|c s IH]; constructor; [|done].
  pose proof (nat_ascii_bounded c). unfold is_byte. lia.
Qed.

(** Induction by groups of three bytes. *)
Lemma triple_ind (P : list Z -> Prop) :
  P [] -> (forall a, P [a]) -> (forall a b, P [a; b]) ->
  (forall a b c l, P l -> P (a :: b :: c :: l)) -> forall l, P l.
Proof.
  intros H0 H1 H2 H3. fix IH 1. intros [|a [|b [|c l]]]; [done|apply H1|apply H2|].
  apply H3, IH.
Qed.

Lemma byte_split4 a : is_byte a -> 0 <= a / 4 < 64 /\ 0 <= a mod 4 < 4 /\ a = 4 * (a / 4) + a mod 4.
Proof.
  unfold is_byte. intros H. pose proof (Z.div_mod a 4). pose proof (Z.mod_pos_bound a 4). lia.
Qed.
Lemma byte_split16 a : is_byte a -> 0 <= a / 16 < 16 /\ 0 <= a mod 16 < 16 /\ a = 16 * (a / 16) + a mod 16.
Proof.
  unfold is_byte. intros H. pose proof (Z.div_mod a 16). pose proof (Z.mod_pos_bound a 16). lia.
Qed.
Lemma byte_split64 a : is_byte a -> 0 <= a / 64 < 4 /\ 0 <= a mod 64 < 64 /\ a = 64 * (a / 64) + a mod 64.
Proof.
  unfold is_byte. intros H. pose proof (Z.div_mod a 64). pose proof (Z.mod_pos_bound a 64). lia.
Qed.

Ltac split_bytes :=
  repeat match goal with
    | H : Forall is_byte (_ :: _) |- _ => apply Forall_cons in H as [? H]
    | H : is_byte ?a |- _ =>
        pose proof (byte_split4 a H); pose proof (byte_split16 a H);
        pose proof (byte_split64 a H); clear H
    end.

Ltac b64_facts :=
  split_bytes;
  repeat match goal with
    | H : b64_char _ = b64_char _ |- _ => apply b64_char_inj in H; [|lia|lia]
    end.

Lemma b64_encode_inj l l' :
  Forall is_byte l -> Forall is_byte l' -> b64_encode l = b64_encode l' -> l = l'.
Proof.
  revert l'. induction l as [|a|a b|a b c l IH] using triple_ind;
    intros [|a' [|b' [|c' l']]] Hl Hl' E; cbn [b64_encode] in E; simplify_eq; try done.
  all: try (destruct l'; discriminate). all: try (destruct l; discriminate).
  - b64_facts. f_equal. lia.
  - b64_facts. repeat f_equal; lia.
  - assert (l = l') as ->.
    { apply IH; [| |done]; by repeat match goal with
        H : Forall _ (_ :: _) |- _ => apply Forall_cons in H as [_ H] end. }
    b64_facts. repeat f_equal; lia.
Qed.

(** Distinct byte strings have distinct encodings. *)
Lemma RawURLEncode_inj s s' : RawURLEncode s = RawURLEncode s' -> s = s'.
Proof.
  intros E. rewrite <- (string_of_bytes_bytes s), <- (string_of_bytes_bytes s').
  f_equal. apply b64_encode_inj; [apply bytes_are_bytes..|done].
Qed.

(** ** base64.StdEncoding *)

Definition std_char (n : Z) : ascii :=
  if n =? 62 then "+"%char else if n =? 63 then "/"%char else b64_char n.

Definition std_val (c : ascii) : option Z :=
  let n := Z.of_nat (nat_of_ascii c) in
  if (65 <=? n) && (n <=? 90) then Some (n - 65)
  else if (97 <=? n) && (n <=? 122) then Some (n - 71)
  else if (48 <=? n) && (n <=? 57) then Some (n + 4)
  else if n =? 43 then Some 62 else if n =? 47 then Some 63 else None.

Fixpoint std_encode (l : list Z) : string :=
  match l with
  | a :: b :: c :: l' =>
      String (std_char (a / 4)) (String (std_char (a mod 4 * 16 + b / 16))
        (String (std_char (b mod 16 * 4 + c / 64)) (String (std_char (c mod 64)) (std_encode l'))))
  | [a; b] =>
      String (std_char (a / 4)) (String (std_char (a mod 4 * 16 + b / 16))
        (String (std_char (b mod 16 * 4)) "="))
  | [a] => String (std_char (a / 4)) (String (std_char (a mod 4 * 16)) "==")
  | [] => EmptyString
  end.

Definition StdEncode (s : string) : string := std_encode (bytes s).

(** The decoder works in groups of four; padding ends the text, and the bits
    that padding leaves over are not looked at. *)
Fixpoint std_decode (s : string) : option (list Z) :=
  match s with
  | EmptyString => Some []
  | String c1 (String c2 (String c3 (String c4 s'))) =>
      match std_val c1, std_val c2, std_val c3, std_val c4 with
      | Some a, Some b, Some c, Some d =>
          option_map (fun l => a * 4 + b / 16 :: b mod 16 * 16 + c / 4 :: c mod 4 * 64 + d :: l)
            (std_decode s')
      | Some a, Some b, Some c, None =>
          if String.eqb (String c4 s') "=" then Some [a * 4 + b / 16; b mod 16 * 16 + c / 4] else None
      | Some a, Some b, None, None =>
          if String.eqb (String c3 (String c4 s')) "==" then Some [a * 4 + b / 16] else None
      | _, _, _, _ => None
      end
  | _ => None
  end.

(** Line breaks are skipped wherever they are. *)
Fixpoint drop_newlines (s : string) : string :=
  match s with
  | EmptyString => EmptyString
  | String c s' =>
      let n := nat_of_ascii c in
      if Nat.eqb n 10 || Nat.eqb n 13 then drop_newlines s' else String c (drop_newlines s')
  end.

Definition StdDecode (s : string) : option string :=
  option_map string_of_bytes (std_decode (drop_newlines s)).

Example std_rfc4648 :
  StdEncode "f" = "Zg==" /\ StdEncode "fo" = "Zm8=" /\ StdEncode "foobar" = "Zm9vYmFy" /\
  StdDecode "Zm9v+/8=" = Some ("foo" +:+ bytes_of [251; 255]%nat) /\ StdDecode "Zg=" = None /\
  StdDecode "Zg==Zg==" = None /\ StdDecode (String "010"%char "Zg==") = Some "f".
Proof. repeat split; vm_compute; reflexivity. Qed.

Lemma below64 (P : Z -> bool) :
  forallb P (List.map Z.of_nat (List.seq 0 64)) = true -> forall n, 0 <= n < 64 -> P n = true.
Proof.
  intros H n Hn. rewrite forallb_forall in H. apply H, in_map_iff. exists (Z.to_nat n).
  split; [lia|]. apply in_seq. lia.
Qed.

Lemma std_val_char n : 0 <= n < 64 -> std_val (std_char n) = Some n.
Proof.
  intros H. apply (bool_decide_eq_true_1 (std_val (std_char n) = Some n)).
  revert n H. apply below64. vm_compute. reflexivity.
Qed.

(** The characters of the encoding. *)
Definition std_text (c : ascii) : bool :=
  match std_val c with Some _ => true | None => Ascii.eqb c "=" end.

Lemma std_char_text n : 0 <= n < 64 -> std_text (std_char n) = true.
Proof. intros H. unfold std_text. by rewrite std_val_char. Qed.

Lemma std_text_drop c s :
  std_text c = true -> drop_newlines (String c s) = String c (drop_newlines s).
Proof.
  intros H. simpl. destruct (_ || _) eqn:E; [|done].
  apply orb_true_iff in E as [E|E]; apply Nat.eqb_eq, (f_equal ascii_of_nat) in E;
    rewrite ascii_nat_embedding in E; subst c; discriminate.
Qed.

Lemma std_encode_clean l : Forall is_byte l -> drop_newlines (std_encode l) = std_encode l.
Proof.
  induction l as [|a|a b|a b c l IH] using triple_ind; intros Hl; [done| | |].
  all: cbn [std_encode]; split_bytes; rewrite !std_text_drop by (apply std_char_text; lia).
  all: by rewrite ?IH.
Qed.

Lemma std_decode_encode l : Forall is_byte l -> std_decode (std_encode l) = Some l.
Proof.
  induction l as [|a|a b|a b c l IH] using triple_ind; intros Hl; [done| | |].
  all: cbn [std_encode std_decode]; split_bytes; rewrite !std_val_char by lia; cbn; rewrite ?IH by done; cbn.
  all: repeat f_equal; Z.div_mod_to_equations; lia.
Qed.

Lemma StdDecode_Encode s : StdDecode (StdEncode s) = Some s.
Proof.
  unfold StdDecode, StdEncode. rewrite std_encode_clean, std_decode_encode by apply bytes_are_bytes.
  simpl. by rewrite string_of_bytes_bytes.
Qed.
