(* ===== verification/Json.v ===== *)
(** * The part of [encoding/json] that renders the status payload

    Strings with Go's escaping (HTML-sensitive characters, control characters,
    invalid UTF-8, U+2028 and U+2029), numbers, embedded raw JSON, objects with
    [omitempty] fields, and [time.Time] in RFC 3339 form. *)

From Stdlib Require Import ZArith Lia.
From S2P Require Import Prelude GoLib.

Local Open Scope Z_scope.

(** ** UTF-8 *)

Definition cont (n : nat) : bool := in_range 128 191 n.

(** The length in bytes of the well-formed UTF-8 sequence a string starts
    with, 0 if there is none ([utf8.DecodeRuneInString]). *)
Definition rune_size (s : string) : nat :=
  let b i := match String.get i s with Some c => nat_of_ascii c | None => 0%nat end in
  let b0 := b 0%nat in let b1 := b 1%nat in let b2 := b 2%nat in let b3 := b 3%nat in
  if Nat.eqb (String.length s) 0 then 0%nat
  else if Nat.ltb b0 128 then 1%nat
  else if in_range 194 223 b0 && cont b1 then 2%nat
  else if (Nat.eqb b0 224 && in_range 160 191 b1
           || in_range 225 236 b0 && cont b1
           || Nat.eqb b0 237 && in_range 128 159 b1
           || in_range 238 239 b0 && cont b1) && cont b2 then 3%nat
  else if (Nat.eqb b0 240 && in_range 144 191 b1
           || in_range 241 243 b0 && cont b1
           || Nat.eqb b0 244 && in_range 128 143 b1) && cont b2 && cont b3 then 4%nat
  else 0%nat.

(** ** Strings *)

Definition quote : string := String "034"%char "".

Definition u_escape (n : nat) : string :=
  "\u00" +:+ String (hex_digit (n / 16)) (String (hex_digit (n mod 16)) "").

(** A character below U+0080. *)
Definition json_ascii (c : ascii) : string :=
  let n := nat_of_ascii c in
  if Nat.eqb n 34 then "\" +:+ quote
  else if Nat.eqb n 92 then "\\"
  else if Nat.eqb n 8 then "\b"
  else if Nat.eqb n 12 then "\f"
  else if Nat.eqb n 10 then "\n"
  else if Nat.eqb n 13 then "\r"
  else if Nat.eqb n 9 then "\t"
  else if Nat.ltb n 32 || Nat.eqb n 60 || Nat.eqb n 62 || Nat.eqb n 38 then u_escape n
  else String c "".

Definition line_sep : string := bytes_of [226; 128; 168]%nat.
Definition para_sep : string := bytes_of [226; 128; 169]%nat.

(** The fuel is the length of the string; every turn consumes a byte. *)
Fixpoint json_chars (fuel : nat) (s : string) : string :=
  match fuel, s with
  | S fuel', String c s' =>
      match rune_size s with
      | O => "\ufffd" +:+ json_chars fuel' s'
      | 1%nat => json_ascii c +:+ json_chars fuel' s'
      | n =>
          let r := String.substring 0 n s in
          (if String.eqb r line_sep then "\u2028"
           else if String.eqb r para_sep then "\u2029" else r)
          +:+ json_chars fuel' (string_drop n s)
      end
  | _, _ => ""
  end.

Definition json_string (s : string) : string :=
  quote +:+ json_chars (String.length s) s +:+ quote.

(** ** Raw messages: [json.RawMessage] is compacted and HTML-escaped *)

(** The escape of a line or paragraph separator. *)
Definition separator_escape (a b c : ascii) : option string :=
  let r := String a (String b (String c "")) in
  if String.eqb r line_sep then Some "\u2028"
  else if String.eqb r para_sep then Some "\u2029" else None.

Fixpoint json_compact (in_str esc : bool) (s : string) : string :=
  let plain (c : ascii) (rest : string) : string :=
    let n := nat_of_ascii c in
    let ws := Nat.eqb n 32 || Nat.eqb n 9 || Nat.eqb n 10 || Nat.eqb n 13 in
    let out :=
      if Nat.eqb n 60 || Nat.eqb n 62 || Nat.eqb n 38 then u_escape n else String c "" in
    if in_str then
      out +:+ json_compact (esc || negb (Nat.eqb n 34)) (negb esc && Nat.eqb n 92) rest
    else if ws then json_compact false false rest
    else out +:+ json_compact (Nat.eqb n 34) false rest
  in
  match s with
  | EmptyString => EmptyString
  | String a rest =>
      match rest with
      | String b (String c rest3) =>
          match separator_escape a b c with
          | Some u => u +:+ json_compact in_str false rest3
          | None => plain a rest
          end
      | _ => plain a rest
      end
  end.

(** ** Objects *)

(** A field with its name and its rendered value; [None] is an omitted one. *)
Definition field := (string * option string)%type.

Fixpoint json_fields (first : bool) (fs : list field) : string :=
  match fs with
  | [] => ""
  | (_, None) :: fs' => json_fields first fs'
  | (k, Some v) :: fs' =>
      (if first then "" else ",") +:+ json_string k +:+ ":" +:+ v +:+ json_fields false fs'
  end.

Definition json_object (fs : list field) : string := "{" +:+ json_fields true fs +:+ "}".

Definition omit_empty_string (s : string) : option string :=
  if String.eqb s "" then None else Some (json_string s).
Definition omit_nil {A} (render : A -> string) (o : option A) : option string :=
  option_map render o.

(** ** Time in RFC 3339 with fractional seconds *)

Definition pad2 (n : Z) : string :=
  let s := bigint_String n in if n <? 10 then "0" +:+ s else s.
Definition pad4 (n : Z) : string :=
  let s := bigint_String n in
  if n <? 10 then "000" +:+ s else if n <? 100 then "00" +:+ s
  else if n <? 1000 then "0" +:+ s else s.

(** Year, month and day of a day count since 1970-01-01. *)
Definition civil (days : Z) : Z * Z * Z :=
  let z := days + 719468 in
  let era := z / 146097 in
  let doe := z mod 146097 in
  let yoe := (doe - doe / 1460 + doe / 36524 - doe / 146096) / 365 in
  let doy := doe - (365 * yoe + yoe / 4 - yoe / 100) in
  let mp := (5 * doy + 2) / 153 in
  let d := doy - (153 * mp + 2) / 5 + 1 in
  let m := if mp <? 10 then mp + 3 else mp - 9 in
  (yoe + era * 400 + (if m <=? 2 then 1 else 0), m, d).

(** Six digits of microseconds, trailing zeros dropped. *)
Fixpoint frac_digits (n : nat) (us unit : Z) : string :=
  match n with
  | O => ""
  | S n' => if us =? 0 then ""
            else bigint_String (us / unit) +:+ frac_digits n' (us mod unit) (unit / 10)
  end.

Definition zone_text (offset : Z) : string :=
  if offset =? 0 then "Z"
  else (if offset <? 0 then "-" else "+") +:+ pad2 (Z.abs offset / 3600) +:+ ":"
       +:+ pad2 (Z.abs offset / 60 mod 60).

(** An instant in microseconds, shown at a zone offset in seconds. *)
Definition rfc3339 (us offset : Z) : string :=
  let secs := us / 10 ^ 6 + offset in
  let frac := us mod 10 ^ 6 in
  let days := secs / 86400 in
  let t := secs mod 86400 in
  let '(y, m, d) := civil days in
  pad4 y +:+ "-" +:+ pad2 m +:+ "-" +:+ pad2 d +:+ "T" +:+
  pad2 (t / 3600) +:+ ":" +:+ pad2 (t / 60 mod 60) +:+ ":" +:+ pad2 (t mod 60) +:+
  (if frac =? 0 then "" else "." +:+ frac_digits 6 frac 100000) +:+ zone_text offset.

(** [t.UTC().Format("2006-01-02T15:04:05.000000Z")] *)
Definition utc_micros (us : Z) : string :=
  let secs := us / 10 ^ 6 in
  let '(y, m, d) := civil (secs / 86400) in
  let t := secs mod 86400 in
  let frac := bigint_String (10 ^ 6 + us mod 10 ^ 6) in
  pad4 y +:+ "-" +:+ pad2 m +:+ "-" +:+ pad2 d +:+ "T" +:+
  pad2 (t / 3600) +:+ ":" +:+ pad2 (t / 60 mod 60) +:+ ":" +:+ pad2 (t mod 60) +:+
  "." +:+ string_drop 1 frac +:+ "Z".

Example utc_micros_zeros : utc_micros 1777930893100000 = "2026-05-04T21:41:33.100000Z".
Proof. vm_compute. reflexivity. Qed.
Example rfc3339_docs : rfc3339 1777930893116945 0 = "2026-05-04T21:41:33.116945Z".
Proof. vm_compute. reflexivity. Qed.
Example rfc3339_zone : rfc3339 1777930893100000 (- 12600) = "2026-05-04T18:11:33.1-03:30".
Proof. vm_compute. reflexivity. Qed.
Example json_escape :
  json_string (String "034"%char ("<a>" +:+ bytes_of [10; 255; 195; 169]%nat)) =
  quote +:+ "\" +:+ quote +:+ "\u003ca\u003e\n\ufffd" +:+ bytes_of [195; 169]%nat +:+ quote.
Proof. vm_compute. reflexivity. Qed.
Example compact_example :
  json_compact false false ("[ {" +:+ quote +:+ "k < 1" +:+ quote +:+ ": [1, 2]}]") =
  "[{" +:+ quote +:+ "k \u003c 1" +:+ quote +:+ ":[1,2]}]".
Proof. vm_compute. reflexivity. Qed.
