(* ===== verification/JsonParse.v ===== *)
(** * The part of [encoding/json] that reads and writes files

    [json.Unmarshal]: Go's grammar check (white space, literals, number syntax,
    escapes, the nesting limit), the decoding of strings (surrogate pairs,
    invalid UTF-8), and the rules that store a value in a struct (exact then
    case-folded field names, unknown fields skipped, null ignored, integer
    ranges, byte slices as base64 or arrays).  [json.MarshalIndent] for the
    values the program writes, with the theorem that parsing undoes it. *)

From Stdlib Require Import ZArith Lia DecimalString DecimalPos DecimalFacts.
From S2P Require Import Prelude GoLib Crypto Json.

Local Open Scope Z_scope.
#[local] Arguments string_drop : simpl never.

(** ** Values *)

#[warnings="-register-all"]
Inductive json :=
| JNull
| JBool (b : bool)
| JNum (lit : string)
| JStr (s : string)
| JArr (l : list json)
| JObj (l : list (string * json)).

(** ** Scanning *)

Definition is_space (c : ascii) : bool :=
  let n := nat_of_ascii c in Nat.eqb n 32 || Nat.eqb n 9 || Nat.eqb n 10 || Nat.eqb n 13.

Fixpoint skip_ws (s : string) : string :=
  match s with
  | String c s' => if is_space c then skip_ws s' else s
  | EmptyString => EmptyString
  end.

Definition is_digit (c : ascii) : bool := in_range 48 57 (nat_of_ascii c).

Fixpoint span_digits (s : string) : string * string :=
  match s with
  | String c s' =>
      if is_digit c then let '(d, r) := span_digits s' in (String c d, r) else ("", s)
  | EmptyString => ("", "")
  end.

(** One or more digits. *)
Definition some_digits (s : string) : option (string * string) :=
  match span_digits s with
  | (EmptyString, _) => None
  | dr => Some dr
  end.

Definition starts (p : ascii -> bool) (s : string) : bool :=
  match s with String c _ => p c | EmptyString => false end.

(** The integer part: a zero, or digits that do not start with one. *)
Definition parse_int_part (s : string) : option (string * string) :=
  if starts (Ascii.eqb "0") s then Some ("0", string_drop 1 s) else some_digits s.

Definition parse_frac (s : string) : option (string * string) :=
  if starts (Ascii.eqb ".") s then
    match some_digits (string_drop 1 s) with
    | Some (d, r) => Some ("." +:+ d, r)
    | None => None
    end
  else Some ("", s).

Definition is_exp (c : ascii) : bool := Ascii.eqb c "e" || Ascii.eqb c "E".
Definition is_sign (c : ascii) : bool := Ascii.eqb c "+" || Ascii.eqb c "-".

(** [n] leading bytes. *)
Definition string_take (n : nat) (s : string) : string := String.substring 0 n s.

Definition parse_exp (s : string) : option (string * string) :=
  if starts is_exp s then
    let n := if starts is_sign (string_drop 1 s) then 2%nat else 1%nat in
    match some_digits (string_drop n s) with
    | Some (d, r) => Some (string_take n s +:+ d, r)
    | None => None
    end
  else Some ("", s).

Definition parse_number (s : string) : option (string * string) :=
  let neg := starts (Ascii.eqb "-") s in
  match parse_int_part (if neg then string_drop 1 s else s) with
  | Some (i, r) =>
      match parse_frac r with
      | Some (f, r) =>
          match parse_exp r with
          | Some (e, r) => Some ((if neg then "-" else "") +:+ i +:+ f +:+ e, r)
          | None => None
          end
      | None => None
      end
  | None => None
  end.

(** ** Strings *)

Definition simple_escape (c : ascii) : option nat :=
  let n := nat_of_ascii c in
  if Nat.eqb n 34 || Nat.eqb n 92 || Nat.eqb n 47 then Some n
  else if Nat.eqb n 98 then Some 8%nat
  else if Nat.eqb n 102 then Some 12%nat
  else if Nat.eqb n 110 then Some 10%nat
  else if Nat.eqb n 114 then Some 13%nat
  else if Nat.eqb n 116 then Some 9%nat
  else None.

(** Four hexadecimal digits. *)
Definition hex4 (s : string) : option (Z * string) :=
  match s with
  | String a (String b (String c (String d r))) =>
      match from_hex_char a, from_hex_char b, from_hex_char c, from_hex_char d with
      | Some a, Some b, Some c, Some d =>
          Some (Z.of_nat (((a * 16 + b) * 16 + c) * 16 + d), r)
      | _, _, _, _ => None
      end
  | _ => None
  end.

(** [utf8.EncodeRune]; surrogates become U+FFFD. *)
Definition utf8_encode (r : Z) : string :=
  let out l := string_of_bytes l in
  if r <? 128 then out [r]
  else if r <? 2048 then out [192 + r / 64; 128 + r mod 64]
  else if (55296 <=? r) && (r <? 57344) then out [239; 191; 189]
  else if r <? 65536 then out [224 + r / 4096; 128 + r / 64 mod 64; 128 + r mod 64]
  else out [240 + r / 262144; 128 + r / 4096 mod 64; 128 + r / 64 mod 64; 128 + r mod 64].

(** [utf16.DecodeRune], for a high surrogate [r1] followed by a low one. *)
Definition utf16_pair (r1 r2 : Z) : option Z :=
  if (55296 <=? r1) && (r1 <? 56320) && (56320 <=? r2) && (r2 <? 57344)
  then Some ((r1 - 55296) * 1024 + (r2 - 56320) + 65536) else None.

Definition u_prefix (s : string) : bool := String.prefix "\u" s.

(** The text after a backslash and u: the rune, and what follows; a surrogate
    takes the next escape with it if the two make a pair. *)
Definition parse_u (s : string) : option (string * string) :=
  match hex4 s with
  | Some (r1, rest) =>
      match (if u_prefix rest then hex4 (string_drop 2 rest) else None) with
      | Some (r2, rest2) =>
          match utf16_pair r1 r2 with
          | Some r => Some (utf8_encode r, rest2)
          | None => Some (utf8_encode r1, rest)
          end
      | None => Some (utf8_encode r1, rest)
      end
  | None => None
  end.

Definition prepend (a : string) (o : option (string * string)) : option (string * string) :=
  match o with Some (b, r) => Some (a +:+ b, r) | None => None end.

(** The characters of a string literal after its opening quote, decoded; every
    turn consumes a byte. *)
Fixpoint parse_chars (fuel : nat) (s : string) : option (string * string) :=
  match fuel, s with
  | S fuel', String c s' =>
      let n := nat_of_ascii c in
      if Nat.eqb n 34 then Some ("", s')
      else if Nat.eqb n 92 then
        match s' with
        | String e s'' =>
            match simple_escape e with
            | Some m => prepend (String (ascii_of_nat m) "") (parse_chars fuel' s'')
            | None =>
                if Ascii.eqb e "u" then
                  match parse_u s'' with
                  | Some (r, rest) => prepend r (parse_chars fuel' rest)
                  | None => None
                  end
                else None
            end
        | EmptyString => None
        end
      else if Nat.ltb n 32 then None
      else
        match rune_size s with
        | O => prepend (utf8_encode 65533) (parse_chars fuel' s')
        | m => prepend (string_take m s) (parse_chars fuel' (string_drop m s))
        end
  | _, _ => None
  end.

Definition parse_string (s : string) : option (string * string) :=
  if starts (Ascii.eqb "034") s then parse_chars (String.length s) (string_drop 1 s) else None.

(** ** Values *)

Definition maxNestingDepth : Z := 10000.

(** A literal word. *)
Definition word_lit (w : string) (j : json) (s : string) : option (json * string) :=
  if String.prefix w s then Some (j, string_drop (String.length w) s) else None.

(** Objects and arrays recurse on their members; at least every second call
    consumes a byte, so that twice the length of the text is enough fuel. *)
Fixpoint parse_value (fuel : nat) (depth : Z) (text : string) : option (json * string) :=
  match fuel, skip_ws text with
  | S f, String c r =>
      let s := String c r in
      if Ascii.eqb c "{" then
        if maxNestingDepth <? depth + 1 then None
        else if starts (Ascii.eqb "}") (skip_ws r) then Some (JObj [], string_drop 1 (skip_ws r))
        else match parse_members f (depth + 1) r with
             | Some (l, r') => Some (JObj l, r')
             | None => None
             end
      else if Ascii.eqb c "[" then
        if maxNestingDepth <? depth + 1 then None
        else if starts (Ascii.eqb "]") (skip_ws r) then Some (JArr [], string_drop 1 (skip_ws r))
        else match parse_elements f (depth + 1) r with
             | Some (l, r') => Some (JArr l, r')
             | None => None
             end
      else if Ascii.eqb c "034" then
        match parse_string s with Some (x, r') => Some (JStr x, r') | None => None end
      else if Ascii.eqb c "n" then word_lit "null" JNull s
      else if Ascii.eqb c "t" then word_lit "true" (JBool true) s
      else if Ascii.eqb c "f" then word_lit "false" (JBool false) s
      else match parse_number s with Some (n, r') => Some (JNum n, r') | None => None end
  | _, _ => None
  end
with parse_members (fuel : nat) (depth : Z) (text : string) : option (list (string * json) * string) :=
  match fuel with
  | O => None
  | S f =>
      match parse_string (skip_ws text) with
      | None => None
      | Some (k, r) =>
          if negb (starts (Ascii.eqb ":") (skip_ws r)) then None
          else match parse_value f depth (string_drop 1 (skip_ws r)) with
               | None => None
               | Some (v, r) =>
                   if starts (Ascii.eqb "}") (skip_ws r)
                   then Some ([(k, v)], string_drop 1 (skip_ws r))
                   else if starts (Ascii.eqb ",") (skip_ws r) then
                     match parse_members f depth (string_drop 1 (skip_ws r)) with
                     | Some (l, r') => Some ((k, v) :: l, r')
                     | None => None
                     end
                   else None
               end
      end
  end
with parse_elements (fuel : nat) (depth : Z) (text : string) : option (list json * string) :=
  match fuel with
  | O => None
  | S f =>
      match parse_value f depth text with
      | None => None
      | Some (v, r) =>
          if starts (Ascii.eqb "]") (skip_ws r) then Some ([v], string_drop 1 (skip_ws r))
          else if starts (Ascii.eqb ",") (skip_ws r) then
            match parse_elements f depth (string_drop 1 (skip_ws r)) with
            | Some (l, r') => Some (v :: l, r')
            | None => None
            end
          else None
      end
  end.

(** The whole text is one value. *)
Definition parse_json (s : string) : option json :=
  match parse_value (S (2 * String.length s)) 0 s with
  | Some (j, r) => if String.eqb (skip_ws r) "" then Some j else None
  | None => None
  end.

(** ** Storing a value in a Go variable

    [None] is an error of [Unmarshal], which then returns it at the end; what
    was stored before is of no interest to a caller that returns the error. *)

Definition decoder (A : Type) := json -> A -> option A.

Definition decode_string : decoder string := fun j old =>
  match j with JNull => Some old | JStr s => Some s | _ => None end.

Definition decode_uint (bits : Z) : decoder Z := fun j old =>
  match j with
  | JNull => Some old
  | JNum lit =>
      match parse_digits lit with
      | Some z => if z <? 2 ^ bits then Some z else None
      | None => None
      end
  | _ => None
  end.

Definition decode_int : decoder Z := fun j old =>
  match j with
  | JNull => Some old
  | JNum lit =>
      match SetString10 lit with
      | Some z => if (- 2 ^ 63 <=? z) && (z <? 2 ^ 63) then Some z else None
      | None => None
      end
  | _ => None
  end.

(** The elements of an array, over those of the slice that was there. *)
Fixpoint decode_elements (l : list json) (old : list Z) : option (list Z) :=
  match l with
  | [] => Some []
  | j :: l' =>
      match decode_uint 8 j (hd 0 old), decode_elements l' (tl old) with
      | Some b, Some bs => Some (b :: bs)
      | _, _ => None
      end
  end.

Definition decode_bytes : decoder string := fun j old =>
  match j with
  | JNull => Some ""
  | JStr s => StdDecode s
  | JArr l => option_map string_of_bytes (decode_elements l (bytes old))
  | _ => None
  end.

(** The simple case folding of a name that is to match ASCII letters: the long
    s (U+017F) and the kelvin sign (U+212A) fold to S and K, and no other
    character outside ASCII folds into it. *)
Fixpoint fold_name (s : string) : string :=
  match s with
  | EmptyString => EmptyString
  | String a s1 =>
      match s1 with
      | String b s2 =>
          if Nat.eqb (nat_of_ascii a) 197 && Nat.eqb (nat_of_ascii b) 191
          then String "S" (fold_name s2)
          else match s2 with
               | String c s3 =>
                   if Nat.eqb (nat_of_ascii a) 226 && Nat.eqb (nat_of_ascii b) 132 &&
                      Nat.eqb (nat_of_ascii c) 170
                   then String "K" (fold_name s3)
                   else String (upper_ascii a) (fold_name s1)
               | EmptyString => String (upper_ascii a) (fold_name s1)
               end
      | EmptyString => String (upper_ascii a) EmptyString
      end
  end.

Definition find_field {A} (fields : list (string * decoder A)) (k : string) : option (decoder A) :=
  match List.find (fun f => String.eqb f.1 k) fields with
  | Some f => Some f.2
  | None =>
      option_map snd (List.find (fun f => String.eqb (fold_name f.1) (fold_name k)) fields)
  end.

Definition decode_member {A} (fields : list (string * decoder A)) (o : option A) (m : string * json)
    : option A :=
  match o, find_field fields m.1 with
  | Some a, Some dec => dec m.2 a
  | _, _ => o
  end.

Definition decode_struct {A} (fields : list (string * decoder A)) : decoder A := fun j old =>
  match j with
  | JNull => Some old
  | JObj l => fold_left (decode_member fields) l (Some old)
  | _ => None
  end.

(** A field of a struct. *)
Definition at_field {A F} (get : A -> F) (set : F -> A -> A) (dec : decoder F) : decoder A :=
  fun j a => option_map (fun f => set f a) (dec j (get a)).

(** [json.Unmarshal(data, &v)] with [v] initially [zero] *)
Definition Unmarshal {A} (dec : decoder A) (zero : A) (data : string) : result A :=
  match parse_json data with
  | None => Err (EText "invalid character in JSON text or unexpected end of JSON input")
  | Some j =>
      match dec j zero with
      | Some a => Ok a
      | None => Err (EText "json: cannot unmarshal value into Go value")
      end
  end.

(** ** [json.MarshalIndent(v, "", "  ")] *)

(** A line break and the indentation of a level. *)
Definition newline (d : nat) : string := String "010"%char (string_of_bytes (replicate (2 * d) 32)).

(** The members of an object or array, one per line. *)
Definition indent_list {A} (render : A -> string) (d : nat) : list A -> string :=
  fix go (l : list A) : string :=
    match l with
    | [] => ""
    | x :: l' => newline d +:+ render x +:+ match l' with [] => "" | _ => "," +:+ go l' end
    end.

Fixpoint indent_value (d : nat) (j : json) : string :=
  match j with
  | JNull => "null"
  | JBool b => if b then "true" else "false"
  | JNum lit => lit
  | JStr s => json_string s
  | JArr [] => "[]"
  | JArr l => "[" +:+ indent_list (fun x => indent_value (S d) x) (S d) l +:+ newline d +:+ "]"
  | JObj [] => "{}"
  | JObj l =>
      "{" +:+ indent_list (fun m => json_string m.1 +:+ ": " +:+ indent_value (S d) m.2) (S d) l
      +:+ newline d +:+ "}"
  end.

(** ** The parser consumes its text, and its fuel is enough *)

Lemma skip_ws_length s : (String.length (skip_ws s) <= String.length s)%nat.
Proof. induction s as [|c s IH]; simpl; [done|]. destruct (is_space c); simpl; lia. Qed.

Lemma string_drop_length n s : String.length (string_drop n s) = (String.length s - n)%nat.
Proof.
  revert s. induction n as [|n IH]; intros [|c s]; simpl; [done..|]. apply IH.
Qed.

Lemma starts_nonempty p s : starts p s = true -> (0 < String.length s)%nat.
Proof. destruct s; simpl; [done|lia]. Qed.

(** A scanner that leaves a shorter rest. *)
Definition consumes {A} (r : option (A * string)) (s : string) : Prop :=
  forall x rest, r = Some (x, rest) -> (String.length rest < String.length s)%nat.

Lemma span_digits_length s d r :
  span_digits s = (d, r) -> (String.length d + String.length r)%nat = String.length s.
Proof.
  revert d r. induction s as [|c s IH]; simpl; intros d r; [by intros [= <- <-]|].
  destruct (is_digit c); [|by intros [= <- <-]].
  destruct (span_digits s) as [d' r'] eqn:E. intros [= <- <-]. simpl. specialize (IH _ _ eq_refl). lia.
Qed.

Lemma some_digits_consumes s : consumes (some_digits s) s.
Proof.
  intros d r. unfold some_digits. destruct (span_digits s) as [d' r'] eqn:E.
  apply span_digits_length in E. destruct d'; [done|]. intros [= <- <-]. simpl in E. lia.
Qed.

Lemma parse_number_consumes s : consumes (parse_number s) s.
Proof.
  intros n rest. unfold parse_number.
  set (s1 := if starts _ s then _ else s).
  assert (String.length s1 <= String.length s)%nat as H1.
  { unfold s1. destruct (starts _ s); rewrite ?string_drop_length; lia. }
  destruct (parse_int_part s1) as [[i r1]|] eqn:Ei; [|done].
  assert (String.length r1 < String.length s1)%nat as H2.
  { unfold parse_int_part in Ei. destruct (starts _ s1) eqn:Es.
    - injection Ei as _ Er. subst r1. apply starts_nonempty in Es.
      rewrite string_drop_length. lia.
    - by eapply some_digits_consumes. }
  destruct (parse_frac r1) as [[f r2]|] eqn:Ef; [|done].
  assert (String.length r2 <= String.length r1)%nat as H3.
  { unfold parse_frac in Ef. destruct (starts _ r1); [|by injection Ef as _ <-].
    destruct (some_digits _) as [[d r]|] eqn:Ed; [|done]. injection Ef as _ <-.
    apply some_digits_consumes in Ed. rewrite string_drop_length in Ed. lia. }
  destruct (parse_exp r2) as [[e r3]|] eqn:Ee; [|done]. intros [= _ <-].
  assert (String.length r3 <= String.length r2)%nat; [|lia].
  unfold parse_exp in Ee. destruct (starts is_exp r2); [|by injection Ee as _ <-].
  destruct (some_digits _) as [[d r]|] eqn:Ed; [|done]. injection Ee as _ <-.
  apply some_digits_consumes in Ed. rewrite string_drop_length in Ed. lia.
Qed.

Lemma hex4_consumes s : consumes (hex4 s) s.
Proof.
  intros r rest H. destruct s as [|a [|b [|c [|d s]]]]; try done. simpl in H.
  repeat case_match; simplify_eq. simpl. lia.
Qed.

Lemma parse_u_consumes s : consumes (parse_u s) s.
Proof.
  intros x rest. unfold parse_u. destruct (hex4 s) as [[r1 rest1]|] eqn:E1; [|done].
  apply hex4_consumes in E1. destruct (u_prefix rest1); [|by intros [= _ <-]].
  destruct (hex4 (string_drop 2 rest1)) as [[r2 rest2]|] eqn:E2; [|by intros [= _ <-]].
  apply hex4_consumes in E2. rewrite string_drop_length in E2.
  destruct (utf16_pair r1 r2); intros [= _ <-]; lia.
Qed.

Lemma prepend_Some a o x rest :
  prepend a o = Some (x, rest) -> exists y, o = Some (y, rest) /\ x = a +:+ y.
Proof. destruct o as [[y r]|]; simpl; [|done]. intros [= <- <-]. eauto. Qed.

Lemma parse_chars_consumes f s : consumes (parse_chars f s) s.
Proof.
  revert s. induction f as [|f IH]; intros s x rest H; [done|]. destruct s as [|c s]; [done|].
  cbn [parse_chars] in H. destruct (Nat.eqb _ 34); [by injection H as _ <-; simpl; lia|].
  destruct (Nat.eqb _ 92).
  - destruct s as [|e s]; [done|]. destruct (simple_escape e).
    + apply prepend_Some in H as (y & H & _). apply IH in H. simpl in *. lia.
    + destruct (Ascii.eqb e "u"); [|done]. destruct (parse_u s) as [[r rest']|] eqn:E; [|done].
      apply parse_u_consumes in E. apply prepend_Some in H as (y & H & _). apply IH in H.
      simpl. lia.
  - destruct (Nat.ltb _ 32); [done|]. destruct (rune_size _) as [|m].
    + apply prepend_Some in H as (y & H & _). apply IH in H. simpl. lia.
    + apply prepend_Some in H as (y & H & _). apply IH in H.
      rewrite string_drop_length in H. lia.
Qed.

Lemma parse_string_consumes s : consumes (parse_string s) s.
Proof.
  intros x rest. unfold parse_string. destruct (starts _ s); [|done]. intros H.
  apply parse_chars_consumes in H. rewrite string_drop_length in H. lia.
Qed.

Lemma word_lit_consumes w j s : w <> "" -> consumes (word_lit w j s) s.
Proof.
  intros Hw x rest. unfold word_lit. destruct (String.prefix w s) eqn:E; [|done].
  intros [= _ <-]. rewrite string_drop_length. destruct w as [|c w]; [done|].
  destruct s as [|a s]; [done|]. simpl. lia.
Qed.

Definition parsers_consume (f : nat) : Prop :=
  forall d s, consumes (parse_value f d s) s /\ consumes (parse_members f d s) s /\
    consumes (parse_elements f d s) s.

(** The rest after a delimiter is shorter still. *)
Lemma delim_length p s r :
  starts p (skip_ws s) = true -> (String.length s <= r)%nat ->
  (String.length (string_drop 1 (skip_ws s)) < r)%nat.
Proof.
  intros H1%starts_nonempty H2. pose proof (skip_ws_length s). rewrite string_drop_length. lia.
Qed.

Lemma parse_members_consumes f d s :
  parsers_consume f -> consumes (parse_members (S f) d s) s.
Proof.
  intros IH x rest H. cbn [parse_members] in H. pose proof (skip_ws_length s) as Hs.
  destruct (parse_string (skip_ws s)) as [[k r]|] eqn:Ek; [|done]. apply parse_string_consumes in Ek.
  destruct (starts (Ascii.eqb ":") (skip_ws r)) eqn:Ec; [|done]. cbn [negb] in H.
  apply (delim_length _ _ (String.length r)) in Ec; [|done].
  destruct (parse_value f d _) as [[v r2]|] eqn:Ev; [|done]. apply IH in Ev.
  destruct (starts (Ascii.eqb "}") _) eqn:E1.
  { apply (delim_length _ _ (String.length r2)) in E1; [|done]. injection H as _ <-. lia. }
  destruct (starts (Ascii.eqb ",") _) eqn:E2; [|done].
  apply (delim_length _ _ (String.length r2)) in E2; [|done].
  destruct (parse_members f d _) as [[l r3]|] eqn:El; [|done]. apply IH in El.
  injection H as _ <-. lia.
Qed.

Lemma parse_elements_consumes f d s :
  parsers_consume f -> consumes (parse_elements (S f) d s) s.
Proof.
  intros IH x rest H. cbn [parse_elements] in H.
  destruct (parse_value f d _) as [[v r2]|] eqn:Ev; [|done]. apply IH in Ev.
  destruct (starts (Ascii.eqb "]") _) eqn:E1.
  { apply (delim_length _ _ (String.length r2)) in E1; [|done]. injection H as _ <-. lia. }
  destruct (starts (Ascii.eqb ",") _) eqn:E2; [|done].
  apply (delim_length _ _ (String.length r2)) in E2; [|done].
  destruct (parse_elements f d _) as [[l r3]|] eqn:El; [|done]. apply IH in El.
  injection H as _ <-. lia.
Qed.

Lemma parse_value_consumes f d s :
  parsers_consume f -> consumes (parse_value (S f) d s) s.
Proof.
  intros IH x rest H. cbn [parse_value] in H. pose proof (skip_ws_length s) as Hs.
  destruct (skip_ws s) as [|c r] eqn:Er; [done|]. cbn [String.length] in Hs.
  destruct (Ascii.eqb c "{").
  { destruct (_ <? _); [done|]. destruct (starts _ _) eqn:E1.
    - apply (delim_length _ _ (String.length r)) in E1; [|done]. injection H as _ <-. lia.
    - destruct (parse_members f _ r) as [[l r3]|] eqn:El; [|done]. apply IH in El.
      injection H as _ <-. lia. }
  destruct (Ascii.eqb c "[").
  { destruct (_ <? _); [done|]. destruct (starts _ _) eqn:E1.
    - apply (delim_length _ _ (String.length r)) in E1; [|done]. injection H as _ <-. lia.
    - destruct (parse_elements f _ r) as [[l r3]|] eqn:El; [|done]. apply IH in El.
      injection H as _ <-. lia. }
  assert (String.length rest < S (String.length r))%nat; [|lia].
  change (S (String.length r)) with (String.length (String c r)).
  repeat (match type of H with (if ?b then _ else _) = _ => destruct b end;
    [try (by eapply word_lit_consumes in H)|]).
  - destruct (parse_string _) as [[y r']|] eqn:E; [|done]. injection H as _ <-.
    by eapply parse_string_consumes.
  - destruct (parse_number _) as [[y r']|] eqn:E; [|done]. injection H as _ <-.
    by eapply parse_number_consumes.
Qed.

Lemma parsers_consume_all f : parsers_consume f.
Proof.
  induction f as [|f IH]; intros d s; [by split_and!; intros x rest|].
  split_and!; [by apply parse_value_consumes|by apply parse_members_consumes|
    by apply parse_elements_consumes].
Qed.

(** More fuel than the text needs changes nothing. *)
Lemma parsers_fuel f :
  forall f' d s, (2 * String.length s < f)%nat -> (2 * String.length s < f')%nat ->
  parse_value f d s = parse_value f' d s /\ parse_members f d s = parse_members f' d s /\
  ((2 * String.length s + 1 < f)%nat -> (2 * String.length s + 1 < f')%nat ->
   parse_elements f d s = parse_elements f' d s).
Proof.
  induction f as [|f IH]; intros [|f'] d s Hf Hf'; [lia..|].
  pose proof (skip_ws_length s) as Hs. split_and!.
  - cbn [parse_value]. destruct (skip_ws s) as [|c r]; [done|]. cbn [String.length] in Hs.
    destruct (IH f' (d + 1) r) as (_ & -> & He); [lia..|]. by rewrite He by lia.
  - cbn [parse_members]. destruct (parse_string (skip_ws s)) as [[k r]|] eqn:Ek; [|done].
    apply parse_string_consumes in Ek. destruct (starts (Ascii.eqb ":") _) eqn:Ec; [|done].
    apply (delim_length _ _ (String.length r)) in Ec; [|done]. cbn [negb].
    destruct (IH f' d (string_drop 1 (skip_ws r))) as (-> & _ & _); [lia..|].
    destruct (parse_value f' d _) as [[v r2]|] eqn:Ev; [|done]. apply parsers_consume_all in Ev.
    destruct (starts (Ascii.eqb "}") _); [done|]. destruct (starts (Ascii.eqb ",") _) eqn:E2; [|done].
    apply (delim_length _ _ (String.length r2)) in E2; [|done].
    destruct (IH f' d (string_drop 1 (skip_ws r2))) as (_ & -> & _); [lia..|done].
  - intros He He'. cbn [parse_elements]. destruct (IH f' d s) as (-> & _ & _); [lia..|].
    destruct (parse_value f' d s) as [[v r2]|] eqn:Ev; [|done]. apply parsers_consume_all in Ev.
    destruct (starts (Ascii.eqb "]") _); [done|]. destruct (starts (Ascii.eqb ",") _) eqn:E2; [|done].
    apply (delim_length _ _ (String.length r2)) in E2; [|done].
    destruct (IH f' d (string_drop 1 (skip_ws r2))) as (_ & _ & Hr); [lia..|].
    by rewrite Hr by lia.
Qed.

(** ** Parsing undoes printing *)

(** Characters that stand for themselves in a JSON string. *)
Definition plain_char (c : ascii) : bool :=
  String.eqb (json_ascii c) (String c "") && Nat.ltb (nat_of_ascii c) 128.
Definition plain (s : string) : bool := all_chars plain_char s.

Lemma plain_char_inv c :
  plain_char c = true ->
  json_ascii c = String c "" /\ nat_of_ascii c <> 34%nat /\ nat_of_ascii c <> 92%nat /\
  (32 <= nat_of_ascii c < 128)%nat.
Proof.
  unfold plain_char. intros [H1%String.eqb_eq H2%Nat.ltb_lt]%andb_true_iff. split; [done|].
  revert H1 H2. destruct c as [[] [] [] [] [] [] [] []]; vm_compute; intros H1 H2;
    try discriminate; lia.
Qed.

Lemma rune_size_ascii c s : (nat_of_ascii c < 128)%nat -> rune_size (String c s) = 1%nat.
Proof. intros H. unfold rune_size. simpl. apply Nat.ltb_lt in H. by rewrite H. Qed.

Lemma json_chars_plain s : plain s = true -> json_chars (String.length s) s = s.
Proof.
  induction s as [|c s IH]; [done|]. unfold plain. cbn [all_chars].
  intros [(Hj & _ & _ & Hc)%plain_char_inv Hs]%andb_true_iff. cbn [String.length json_chars].
  rewrite rune_size_ascii by lia. by rewrite Hj, sapp_cons, IH.
Qed.

Lemma parse_chars_plain f s rest :
  plain s = true -> (String.length s < f)%nat ->
  parse_chars f (s +:+ quote +:+ rest) = Some (s, rest).
Proof.
  revert f. induction s as [|c s IH]; intros [|f] Hp Hf; cbn [String.length] in Hf; [lia| |lia|].
  { reflexivity. }
  unfold plain in Hp. cbn [all_chars] in Hp.
  apply andb_true_iff in Hp as [(_ & H1 & H2 & H3)%plain_char_inv Hs].
  rewrite sapp_cons. cbn [parse_chars].
  rewrite (proj2 (Nat.eqb_neq _ _) H1), (proj2 (Nat.eqb_neq _ _) H2).
  destruct (Nat.ltb_spec (nat_of_ascii c) 32); [lia|]. rewrite rune_size_ascii by lia.
  change (string_drop 1 (String c (s +:+ quote +:+ rest))) with (s +:+ quote +:+ rest).
  rewrite IH by (done || lia). simpl. by destruct s.
Qed.

Lemma json_string_plain s : plain s = true -> json_string s = quote +:+ s +:+ quote.
Proof. intros H. unfold json_string. by rewrite json_chars_plain. Qed.

Lemma parse_string_plain s rest :
  plain s = true -> parse_string (json_string s +:+ rest) = Some (s, rest).
Proof.
  intros H. rewrite json_string_plain by done. unfold parse_string, quote.
  rewrite !sapp_cons. cbn [starts]. change (Ascii.eqb "034" "034") with true. cbv iota.
  change ("" +:+ s +:+ String "034" "") with (s +:+ quote). rewrite sapp_assoc.
  change (string_drop 1 (String "034" (s +:+ quote +:+ rest))) with (s +:+ quote +:+ rest).
  apply parse_chars_plain; [done|]. cbn [String.length]. rewrite sapp_length. lia.
Qed.

(** Unsigned decimal numbers without leading zeros. *)
Definition plain_num (lit : string) : bool :=
  all_chars is_digit lit && starts is_digit lit &&
  (String.eqb lit "0" || negb (starts (Ascii.eqb "0") lit)).

(** What cannot follow a number: the text that continues it. *)
Definition num_stop (s : string) : bool :=
  negb (starts (fun c => is_digit c || Ascii.eqb c "." || is_exp c) s).

Lemma span_digits_app d rest :
  all_chars is_digit d = true -> starts is_digit rest = false ->
  span_digits (d +:+ rest) = (d, rest).
Proof.
  intros Hd Hr. induction d as [|c d IH].
  - destruct rest as [|c rest]; [done|]. cbn [starts] in Hr.
    change ("" +:+ String c rest) with (String c rest). cbn [span_digits]. by rewrite Hr.
  - cbn [all_chars] in Hd. apply andb_true_iff in Hd as [Hc Hd]. rewrite sapp_cons.
    cbn [span_digits]. by rewrite Hc, IH.
Qed.

Lemma starts_app p a b : a <> "" -> starts p (a +:+ b) = starts p a.
Proof. by destruct a. Qed.

Lemma parse_number_plain lit rest :
  plain_num lit = true -> num_stop rest = true ->
  parse_number (lit +:+ rest) = Some (lit, rest).
Proof.
  unfold plain_num, num_stop. intros [[Hd Hs]%andb_true_iff Hz]%andb_true_iff Hr.
  apply negb_true_iff in Hr.
  assert (starts is_digit rest = false /\ starts (Ascii.eqb ".") rest = false /\
    starts is_exp rest = false) as (R1 & R2 & R3).
  { destruct rest as [|c rest]; [done|]. cbn [starts] in *. apply orb_false_iff in Hr as [Hr ?].
    apply orb_false_iff in Hr as [? Hdot]. rewrite Ascii.eqb_sym in Hdot. done. }
  assert (lit <> "") as Hne by by intros ->.
  unfold parse_number. rewrite starts_app by done.
  replace (starts (Ascii.eqb "-") lit) with false.
  2:{ destruct lit as [|c lit]; [done|]. cbn [starts] in *. symmetry. apply Ascii.eqb_neq.
      intros <-. discriminate. }
  assert (parse_int_part (lit +:+ rest) = Some (lit, rest)) as ->.
  { unfold parse_int_part. rewrite starts_app by done. apply orb_true_iff in Hz as [Hz|Hz].
    - apply String.eqb_eq in Hz as ->. reflexivity.
    - apply negb_true_iff in Hz. rewrite Hz. unfold some_digits. rewrite span_digits_app by done.
      by destruct lit. }
  unfold parse_frac, parse_exp. rewrite R2, R3. by rewrite sapp_nil_r.
Qed.

(** Values that are printed without escapes, with at most [n] levels. *)
Fixpoint printable (n : nat) (j : json) : Prop :=
  match j with
  | JNull | JBool _ => True
  | JNum lit => plain_num lit = true
  | JStr s => plain s = true
  | JArr l => match n with O => False | S n' => Forall (printable n') l end
  | JObj l =>
      match n with O => False | S n' => Forall (fun m => plain m.1 = true /\ printable n' m.2) l end
  end.

Lemma parse_value_ws f d s t : skip_ws s = skip_ws t -> parse_value f d s = parse_value f d t.
Proof. intros E. destruct f; [done|]. cbn [parse_value]. by rewrite E. Qed.

Lemma skip_newline d s : skip_ws (newline d +:+ s) = skip_ws s.
Proof.
  unfold newline. rewrite sapp_cons. cbn. generalize (d + (d + 0))%nat. intros n.
  induction n as [|n IH]; [done|]. cbn [replicate string_of_bytes]. rewrite sapp_cons. exact IH.
Qed.

Definition prints_back (n : nat) : Prop :=
  forall j d dep rest f, printable n j -> dep + Z.of_nat n <= maxNestingDepth ->
  num_stop rest = true -> (2 * String.length (indent_value d j) < f)%nat ->
  parse_value f dep (indent_value d j +:+ rest) = Some (j, rest).

Definition indent_member (d : nat) (m : string * json) : string :=
  json_string m.1 +:+ ": " +:+ indent_value d m.2.

Lemma json_string_head s rest :
  plain s = true -> skip_ws (json_string s +:+ rest) = json_string s +:+ rest.
Proof. intros H. by rewrite json_string_plain. Qed.

Lemma newline_length d : (0 < String.length (newline d))%nat.
Proof. unfold newline. simpl. lia. Qed.

(** What separates the parts of an array or object, after skipping. *)
Lemma comma_tail rest :
  skip_ws ("," +:+ rest) = "," +:+ rest /\ string_drop 1 ("," +:+ rest) = rest /\
  starts (Ascii.eqb "}") ("," +:+ rest) = false /\ starts (Ascii.eqb "]") ("," +:+ rest) = false /\
  starts (Ascii.eqb ",") ("," +:+ rest) = true.
Proof. done. Qed.

Lemma members_back n d dep rest l f :
  prints_back n -> l <> [] -> Forall (fun m => plain m.1 = true /\ printable n m.2) l ->
  dep + Z.of_nat n <= maxNestingDepth ->
  (2 * String.length (indent_list (indent_member (S d)) (S d) l) < f)%nat ->
  parse_members f dep (indent_list (indent_member (S d)) (S d) l +:+ newline d +:+ "}" +:+ rest)
    = Some (l, rest).
Proof.
  intros IH Hne Hl Hdep. revert f Hne. induction Hl as [|[k v] l [Hk Hv] Hl IHl]; intros f Hne Hf; [done|].
  destruct f as [|f]; [lia|].
  change (indent_list (indent_member (S d)) (S d) ((k, v) :: l)) with
    (newline (S d) +:+ indent_member (S d) (k, v) +:+
     match l with [] => "" | _ => "," +:+ indent_list (indent_member (S d)) (S d) l end) in *.
  set (more := match l with [] => "" | _ => _ end) in *.
  unfold indent_member in Hf |- * at 1. cbn [fst snd] in *.
  rewrite !sapp_length in Hf. cbn [String.length] in Hf.
  rewrite !sapp_assoc. cbn [parse_members]. rewrite skip_newline, json_string_head by done.
  rewrite parse_string_plain by done.
  match goal with |- context [starts (Ascii.eqb ":") (skip_ws (": " +:+ ?t))] => set (tail := t) end.
  change (skip_ws (": " +:+ tail)) with (": " +:+ tail).
  change (string_drop 1 (": " +:+ tail)) with (" " +:+ tail).
  change (starts (Ascii.eqb ":") (": " +:+ tail)) with true. cbn [negb].
  rewrite (parse_value_ws f dep (" " +:+ tail) tail) by done. unfold tail.
  rewrite IH; [|done|done| |lia].
  2:{ unfold more. by destruct l. }
  unfold more. destruct l as [|m l].
  - change ("" +:+ newline d +:+ "}" +:+ rest) with (newline d +:+ "}" +:+ rest).
    rewrite skip_newline. reflexivity.
  - rewrite !sapp_assoc.
    match goal with |- context [skip_ws ("," +:+ ?t)] =>
      destruct (comma_tail t) as (-> & -> & -> & _ & ->) end.
    rewrite IHl; [done|done|]. pose proof (newline_length (S d)).
    unfold more in Hf. rewrite sapp_length in Hf. lia.
Qed.

Lemma elements_back n d dep rest l f :
  prints_back n -> l <> [] -> Forall (printable n) l ->
  dep + Z.of_nat n <= maxNestingDepth ->
  (2 * String.length (indent_list (indent_value (S d)) (S d) l) < f)%nat ->
  parse_elements f dep (indent_list (indent_value (S d)) (S d) l +:+ newline d +:+ "]" +:+ rest)
    = Some (l, rest).
Proof.
  intros IH Hne Hl Hdep. revert f Hne. induction Hl as [|v l Hv Hl IHl]; intros f Hne Hf; [done|].
  destruct f as [|f]; [lia|].
  change (indent_list (indent_value (S d)) (S d) (v :: l)) with
    (newline (S d) +:+ indent_value (S d) v +:+
     match l with [] => "" | _ => "," +:+ indent_list (indent_value (S d)) (S d) l end) in *.
  set (more := match l with [] => "" | _ => _ end) in *.
  rewrite !sapp_length in Hf. pose proof (newline_length (S d)) as Hnl.
  rewrite !sapp_assoc. cbn [parse_elements].
  rewrite (parse_value_ws f dep _ _ (skip_newline _ _)).
  rewrite IH; [|done|done| |lia].
  2:{ unfold more. by destruct l. }
  unfold more. destruct l as [|m l].
  - change ("" +:+ newline d +:+ "]" +:+ rest) with (newline d +:+ "]" +:+ rest).
    rewrite skip_newline. reflexivity.
  - rewrite !sapp_assoc.
    match goal with |- context [skip_ws ("," +:+ ?t)] =>
      destruct (comma_tail t) as (-> & -> & _ & -> & ->) end.
    rewrite IHl; [done|done|]. unfold more in Hf. rewrite sapp_length in Hf. lia.
Qed.

Lemma digit_head lit rest :
  starts is_digit lit = true ->
  exists c r, skip_ws (lit +:+ rest) = String c r /\ lit +:+ rest = String c r /\ is_digit c = true.
Proof.
  destruct lit as [|c lit]; [done|]. cbn [starts]. intros Hc. exists c, (lit +:+ rest).
  rewrite sapp_cons. split; [|done]. cbn [skip_ws]. destruct (is_space c) eqn:E; [|done].
  revert Hc E. destruct c as [[] [] [] [] [] [] [] []]; vm_compute; congruence.
Qed.

Lemma prints_back_num lit dep rest f :
  plain_num lit = true -> num_stop rest = true ->
  parse_value (S f) dep (lit +:+ rest) = Some (JNum lit, rest).
Proof.
  intros Hl Hr. assert (starts is_digit lit = true) as Hs.
  { unfold plain_num in Hl. apply andb_true_iff in Hl as [[_ ?]%andb_true_iff _]. done. }
  destruct (digit_head lit rest Hs) as (c & r & E1 & E2 & Hc).
  cbn [parse_value]. rewrite E1, <- E2, parse_number_plain by done.
  assert (forall x, is_digit x = false -> Ascii.eqb c x = false) as Hne.
  { intros x Hx. apply Ascii.eqb_neq. intros ->. congruence. }
  by rewrite !Hne.
Qed.

Lemma word_lit_app w j rest : word_lit w j (w +:+ rest) = Some (j, rest).
Proof. unfold word_lit. by rewrite prefix_app, string_drop_app. Qed.

(** The text of a value does not start with white space or a closing
    bracket. *)
Lemma value_head n d v rest :
  printable n v -> starts (Ascii.eqb "]") (skip_ws (indent_value d v +:+ rest)) = false.
Proof.
  destruct v as [| [] |lit|s|l|l]; intros Hv.
  - done.
  - done.
  - done.
  - assert (starts is_digit lit = true) as Hs.
    { destruct n; apply andb_true_iff in Hv as [[_ ?]%andb_true_iff _]; done. }
    destruct (digit_head lit rest Hs) as (c & r & E & _ & Hc). cbn [indent_value]. rewrite E.
    cbn [starts]. apply Ascii.eqb_neq. intros <-. discriminate.
  - assert (plain s = true) as Hs by by destruct n. cbn [indent_value].
    rewrite json_string_head by done. by rewrite json_string_plain.
  - by destruct l.
  - by destruct l.
Qed.

(** An object or array after its opening bracket. *)
Lemma prints_back_arr n l d dep rest f :
  prints_back n -> printable (S n) (JArr l) -> dep + Z.of_nat (S n) <= maxNestingDepth ->
  (2 * String.length (indent_value d (JArr l)) < S f)%nat ->
  parse_value (S f) dep (indent_value d (JArr l) +:+ rest) = Some (JArr l, rest).
Proof.
  intros IH Hl Hdep Hf. assert ((maxNestingDepth <? dep + 1) = false) as Hd by (apply Z.ltb_ge; lia).
  destruct l as [|v l].
  { cbn. by rewrite Hd. }
  change (indent_value d (JArr (v :: l))) with
    ("[" +:+ indent_list (indent_value (S d)) (S d) (v :: l) +:+ newline d +:+ "]") in *.
  rewrite !sapp_length in Hf. cbn [String.length] in Hf. rewrite !sapp_assoc.
  cbn [parse_value].
  match goal with |- context [skip_ws ("[" +:+ ?t)] =>
    change (skip_ws ("[" +:+ t)) with (String "[" t) end.
  cbv beta iota zeta delta [Ascii.eqb Bool.eqb]. rewrite Hd.
  rewrite (elements_back n d (dep + 1) rest (v :: l) f); [|done|done|done|lia|lia].
  change (indent_list (indent_value (S d)) (S d) (v :: l)) with
    (newline (S d) +:+ indent_value (S d) v +:+
     match l with [] => "" | _ => "," +:+ indent_list (indent_value (S d)) (S d) l end).
  rewrite !sapp_assoc, skip_newline, (value_head n); [done|]. by apply Forall_cons in Hl as [? _].
Qed.

Lemma prints_back_obj n l d dep rest f :
  prints_back n -> printable (S n) (JObj l) -> dep + Z.of_nat (S n) <= maxNestingDepth ->
  (2 * String.length (indent_value d (JObj l)) < S f)%nat ->
  parse_value (S f) dep (indent_value d (JObj l) +:+ rest) = Some (JObj l, rest).
Proof.
  intros IH Hl Hdep Hf. assert ((maxNestingDepth <? dep + 1) = false) as Hd by (apply Z.ltb_ge; lia).
  destruct l as [|[k v] l].
  { cbn. by rewrite Hd. }
  change (indent_value d (JObj ((k, v) :: l))) with
    ("{" +:+ indent_list (indent_member (S d)) (S d) ((k, v) :: l) +:+ newline d +:+ "}") in *.
  rewrite !sapp_length in Hf. cbn [String.length] in Hf. rewrite !sapp_assoc.
  cbn [parse_value].
  match goal with |- context [skip_ws ("{" +:+ ?t)] =>
    change (skip_ws ("{" +:+ t)) with (String "{" t) end.
  cbv beta iota zeta delta [Ascii.eqb Bool.eqb]. rewrite Hd.
  rewrite (members_back n d (dep + 1) rest ((k, v) :: l) f); [|done|done|done|lia|lia].
  change (indent_list (indent_member (S d)) (S d) ((k, v) :: l)) with
    (newline (S d) +:+ (json_string k +:+ ": " +:+ indent_value (S d) v) +:+
     match l with [] => "" | _ => "," +:+ indent_list (indent_member (S d)) (S d) l end).
  apply Forall_cons in Hl as [[Hk _] _]. cbn [fst] in Hk.
  rewrite !sapp_assoc, skip_newline, json_string_head by done. by rewrite json_string_plain.
Qed.

Lemma prints_back_all n : prints_back n.
Proof.
  induction n as [n IH] using lt_wf_ind. intros j d dep rest [|f] Hj Hdep Hr Hf; [lia|].
  destruct j as [| [] |lit|s|l|l].
  - exact (word_lit_app "null" JNull rest).
  - exact (word_lit_app "true" (JBool true) rest).
  - exact (word_lit_app "false" (JBool false) rest).
  - destruct n; by apply prints_back_num.
  - assert (plain s = true) as Hs by by destruct n. cbn [indent_value parse_value].
    rewrite json_string_head by done. rewrite (json_string_plain s) by done.
    unfold quote at 1. rewrite !sapp_cons. cbv beta iota zeta delta [Ascii.eqb Bool.eqb].
    match goal with |- context [parse_string ?t] =>
      replace t with (json_string s +:+ rest) by by rewrite json_string_plain end.
    by rewrite parse_string_plain.
  - destruct n as [|n]; [done|]. by apply (prints_back_arr n); [apply IH; lia|..].
  - destruct n as [|n]; [done|]. by apply (prints_back_obj n); [apply IH; lia|..].
Qed.

Lemma parse_indent n j :
  printable n j -> Z.of_nat n <= maxNestingDepth -> parse_json (indent_value 0 j) = Some j.
Proof.
  intros Hj Hn. unfold parse_json.
  pose proof (prints_back_all n j 0%nat 0 "" (S (2 * String.length (indent_value 0 j))) Hj Hn eq_refl)
    as H.
  rewrite sapp_nil_r in H. by rewrite H by lia.
Qed.

(** ** Decimal text is plain *)

Lemma uint_digits u : all_chars is_digit (DecimalString.NilEmpty.string_of_uint u) = true.
Proof. by induction u. Qed.

Lemma to_uint_canonical p :
  match Pos.to_uint p with Decimal.Nil | Decimal.D0 _ => False | _ => True end.
Proof.
  assert (Decimal.unorm (Pos.to_uint p) = Pos.to_uint p) as E.
  { by rewrite <- DecimalPos.Unsigned.to_of, DecimalPos.Unsigned.of_to. }
  pose proof (DecimalPos.Unsigned.to_uint_nonzero p). pose proof (DecimalPos.Unsigned.to_uint_nonnil p).
  destruct (Pos.to_uint p) as [|u|u|u|u|u|u|u|u|u|u]; try done.
  unfold Decimal.unorm in E. cbn [Decimal.nzhead] in E.
  pose proof (DecimalFacts.nb_digits_nzhead u) as Hn.
  destruct (Decimal.nzhead u); try congruence; rewrite E in Hn; simpl in Hn; lia.
Qed.

Lemma bigint_plain z : 0 <= z -> plain_num (bigint_String z) = true.
Proof.
  intros Hz. destruct z as [|p|p]; [reflexivity| |lia]. unfold bigint_String, plain_num.
  cbn [Z.to_int DecimalString.NilEmpty.string_of_int]. rewrite uint_digits.
  pose proof (to_uint_canonical p). by destruct (Pos.to_uint p).
Qed.

(** ** Examples *)

Definition quoted (s : string) : string := quote +:+ s +:+ quote.

Example parse_example :
  parse_json (" { " +:+ quoted "a\u00e9\ud83d\ude00\ud800" +:+ " : [1, -2.5e3, true] } ") =
    Some (JObj [("a" +:+ bytes_of [195; 169; 240; 159; 152; 128; 239; 191; 189]%nat,
                 JArr [JNum "1"; JNum "-2.5e3"; JBool true])]) /\
  parse_json "01" = None /\ parse_json "[1,]" = None /\ parse_json "{} x" = None /\
  parse_json (quoted (String "010"%char "")) = None /\ parse_json "1." = None.
Proof. repeat split; vm_compute; reflexivity. Qed.
