(* ===== verification/AesGcm.v ===== *)
(** * AES-GCM of Go's standard library

    [crypto/aes] and [cipher.NewGCM] with their default sizes (12-byte nonce,
    16-byte tag), executable on byte strings, as the key store uses them to seal
    private keys: FIPS 197 and NIST SP 800-38D, with published test vectors and
    the theorem that opening undoes sealing. *)

From Stdlib Require Import ZArith Lia.
From S2P Require Import Prelude GoLib Crypto.

Local Open Scope Z_scope.

(** ** The block cipher *)

Definition aes_sbox : list Z := [
   99; 124; 119; 123; 242; 107; 111; 197; 48; 1; 103; 43; 254; 215; 171; 118;
   202; 130; 201; 125; 250; 89; 71; 240; 173; 212; 162; 175; 156; 164; 114; 192;
   183; 253; 147; 38; 54; 63; 247; 204; 52; 165; 229; 241; 113; 216; 49; 21;
   4; 199; 35; 195; 24; 150; 5; 154; 7; 18; 128; 226; 235; 39; 178; 117;
   9; 131; 44; 26; 27; 110; 90; 160; 82; 59; 214; 179; 41; 227; 47; 132;
   83; 209; 0; 237; 32; 252; 177; 91; 106; 203; 190; 57; 74; 76; 88; 207;
   208; 239; 170; 251; 67; 77; 51; 133; 69; 249; 2; 127; 80; 60; 159; 168;
   81; 163; 64; 143; 146; 157; 56; 245; 188; 182; 218; 33; 16; 255; 243; 210;
   205; 12; 19; 236; 95; 151; 68; 23; 196; 167; 126; 61; 100; 93; 25; 115;
   96; 129; 79; 220; 34; 42; 144; 136; 70; 238; 184; 20; 222; 94; 11; 219;
   224; 50; 58; 10; 73; 6; 36; 92; 194; 211; 172; 98; 145; 149; 228; 121;
   231; 200; 55; 109; 141; 213; 78; 169; 108; 86; 244; 234; 101; 122; 174; 8;
   186; 120; 37; 46; 28; 166; 180; 198; 232; 221; 116; 31; 75; 189; 139; 138;
   112; 62; 181; 102; 72; 3; 246; 14; 97; 53; 87; 185; 134; 193; 29; 158;
   225; 248; 152; 17; 105; 217; 142; 148; 155; 30; 135; 233; 206; 85; 40; 223;
   140; 161; 137; 13; 191; 230; 66; 104; 65; 153; 45; 15; 176; 84; 187; 22].

Definition sub_byte (b : Z) : Z := nth (Z.to_nat b) aes_sbox 0.

Definition xor_bytes : list Z -> list Z -> list Z := zip_with Z.lxor.

(** Multiplication by [x] in the field of 256 elements. *)
Definition xtime (b : Z) : Z := let d := 2 * b in if 256 <=? d then Z.lxor d 283 else d.

(** [x^(n-1)], the round constant. *)
Fixpoint rcon (n : nat) : Z :=
  match n with O | S O => 1 | S n' => xtime (rcon n') end.

Definition rot_word (w : list Z) : list Z :=
  match w with a :: r => r ++ [a] | [] => [] end.

(** The key schedule, newest word first; [nk] words of key, [i] the index of the
    next word, [n] the number of words to add. *)
Fixpoint expand_key (nk : nat) (n i : nat) (ws : list (list Z)) : list (list Z) :=
  match n with
  | O => ws
  | S n' =>
      let temp := nth 0 ws [] in
      let t :=
        if Nat.eqb (i mod nk) 0 then
          xor_bytes (List.map sub_byte (rot_word temp)) [rcon (i / nk); 0; 0; 0]
        else if (Nat.ltb 6 nk && Nat.eqb (i mod nk) 4)%bool then List.map sub_byte temp
        else temp in
      expand_key nk n' (S i) (xor_bytes (nth (nk - 1) ws []) t :: ws)
  end.

(** Lists of [k] elements each; the fuel is the number of lists. *)
Fixpoint chunks {A} (k : nat) (n : nat) (l : list A) : list (list A) :=
  match n with
  | O => []
  | S n' => take k l :: chunks k n' (drop k l)
  end.

(** The round keys, 16 bytes each, oldest first. *)
Definition round_keys (key : list Z) : list (list Z) :=
  let nk := (length key / 4)%nat in
  let words := (4 * (nk + 7))%nat in
  let ws := rev (expand_key nk (words - nk) nk (rev (chunks 4 nk key))) in
  List.map mjoin (chunks 4 (nk + 7) ws).

Definition shift_rows (s : list Z) : list Z :=
  List.map (fun i => nth i s 0) [0; 5; 10; 15; 4; 9; 14; 3; 8; 13; 2; 7; 12; 1; 6; 11]%nat.

Definition mix_column (c : list Z) : list Z :=
  match c with
  | [a; b; c; d] =>
      let m2 := xtime in let m3 x := Z.lxor (xtime x) x in
      let x4 p q r s := Z.lxor (Z.lxor p q) (Z.lxor r s) in
      [x4 (m2 a) (m3 b) c d; x4 a (m2 b) (m3 c) d; x4 a b (m2 c) (m3 d); x4 (m3 a) b c (m2 d)]
  | _ => c
  end.

Definition mix_columns (s : list Z) : list Z := mjoin (List.map mix_column (chunks 4 4 s)).

Fixpoint aes_rounds (ks : list (list Z)) (s : list Z) : list Z :=
  match ks with
  | [] => s
  | [k] => xor_bytes (shift_rows (List.map sub_byte s)) k
  | k :: ks' => aes_rounds ks' (xor_bytes (mix_columns (shift_rows (List.map sub_byte s))) k)
  end.

Definition aes_encrypt (key block : list Z) : list Z :=
  match round_keys key with
  | k0 :: ks => aes_rounds ks (xor_bytes block k0)
  | [] => block
  end.

(** ** Galois/counter mode *)

Definition be_value (l : list Z) : Z := fold_left (fun acc b => acc * 256 + b) l 0.

(** Multiplication in the field of 2^128 elements, bits from the most
    significant one. *)
Fixpoint gf_mul_loop (n : nat) (x v acc : Z) : Z :=
  match n with
  | O => acc
  | S n' =>
      let acc' := if Z.testbit x (Z.of_nat n') then Z.lxor acc v else acc in
      let v' := if Z.odd v then Z.lxor (Z.shiftr v 1) (225 * 2 ^ 120) else Z.shiftr v 1 in
      gf_mul_loop n' x v' acc'
  end.
Definition gf_mul (x y : Z) : Z := gf_mul_loop 128 x y 0.

Definition pad16 (l : list Z) : list Z :=
  l ++ replicate ((16 - length l mod 16) mod 16) 0.

Definition ghash (h : Z) (data : list Z) : Z :=
  fold_left (fun y b => gf_mul (Z.lxor y (be_value b)) h) (chunks 16 (length data / 16) data) 0.

(** The key stream: [n] blocks from counter [i] on. *)
Fixpoint key_stream (key nonce : list Z) (n : nat) (i : Z) : list Z :=
  match n with
  | O => []
  | S n' =>
      aes_encrypt key (nonce ++ be_bytes 4 (i mod 2 ^ 32) []) ++ key_stream key nonce n' (i + 1)
  end.

(** XOR with the key stream. *)
Definition gcm_crypt (key nonce data : list Z) : list Z :=
  xor_bytes data (key_stream key nonce ((length data + 15) / 16) 2).

Definition gcm_tag (key nonce ct : list Z) : list Z :=
  let h := be_value (aes_encrypt key (replicate 16 0)) in
  let s := ghash h (pad16 ct ++ be_bytes 8 0 [] ++ be_bytes 8 (8 * Z.of_nat (length ct)) []) in
  xor_bytes (be_bytes 16 s []) (aes_encrypt key (nonce ++ [0; 0; 0; 1])).

Definition gcmNonceSize : nat := 12.
Definition gcmTagSize : nat := 16.

(** [gcm.Seal(nil, nonce, plaintext, nil)] *)
Definition gcm_Seal (key nonce plaintext : string) : string :=
  let ct := gcm_crypt (bytes key) (bytes nonce) (bytes plaintext) in
  string_of_bytes (ct ++ gcm_tag (bytes key) (bytes nonce) ct).

(** [gcm.Open(nil, nonce, ciphertext, nil)], for a nonce of the right size. *)
Definition gcm_Open (key nonce ciphertext : string) : result string :=
  let c := bytes ciphertext in
  let fail := Err (EText "cipher: message authentication failed") in
  if Nat.ltb (length c) gcmTagSize then fail
  else
    let n := (length c - gcmTagSize)%nat in
    let ct := take n c in
    if bool_decide (gcm_tag (bytes key) (bytes nonce) ct = drop n c)
    then Ok (string_of_bytes (gcm_crypt (bytes key) (bytes nonce) ct))
    else fail.

(** [aes.NewCipher]: the key selects AES-128, AES-192 or AES-256. *)
Definition aes_key_ok (key : string) : bool :=
  let n := String.length key in Nat.eqb n 16 || Nat.eqb n 24 || Nat.eqb n 32.

(** ** Test vectors *)

Definition of_hex (s : string) : string :=
  match hex_DecodeString s with Ok b => b | Err _ => "" end.

(** FIPS 197, appendix C. *)
Example aes128_fips :
  hex_EncodeToString (string_of_bytes (aes_encrypt
    (bytes (of_hex "000102030405060708090a0b0c0d0e0f"))
    (bytes (of_hex "00112233445566778899aabbccddeeff")))) = "69c4e0d86a7b0430d8cdb78070b4c55a".
Proof. vm_compute. reflexivity. Qed.

Example aes256_fips :
  hex_EncodeToString (string_of_bytes (aes_encrypt
    (bytes (of_hex "000102030405060708090a0b0c0d0e0f101112131415161718191a1b1c1d1e1f"))
    (bytes (of_hex "00112233445566778899aabbccddeeff")))) = "8ea2b7ca516745bfeafc49904b496089".
Proof. vm_compute. reflexivity. Qed.

(** Test case 14 of the GCM specification. *)
Example gcm_case14 :
  hex_EncodeToString (gcm_Seal (string_of_bytes (replicate 32 0)) (string_of_bytes (replicate 12 0))
    (string_of_bytes (replicate 16 0))) =
  "cea7403d4d606b6e074ec5d3baf39d18d0d1c8a799996bf0265b98b5d48ab919".
Proof. vm_compute. reflexivity. Qed.

(** ** Ranges *)

Lemma lxor_byte a b : is_byte a -> is_byte b -> is_byte (Z.lxor a b).
Proof.
  unfold is_byte. intros Ha Hb. assert (0 <= Z.lxor a b) as H0 by (apply Z.lxor_nonneg; lia).
  split; [done|]. destruct (Z.eq_dec (Z.lxor a b) 0) as [->|Hne]; [lia|].
  change 256 with (2 ^ 8). apply Z.log2_lt_pow2; [lia|].
  eapply Z.le_lt_trans; [apply Z.log2_lxor; lia|].
  assert (forall x, 0 <= x < 256 -> Z.log2 x < 8) as Hl.
  { intros x Hx. destruct (Z.eq_dec x 0) as [->|]; [done|]. apply Z.log2_lt_pow2; lia. }
  apply Z.max_lub_lt; by apply Hl.
Qed.

Lemma xor_bytes_ok l l' : Forall is_byte l -> Forall is_byte l' -> Forall is_byte (xor_bytes l l').
Proof.
  intros H. revert l'. induction H as [|a l Ha Hl IH]; intros [|b l'] H'; [constructor..|].
  apply Forall_cons in H' as [Hb Hl']. constructor; [by apply lxor_byte|by apply IH].
Qed.

Lemma nth_byte n l : Forall is_byte l -> is_byte (nth n l 0).
Proof.
  intros H. destruct (nth_in_or_default n l 0) as [Hin|E]; [|rewrite E; unfold is_byte; lia].
  rewrite Forall_forall in H. apply H. by apply list_elem_of_In.
Qed.

Definition byteb (b : Z) : bool := (0 <=? b) && (b <? 256).
Lemma byteb_ok l : forallb byteb l = true -> Forall is_byte l.
Proof.
  rewrite forallb_forall, Forall_forall. intros H b Hb. apply list_elem_of_In, H in Hb.
  unfold byteb in Hb. apply andb_true_iff in Hb as [?%Z.leb_le ?%Z.ltb_lt]. done.
Qed.

Lemma sub_byte_ok b : is_byte (sub_byte b).
Proof. apply nth_byte, byteb_ok. vm_compute. reflexivity. Qed.

Lemma sub_bytes_ok l : Forall is_byte (List.map sub_byte l).
Proof. induction l; constructor; [apply sub_byte_ok|done]. Qed.

Lemma xtime_ok b : is_byte b -> is_byte (xtime b).
Proof.
  intros Hb. unfold xtime. cbv zeta. destruct (Z.leb_spec 256 (2 * b)) as [Hge|Hlt]; unfold is_byte in *; [|lia].
  replace (Z.lxor (2 * b) 283) with (Z.lxor (2 * b - 256) 27).
  - apply lxor_byte; unfold is_byte; lia.
  - assert (2 * b = Z.lxor 256 (2 * b - 256)) as E.
    { rewrite <- Z.add_nocarry_lxor; [lia|]. apply Z.bits_inj'. intros n Hn.
      rewrite Z.land_spec, Z.bits_0. destruct (Z.eq_dec n 8) as [->|Hne].
      - rewrite (Z.bits_above_log2 (2 * b - 256) 8); [by rewrite andb_false_r|lia|].
        destruct (Z.eq_dec (2 * b - 256) 0) as [->|]; [done|]. apply Z.log2_lt_pow2; lia.
      - change 256 with (2 ^ 8). by rewrite Z.pow2_bits_false by congruence. }
    rewrite E at 2. change 283 with (Z.lxor 256 27).
    rewrite (Z.lxor_comm 256 (2 * b - 256)), Z.lxor_assoc, <- (Z.lxor_assoc 256 256 27).
    by rewrite Z.lxor_nilpotent, Z.lxor_0_l.
Qed.

Lemma rcon_ok n : is_byte (rcon n).
Proof.
  induction n as [|[|n] IH]; [unfold is_byte; simpl; lia..|]. by apply xtime_ok.
Qed.

Lemma chunks_Forall {A} (P : A -> Prop) k n l : Forall P l -> Forall (Forall P) (chunks k n l).
Proof.
  revert l. induction n as [|n IH]; intros l H; constructor; [by apply Forall_take|].
  by apply IH, Forall_drop.
Qed.

Lemma mjoin_ok (l : list (list Z)) : Forall (Forall is_byte) l -> Forall is_byte (mjoin l).
Proof. induction 1; simpl; [constructor|]. by apply Forall_app. Qed.

Lemma nth_word_ok n ws : Forall (Forall is_byte) ws -> Forall is_byte (nth n ws []).
Proof.
  intros H. destruct (nth_in_or_default n ws []) as [Hin|E]; [|rewrite E; constructor].
  rewrite Forall_forall in H. apply H. by apply list_elem_of_In.
Qed.

Lemma expand_key_ok nk n i ws :
  Forall (Forall is_byte) ws -> Forall (Forall is_byte) (expand_key nk n i ws).
Proof.
  revert i ws. induction n as [|n IH]; intros i ws H; [done|]. cbn [expand_key]. apply IH.
  constructor; [|done]. apply xor_bytes_ok; [by apply nth_word_ok|].
  destruct (Nat.eqb (i mod nk) 0).
  - apply xor_bytes_ok; [apply sub_bytes_ok|].
    constructor; [apply rcon_ok|]. apply byteb_ok. reflexivity.
  - destruct (_ && _); [apply sub_bytes_ok|by apply nth_word_ok].
Qed.

Lemma round_keys_ok key : Forall is_byte key -> Forall (Forall is_byte) (round_keys key).
Proof.
  intros H. unfold round_keys. apply Forall_map.
  eapply Forall_impl; [|intros c Hc; by apply mjoin_ok]. apply chunks_Forall.
  apply Forall_rev, expand_key_ok, Forall_rev, chunks_Forall, H.
Qed.

Lemma mix_column_ok c : Forall is_byte c -> Forall is_byte (mix_column c).
Proof.
  intros H. destruct c as [|a [|b [|c [|d [|]]]]]; try done.
  repeat match goal with H : Forall _ (_ :: _) |- _ => apply Forall_cons in H as [? H] end.
  repeat constructor; repeat apply lxor_byte; auto using xtime_ok.
Qed.

Lemma aes_rounds_ok ks s :
  Forall (Forall is_byte) ks -> Forall is_byte s -> Forall is_byte (aes_rounds ks s).
Proof.
  intros Hk. revert s. induction Hk as [|k ks Hk Hks IH]; intros s Hs; [done|].
  assert (Forall is_byte (shift_rows (List.map sub_byte s))) as Hsr.
  { unfold shift_rows. apply Forall_map, Forall_forall. intros i _. apply nth_byte, sub_bytes_ok. }
  destruct ks as [|k' ks]; cbn [aes_rounds]; [by apply xor_bytes_ok|].
  apply IH, xor_bytes_ok; [|done]. apply mjoin_ok, Forall_map.
  eapply Forall_impl; [by apply chunks_Forall|]. intros c. apply mix_column_ok.
Qed.

Lemma aes_encrypt_ok key block :
  Forall is_byte key -> Forall is_byte block -> Forall is_byte (aes_encrypt key block).
Proof.
  intros Hk Hb. unfold aes_encrypt. pose proof (round_keys_ok key Hk) as Hr.
  destruct (round_keys key) as [|k0 ks]; [done|]. apply Forall_cons in Hr as [H0 Hr].
  by apply aes_rounds_ok, xor_bytes_ok.
Qed.

Lemma be_bytes_ok n z acc : Forall is_byte acc -> Forall is_byte (be_bytes n z acc).
Proof.
  revert z acc. induction n as [|n IH]; intros z acc H; [done|]. cbn [be_bytes]. apply IH.
  constructor; [|done]. apply Z.mod_pos_bound. lia.
Qed.

Lemma key_stream_ok key nonce n i :
  Forall is_byte key -> Forall is_byte nonce -> Forall is_byte (key_stream key nonce n i).
Proof.
  intros Hk Hn. revert i. induction n as [|n IH]; intros i; [constructor|]. cbn [key_stream].
  apply Forall_app. split; [|apply IH]. apply aes_encrypt_ok; [done|].
  apply Forall_app. split; [done|]. by apply be_bytes_ok.
Qed.

Lemma gcm_crypt_ok key nonce data :
  Forall is_byte key -> Forall is_byte nonce -> Forall is_byte data ->
  Forall is_byte (gcm_crypt key nonce data).
Proof. intros. apply xor_bytes_ok; [done|]. by apply key_stream_ok. Qed.

Lemma gcm_tag_ok key nonce ct :
  Forall is_byte key -> Forall is_byte nonce -> Forall is_byte (gcm_tag key nonce ct).
Proof.
  intros Hk Hn. apply xor_bytes_ok; [by apply be_bytes_ok|]. apply aes_encrypt_ok; [done|].
  apply Forall_app. split; [done|]. apply byteb_ok. reflexivity.
Qed.

(** ** Lengths *)

Lemma xor_bytes_length l l' : length (xor_bytes l l') = Nat.min (length l) (length l').
Proof. apply length_zip_with. Qed.

Lemma chunks_length {A} k n (l : list A) : length (chunks k n l) = n.
Proof. revert l. induction n as [|n IH]; intros l; simpl; congruence. Qed.

Lemma chunks_each {A} k n (l : list A) :
  (k * n <= length l)%nat -> Forall (fun c => length c = k) (chunks k n l).
Proof.
  revert l. induction n as [|n IH]; intros l H; constructor.
  - rewrite length_take. lia.
  - apply IH. rewrite length_drop. lia.
Qed.

Lemma nth_word_length n ws :
  Forall (fun w : list Z => length w = 4%nat) ws -> (n < length ws)%nat -> length (nth n ws []) = 4%nat.
Proof.
  intros H Hn. rewrite Forall_forall in H. apply H, list_elem_of_In. by apply nth_In.
Qed.

Lemma expand_key_words nk n i ws :
  (0 < nk <= length ws)%nat -> Forall (fun w : list Z => length w = 4%nat) ws ->
  length (expand_key nk n i ws) = (n + length ws)%nat /\
  Forall (fun w : list Z => length w = 4%nat) (expand_key nk n i ws).
Proof.
  revert i ws. induction n as [|n IH]; intros i ws Hnk H; [done|]. cbn [expand_key].
  match goal with |- context [expand_key nk n (S i) (?w :: ws)] => set (x := w) end.
  assert (length x = 4%nat) as Hx.
  { pose proof (nth_word_length 0 ws H) as H0. pose proof (nth_word_length (nk - 1) ws H) as H1.
    unfold x. rewrite xor_bytes_length, H1 by lia.
    destruct (Nat.eqb (i mod nk) 0).
    - rewrite xor_bytes_length, length_map. unfold rot_word.
      destruct (nth 0 ws []) as [|a r]; [simpl in H0; lia|]. rewrite length_app.
      cbn [length] in *. lia.
    - destruct (_ && _); rewrite ?length_map, H0; lia. }
  destruct (IH (S i) (x :: ws)) as [IH1 IH2]; [simpl; lia|by constructor|].
  split; [|done]. rewrite IH1. simpl. lia.
Qed.

Lemma mjoin_words_length (c : list (list Z)) :
  Forall (fun w : list Z => length w = 4%nat) c -> length (mjoin c) = (4 * length c)%nat.
Proof. induction 1 as [|w c Hw Hc IH]; [done|]. simpl. rewrite length_app, Hw, IH. lia. Qed.

Lemma round_keys_words key :
  aes_key_ok (string_of_bytes key) = true ->
  (2 <= length (round_keys key))%nat /\ Forall (fun k : list Z => length k = 16%nat) (round_keys key).
Proof.
  unfold aes_key_ok. rewrite string_of_bytes_length. intros H.
  assert (exists nk, length key = (4 * nk)%nat /\ (0 < nk)%nat) as (nk & Hnk & Hpos).
  { repeat (apply orb_true_iff in H as [H|H]); apply Nat.eqb_eq in H;
      [exists 4%nat|exists 6%nat|exists 8%nat]; lia. }
  unfold round_keys. rewrite Hnk. rewrite (Nat.mul_comm 4 nk), Nat.div_mul by lia.
  set (ws0 := rev (chunks 4 nk key)).
  assert (length ws0 = nk) as Hl0 by (unfold ws0; rewrite length_rev; apply chunks_length).
  destruct (expand_key_words nk (4 * (nk + 7) - nk) nk ws0) as [H1 H2]; [lia| |].
  { apply Forall_rev, chunks_each. lia. }
  rewrite length_map, chunks_length. split; [lia|]. apply Forall_map.
  set (ws := rev _). assert (length ws = (4 * (nk + 7))%nat) as Hws.
  { unfold ws. rewrite length_rev, H1. lia. }
  assert (Forall (fun w : list Z => length w = 4%nat) ws) as Hw4 by by apply Forall_rev.
  pose proof (chunks_each 4 (nk + 7) ws ltac:(lia)) as Hc.
  pose proof (chunks_Forall _ 4 (nk + 7) ws Hw4) as Hf.
  rewrite Forall_forall in Hc, Hf |- *. intros c Hin. simpl.
  rewrite mjoin_words_length by by apply Hf. rewrite (Hc c Hin). done.
Qed.

Lemma aes_rounds_length ks s :
  ks <> [] -> Forall (fun k : list Z => length k = 16%nat) ks -> length (aes_rounds ks s) = 16%nat.
Proof.
  intros Hne Hk. revert s. induction Hk as [|k ks Hk Hks IH]; intros s; [done|].
  destruct ks as [|k' ks]; cbn [aes_rounds].
  - rewrite xor_bytes_length, Hk. unfold shift_rows. by rewrite length_map.
  - by apply IH.
Qed.

Lemma aes_encrypt_length key block :
  aes_key_ok (string_of_bytes key) = true -> length (aes_encrypt key block) = 16%nat.
Proof.
  intros H. apply round_keys_words in H as [Hn Hk]. unfold aes_encrypt.
  destruct (round_keys key) as [|k0 ks]; [simpl in Hn; lia|]. apply Forall_cons in Hk as [_ Hk].
  apply aes_rounds_length; [|done]. intros ->. simpl in Hn. lia.
Qed.

Lemma key_stream_length key nonce n i :
  aes_key_ok (string_of_bytes key) = true -> length (key_stream key nonce n i) = (16 * n)%nat.
Proof.
  intros H. revert i. induction n as [|n IH]; intros i; [done|]. cbn [key_stream].
  rewrite length_app, aes_encrypt_length, IH by done. lia.
Qed.

Lemma gcm_crypt_length key nonce data :
  aes_key_ok (string_of_bytes key) = true -> length (gcm_crypt key nonce data) = length data.
Proof.
  intros H. unfold gcm_crypt. rewrite xor_bytes_length, key_stream_length by done.
  pose proof (Nat.div_mod (length data + 15) 16). pose proof (Nat.mod_upper_bound (length data + 15) 16). lia.
Qed.

Lemma gcm_tag_length key nonce ct :
  aes_key_ok (string_of_bytes key) = true -> length (gcm_tag key nonce ct) = 16%nat.
Proof.
  intros H. unfold gcm_tag. by rewrite xor_bytes_length, aes_encrypt_length, be_bytes_length.
Qed.

(** ** Opening undoes sealing *)

Lemma bytes_string_of_bytes l : Forall is_byte l -> bytes (string_of_bytes l) = l.
Proof.
  induction 1 as [|b l Hb Hl IH]; [done|]. simpl. rewrite IH. f_equal. unfold is_byte in Hb.
  rewrite nat_ascii_embedding by lia. lia.
Qed.

Lemma xor_bytes_twice l k : (length l <= length k)%nat -> xor_bytes (xor_bytes l k) k = l.
Proof.
  revert k. induction l as [|a l IH]; intros [|b k] H; simpl in *; [done..|lia|].
  rewrite Z.lxor_assoc, Z.lxor_nilpotent, Z.lxor_0_r. f_equal. apply IH. lia.
Qed.

Lemma gcm_crypt_twice key nonce data :
  aes_key_ok (string_of_bytes key) = true ->
  gcm_crypt key nonce (gcm_crypt key nonce data) = data.
Proof.
  intros H. unfold gcm_crypt at 1. rewrite gcm_crypt_length by done. unfold gcm_crypt.
  apply xor_bytes_twice. rewrite key_stream_length by done.
  pose proof (Nat.div_mod (length data + 15) 16). pose proof (Nat.mod_upper_bound (length data + 15) 16). lia.
Qed.

Lemma gcm_Open_Seal key nonce plaintext :
  aes_key_ok key = true -> gcm_Open key nonce (gcm_Seal key nonce plaintext) = Ok plaintext.
Proof.
  intros H. unfold gcm_Open, gcm_Seal.
  assert (aes_key_ok (string_of_bytes (bytes key)) = true) as Hk by by rewrite string_of_bytes_bytes.
  pose proof (bytes_are_bytes key). pose proof (bytes_are_bytes nonce). pose proof (bytes_are_bytes plaintext).
  set (ct := gcm_crypt (bytes key) (bytes nonce) (bytes plaintext)).
  set (tag := gcm_tag (bytes key) (bytes nonce) ct).
  assert (length tag = 16%nat) as Ht by by apply gcm_tag_length.
  rewrite bytes_string_of_bytes.
  2:{ apply Forall_app. split; [by apply gcm_crypt_ok|by apply gcm_tag_ok]. }
  rewrite length_app, Ht. unfold gcmTagSize.
  replace (length ct + 16 - 16)%nat with (length ct) by lia.
  destruct (Nat.ltb_spec (length ct + 16) 16); [lia|].
  rewrite take_app_length, drop_app_length, bool_decide_eq_true_2 by done.
  unfold ct. rewrite gcm_crypt_twice by done. by rewrite string_of_bytes_bytes.
Qed.
