(* ===== verification/Eth.v ===== *)
(** * Ethereum values and the go-ethereum functions the program calls

    The data ([common.Address], [common.Hash], [types.Transaction],
    [ethereum.CallMsg], [types.Receipt]) with the fields the program uses, and
    the library functions as the parameters of a type class.  [GoEthereumLaws]
    states the documented behaviour some theorems rely on; [refEth] is a
    concrete instance that satisfies it. *)

From Stdlib Require Import ZArith Lia.
From S2P Require Import Prelude GoLib.

Local Open Scope Z_scope.

(** ** Fixed-size byte strings, as big-endian numbers *)

Record word (n : Z) := Word {
  word_val : Z;
  word_ok : Is_true (bool_decide (0 <= word_val < 2 ^ n));
}.
Arguments Word {n} _ _.
Arguments word_val {n} _.

Lemma word_eq {n} (a b : word n) : word_val a = word_val b -> a = b.
Proof.
  destruct a as [x Hx], b as [y Hy]; simpl. intros ->. f_equal. apply proof_irrel.
Qed.

#[export] Instance word_eq_dec n : EqDecision (word n).
Proof.
  intros a b. destruct (decide (word_val a = word_val b)) as [E|E].
  - left. by apply word_eq.
  - right. by intros ->.
Defined.

Definition word_of {n} (z : Z) : option (word n) :=
  match decide (Is_true (bool_decide (0 <= z < 2 ^ n))) with
  | left H => Some (Word z H)
  | right _ => None
  end.

#[export] Instance word_countable n : Countable (word n).
Proof.
  apply (inj_countable word_val word_of). intros [z H]. unfold word_of; simpl.
  case_decide as Hd; [|done]. f_equal. by apply word_eq.
Defined.

Abbreviation address := (word 160).
Abbreviation hash := (word 256).

(** A private key, by its scalar. *)
Definition private_key := Z.

(** ** Transactions, calls and receipts *)

Record transaction := Transaction {
  tx_nonce : Z;
  tx_to : address;
  tx_value : Z;
  tx_gas_limit : Z;
  tx_gas_price : Z;
  tx_data : string;
}.

(** A signed transaction: what was signed, the sender that the signature
    recovers to, and the hash of the whole. *)
Record signed_tx := Signed {
  stx_tx : transaction;
  stx_from : address;
  stx_hash : hash;
}.

(** [ethereum.CallMsg]; [Value] is a pointer and may be nil. *)
Record call_msg := CallMsg {
  msg_from : address;
  msg_to : address;
  msg_value : option Z;
  msg_data : string;
}.

(** [types.Receipt]; [BlockNumber] and [EffectiveGasPrice] may be
    nil.  The logs are kept as the
    JSON text the program marshals them to. *)
Record receipt := Receipt {
  rcpt_status : Z;
  rcpt_block_number : option Z;
  rcpt_gas_used : Z;
  rcpt_effective_gas_price : option Z;
  rcpt_logs_json : result string;
}.

Definition ReceiptStatusFailed : Z := 0.

#[export] Instance transaction_eq_dec : EqDecision transaction.
Proof. solve_decision. Defined.
#[export] Instance signed_tx_eq_dec : EqDecision signed_tx.
Proof. solve_decision. Defined.

(** ** The library functions *)

Class GoEthereum := {
  Address_Hex : address -> string;
  HexToAddress : string -> address;
  IsHexAddress : string -> bool;
  Hash_Hex : hash -> string;
  HexToHash : string -> hash;
  PubkeyToAddress : private_key -> address;
  (** [types.SignTx(tx, types.NewEIP155Signer(chainID), key)] *)
  SignTx : Z -> transaction -> private_key -> result signed_tx;
}.

(** The lower-case hexadecimal text the schema's CHECK constraints demand:
    ["0x"] and [n] digits. *)
Definition lower_hex_char (c : ascii) : bool :=
  let n := nat_of_ascii c in in_range 48 57 n || in_range 97 102 n.

Definition hex_check (n : nat) (s : string) : bool :=
  HasPrefix s "0x" && Nat.eqb (String.length s) (n + 2) &&
  all_chars lower_hex_char (string_drop 2 s).

Definition lowerHex `{GoEthereum} (a : address) : string := ToLower (Address_Hex a).
Definition lowerHash `{GoEthereum} (h : hash) : string := ToLower (Hash_Hex h).

Class GoEthereumLaws `{GoEthereum} := {
  (** [Hex] prints ["0x"] and 40 digits, in some letter case. *)
  lowerHex_check a : hex_check 40 (lowerHex a) = true;
  lowerHash_check h : hex_check 64 (lowerHash h) = true;
  (** [HexToAddress] reads back what [Hex] prints, in any letter case. *)
  HexToAddress_lowerHex a : HexToAddress (lowerHex a) = a;
  HexToHash_lowerHash h : HexToHash (lowerHash h) = h;
  IsHexAddress_lowerHex a : IsHexAddress (lowerHex a) = true;
  (** A signature recovers to the address of the key that made it and does
      not change the transaction. *)
  SignTx_sound cid tx k s :
    SignTx cid tx k = Ok s -> stx_tx s = tx /\ stx_from s = PubkeyToAddress k;
}.

Lemma lowerHex_inj `{GoEthereumLaws} a b : lowerHex a = lowerHex b -> a = b.
Proof.
  intros E. rewrite <- (HexToAddress_lowerHex a), E. apply HexToAddress_lowerHex.
Qed.

Lemma lowerHash_inj `{GoEthereumLaws} a b : lowerHash a = lowerHash b -> a = b.
Proof.
  intros E. rewrite <- (HexToHash_lowerHash a), E. apply HexToHash_lowerHash.
Qed.

(** ** A concrete instance *)

Module RefEth.
(** The [n] low hexadecimal digits of [z], most significant first. *)
Fixpoint digits (n : nat) (z : Z) (acc : string) : string :=
  match n with
  | O => acc
  | S n' => digits n' (z / 16) (String (hex_digit (Z.to_nat (z mod 16))) acc)
  end.

Fixpoint value (s : string) (acc : Z) : Z :=
  match s with
  | EmptyString => acc
  | String c s' =>
      value s' (16 * acc + Z.of_nat (default 0%nat (from_hex_char c)))
  end.

Lemma value_digits n z acc a :
  0 <= z ->
  value (digits n z acc) a = value acc (16 ^ Z.of_nat n * a + z mod 16 ^ Z.of_nat n).
Proof.
  revert z acc a. induction n as [|n IH]; intros z acc a Hz.
  { simpl. f_equal. rewrite Z.mod_1_r. lia. }
  cbn [digits]. rewrite IH by (apply Z.div_pos; lia). cbn [value].
  rewrite hex_digit_from.
  2:{ pose proof (Z.mod_pos_bound z 16). lia. }
  simpl default. f_equal. rewrite Z2Nat.id by (apply Z.mod_pos_bound; lia).
  replace (Z.of_nat (S n)) with (Z.of_nat n + 1) by lia.
  rewrite Z.pow_add_r by lia. change (16 ^ 1) with 16.
  rewrite (Z.mul_comm (16 ^ Z.of_nat n) 16), Z.rem_mul_r by lia. lia.
Qed.

Lemma digits_check n z acc :
  all_chars lower_hex_char acc = true ->
  all_chars lower_hex_char (digits n z acc) = true.
Proof.
  revert z acc. induction n as [|n IH]; intros z acc Hacc; [done|].
  cbn [digits]. apply IH. cbn [all_chars]. rewrite Hacc, andb_true_r.
  pose proof (Z.mod_pos_bound z 16). assert (Z.to_nat (z mod 16) < 16)%nat as Hm by lia.
  revert Hm. generalize (Z.to_nat (z mod 16)). intros m Hm.
  do 16 (destruct m as [|m]; [reflexivity|]). lia.
Qed.

Lemma digits_length n z acc :
  String.length (digits n z acc) = (n + String.length acc)%nat.
Proof.
  revert z acc. induction n as [|n IH]; intros z acc; [done|].
  cbn [digits]. rewrite IH. simpl. lia.
Qed.

Lemma lower_hex_lower s : all_chars lower_hex_char s = true -> ToLower s = s.
Proof.
  induction s as [|c s IH]; [done|]. cbn. intros [Hc Hs]%andb_true_iff.
  change (map_string lower_ascii s) with (ToLower s). rewrite IH by done. f_equal.
  revert Hc. destruct c as [[] [] [] [] [] [] [] []]; vm_compute; congruence.
Qed.

Program Definition word_mod (n : Z) (Hn : 0 <= n) (z : Z) : word n :=
  Word (z mod 2 ^ n) _.
Next Obligation.
  intros n Hn z. apply bool_decide_pack, Z.mod_pos_bound. lia.
Qed.

Lemma word_mod_val {n} (Hn : 0 <= n) (w : word n) z :
  z = word_val w -> word_mod n Hn z = w.
Proof.
  intros ->. apply word_eq. simpl. apply Z.mod_small.
  apply (bool_decide_unpack _ (word_ok _ w)).
Qed.

Definition print (n : nat) (z : Z) : string := "0x" +:+ digits n z "".
Definition parse (s : string) : Z := value (TrimPrefix s "0x") 0.

Lemma print_lower n z : ToLower (print n z) = print n z.
Proof.
  change (ToLower (print n z))
    with (String "0" (String "x" (ToLower (digits n z "")))).
  by rewrite lower_hex_lower by by apply digits_check.
Qed.

Lemma print_check n z : hex_check n (print n z) = true.
Proof.
  change (print n z) with (String "0" (String "x" (digits n z ""))).
  unfold hex_check. rewrite (Nat.add_comm n 2). simpl.
  rewrite digits_length, digits_check by done.
  replace (n + String.length "" =? n)%nat with true
    by (symmetry; apply Nat.eqb_eq; simpl; lia).
  by destruct (digits n z "").
Qed.

Lemma parse_print n z : 0 <= z < 16 ^ Z.of_nat n -> parse (print n z) = z.
Proof.
  intros Hz. unfold parse.
  replace (TrimPrefix (print n z) "0x") with (digits n z "").
  - rewrite value_digits by lia. simpl. rewrite Z.mod_small; lia.
  - change (print n z) with (String "0" (String "x" (digits n z ""))).
    unfold TrimPrefix, HasPrefix. simpl. by destruct (digits n z "").
Qed.

Lemma range (n : Z) (w : word n) : 0 <= word_val w < 2 ^ n.
Proof. apply (bool_decide_unpack _ (word_ok _ w)). Qed.

Lemma nonneg160 : 0 <= 160.
Proof. lia. Qed.
Lemma nonneg256 : 0 <= 256.
Proof. lia. Qed.

Definition addr (z : Z) : address := word_mod 160 nonneg160 z.
Definition mkhash (z : Z) : hash := word_mod 256 nonneg256 z.

#[export] Instance refEth : GoEthereum := {
  Address_Hex a := print 40 (word_val a);
  HexToAddress s := addr (parse s);
  IsHexAddress s := hex_check 40 (ToLower s);
  Hash_Hex h := print 64 (word_val h);
  HexToHash s := mkhash (parse s);
  PubkeyToAddress k := addr k;
  SignTx cid tx k :=
    Ok {| stx_tx := tx; stx_from := addr k;
          stx_hash := mkhash (tx_nonce tx * 2 ^ 200 + tx_gas_limit tx * 2 ^ 168 + k) |};
}.

#[export] Instance refEthLaws : GoEthereumLaws.
Proof.
  split; unfold lowerHex, lowerHash;
    cbn [Address_Hex HexToAddress Hash_Hex HexToHash PubkeyToAddress SignTx refEth].
  - intros a. rewrite print_lower. apply print_check.
  - intros h. rewrite print_lower. apply print_check.
  - intros a. rewrite print_lower, parse_print; [by apply word_mod_val|apply range].
  - intros h. rewrite print_lower, parse_print; [by apply word_mod_val|apply range].
  - intros a. cbn [IsHexAddress refEth]. rewrite !print_lower. apply print_check.
  - by intros cid tx k s [= <-].
Qed.
End RefEth.
