(* ===== verification/Database.v ===== *)
(** * The PostgreSQL schema

    The tables of [migrations/*.sql] as finite maps on their primary keys, the
    rows as records, the status columns as inductive types, and one operation
    per [INSERT] and [UPDATE] form, with the defaults, the CHECK, UNIQUE and
    FOREIGN KEY constraints and the [updated_at] trigger of the schema.
    Timestamps are microseconds.  PostgreSQL's input functions are parameters
    ([Postgres]). *)

From Stdlib Require Import ZArith Lia.
From S2P Require Import Prelude GoLib Eth.

Local Open Scope Z_scope.

(** ** Status columns *)

Inductive request_status :=
| RPending | RRejected | RSubmitted | RConfirmed | RReverted | RFailed.
Inductive attempt_status :=
| TSubmitting | TSubmitted | TFailed | TConfirmed | TReverted.
Inductive delivery_status := DPending | DDelivered | DDead.
Inductive gas_status := GSubmitted | GConfirmed | GReverted | GFailed.

#[export] Instance request_status_eq_dec : EqDecision request_status.
Proof. solve_decision. Defined.
#[export] Instance attempt_status_eq_dec : EqDecision attempt_status.
Proof. solve_decision. Defined.
#[export] Instance delivery_status_eq_dec : EqDecision delivery_status.
Proof. solve_decision. Defined.
#[export] Instance gas_status_eq_dec : EqDecision gas_status.
Proof. solve_decision. Defined.

Definition request_status_text (s : request_status) : string :=
  match s with
  | RPending => "pending" | RRejected => "rejected" | RSubmitted => "submitted"
  | RConfirmed => "confirmed" | RReverted => "reverted" | RFailed => "failed"
  end.

(** ** Rows *)

(** A [NUMERIC(78, 0)] value: an integer, or [NaN], which the type admits and
    which compares greater than every number. *)
Inductive numeric :=
| Num (z : Z)
| NaN.

(** [n::text] *)
Definition numeric_text (n : numeric) : string :=
  match n with Num z => bigint_String z | NaN => "NaN" end.

(** [n > 0] *)
Definition numeric_positive (n : numeric) : bool :=
  match n with Num z => 0 <? z | NaN => true end.

Record app_row := AppRow {
  a_name : string;
  a_treasury_address : string;
  a_bearer_token_hash : string;
  a_pool_size : Z;
  a_default_callback_url : option string;
  a_default_callback_secret : option string;
  a_disabled : bool;
  a_created_at : Z;
  a_signer_min_balance : numeric;
  a_signer_refill_amount : numeric;
  a_treasury_min_balance : numeric;
}.

Record signer_row := SignerRow {
  s_app_id : string;
  s_created_at : Z;
  s_last_used_at : option Z;
}.

Record request_row := RequestRow {
  r_app_id : string;
  r_chain_id : Z;
  r_to_address : string;
  r_call_data : string;
  r_value : Z;
  r_gas_limit : option Z;
  r_deadline : option Z;
  r_callback_url : option string;
  r_callback_metadata : option string;
  r_status : request_status;
  r_created_at : Z;
  r_updated_at : Z;
}.

Record attempt_row := AttemptRow {
  t_request_id : string;
  t_signer_address : string;
  t_nonce : Z;
  t_tx_hash : string;
  t_gas_price : Z;
  t_status : attempt_status;
  t_submitted_at : Z;
  t_block_number : option Z;
  t_gas_used : option Z;
  t_effective_gas_price : option Z;
  t_logs : option string;
  t_revert_reason : option string;
}.

Record delivery_row := DeliveryRow {
  d_request_id : string;
  d_url : string;
  d_payload : string;
  d_signature : string;
  d_attempt : Z;
  d_status : delivery_status;
  d_response_code : option Z;
  d_last_error : option string;
  d_created_at : Z;
  d_next_attempt_at : Z;
}.

Record gas_row := GasRow {
  g_app_id : string;
  g_signer_address : string;
  g_nonce : Z;
  g_tx_hash : string;
  g_amount : Z;
  g_gas_price : Z;
  g_status : gas_status;
  g_submitted_at : Z;
}.

(** The whole database; each table is keyed by its primary key, the UUID
    columns in canonical text form. *)
Record database := Database {
  db_apps : gmap string app_row;
  db_signers : gmap string signer_row;
  db_requests : gmap string request_row;
  db_attempts : gmap string attempt_row;
  db_deliveries : gmap string delivery_row;
  db_gas : gmap string gas_row;
}.

Definition empty_db : database := Database ∅ ∅ ∅ ∅ ∅ ∅.

Definition with_apps (m : gmap string app_row) (db : database) : database :=
  Database m (db_signers db) (db_requests db) (db_attempts db) (db_deliveries db) (db_gas db).
Definition with_signers (m : gmap string signer_row) (db : database) : database :=
  Database (db_apps db) m (db_requests db) (db_attempts db) (db_deliveries db) (db_gas db).
Definition with_requests (m : gmap string request_row) (db : database) : database :=
  Database (db_apps db) (db_signers db) m (db_attempts db) (db_deliveries db) (db_gas db).
Definition with_attempts (m : gmap string attempt_row) (db : database) : database :=
  Database (db_apps db) (db_signers db) (db_requests db) m (db_deliveries db) (db_gas db).
Definition with_deliveries (m : gmap string delivery_row) (db : database) : database :=
  Database (db_apps db) (db_signers db) (db_requests db) (db_attempts db) m (db_gas db).
Definition with_gas (m : gmap string gas_row) (db : database) : database :=
  Database (db_apps db) (db_signers db) (db_requests db) (db_attempts db) (db_deliveries db) m.

(** ** PostgreSQL's own functions *)

Class Postgres := {
  (** [$n::uuid]: the canonical text, or a syntax error. *)
  pg_uuid_in : string -> option string;
  (** Input of a [NUMERIC(78, 0)] value. *)
  pg_numeric_in : string -> option numeric;
  (** Input of a [JSONB] value: its normalised text. *)
  pg_jsonb_in : string -> option string;
  (** Whether the server accepts the integer as the parameter of
      [NULLIF($n, 0)]: the parameter's type is inferred, and its width bounds
      the integers it admits. *)
  pg_nullif0_admits : Z -> bool;
  (** Whether a byte string is acceptable as a [TEXT] value: text in the
      server's encoding, without NUL. *)
  pg_text_ok : string -> bool;
}.

Class PostgresLaws `{Postgres} := {
  pg_uuid_canonical s u : pg_uuid_in s = Some u -> pg_uuid_in u = Some u;
  pg_numeric_decimal z :
    - 10 ^ 78 < z < 10 ^ 78 -> pg_numeric_in (bigint_String z) = Some (Num z);
  pg_numeric_nan : pg_numeric_in "NaN" = Some NaN;
}.

(** Input of the decimal text of an integer, for the columns that are only ever
    fed with [big.Int.String()]: no such text is the one of [NaN]. *)
Definition pg_decimal_in `{Postgres} (s : string) : option Z :=
  match pg_numeric_in s with Some (Num z) => Some z | _ => None end.

(** What a statement sees besides the tables: [NOW()] and the value of
    [gen_random_uuid()]. *)
Record stmt_env := StmtEnv { se_now : Z; se_uuid : string }.

(** A statement: it fails, or returns rows and the new database. *)
Definition stmt (X : Type) := stmt_env -> database -> result (X * database).

Definition unique_violation : error := EText "unique_violation".
Definition check_violation : error := EText "check_violation".
Definition foreign_key_violation : error := EText "foreign_key_violation".
Definition invalid_text : error := EText "invalid_text_representation".
Definition encode_error : error := EText "unable to encode".

Definition check (b : bool) (e : error) {X} (k : result X) : result X :=
  if b then k else Err e.

Lemma check_Ok {X} b e (r : result X) x : check b e r = Ok x -> b = true /\ r = Ok x.
Proof. by destruct b. Qed.

Definition nullif_empty (s : string) : option string :=
  if String.eqb s "" then None else Some s.
Definition nullif_zero (z : Z) : option Z := if z =? 0 then None else Some z.

Definition addr_check (s : string) : bool := hex_check 40 s.
Definition hash_check (s : string) : bool := hex_check 64 s.

Definition fresh {V} (k : string) (m : gmap string V) : bool :=
  bool_decide (m !! k = None).
Definition present {V} (k : string) (m : gmap string V) : bool :=
  bool_decide (is_Some (m !! k)).

(** No row of the table has the property (the test behind a UNIQUE index). *)
Definition no_row {V} (p : V -> bool) (m : gmap string V) : bool :=
  forallb (fun kv => negb (p kv.2)) (map_to_list m).

Lemma no_row_elim {V} (p : V -> bool) (m : gmap string V) k v :
  no_row p m = true -> m !! k = Some v -> p v = false.
Proof.
  unfold no_row. rewrite forallb_forall. intros H Hk.
  apply negb_true_iff, (H (k, v)), list_elem_of_In, elem_of_map_to_list, Hk.
Qed.

Lemma no_row_false {V} (p : V -> bool) (m : gmap string V) :
  no_row p m = false <-> exists k v, m !! k = Some v /\ p v = true.
Proof.
  split.
  - unfold no_row. intros H. apply not_true_iff_false in H. rewrite forallb_forall in H.
    destruct (existsb (fun kv => p kv.2) (map_to_list m)) eqn:E.
    + apply existsb_exists in E as ([k v] & Hin & Hp). exists k, v.
      split; [|done]. by apply elem_of_map_to_list, list_elem_of_In.
    + exfalso. apply H. intros kv Hin. apply negb_true_iff, not_true_iff_false. intros Hp.
      apply not_true_iff_false in E. apply E, existsb_exists. eauto.
  - intros (k & v & Hk & Hp). destruct (no_row p m) eqn:E; [|done].
    by rewrite (no_row_elim _ _ _ _ E Hk) in Hp.
Qed.

(** ** INSERT *)

Definition insert_app (row : app_row) : stmt string := fun se db =>
  check (addr_check (a_treasury_address row)) check_violation
  (check (0 <? a_pool_size row) check_violation
  (check (fresh (se_uuid se) (db_apps db)) unique_violation
  (check (no_row (fun r => String.eqb (a_bearer_token_hash r) (a_bearer_token_hash row))
            (db_apps db)) unique_violation
  (Ok (se_uuid se, with_apps (<[se_uuid se := row]> (db_apps db)) db))))).

Definition insert_signer (address app_id : string) : stmt unit := fun se db =>
  check (addr_check address) check_violation
  (check (fresh address (db_signers db)) unique_violation
  (check (present app_id (db_apps db)) foreign_key_violation
  (Ok (tt, with_signers
         (<[address := SignerRow app_id (se_now se) None]> (db_signers db)) db)))).

Definition insert_request (row : request_row) : stmt string := fun se db =>
  check (addr_check (r_to_address row)) check_violation
  (check (fresh (se_uuid se) (db_requests db)) unique_violation
  (check (present (r_app_id row) (db_apps db)) foreign_key_violation
  (Ok (se_uuid se, with_requests (<[se_uuid se := row]> (db_requests db)) db)))).

Definition insert_attempt (row : attempt_row) : stmt string := fun se db =>
  check (addr_check (t_signer_address row)) check_violation
  (check (hash_check (t_tx_hash row)) check_violation
  (check (fresh (se_uuid se) (db_attempts db)) unique_violation
  (check (no_row (fun r => String.eqb (t_tx_hash r) (t_tx_hash row)) (db_attempts db))
         unique_violation
  (check (present (t_request_id row) (db_requests db)) foreign_key_violation
  (Ok (se_uuid se, with_attempts (<[se_uuid se := row]> (db_attempts db)) db)))))).

Definition insert_delivery (row : delivery_row) : stmt unit := fun se db =>
  check (fresh (se_uuid se) (db_deliveries db)) unique_violation
  (check (present (d_request_id row) (db_requests db)) foreign_key_violation
  (Ok (tt, with_deliveries (<[se_uuid se := row]> (db_deliveries db)) db))).

Definition insert_gas (row : gas_row) : stmt unit := fun se db =>
  check (addr_check (g_signer_address row)) check_violation
  (check (hash_check (g_tx_hash row)) check_violation
  (check (fresh (se_uuid se) (db_gas db)) unique_violation
  (check (no_row (fun r => String.eqb (g_tx_hash r) (g_tx_hash row)) (db_gas db))
         unique_violation
  (check (present (g_app_id row) (db_apps db)) foreign_key_violation
  (Ok (tt, with_gas (<[se_uuid se := row]> (db_gas db)) db)))))).

(** ** UPDATE ... WHERE id = $n::uuid *)

Definition set_request_status (st : request_status) (now : Z) (r : request_row) : request_row :=
  {| r_app_id := r_app_id r; r_chain_id := r_chain_id r; r_to_address := r_to_address r;
     r_call_data := r_call_data r; r_value := r_value r; r_gas_limit := r_gas_limit r;
     r_deadline := r_deadline r; r_callback_url := r_callback_url r;
     r_callback_metadata := r_callback_metadata r; r_status := st;
     r_created_at := r_created_at r; r_updated_at := now |}.

Definition set_attempt_status (st : attempt_status) (t : attempt_row) : attempt_row :=
  {| t_request_id := t_request_id t; t_signer_address := t_signer_address t;
     t_nonce := t_nonce t; t_tx_hash := t_tx_hash t; t_gas_price := t_gas_price t;
     t_status := st; t_submitted_at := t_submitted_at t;
     t_block_number := t_block_number t; t_gas_used := t_gas_used t;
     t_effective_gas_price := t_effective_gas_price t; t_logs := t_logs t;
     t_revert_reason := t_revert_reason t |}.

(** The [updated_at] trigger fires on every UPDATE of [relay_requests]. *)
Definition update_request `{Postgres} (id : string) (st : request_status) : stmt unit :=
  fun se db =>
    match pg_uuid_in id with
    | None => Err invalid_text
    | Some u =>
        Ok (tt, with_requests (alter (set_request_status st (se_now se)) u (db_requests db)) db)
    end.

Definition update_attempt `{Postgres} (id : string) (f : attempt_row -> attempt_row) : stmt unit :=
  fun se db =>
    match pg_uuid_in id with
    | None => Err invalid_text
    | Some u => Ok (tt, with_attempts (alter f u (db_attempts db)) db)
    end.

Definition update_delivery `{Postgres} (id : string) (f : delivery_row -> delivery_row) : stmt unit :=
  fun se db =>
    match pg_uuid_in id with
    | None => Err invalid_text
    | Some u => Ok (tt, with_deliveries (alter f u (db_deliveries db)) db)
    end.

(** ** SELECT *)

(** A read-only statement. *)
Definition select {X} (q : stmt_env -> database -> result X) : stmt X := fun se db =>
  match q se db with Ok x => Ok (x, db) | Err e => Err e end.

Definition rows_where {V} (p : string -> V -> bool) (m : gmap string V) : list (string * V) :=
  List.filter (fun kv => p kv.1 kv.2) (map_to_list m).

Lemma rows_where_elem {V} (p : string -> V -> bool) (m : gmap string V) k v :
  (k, v) ∈ rows_where p m <-> m !! k = Some v /\ p k v = true.
Proof.
  unfold rows_where. rewrite list_elem_of_In, filter_In, <- list_elem_of_In.
  by rewrite elem_of_map_to_list.
Qed.

Lemma rows_where_keys_nodup {V} (p : string -> V -> bool) (m : gmap string V) :
  NoDup (rows_where p m).*1.
Proof.
  unfold rows_where. pose proof (NoDup_fst_map_to_list m) as Hnd. revert Hnd.
  generalize (map_to_list m). intros l.
  induction l as [|[k v] l IH]; simpl; [done|].
  rewrite NoDup_cons. intros [Hk Hl]. destruct (p k v); [|by apply IH].
  simpl. constructor; [|by apply IH]. contradict Hk.
  apply list_elem_of_In, in_map_iff in Hk as [[k' v'] [Hk' Hin]].
  apply filter_In in Hin as [Hin _]. simpl in Hk'; subst.
  apply list_elem_of_fmap. exists (k, v'). split; [done|]. by apply list_elem_of_In.
Qed.

(** A test on all rows of a table. *)
Definition all_rows {V} (p : string -> V -> bool) (m : gmap string V) : bool :=
  forallb (fun kv => p kv.1 kv.2) (map_to_list m).

Lemma all_rows_elim {V} (p : string -> V -> bool) (m : gmap string V) k v :
  all_rows p m = true -> m !! k = Some v -> p k v = true.
Proof.
  unfold all_rows. rewrite forallb_forall. intros H Hk.
  apply (H (k, v)), list_elem_of_In, elem_of_map_to_list, Hk.
Qed.
