(* ===== verification/World.v ===== *)
(** * The world, its environment and programs over it

    A Go function that touches the outside is a [prog]: a tree of atomic
    actions on one shared [world] (the database, the signer pool in memory, the
    key files, the alert throttle).  What the outside answers — the RPC node,
    PostgreSQL's clock and faults, HTTP peers, random bytes — is given by an
    [Environment], a function of the whole history of interactions, so that
    every behaviour of the outside is an instance of it.  [run] executes one
    program alone; [step1] executes one action, and interleavings of several
    programs are built from it. *)

From Stdlib Require Import ZArith Lia.
From S2P Require Import Prelude GoLib Eth Database.

Local Open Scope Z_scope.

(** ** HTTP messages *)

Record http_request := HttpRequest {
  rq_method : string;
  rq_url : string;
  rq_headers : list (string * string);
  rq_body : string;
}.

Record http_response := HttpResponse {
  rs_status : Z;
  rs_body : string;
}.

(** ** History *)

(** What happens to the process as a whole: it is launched, a signal is
    received, the workers' context is cancelled, the HTTP server is shut down,
    the shutdown's context is cancelled, the connection to the node and the
    database pool are closed, it exits. *)
Inductive life_event :=
| Launched
| Signalled
| Cancelled
| ServerShutdown
| ShutdownCancelled
| ClientClosed
| PoolClosed
| Exited (code : Z).

(** One interaction with the outside. *)
Inductive event :=
| EvDb
| EvNow
| EvRand (n : nat)
| EvDial (url : string)
| EvRpcClose
| EvChainID
| EvEstimateGas (m : call_msg)
| EvSuggestGasPrice
| EvBalanceAt (a : address)
| EvPendingNonceAt (a : address)
| EvSendTransaction (s : signed_tx) (accepted answered : bool)
| EvTransactionReceipt (h : hash)
| EvCallContract (m : call_msg) (block : Z)
| EvHttp (r : http_request)
| EvGenerateKey
| EvFs
| EvTick
| EvLife (e : life_event).

(** Newest first. *)
Definition history := list event.

(** The broadcasts the node took in, newest first, each with whether the sender
    was answered without an error: an error, a timeout say, need not mean that
    the node did not take the transaction. *)
Fixpoint sent_log (h : history) : list (signed_tx * bool) :=
  match h with
  | [] => []
  | EvSendTransaction s true answered :: h' => (s, answered) :: sent_log h'
  | _ :: h' => sent_log h'
  end.

(** The transactions the node accepted, newest first. *)
Definition accepted_txs (h : history) : list signed_tx := List.map fst (sent_log h).

(** The answer to a transaction of [a] was lost: the node took it in and the
    sender saw an error.  [answered log a] says that this never happened. *)
Definition answered (log : list (signed_tx * bool)) (a : address) : Prop :=
  forall e, e ∈ log -> stx_from e.1 = a -> e.2 = true.

(** ** The environment *)

(** How a statement sent to PostgreSQL fares: it is served, or the client sees
    an error, the statement having taken effect or not. *)
Inductive pg_fate :=
| PgServe
| PgFail (applied : bool) (e : error).

Class Environment := {
  (** [time.Now()], in nanoseconds since the epoch *)
  env_now : history -> Z;
  (** the local time zone: seconds east of UTC at an instant *)
  env_zone : Z -> Z;
  (** PostgreSQL's [NOW()], in microseconds *)
  env_pg_now : history -> Z;
  env_uuid : history -> string;
  env_pg_fate : history -> pg_fate;
  (** [n] bytes of [crypto/rand] *)
  env_rand : history -> nat -> result string;
  (** whether the caller's context is done, and which ready branch a [select]
      takes *)
  env_ctx_done : history -> bool;
  env_select : history -> bool;
  (** the RPC node *)
  env_dial : history -> string -> option error;
  env_ChainID : history -> result Z;
  env_EstimateGas : history -> call_msg -> result Z;
  env_SuggestGasPrice : history -> result Z;
  env_BalanceAt : history -> address -> result Z;
  env_PendingNonceAt : history -> address -> result Z;
  env_SendTransaction : history -> signed_tx -> result unit;
  (** whether the node took the transaction in, which its answer, possibly a
      timeout, need not reveal *)
  env_accepts : history -> signed_tx -> bool;
  env_TransactionReceipt : history -> hash -> result receipt;
  env_CallContract : history -> call_msg -> Z -> result string;
  (** an HTTP peer: [http.NewRequest] rejects the URL, or the exchange *)
  env_url_ok : string -> option error;
  env_http : history -> http_request -> result http_response;
}.

(** The text of a generated UUID is its canonical form. *)
Class UuidLaws `{Environment} `{Postgres} := {
  env_uuid_canonical h : pg_uuid_in (env_uuid h) = Some (env_uuid h);
}.

(** ** State *)

(** [signer.Signer]; signers are shared by pointer, so they live in a heap. *)
Record signer := Signer {
  sg_AppID : string;
  sg_Address : address;
  sg_Key : private_key;
  sg_nonce : Z;
}.

Definition ptr := nat.

(** [signer.appPool]: the [idle] channel is buffered, its capacity is the
    number of signers it was made for, and it is first in, first out. *)
Record appPool := AppPool {
  ap_signers : list ptr;
  ap_idle : list ptr;
}.

Record pool := Pool {
  pl_heap : gmap ptr signer;
  pl_next : ptr;
  pl_apps : gmap string appPool;
}.

Definition empty_pool : pool := Pool ∅ 0%nat ∅.

Record world := World {
  w_db : database;
  w_pool : pool;
  w_files : gmap string string;
  w_throttle : gmap string Z;
  w_hist : history;
}.

Definition set_db (db : database) (w : world) : world :=
  World db (w_pool w) (w_files w) (w_throttle w) (w_hist w).
Definition set_pool (p : pool) (w : world) : world :=
  World (w_db w) p (w_files w) (w_throttle w) (w_hist w).
Definition set_files (f : gmap string string) (w : world) : world :=
  World (w_db w) (w_pool w) f (w_throttle w) (w_hist w).
Definition set_throttle (t : gmap string Z) (w : world) : world :=
  World (w_db w) (w_pool w) (w_files w) t (w_hist w).
Definition log (e : event) (w : world) : world :=
  World (w_db w) (w_pool w) (w_files w) (w_throttle w) (e :: w_hist w).

Definition empty_world : world := World empty_db empty_pool ∅ ∅ [].

(** ** Programs *)

Inductive prog (A : Type) :=
| Ret (a : A)
| Panic (msg : string)
| Step {X : Type} (f : world -> option (X * world)) (k : X -> prog A).
Arguments Ret {A} a.
Arguments Panic {A} msg.
Arguments Step {A X} f k.

Fixpoint bind {A B} (p : prog A) (f : A -> prog B) : prog B :=
  match p with
  | Ret a => f a
  | Panic m => Panic m
  | Step g k => Step g (fun x => bind (k x) f)
  end.

Notation "'let!' x ':=' p 'in' q" := (bind p (fun x => q))
  (at level 10, x name, p at level 100, q at level 200) : txmill_scope.
Notation "'do!' p 'in' q" := (bind p (fun _ => q))
  (at level 10, p at level 100, q at level 200) : txmill_scope.
(** [x, err := p; if err != nil { return err }] *)
Notation "'let?' x ':=' p 'in' q" :=
  (bind p (fun r => match r with Ok x => q | Err e => Ret (Err e) end))
  (at level 10, x name, p at level 100, q at level 200) : txmill_scope.
(** [x, err := p; if err != nil { return fmt.Errorf("ctx: %w", err) }] *)
Notation "'let?' x ':=' p 'or' ctx 'in' q" :=
  (bind p (fun r => match r with Ok x => q | Err e => Ret (Err (EWrap ctx e)) end))
  (at level 10, x name, p at level 100, ctx at level 100, q at level 200) : txmill_scope.

Local Open Scope txmill_scope.

Definition action {X} (f : world -> X * world) : prog X :=
  Step (fun w => Some (f w)) Ret.

(** An action that may have to wait. *)
Definition waiting {X} (f : world -> option (X * world)) : prog X := Step f Ret.

(** [for _, x := range l { body }] *)
Fixpoint for_each {A} (l : list A) (body : A -> prog unit) : prog unit :=
  match l with
  | [] => Ret tt
  | x :: l' => do! body x in for_each l' body
  end.

(** [defer func() { if r := recover(); r != nil { ... } }()]: a panic becomes a
    result. *)
Fixpoint recovered {A} (on_panic : string -> A) (p : prog A) : prog A :=
  match p with
  | Ret a => Ret a
  | Panic m => Ret (on_panic m)
  | Step f k => Step f (fun x => recovered on_panic (k x))
  end.

(** ** Execution of one program alone *)

Inductive outcome (A : Type) :=
| Done (a : A) (w : world)
| Panicked (msg : string) (w : world)
| Blocked (w : world).
Arguments Done {A} a w.
Arguments Panicked {A} msg w.
Arguments Blocked {A} w.

Fixpoint run {A} (p : prog A) (w : world) : outcome A :=
  match p with
  | Ret a => Done a w
  | Panic m => Panicked m w
  | Step f k => match f w with Some (x, w') => run (k x) w' | None => Blocked w end
  end.

(** A method call on a possibly nil [*big.Int]. *)
Definition deref_big (o : option Z) : prog Z :=
  match o with
  | Some z => Ret z
  | None => Panic "invalid memory address or nil pointer dereference"
  end.

Lemma run_bind {A B} (p : prog A) (f : A -> prog B) w :
  run (bind p f) w =
  match run p w with
  | Done a w' => run (f a) w'
  | Panicked m w' => Panicked m w'
  | Blocked w' => Blocked w'
  end.
Proof.
  revert w. induction p as [a|m|X g k IH]; intros w; simpl; [done..|].
  destruct (g w) as [[x w']|]; [apply IH|done].
Qed.

Lemma run_recovered {A} (on_panic : string -> A) (p : prog A) w :
  run (recovered on_panic p) w =
  match run p w with Panicked m w' => Done (on_panic m) w' | o => o end.
Proof.
  revert w. induction p as [a|m|X g k IH]; intros w; simpl; [done..|].
  destruct (g w) as [[x w']|]; [apply IH|done].
Qed.

Lemma bind_Done {A B} (p : prog A) (f : A -> prog B) w b w' :
  run (bind p f) w = Done b w' ->
  exists a w1, run p w = Done a w1 /\ run (f a) w1 = Done b w'.
Proof. rewrite run_bind. destruct (run p w); [eauto|done..]. Qed.

(** The error-propagating binds, when the whole succeeds. *)
Lemma try_Done {A B} (p : prog (result A)) (f : A -> prog (result B)) g w b w' :
  run (bind p (fun r => match r with Ok x => f x | Err e => Ret (Err (g e)) end)) w
    = Done (Ok b) w' ->
  exists a w1, run p w = Done (Ok a) w1 /\ run (f a) w1 = Done (Ok b) w'.
Proof. intros ([a|e] & w1 & H1 & H2)%bind_Done; [eauto|done]. Qed.

Lemma run_action {X} (f : world -> X * world) w :
  run (action f) w = Done (f w).1 (f w).2.
Proof. unfold action. simpl. by destruct (f w). Qed.

(** Whether a run returned without error. *)
Definition done_ok {A} (o : outcome (result A)) : bool :=
  match o with Done (Ok _) _ => true | _ => false end.

Lemma done_ok_inv {A} (o : outcome (result A)) :
  done_ok o = true -> exists a w, o = Done (Ok a) w.
Proof. destruct o as [[a|e] w| |]; [eauto|done..]. Qed.

(** One action of a program. *)
Definition step1 {A} (p : prog A) (w : world) : option (prog A * world) :=
  match p with
  | Step f k => match f w with Some (x, w') => Some (k x, w') | None => None end
  | _ => None
  end.

(** ** Programs all of whose actions respect a relation *)

Fixpoint all_steps {A} (R : world -> world -> Prop) (p : prog A) : Prop :=
  match p with
  | Ret _ | Panic _ => True
  | Step f k =>
      (forall w x w', f w = Some (x, w') -> R w w') /\ forall x, all_steps R (k x)
  end.

Lemma all_steps_bind {A B} R (p : prog A) (f : A -> prog B) :
  all_steps R p -> (forall a, all_steps R (f a)) -> all_steps R (bind p f).
Proof.
  induction p as [a|m|X g k IH]; simpl; [by auto|done|].
  intros [Hg Hk] Hf. split; [done|]. intros x. by apply IH.
Qed.

Lemma all_steps_recovered {A} R on_panic (p : prog A) :
  all_steps R p -> all_steps R (recovered on_panic p).
Proof.
  induction p as [a|m|X g k IH]; simpl; [done..|]. intros [Hg Hk]. split; [done|].
  intros x. by apply IH.
Qed.

Lemma all_steps_impl {A} (R S : world -> world -> Prop) (p : prog A) :
  (forall w w', R w w' -> S w w') -> all_steps R p -> all_steps S p.
Proof.
  intros HRS. induction p as [a|m|X g k IH]; simpl; [done..|].
  intros [Hg Hk]. split; eauto.
Qed.

Lemma all_steps_True {A} (p : prog A) : all_steps (fun _ _ => True) p.
Proof. by induction p; simpl. Qed.

Lemma all_steps_for_each {A} R (l : list A) body :
  (forall x, all_steps R (body x)) -> all_steps R (for_each l body).
Proof.
  intros Hb. induction l as [|x l IH]; simpl; [done|].
  by apply all_steps_bind.
Qed.

Lemma all_steps_action {X} (R : world -> world -> Prop) (f : world -> X * world) :
  (forall w, R w (f w).2) -> all_steps R (action f).
Proof.
  intros H. split; [|done]. intros w x w' [= E]. specialize (H w).
  by rewrite E in H.
Qed.

(** A reflexive and transitive relation kept by every action is kept by the
    whole execution. *)
Lemma all_steps_run {A} (R : world -> world -> Prop) `{!PreOrder R} (p : prog A) w :
  all_steps R p ->
  match run p w with Done _ w' | Panicked _ w' | Blocked w' => R w w' end.
Proof.
  revert w. induction p as [a|m|X g k IH]; intros w Hp; simpl in *; [done..|].
  destruct Hp as [Hg Hk]. destruct (g w) as [[x w']|] eqn:E; [|done].
  specialize (IH x w' (Hk x)). apply Hg in E.
  destruct (run (k x) w'); by etrans.
Qed.

(** The program leaves the part [g] of the world alone. *)
Definition keeps {A B} (g : world -> B) (p : prog A) : Prop :=
  all_steps (fun w w' => g w' = g w) p.

Lemma keeps_run {A B} (g : world -> B) (p : prog A) w :
  keeps g p ->
  match run p w with Done _ w' | Panicked _ w' | Blocked w' => g w' = g w end.
Proof.
  assert (PreOrder (fun w w' => g w' = g w)).
  { split; [done|]. intros x y z Hxy Hyz. congruence. }
  apply (all_steps_run (fun w w' => g w' = g w)).
Qed.

Lemma keeps_Done {A B} (g : world -> B) (p : prog A) w a w' :
  keeps g p -> run p w = Done a w' -> g w' = g w.
Proof. intros Hk Hr. pose proof (keeps_run g p w Hk) as H. by rewrite Hr in H. Qed.

Lemma keeps_bind {A B C} (g : world -> C) (p : prog A) (f : A -> prog B) :
  keeps g p -> (forall a, keeps g (f a)) -> keeps g (bind p f).
Proof. apply all_steps_bind. Qed.

Lemma keeps_Ret {A B} (g : world -> B) (a : A) : keeps g (Ret a).
Proof. exact I. Qed.

Lemma keeps_Panic {A B} (g : world -> B) m : keeps g (Panic (A := A) m).
Proof. exact I. Qed.

Lemma keeps_action {X B} (g : world -> B) (f : world -> X * world) :
  (forall w, g (f w).2 = g w) -> keeps g (action f).
Proof. intros H. by apply all_steps_action. Qed.

Lemma keeps_for_each {A B} (g : world -> B) (l : list A) body :
  (forall x, keeps g (body x)) -> keeps g (for_each l body).
Proof. apply all_steps_for_each. Qed.

Lemma keeps_compose {A B C} (f : B -> C) (g : world -> B) (p : prog A) :
  keeps g p -> keeps (fun w => f (g w)) p.
Proof. apply all_steps_impl. intros w w' ->. done. Qed.

(** What the program owns or has sent: the tables, the pool and the
    transactions the node accepted. *)
Definition view (w : world) : database * pool * list (signed_tx * bool) :=
  (w_db w, w_pool w, sent_log (w_hist w)).

(** The part the relay path works on: the request, attempt, signer and app
    tables, the pool and the accepted transactions. *)
Definition core (w : world) :=
  (db_requests (w_db w), db_attempts (w_db w), db_signers (w_db w), db_apps (w_db w), w_pool w,
   sent_log (w_hist w)).

Lemma keeps_view_core {A} (p : prog A) : keeps view p -> keeps core p.
Proof.
  apply (keeps_compose
    (fun v => (db_requests v.1.1, db_attempts v.1.1, db_signers v.1.1, db_apps v.1.1, v.1.2, v.2)) view).
Qed.

Lemma keeps_view_db {A} (p : prog A) : keeps view p -> keeps w_db p.
Proof. apply (keeps_compose (fun v => v.1.1) view). Qed.
Lemma keeps_view_pool {A} (p : prog A) : keeps view p -> keeps w_pool p.
Proof. apply (keeps_compose (fun v => v.1.2) view). Qed.
Lemma keeps_view_txs {A} (p : prog A) :
  keeps view p -> keeps (fun w => sent_log (w_hist w)) p.
Proof. apply (keeps_compose (fun v => v.2) view). Qed.

(** Every value a program can return satisfies [P], whatever the outside
    answers. *)
Fixpoint rets {A} (P : A -> Prop) (p : prog A) : Prop :=
  match p with
  | Ret a => P a
  | Panic _ => True
  | Step f k => forall x, rets P (k x)
  end.

Lemma rets_bind {A B} (P : A -> Prop) (Q : B -> Prop) (p : prog A) (f : A -> prog B) :
  rets P p -> (forall a, P a -> rets Q (f a)) -> rets Q (bind p f).
Proof. induction p as [a|m|X g k IH]; simpl; auto. Qed.

Lemma rets_True {A} (p : prog A) : rets (fun _ => True) p.
Proof. by induction p; simpl. Qed.

Lemma rets_run {A} (P : A -> Prop) (p : prog A) w a w' :
  rets P p -> run p w = Done a w' -> P a.
Proof.
  revert w. induction p as [b|m|X g k IH]; intros w; simpl.
  - by intros H [= <- _].
  - done.
  - intros H. destruct (g w) as [[x w1]|]; [|done]. by apply IH.
Qed.

#[export] Hint Resolve keeps_Ret keeps_Panic : txmill.

(** Decompose a [keeps] goal along the structure of the program; [tac] closes
    the atomic cases. *)
Ltac solve_keeps :=
  repeat first
    [ progress intros
    | apply keeps_Ret
    | apply keeps_Panic
    | solve [eauto 2 with txmill]
    | apply keeps_bind
    | apply keeps_for_each
    | match goal with
      | |- keeps _ (match ?x with _ => _ end) => destruct x
      | |- keeps _ (if ?x then _ else _) => destruct x
      end ].

(** ** Relations between the worlds before and after a run *)

Definition ends {A} (R : world -> world -> Prop) (p : prog A) : Prop :=
  forall w, match run p w with Done _ w' | Panicked _ w' | Blocked w' => R w w' end.

Lemma all_steps_ends {A} (R : world -> world -> Prop) `{!PreOrder R} (p : prog A) :
  all_steps R p -> ends R p.
Proof. intros Hp w. by apply (all_steps_run R). Qed.

Lemma ends_Ret {A} (R : world -> world -> Prop) `{!PreOrder R} (a : A) : ends R (Ret a).
Proof. intros w. simpl. reflexivity. Qed.

Lemma ends_Panic {A} (R : world -> world -> Prop) `{!PreOrder R} m : ends R (Panic (A := A) m).
Proof. intros w. simpl. reflexivity. Qed.

Lemma ends_bind {A B} (R : world -> world -> Prop) `{!PreOrder R} (p : prog A) (f : A -> prog B) :
  ends R p -> (forall a, ends R (f a)) -> ends R (bind p f).
Proof.
  intros Hp Hf w. rewrite run_bind. specialize (Hp w).
  destruct (run p w) as [a w1|m w1|w1]; [|done..].
  specialize (Hf a w1). destruct (run (f a) w1); by etrans.
Qed.

Lemma ends_Done {A} R (p : prog A) w a w' : ends R p -> run p w = Done a w' -> R w w'.
Proof. intros Hp Hr. specialize (Hp w). by rewrite Hr in Hp. Qed.

Lemma keeps_ends {A B} (g : world -> B) (R : world -> world -> Prop) `{!PreOrder R} (p : prog A) :
  (forall w w', g w' = g w -> R w w') -> keeps g p -> ends R p.
Proof.
  intros HR Hp. apply (all_steps_ends R). eapply all_steps_impl; [|exact Hp].
  intros w w' H. by apply HR.
Qed.

(** Decompose an [ends] goal along the structure of the program; hints close
    the atomic cases. *)
Ltac solve_ends :=
  repeat first
    [ progress intros
    | apply ends_Ret
    | apply ends_Panic
    | solve [eauto 2 with txmill]
    | apply ends_bind
    | match goal with
      | |- PreOrder _ => apply _
      | |- ends _ (match ?x with _ => _ end) => destruct x
      | |- ends _ (if ?x then _ else _) => destruct x
      end ].

(** ** Every world a run passes through *)

(** A crash in the middle of a run leaves one of these. *)
Fixpoint worlds {A} (p : prog A) (w : world) : list world :=
  w :: match p with
       | Step f k => match f w with Some (x, w') => worlds (k x) w' | None => [] end
       | _ => []
       end.

Lemma worlds_Ret {A} (P : world -> Prop) (a : A) w : P w -> Forall P (worlds (Ret a) w).
Proof. intros H. constructor; [done|constructor]. Qed.

Lemma worlds_bind {A B} (P : world -> Prop) (p : prog A) (f : A -> prog B) w :
  Forall P (worlds p w) ->
  (forall a w', run p w = Done a w' -> P w' -> Forall P (worlds (f a) w')) ->
  Forall P (worlds (bind p f) w).
Proof.
  revert w. induction p as [a|m|X g k IH]; intros w Hp Hf; simpl in *.
  - apply Hf; [done|]. by apply Forall_cons in Hp as [? _].
  - done.
  - apply Forall_cons in Hp as [Hw Hp]. constructor; [done|].
    destruct (g w) as [[x w']|]; [|constructor]. by apply IH.
Qed.

Lemma worlds_keeps {A B} (g : world -> B) (p : prog A) w :
  keeps g p -> Forall (fun w' => g w' = g w) (worlds p w).
Proof.
  revert w. induction p as [a|m|X f k IH]; intros w Hk; simpl; [by repeat constructor..|].
  destruct Hk as [Hf Hk]. constructor; [done|]. destruct (f w) as [[x w']|] eqn:E; [|constructor].
  eapply Forall_impl; [apply IH, Hk|]. simpl. intros w2 ->. by eapply Hf.
Qed.

Lemma worlds_action {X} (P : world -> Prop) (f : world -> X * world) w :
  P w -> P (f w).2 -> Forall P (worlds (action f) w).
Proof.
  intros H1 H2. simpl. destruct (f w) as [x w'] eqn:E. by repeat constructor.
Qed.

Lemma worlds_run {A} (P : world -> Prop) (p : prog A) w :
  Forall P (worlds p w) -> match run p w with Done _ w' | Panicked _ w' | Blocked w' => P w' end.
Proof.
  revert w. induction p as [a|m|X f k IH]; intros w Hp; simpl in *;
    apply Forall_cons in Hp as [Hw Hp]; [done..|].
  destruct (f w) as [[x w']|]; [by apply IH|done].
Qed.

(** ** Programs that always return *)

(** Every action is enabled in every world and no panic occurs: the program
    returns, whatever the outside answers and however it is interleaved. *)
Fixpoint total {A} (p : prog A) : Prop :=
  match p with
  | Ret _ => True
  | Panic _ => False
  | Step f k => (forall w, f w <> None) /\ forall x, total (k x)
  end.

Lemma total_bind {A B} (p : prog A) (f : A -> prog B) :
  total p -> (forall a, total (f a)) -> total (bind p f).
Proof.
  induction p as [a|m|X g k IH]; simpl; [by auto|done|].
  intros [Hg Hk] Hf. split; [done|]. eauto.
Qed.

Lemma total_Ret {A} (a : A) : total (Ret a).
Proof. exact I. Qed.

Lemma total_action {X} (f : world -> X * world) : total (action f).
Proof. by split. Qed.

Lemma total_for_each {A} (l : list A) body :
  (forall x, x ∈ l -> total (body x)) -> total (for_each l body).
Proof.
  induction l as [|x l IH]; simpl; [done|]. intros Hb.
  apply total_bind; [apply Hb; set_solver|]. intros _. apply IH. set_solver.
Qed.

Lemma total_run {A} (p : prog A) w : total p -> exists a w', run p w = Done a w'.
Proof.
  revert w. induction p as [a|m|X g k IH]; intros w Hp; simpl in *; [eauto|done|].
  destruct Hp as [Hg Hk]. destruct (g w) as [[x w']|] eqn:E; [|by apply Hg in E].
  apply IH, Hk.
Qed.

(** The program returns when every world it acts on satisfies [P]. *)
Fixpoint total_on {A} (P : world -> Prop) (p : prog A) : Prop :=
  match p with
  | Ret _ => True
  | Panic _ => False
  | Step f k => forall w, P w -> f w <> None /\ forall x w', f w = Some (x, w') -> total_on P (k x)
  end.

Lemma total_total_on {A} P (p : prog A) : total p -> total_on P p.
Proof.
  induction p as [a|m|X f k IH]; simpl; [done..|]. intros [Hf Hk] w _. split; [apply Hf|]. eauto.
Qed.

Lemma total_on_impl {A} (P Q : world -> Prop) (p : prog A) :
  (forall w, Q w -> P w) -> total_on P p -> total_on Q p.
Proof.
  intros HQ. induction p as [a|m|X f k IH]; simpl; [done..|]. intros Hf w Hw.
  destruct (Hf w (HQ w Hw)) as [Hn Hs]. split; [done|]. intros x w' E. apply IH. by eapply Hs.
Qed.

Lemma total_on_bind {A B} P (p : prog A) (f : A -> prog B) :
  total_on P p -> (forall a, total_on P (f a)) -> total_on P (bind p f).
Proof.
  induction p as [a|m|X g k IH]; simpl; [by auto|done|].
  intros Hg Hf w Hw. destruct (Hg w Hw) as [Hn Hk]. split; [done|]. intros x w' E.
  apply IH; [by eapply Hk|done].
Qed.

Lemma total_on_action {X} P (f : world -> X * world) : total_on P (action f).
Proof. apply total_total_on, total_action. Qed.

Lemma total_on_for_each {A} P (l : list A) body :
  (forall x, x ∈ l -> total_on P (body x)) -> total_on P (for_each l body).
Proof.
  induction l as [|x l IH]; simpl; [done|]. intros Hb.
  apply total_on_bind; [apply Hb; set_solver|]. intros _. apply IH. set_solver.
Qed.

(** A program that keeps the part of the world its totality depends on
    returns. *)
Lemma total_on_run {A B} (g : world -> B) (Q : B -> Prop) (p : prog A) w :
  total_on (fun w => Q (g w)) p -> keeps g p -> Q (g w) ->
  exists a w', run p w = Done a w' /\ g w' = g w.
Proof.
  revert w. induction p as [a|m|X f k IH]; intros w Hp Hk Hw; simpl in *; [eauto|done|].
  destruct Hk as [Hf Hk]. destruct (Hp w Hw) as [Hn Hs].
  destruct (f w) as [[x w']|] eqn:E; [|by destruct Hn]. apply Hf in E as Ew.
  destruct (IH x w') as (a & w2 & Hr & Hg); [by apply (Hs x w')|apply Hk|by rewrite Ew|].
  exists a, w2. split; [done|]. congruence.
Qed.

#[export] Hint Resolve total_Ret total_action : txmill.

(** Decompose a [total] goal along the structure of the program. *)
Ltac solve_total :=
  repeat first
    [ progress intros
    | apply total_Ret
    | solve [eauto 2 with txmill]
    | apply total_bind
    | match goal with
      | |- total (match ?x with _ => _ end) => destruct x
      | |- total (if ?x then _ else _) => destruct x
      end
    | apply total_action ].

(** ** PostgreSQL *)

Section actions.
Context `{Env : Environment}.

Definition env_stmt (w : world) : stmt_env :=
  StmtEnv (env_pg_now (w_hist w)) (env_uuid (w_hist w)).

(** [pool.Exec], [pool.QueryRow], [pool.Query]: one autocommitted
    statement. *)
Definition pg {X} (s : stmt X) : prog (result X) := action (fun w =>
  let w1 := log EvDb w in
  match env_pg_fate (w_hist w), s (env_stmt w) (w_db w) with
  | PgServe, Ok (x, db') => (Ok x, set_db db' w1)
  | PgServe, Err e => (Err e, w1)
  | PgFail true e, Ok (_, db') => (Err e, set_db db' w1)
  | PgFail _ e, _ => (Err e, w1)
  end).

(** An open transaction: its [NOW()] and the statements executed so far,
    composed; they take effect together, at the commit. *)
Record txn := Txn {
  txn_now : Z;
  txn_apply : database -> result database;
}.

Definition pg_begin : prog (result txn) := action (fun w =>
  match env_pg_fate (w_hist w) with
  | PgServe => (Ok (Txn (env_pg_now (w_hist w)) Ok), log EvDb w)
  | PgFail _ e => (Err e, log EvDb w)
  end).

Definition txn_then {X} (t : txn) (se : stmt_env) (s : stmt X) : txn :=
  Txn (txn_now t) (fun db =>
    match txn_apply t db with
    | Ok db1 => match s se db1 with Ok (_, db2) => Ok db2 | Err e => Err e end
    | Err e => Err e
    end).

(** [tx.Exec], [tx.QueryRow]: runs on what the transaction has written. *)
Definition pg_tx {X} (t : txn) (s : stmt X) : prog (result (X * txn)) := action (fun w =>
  let se := StmtEnv (txn_now t) (env_uuid (w_hist w)) in
  (match env_pg_fate (w_hist w) with
   | PgFail _ e => Err e
   | PgServe =>
       match txn_apply t (w_db w) with
       | Err e => Err e
       | Ok db1 =>
           match s se db1 with
           | Ok (x, _) => Ok (x, txn_then t se s)
           | Err e => Err e
           end
       end
   end, log EvDb w)).

Definition pg_commit (t : txn) : prog (result unit) := action (fun w =>
  let w1 := log EvDb w in
  match env_pg_fate (w_hist w), txn_apply t (w_db w) with
  | PgServe, Ok db' => (Ok tt, set_db db' w1)
  | PgServe, Err e => (Err e, w1)
  | PgFail true e, Ok db' => (Err e, set_db db' w1)
  | PgFail _ e, _ => (Err e, w1)
  end).

(** ** Clock, randomness, HTTP *)

Definition time_Now : prog Z := action (fun w => (env_now (w_hist w), log EvNow w)).

Definition rand_Read (n : nat) : prog (result string) := action (fun w =>
  (env_rand (w_hist w) n, log (EvRand n) w)).

(** [http.NewRequestWithContext] fails on a malformed URL; [client.Do] is the
    exchange. *)
Definition http_NewRequest (method url : string) (headers : list (string * string))
    (body : string) : result http_request :=
  match env_url_ok url with
  | Some e => Err e
  | None => Ok (HttpRequest method url headers body)
  end.

Definition http_Do (r : http_request) : prog (result http_response) := action (fun w =>
  (env_http (w_hist w) r, log (EvHttp r) w)).

(** ** What a successful statement did *)

Lemma pg_ok {X} (s : stmt X) w x w' :
  run (pg s) w = Done (Ok x) w' ->
  exists db', s (env_stmt w) (w_db w) = Ok (x, db') /\ w' = set_db db' (log EvDb w).
Proof.
  unfold pg. rewrite run_action.
  destruct (env_pg_fate _) as [|[] e], (s (env_stmt w) (w_db w)) as [[y db']|e'];
    simpl; intros [= <- <-]; eauto.
Qed.

(** Whatever the statement did to the tables, nothing else changed. *)
Lemma pg_frame {X} (s : stmt X) w r w' :
  run (pg s) w = Done r w' ->
  w_pool w' = w_pool w /\ sent_log (w_hist w') = sent_log (w_hist w) /\
  (w_db w' = w_db w \/ exists x, s (env_stmt w) (w_db w) = Ok (x, w_db w')).
Proof.
  unfold pg. rewrite run_action.
  destruct (env_pg_fate _) as [|[] e], (s (env_stmt w) (w_db w)) as [[y db']|e'];
    simpl; intros [= <- <-]; simpl; eauto.
Qed.

Lemma pg_begin_ok w t w' :
  run pg_begin w = Done (Ok t) w' ->
  t = Txn (env_pg_now (w_hist w)) Ok /\ w' = log EvDb w.
Proof.
  unfold pg_begin. rewrite run_action. destruct (env_pg_fate _); by intros [= <- <-].
Qed.

Lemma pg_tx_ok {X} t (s : stmt X) w r w' :
  run (pg_tx t s) w = Done (Ok r) w' ->
  exists u, r.2 = txn_then t (StmtEnv (txn_now t) u) s /\ w' = log EvDb w /\
    u = env_uuid (w_hist w) /\
    exists db1 db2, txn_apply t (w_db w) = Ok db1 /\
      s (StmtEnv (txn_now t) u) db1 = Ok (r.1, db2).
Proof.
  unfold pg_tx. rewrite run_action. simpl.
  destruct (env_pg_fate _); [|done]. destruct (txn_apply t (w_db w)) as [db1|] eqn:E1; [|done].
  destruct (s _ db1) as [[x db2]|] eqn:E2; [|done]. intros [= <- <-]. simpl. eauto 10.
Qed.

Lemma pg_commit_ok t w w' :
  run (pg_commit t) w = Done (Ok tt) w' ->
  exists db', txn_apply t (w_db w) = Ok db' /\ w' = set_db db' (log EvDb w).
Proof.
  unfold pg_commit. rewrite run_action.
  destruct (env_pg_fate _) as [|[] e], (txn_apply t (w_db w)) as [db'|e']; simpl;
    intros [= <-]; eauto.
Qed.

(** ** Frame lemmas *)

Lemma pg_keeps {X B} (g : world -> B) (s : stmt X) :
  (forall db w, g (set_db db (log EvDb w)) = g w) -> (forall w, g (log EvDb w) = g w) ->
  keeps g (pg s).
Proof.
  intros Hs Hl. apply keeps_action. intros w. simpl.
  destruct (env_pg_fate _) as [|[] e], (s (env_stmt w) (w_db w)) as [[x db']|e']; simpl; auto.
Qed.

Lemma pg_select_keeps {X} (q : stmt_env -> database -> result X) :
  keeps w_db (pg (select q)).
Proof.
  apply keeps_action. intros w. unfold select.
  destruct (env_pg_fate _) as [|[] e], (q (env_stmt w) (w_db w)); done.
Qed.

Lemma pg_select_view {X} (q : stmt_env -> database -> result X) :
  keeps view (pg (select q)).
Proof.
  apply keeps_action. intros w. unfold select.
  destruct (env_pg_fate _) as [|[] e], (q (env_stmt w) (w_db w)); done.
Qed.

Lemma pg_begin_keeps {B} (g : world -> B) :
  (forall w, g (log EvDb w) = g w) -> keeps g pg_begin.
Proof. intros Hl. apply keeps_action. intros w. destruct (env_pg_fate _); apply Hl. Qed.

Lemma pg_tx_keeps {X B} (g : world -> B) t (s : stmt X) :
  (forall w, g (log EvDb w) = g w) -> keeps g (pg_tx t s).
Proof. intros Hl. apply keeps_action. intros w. apply Hl. Qed.

Lemma pg_commit_keeps {B} (g : world -> B) t :
  (forall db w, g (set_db db (log EvDb w)) = g w) -> (forall w, g (log EvDb w) = g w) ->
  keeps g (pg_commit t).
Proof.
  intros Hs Hl. apply keeps_action. intros w. simpl.
  destruct (env_pg_fate _) as [|[] e], (txn_apply t (w_db w)); simpl; auto.
Qed.

Lemma time_Now_keeps {B} (g : world -> B) :
  (forall w, g (log EvNow w) = g w) -> keeps g time_Now.
Proof. intros Hl. apply keeps_action. intros w. apply Hl. Qed.

Lemma rand_Read_keeps {B} (g : world -> B) n :
  (forall w, g (log (EvRand n) w) = g w) -> keeps g (rand_Read n).
Proof. intros Hl. apply keeps_action. intros w. apply Hl. Qed.

Lemma http_Do_keeps {B} (g : world -> B) r :
  (forall w, g (log (EvHttp r) w) = g w) -> keeps g (http_Do r).
Proof. intros Hl. apply keeps_action. intros w. apply Hl. Qed.

(** A transaction of two statements takes effect as a whole or not at all,
    also when the client sees an error from the commit. *)
Lemma txn2_cases {X Y R} (s1 : stmt X) (s2 : X -> stmt Y)
    (k : X -> result unit -> prog (result R)) w r w' :
  run (let? t := pg_begin in
       let? r1 := pg_tx t s1 in
       let? r2 := pg_tx r1.2 (s2 r1.1) in
       bind (pg_commit r2.2) (k r1.1)) w = Done r w' ->
  (exists e, r = Err e /\ view w' = view w) \/
  exists x c w2, run (k x c) w2 = Done r w' /\
    w_pool w2 = w_pool w /\ sent_log (w_hist w2) = sent_log (w_hist w) /\
    ((is_ok c = false /\ w_db w2 = w_db w) \/
     exists now h1 h2 y db1, s1 (StmtEnv now (env_uuid h1)) (w_db w) = Ok (x, db1) /\
       s2 x (StmtEnv now (env_uuid h2)) db1 = Ok (y, w_db w2)).
Proof.
  intros ([t|e] & w1 & H1 & H)%bind_Done.
  2:{ injection H as <- <-. left. exists e. split; [done|].
      eapply (keeps_Done view); [|exact H1]. by apply pg_begin_keeps. }
  apply pg_begin_ok in H1 as [-> ->].
  apply bind_Done in H as ([r1|e] & w2 & H2 & H).
  2:{ injection H as <- <-. left. exists e. split; [done|].
      eapply (keeps_Done view) in H2; [exact H2|]. by apply pg_tx_keeps. }
  apply pg_tx_ok in H2 as (u1 & E1 & -> & -> & db1 & db2 & [= <-] & S1).
  apply bind_Done in H as ([r2|e] & w3 & H3 & H).
  2:{ injection H as <- <-. left. exists e. split; [done|].
      eapply (keeps_Done view) in H3; [exact H3|]. by apply pg_tx_keeps. }
  apply pg_tx_ok in H3 as (u2 & E2 & -> & -> & db3 & db4 & A3 & S2).
  rewrite E1 in A3, S2. simpl in A3, S1, S2. rewrite S1 in A3. injection A3 as <-.
  apply bind_Done in H as (c & w4 & H4 & H). right. exists r1.1, c, w4. split; [done|].
  unfold pg_commit in H4. rewrite run_action, E2, E1 in H4. simpl in H4.
  rewrite S1, S2 in H4.
  destruct (env_pg_fate _) as [|[] e]; simpl in H4; injection H4 as <- <-; simpl;
    (do 2 (split; [done|])); first [by left|right; eauto 10].
Qed.

(** A relation on the tables that a statement respects. *)
Lemma pg_ends {X} (R : world -> world -> Prop) `{!PreOrder R} (s : stmt X) :
  (forall w w', w_db w' = w_db w -> R w w') ->
  (forall se w w' x, s se (w_db w) = Ok (x, w_db w') -> R w w') ->
  ends R (pg s).
Proof.
  intros Hr Hs. apply (all_steps_ends R). apply all_steps_action. intros w.
  destruct (env_pg_fate (w_hist w)) as [|[] e], (s (env_stmt w) (w_db w)) as [[x db']|e'] eqn:E;
    simpl; first [by apply Hr | by eapply Hs].
Qed.

Lemma txn2_ends {X Y R} (T : world -> world -> Prop) `{!PreOrder T} (s1 : stmt X) (s2 : X -> stmt Y)
    (k : X -> result unit -> prog (result R)) :
  (forall w w', w_db w' = w_db w -> T w w') ->
  (forall se1 se2 w w' x y db1, s1 se1 (w_db w) = Ok (x, db1) ->
     s2 x se2 db1 = Ok (y, w_db w') -> T w w') ->
  (forall x c, ends T (k x c)) -> (forall x c, total (k x c)) ->
  ends T (let? t := pg_begin in
          let? r1 := pg_tx t s1 in
          let? r2 := pg_tx r1.2 (s2 r1.1) in
          bind (pg_commit r2.2) (k r1.1)).
Proof.
  intros Hr Hs Hk Ht w.
  match goal with |- context [run ?p w] => set (q := p) end.
  destruct (total_run q w) as (r & w' & E).
  { unfold q. apply total_bind; [apply total_action|]. intros [t|e]; [|done].
    apply total_bind; [apply total_action|]. intros [r1|e]; [|done].
    apply total_bind; [apply total_action|]. intros [r2|e]; [|done].
    apply total_bind; [apply total_action|]. intros c. apply Ht. }
  rewrite E. apply txn2_cases in E as [(e & _ & [= Hd _ _])|(x & c & w2 & Hrun & _ & _ & Hdb)].
  { by apply Hr. }
  transitivity w2; [|by eapply ends_Done].
  destruct Hdb as [[_ Hd]|(now & h1 & h2 & y & db1 & S1 & S2)]; [by apply Hr|by eapply Hs].
Qed.
(** When the server answers and both statements apply, the transaction
    commits. *)
Lemma txn2_serves {X Y} (s1 : stmt X) (s2 : X -> stmt Y) w :
  (forall h, env_pg_fate h = PgServe) ->
  (forall se, exists x db1, s1 se (w_db w) = Ok (x, db1) /\
     forall se', exists y db2, s2 x se' db1 = Ok (y, db2)) ->
  exists w', run (let? t := pg_begin in
                  let? r1 := pg_tx t s1 in
                  let? r2 := pg_tx r1.2 (s2 r1.1) in
                  pg_commit r2.2) w = Done (Ok tt) w'.
Proof.
  intros Hs Hok. unfold pg_begin, pg_tx, pg_commit.
  rewrite run_bind, run_action, Hs. cbn [fst snd].
  rewrite run_bind, run_action. cbn [fst snd w_hist w_db log txn_apply txn_now]. rewrite Hs.
  match goal with |- context [s1 ?se _] => destruct (Hok se) as (x & db1 & E1 & Hok2) end.
  rewrite E1. cbn [fst snd].
  rewrite run_bind, run_action. cbn [fst snd w_hist w_db log txn_apply txn_now txn_then].
  rewrite Hs, E1.
  match goal with |- context [s2 x ?se db1] => destruct (Hok2 se) as (y & db2 & E2) end.
  rewrite E2. rewrite run_action. cbn [fst snd w_hist w_db log txn_apply txn_now txn_then].
  rewrite Hs, E1, E2. by eexists.
Qed.
End actions.

#[export] Hint Resolve pg_keeps pg_select_keeps pg_select_view pg_begin_keeps pg_tx_keeps pg_commit_keeps
  time_Now_keeps rand_Read_keeps http_Do_keeps : txmill.
