(* ===== verification/Chain.v ===== *)
(** * The RPC client ([internal/chain])

    [chain.Client] forwards to an [ethclient]; the node's answers come from the
    environment.  [uint64] answers are read at their width. *)

From Stdlib Require Import ZArith Lia.
From S2P Require Import Prelude GoLib Eth Database World.

Local Open Scope Z_scope.
Local Open Scope txmill_scope.

Record Client := MkClient { cl_chainID : Z }.

Section client.
Context `{Env : Environment}.

Definition rpc {X} (e : event) (answer : history -> X) : prog X :=
  action (fun w => (answer (w_hist w), log e w)).

Definition rpc_DialContext (url : string) : prog (result unit) :=
  rpc (EvDial url) (fun h => match env_dial h url with Some e => Err e | None => Ok tt end).
Definition rpc_Close : prog unit := rpc EvRpcClose (fun _ => tt).
Definition rpc_ChainID : prog (result Z) := rpc EvChainID env_ChainID.

Definition Dial (rpcURL : string) (expectedChainID : Z) : prog (result Client) :=
  let? _u := rpc_DialContext rpcURL or "chain: dial" in
  let! r := rpc_ChainID in
  match r with
  | Err e => do! rpc_Close in Ret (Err (EWrap "chain: chain id" e))
  | Ok got =>
      if negb (got =? expectedChainID) then
        do! rpc_Close in
        Ret (Err (EText ("chain: chain id mismatch: rpc=" +:+ bigint_String got
                         +:+ " want=" +:+ bigint_String expectedChainID)))
      else Ret (Ok (MkClient got))
  end.

Definition ChainID (c : Client) : Z := cl_chainID c.

Definition u64_result (r : result Z) : result Z :=
  match r with Ok z => Ok (u64 z) | Err e => Err e end.

Definition BalanceAt (a : address) : prog (result Z) :=
  rpc (EvBalanceAt a) (fun h => env_BalanceAt h a).

Definition PendingNonceAt (a : address) : prog (result Z) :=
  rpc (EvPendingNonceAt a) (fun h => u64_result (env_PendingNonceAt h a)).

Definition SuggestGasPrice : prog (result Z) := rpc EvSuggestGasPrice env_SuggestGasPrice.

Definition EstimateGas (m : call_msg) : prog (result Z) :=
  rpc (EvEstimateGas m) (fun h => u64_result (env_EstimateGas h m)).

(** The history records whether the node took the transaction in and whether
    it answered without an error. *)
Definition SendTransaction (s : signed_tx) : prog (result unit) := action (fun w =>
  (env_SendTransaction (w_hist w) s,
   log (EvSendTransaction s (env_accepts (w_hist w) s) (is_ok (env_SendTransaction (w_hist w) s))) w)).

Definition TransactionReceipt (h : hash) : prog (result receipt) :=
  rpc (EvTransactionReceipt h) (fun hist => env_TransactionReceipt hist h).

Definition CallContract (m : call_msg) (block : Z) : prog (result string) :=
  rpc (EvCallContract m block) (fun hist => env_CallContract hist m block).

(** A call to the node changes nothing in the program's own state. *)
Lemma rpc_keeps {X B} (g : world -> B) e (answer : history -> X) :
  (forall w, g (log e w) = g w) -> keeps g (rpc e answer).
Proof. intros Hl. apply keeps_action. intros w. apply Hl. Qed.

Lemma SendTransaction_keeps {B} (g : world -> B) s :
  (forall b c w, g (log (EvSendTransaction s b c) w) = g w) -> keeps g (SendTransaction s).
Proof. intros Hl. apply keeps_action. intros w. apply Hl. Qed.

(** A client that was dialled serves exactly the configured chain. *)
Lemma Dial_chain url expected w c w' :
  run (Dial url expected) w = Done (Ok c) w' -> ChainID c = expected.
Proof.
  unfold Dial, rpc_DialContext, rpc_ChainID, rpc_Close, rpc, action. simpl.
  destruct (env_dial _ _); simpl; [done|].
  destruct (env_ChainID _) as [got|e]; simpl; [|done].
  destruct (Z.eqb_spec got expected); simpl; [|done]. by intros [= <- _].
Qed.

(** [Dial] returns; it succeeds only when the node reported the configured
    chain. *)
Lemma Dial_spec url expected w :
  exists c w', run (Dial url expected) w = Done c w' /\ view w' = view w /\
    match c with
    | Ok cl => cl = MkClient expected /\ exists h, env_ChainID h = Ok expected
    | Err _ => True
    end.
Proof.
  unfold Dial, rpc_DialContext, rpc_ChainID, rpc_Close, rpc, action. simpl.
  destruct (env_dial _ _); simpl; [do 2 eexists; by auto|].
  destruct (env_ChainID _) as [got|e] eqn:E; simpl; [|do 2 eexists; by auto].
  destruct (Z.eqb_spec got expected) as [->|]; simpl; do 2 eexists; eauto.
Qed.
End client.

#[export] Hint Resolve rpc_keeps SendTransaction_keeps : txmill.
#[export] Hint Unfold BalanceAt PendingNonceAt SuggestGasPrice EstimateGas TransactionReceipt
  CallContract rpc_DialContext rpc_Close rpc_ChainID : txmill.

(** ** What an answer to a broadcast means *)

(** A node that answers a broadcast without error has the transaction. *)
Class NodeAccepts `{Environment} := {
  send_ok h s u : env_SendTransaction h s = Ok u -> env_accepts h s = true;
}.
