(* ===== verification/SignerPool.v ===== *)
(** * The signer pool ([internal/signer])

    [Signer] holds an address, its key and an atomic nonce counter; [Pool]
    keeps, per app, the signers and a buffered channel of the idle ones.  Every
    critical section of the mutex, every channel operation and every atomic
    counter operation is one action.  The keystore and the signer list are
    interfaces here, as in the source. *)

From Stdlib Require Import ZArith Lia.
From S2P Require Import Prelude GoLib Eth Database World Chain.

Local Open Scope Z_scope.
Local Open Scope txmill_scope.
#[local] Arguments Nat.ltb : simpl never.

(** [signer.Keystore] and [signer.SignerLister] *)
Class KeystoreLoader := {
  ks_Load : address -> prog (result private_key);
}.
Class SignerLister := {
  lister_ListSigners : string -> prog (result (list address));
}.

(** What the pool relies on: the two interfaces change neither the tables nor
    the pool and send nothing. *)
Class KeystoreFrame `{KeystoreLoader} := {
  ks_Load_view a : keeps view (ks_Load a);
}.
Class ListerFrame `{SignerLister} := {
  lister_view app : keeps view (lister_ListSigners app);
}.

Lemma ks_Load_keeps `{KeystoreFrame} a : keeps w_pool (ks_Load a).
Proof. apply keeps_view_pool, ks_Load_view. Qed.
Lemma lister_keeps `{ListerFrame} app : keeps w_pool (lister_ListSigners app).
Proof. apply keeps_view_pool, lister_view. Qed.
#[export] Hint Resolve ks_Load_view lister_view : txmill.

(** ** [Signer] *)

Definition set_nonce (n : Z) (s : signer) : signer :=
  Signer (sg_AppID s) (sg_Address s) (sg_Key s) n.

(** [s.nonce.Load()] *)
Definition Nonce (s : signer) : Z := sg_nonce s.

(** [s.nonce.Add(1) - 1]: the counter and the result wrap at 64 bits. *)
Definition UseNonce (s : signer) : Z * signer :=
  let n := u64 (sg_nonce s + 1) in (u64 (n - 1), set_nonce n s).

(** [s.nonce.Add(^uint64(0))] *)
Definition RewindNonce (s : signer) : signer :=
  set_nonce (u64 (sg_nonce s + (2 ^ 64 - 1))) s.

(** [s.nonce.Store(n)], [n] a [uint64] *)
Definition ResetNonce (n : Z) (s : signer) : signer := set_nonce (u64 n) s.

(** ** Shared pool state *)

Definition map_heap (f : gmap ptr signer -> gmap ptr signer) (pl : pool) : pool :=
  Pool (f (pl_heap pl)) (pl_next pl) (pl_apps pl).

Definition set_app (app : string) (ap : appPool) (pl : pool) : pool :=
  Pool (pl_heap pl) (pl_next pl) (<[app := ap]> (pl_apps pl)).

Definition pool_action {X} (f : pool -> X * pool) : prog X := action (fun w =>
  let r := f (w_pool w) in (r.1, set_pool r.2 w)).

Lemma run_pool_action {X} (f : pool -> X * pool) w :
  run (pool_action f) w = Done (f (w_pool w)).1 (set_pool (f (w_pool w)).2 w).
Proof. reflexivity. Qed.

(** Pool actions touch the pool only. *)
Definition outside (w : world) : database * list (signed_tx * bool) := (w_db w, sent_log (w_hist w)).

Lemma keeps_view_outside {A} (p : prog A) : keeps view p -> keeps outside p.
Proof. apply (keeps_compose (fun v => (v.1.1, v.2)) view). Qed.

Lemma pool_action_outside {X} (f : pool -> X * pool) : keeps outside (pool_action f).
Proof. by apply keeps_action. Qed.
#[export] Hint Resolve keeps_view_outside pool_action_outside : txmill.

(** [&Signer{...}] *)
Definition alloc (s : signer) : prog ptr := pool_action (fun pl =>
  (pl_next pl, Pool (<[pl_next pl := s]> (pl_heap pl)) (S (pl_next pl)) (pl_apps pl))).

(** A field access through the pointer. *)
Definition deref (p : ptr) : prog signer :=
  let! o := pool_action (fun pl => (pl_heap pl !! p, pl)) in
  match o with
  | Some s => Ret s
  | None => Panic "invalid memory address or nil pointer dereference"
  end.

Lemma deref_outside p : keeps outside (deref p).
Proof. apply keeps_bind; [apply pool_action_outside|]. by intros [?|]. Qed.

(** The atomic counter operations through the pointer. *)
Definition use_nonce_at (p : ptr) : prog Z := pool_action (fun pl =>
  match pl_heap pl !! p with
  | Some s => let r := UseNonce s in (r.1, map_heap <[p := r.2]> pl)
  | None => (0, pl)
  end).

Definition rewind_nonce_at (p : ptr) : prog unit := pool_action (fun pl =>
  (tt, map_heap (alter RewindNonce p) pl)).

(** ** [Pool] *)

(** [signer.Pool], what it was made with; the loaded pools, none at first
    ([empty_pool]), are the world's. *)
Record SignerPool := MkSignerPool {
  sp_keystore : KeystoreLoader;
  sp_chain : Client;
  sp_lister : SignerLister;
}.

Definition NewPool (ks : KeystoreLoader) (ch : Client) (lister : SignerLister) : SignerPool :=
  MkSignerPool ks ch lister.

(** [_, ok := p.apps[appID]] under the mutex *)
Definition app_loaded (appID : string) : prog bool := pool_action (fun pl =>
  (bool_decide (is_Some (pl_apps pl !! appID)), pl)).

(** The second critical section of [Load]: install unless somebody did. *)
Definition install (appID : string) (ps : list ptr) : prog (result unit) :=
  pool_action (fun pl =>
    match pl_apps pl !! appID with
    | Some _ => (Ok tt, pl)
    | None => (Ok tt, set_app appID (AppPool ps ps) pl)
    end).

Section pool.
Context `{Env : Environment} `{Eth : GoEthereum}.
Context `{KS : !KeystoreLoader} `{LS : !SignerLister}.

(** The loop of [Load]: the signers are appended to the slice and sent to
    the idle channel in the same order. *)
Fixpoint load_signers (appID : string) (addrs : list address) (signers : list ptr)
    : prog (result (list ptr)) :=
  match addrs with
  | [] => Ret (Ok signers)
  | addr :: rest =>
      let! k := ks_Load addr in
      match k with
      | Err e => Ret (Err (EWrap ("load key " +:+ Address_Hex addr) e))
      | Ok key =>
          let! n := PendingNonceAt addr in
          match n with
          | Err e => Ret (Err (EWrap ("nonce " +:+ Address_Hex addr) e))
          | Ok nonce =>
              let! p := alloc (ResetNonce nonce (Signer appID addr key 0)) in
              load_signers appID rest (signers ++ [p])
          end
      end
  end.

Definition Load (appID : string) : prog (result unit) :=
  let! ok := app_loaded appID in
  if ok then Ret (Ok tt)
  else
    let? addrs := lister_ListSigners appID or "list signers" in
    match addrs with
    | [] => Ret (Err (EText ("no signers for app " +:+ appID)))
    | _ =>
        let? signers := load_signers appID addrs [] in
        install appID signers
    end.

(** The [select] of [Checkout]: it waits until a signer is idle or the
    context is done; when both are ready either branch may be taken. *)
Definition recv_idle (appID : string) : prog (result ptr) := waiting (fun w =>
  match pl_apps (w_pool w) !! appID with
  | None => None
  | Some ap =>
      match ap_idle ap with
      | [] =>
          if env_ctx_done (w_hist w) then Some (Err (ESentinel CtxDone), w) else None
      | s :: rest =>
          if env_ctx_done (w_hist w) && negb (env_select (w_hist w))
          then Some (Err (ESentinel CtxDone), w)
          else Some (Ok s, set_pool (set_app appID (AppPool (ap_signers ap) rest) (w_pool w)) w)
      end
  end).

Definition Checkout (appID : string) : prog (result ptr) :=
  let! ok := app_loaded appID in
  if ok then recv_idle appID else Ret (Err (ESentinel ErrAppNotLoaded)).

(** [ap.idle <- s]: waits while the buffer is full. *)
Definition send_idle (appID : string) (s : ptr) : prog unit := waiting (fun w =>
  match pl_apps (w_pool w) !! appID with
  | None => None
  | Some ap =>
      if Nat.ltb (length (ap_idle ap)) (length (ap_signers ap))
      then Some (tt, set_pool (set_app appID
                   (AppPool (ap_signers ap) (ap_idle ap ++ [s])) (w_pool w)) w)
      else None
  end).

Definition Release (s : ptr) : prog unit :=
  let! sg := deref s in
  let! ok := app_loaded (sg_AppID sg) in
  if ok then send_idle (sg_AppID sg) s else Ret tt.

Definition Size (appID : string) : prog nat := pool_action (fun pl =>
  (match pl_apps pl !! appID with
   | None => 0%nat
   | Some ap => length (ap_signers ap)
   end, pl)).
End pool.

(** ** The nonce counter *)

Lemma UseNonce_result s : in_u64 (sg_nonce s) -> (UseNonce s).1 = sg_nonce s.
Proof.
  intros H. unfold UseNonce. simpl. rewrite u64_sub_l.
  replace (sg_nonce s + 1 - 1) with (sg_nonce s) by lia. by apply u64_small.
Qed.

Lemma RewindNonce_nonce s : sg_nonce (RewindNonce s) = u64 (sg_nonce s - 1).
Proof.
  unfold RewindNonce, u64. simpl.
  replace (sg_nonce s + (2 ^ 64 - 1)) with (sg_nonce s - 1 + 1 * 2 ^ 64) by lia.
  by rewrite Z.mod_add.
Qed.

Lemma Rewind_Use s : in_u64 (sg_nonce s) -> RewindNonce (UseNonce s).2 = s.
Proof.
  intros H. destruct s as [app addr key n]. simpl in *. unfold UseNonce; simpl.
  unfold RewindNonce, set_nonce; simpl. f_equal. unfold u64.
  replace ((n + 1) mod 2 ^ 64 + (2 ^ 64 - 1)) with
    ((n + 1) mod 2 ^ 64 - 1 + 1 * 2 ^ 64) by lia.
  rewrite Z.mod_add by lia. rewrite Zminus_mod_idemp_l.
  replace (n + 1 - 1) with n by lia. by apply Z.mod_small.
Qed.

(** ** The pool invariant

    [held app] lists the signers of [app] that are checked out.  Idle and
    held signers together are exactly the app's signers, without repetition. *)

Definition owned (pl : pool) (app : string) (p : ptr) : Prop :=
  exists s, pl_heap pl !! p = Some s /\ sg_AppID s = app.

Record pool_inv (pl : pool) (held : string -> list ptr) : Prop := {
  pi_nodup app ap : pl_apps pl !! app = Some ap -> NoDup (ap_signers ap);
  pi_split app ap : pl_apps pl !! app = Some ap ->
    ap_idle ap ++ held app ≡ₚ ap_signers ap;
  pi_owned app ap : pl_apps pl !! app = Some ap ->
    Forall (owned pl app) (ap_signers ap);
  pi_unloaded app : pl_apps pl !! app = None -> held app = [];
  pi_next p : is_Some (pl_heap pl !! p) -> (p < pl_next pl)%nat;
  pi_nonce p s : pl_heap pl !! p = Some s -> in_u64 (sg_nonce s);
}.

Definition upd (held : string -> list ptr) (app : string) (l : list ptr) : string -> list ptr :=
  fun a => if decide (a = app) then l else held a.

Lemma upd_eq held app l : upd held app l app = l.
Proof. unfold upd. by rewrite decide_True. Qed.
Lemma upd_ne held app app' l : app' <> app -> upd held app l app' = held app'.
Proof. intros. unfold upd. by rewrite decide_False. Qed.

Lemma empty_pool_inv : pool_inv empty_pool (fun _ => []).
Proof.
  split; simpl; intros *; rewrite ?lookup_empty; try done.
Qed.

(** A held signer belongs to its app. *)
Lemma held_owned pl held app p :
  pool_inv pl held -> p ∈ held app -> owned pl app p.
Proof.
  intros Hinv Hp. destruct (pl_apps pl !! app) as [ap|] eqn:E.
  - pose proof (pi_owned _ _ Hinv _ _ E) as Ho. rewrite Forall_forall in Ho.
    apply Ho. rewrite <- (pi_split _ _ Hinv _ _ E). set_solver.
  - rewrite (pi_unloaded _ _ Hinv _ E) in Hp. by apply not_elem_of_nil in Hp.
Qed.

(** Two apps never share a signer object. *)
Lemma owned_app pl app app' p : owned pl app p -> owned pl app' p -> app = app'.
Proof. intros [s [E1 H1]] [s' [E2 H2]]. congruence. Qed.

(** Replacing one app's idle list and held list, keeping their union. *)
Lemma pool_inv_set_app pl held app ap idle l :
  pool_inv pl held -> pl_apps pl !! app = Some ap ->
  idle ++ l ≡ₚ ap_idle ap ++ held app ->
  pool_inv (set_app app (AppPool (ap_signers ap) idle) pl) (upd held app l).
Proof.
  intros Hinv Hap Hperm.
  assert (forall a b, pl_apps (set_app app (AppPool (ap_signers ap) idle) pl) !! a = Some b ->
    exists c, pl_apps pl !! a = Some c /\ ap_signers b = ap_signers c /\
      ap_idle b ++ upd held app l a ≡ₚ ap_idle c ++ held a) as Hold.
  { intros a b. simpl. destruct (decide (a = app)) as [->|Hne].
    - rewrite lookup_insert_eq, upd_eq. intros [= <-]. eauto.
    - rewrite lookup_insert_ne, upd_ne by done. eauto. }
  split; try apply Hinv.
  - intros a b (c & Hc & -> & _)%Hold. exact (pi_nodup _ _ Hinv _ _ Hc).
  - intros a b (c & Hc & -> & ->)%Hold. exact (pi_split _ _ Hinv _ _ Hc).
  - intros a b (c & Hc & -> & _)%Hold. exact (pi_owned _ _ Hinv _ _ Hc).
  - intros a. simpl. destruct (decide (a = app)) as [->|Hne].
    + by rewrite lookup_insert_eq.
    + rewrite lookup_insert_ne, upd_ne by done. apply (pi_unloaded _ _ Hinv).
Qed.

(** ** Checkout *)

Section theorems.
Context `{Env : Environment} `{Eth : GoEthereum}.
Context `{KS : !KeystoreLoader} `{LS : !SignerLister}.

Lemma run_app_loaded app w :
  run (app_loaded app) w =
  Done (bool_decide (is_Some (pl_apps (w_pool w) !! app))) w.
Proof. destruct w. reflexivity. Qed.

Lemma run_Checkout app w :
  run (Checkout app) w =
  match pl_apps (w_pool w) !! app with
  | None => Done (Err (ESentinel ErrAppNotLoaded)) w
  | Some ap =>
      match ap_idle ap with
      | [] => if env_ctx_done (w_hist w) then Done (Err (ESentinel CtxDone)) w
              else Blocked w
      | p :: rest =>
          if env_ctx_done (w_hist w) && negb (env_select (w_hist w))
          then Done (Err (ESentinel CtxDone)) w
          else Done (Ok p)
                 (set_pool (set_app app (AppPool (ap_signers ap) rest) (w_pool w)) w)
      end
  end.
Proof.
  unfold Checkout. rewrite run_bind, run_app_loaded.
  destruct (pl_apps (w_pool w) !! app) as [ap|] eqn:E; simpl; [|done].
  rewrite E. destruct (ap_idle ap); [by destruct (env_ctx_done _)|].
  by destruct (env_ctx_done _ && _).
Qed.

Lemma Checkout_inv held app w p w' :
  pool_inv (w_pool w) held ->
  run (Checkout app) w = Done (Ok p) w' ->
  (p ∉ held app) /\ owned (w_pool w') app p /\
  pool_inv (w_pool w') (upd held app (p :: held app)).
Proof.
  intros Hinv. rewrite run_Checkout.
  destruct (pl_apps (w_pool w) !! app) as [ap|] eqn:E; [|done].
  destruct (ap_idle ap) as [|q rest] eqn:Ei; [by destruct (env_ctx_done _)|].
  destruct (env_ctx_done _ && _); [done|]. intros [= <- <-].
  pose proof (pi_split _ _ Hinv _ _ E) as Hs. rewrite Ei in Hs.
  pose proof (pi_nodup _ _ Hinv _ _ E) as Hnd. rewrite <- Hs in Hnd.
  simpl in Hnd. apply NoDup_cons in Hnd as [Hq _].
  split; [set_solver|]. split.
  - pose proof (pi_owned _ _ Hinv _ _ E) as Ho. rewrite Forall_forall in Ho.
    apply Ho. rewrite <- Hs. set_solver.
  - simpl. apply pool_inv_set_app; [done..|]. rewrite Ei. simpl.
    by rewrite Permutation_middle.
Qed.

(** ** Release *)

Lemma run_Release p w :
  run (Release p) w =
  match pl_heap (w_pool w) !! p with
  | None => Panicked "invalid memory address or nil pointer dereference" w
  | Some s =>
      match pl_apps (w_pool w) !! sg_AppID s with
      | None => Done tt w
      | Some ap =>
          if Nat.ltb (length (ap_idle ap)) (length (ap_signers ap))
          then Done tt (set_pool (set_app (sg_AppID s)
                 (AppPool (ap_signers ap) (ap_idle ap ++ [p])) (w_pool w)) w)
          else Blocked w
      end
  end.
Proof.
  unfold Release, deref. rewrite !run_bind, run_pool_action.
  destruct w as [db pl fs th h]; cbn.
  destruct (pl_heap pl !! p) as [s|]; cbn; [|done].
  destruct (pl_apps pl !! sg_AppID s) as [ap|] eqn:E; cbn; [|done].
  rewrite E. by destruct (Nat.ltb (length (ap_idle ap)) (length (ap_signers ap))).
Qed.

Lemma Release_inv held app p rest w :
  pool_inv (w_pool w) held -> held app ≡ₚ p :: rest ->
  exists w', run (Release p) w = Done tt w' /\
    pool_inv (w_pool w') (upd held app rest) /\
    w_db w' = w_db w /\ w_hist w' = w_hist w /\
    pl_heap (w_pool w') = pl_heap (w_pool w).
Proof.
  intros Hinv Hheld.
  destruct (held_owned _ _ app p Hinv) as [s [Hs Happ]]; [rewrite Hheld; set_solver|].
  rewrite run_Release, Hs, Happ.
  destruct (pl_apps (w_pool w) !! app) as [ap|] eqn:E.
  2:{ rewrite (pi_unloaded _ _ Hinv _ E) in Hheld. by apply Permutation_nil_cons in Hheld. }
  pose proof (pi_split _ _ Hinv _ _ E) as Hsp.
  assert (length (ap_idle ap) < length (ap_signers ap))%nat as Hlt.
  { rewrite <- Hsp, length_app, Hheld. simpl. lia. }
  apply Nat.ltb_lt in Hlt. rewrite Hlt. eexists. split; [done|].
  split; [|done]. simpl. apply pool_inv_set_app; [done..|].
  by rewrite Hheld, <- app_assoc.
Qed.
End theorems.

(** ** Load *)

(** The heap only gained objects: what loading does before the install. *)
Definition grows (w w' : world) : Prop :=
  let pl := w_pool w in let pl' := w_pool w' in
  pl_apps pl' = pl_apps pl /\ (pl_next pl <= pl_next pl')%nat /\
  (forall p, (p < pl_next pl)%nat -> pl_heap pl' !! p = pl_heap pl !! p) /\
  (forall p s, (pl_next pl <= p)%nat -> pl_heap pl' !! p = Some s ->
     pl_heap pl !! p = Some s \/ ((p < pl_next pl')%nat /\ in_u64 (sg_nonce s))).

#[export] Instance grows_preorder : PreOrder grows.
Proof.
  split.
  - intros w. unfold grows. repeat split; auto.
  - intros w1 w2 w3 (A1 & N1 & H1 & F1) (A2 & N2 & H2 & F2). unfold grows.
    repeat split; [congruence|lia| |].
    + intros p Hp. rewrite H2 by lia. by apply H1.
    + intros p s Hp Hs. destruct (decide (p < pl_next (w_pool w2))%nat) as [Hlt|Hge].
      * rewrite H2 in Hs by done. destruct (F1 p s Hp Hs) as [?|[? ?]]; [by left|].
        right. split; [lia|done].
      * destruct (F2 p s ltac:(lia) Hs) as [Hs'|[? ?]]; [|by right].
        destruct (F1 p s Hp Hs') as [?|[? ?]]; [by left|lia].
Qed.

Lemma grows_same w w' : w_pool w' = w_pool w -> grows w w'.
Proof. unfold grows. intros ->. repeat split; auto. Qed.

Lemma keeps_grows {A} (p : prog A) : keeps w_pool p -> all_steps grows p.
Proof. apply all_steps_impl. intros w w' H. by apply grows_same. Qed.

Lemma grows_inv w w' held :
  grows w w' -> pool_inv (w_pool w) held -> pool_inv (w_pool w') held.
Proof.
  intros (Ha & Hn & Hh & Hf) Hinv.
  assert (forall app p, owned (w_pool w) app p -> owned (w_pool w') app p) as Hown.
  { intros app p [s [Hs Hs']]. exists s. split; [|done].
    rewrite Hh; [done|]. by apply (pi_next _ _ Hinv). }
  split; rewrite ?Ha.
  - apply (pi_nodup _ _ Hinv).
  - apply (pi_split _ _ Hinv).
  - intros app ap Hap. eapply Forall_impl; [exact (pi_owned _ _ Hinv _ _ Hap)|]. auto.
  - apply (pi_unloaded _ _ Hinv).
  - intros p [s Hs]. destruct (decide (p < pl_next (w_pool w))%nat); [lia|].
    destruct (Hf p s ltac:(lia) Hs) as [Hs'|[? ?]]; [|done].
    pose proof (pi_next _ _ Hinv p (ex_intro _ s Hs')). lia.
  - intros p s Hs. destruct (decide (p < pl_next (w_pool w))%nat) as [Hlt|Hge].
    + rewrite Hh in Hs by done. by apply (pi_nonce _ _ Hinv p).
    + destruct (Hf p s ltac:(lia) Hs) as [Hs'|[? ?]]; [|done].
      by apply (pi_nonce _ _ Hinv p).
Qed.

Section load.
Context `{Env : Environment} `{Eth : GoEthereum}.
Context `{KS : !KeystoreLoader} `{LS : !SignerLister}.
Context `{KSF : !KeystoreFrame} `{LSF : !ListerFrame}.

Lemma alloc_grows app a k n : all_steps grows (alloc (ResetNonce n (Signer app a k 0))).
Proof.
  apply all_steps_action. intros w. unfold grows. simpl. repeat split; [lia| |].
  - intros p Hp. rewrite lookup_insert_ne; [done|lia].
  - intros p s Hp. destruct (decide (p = pl_next (w_pool w))) as [->|Hne].
    + rewrite lookup_insert_eq. intros [= <-]. right. split; [lia|apply u64_range].
    + rewrite lookup_insert_ne by done. by left.
Qed.

Lemma load_signers_grows app addrs acc : all_steps grows (load_signers app addrs acc).
Proof.
  revert acc. induction addrs as [|a addrs IH]; intros acc; [done|].
  cbn [load_signers]. apply all_steps_bind; [apply keeps_grows, ks_Load_keeps|]. intros [k|e]; [|done].
  apply all_steps_bind; [by apply keeps_grows, rpc_keeps|]. intros [n|e]; [|done].
  apply all_steps_bind; [apply alloc_grows|]. intros p. apply IH.
Qed.

(** The signer objects the loop made: one per address, in order, each with
    the key of the address and its nonce counter at the node's answer. *)
Definition loaded_as (pl : pool) (app : string) (p : ptr) (a : address) : Prop :=
  exists s, pl_heap pl !! p = Some s /\ sg_AppID s = app /\ sg_Address s = a.

Lemma load_signers_spec app addrs acc w ps w' :
  run (load_signers app addrs acc) w = Done (Ok ps) w' ->
  exists qs, ps = acc ++ qs /\ NoDup qs /\
    Forall (fun q => (pl_next (w_pool w) <= q < pl_next (w_pool w'))%nat) qs /\
    Forall2 (loaded_as (w_pool w') app) qs addrs.
Proof.
  revert acc w. induction addrs as [|a addrs IH]; intros acc w; cbn [load_signers].
  { intros [= <- <-]. exists []. rewrite app_nil_r. repeat constructor. }
  rewrite run_bind. pose proof (keeps_run w_pool (ks_Load a) w (ks_Load_keeps a)) as Hks.
  destruct (run (ks_Load a) w) as [[k|e] w1| |]; try done.
  rewrite run_bind. cbn [run PendingNonceAt rpc action].
  set (w2 := log (EvPendingNonceAt a) w1).
  destruct (u64_result _) as [n|e]; [|done].
  rewrite run_bind. unfold alloc. rewrite run_pool_action. cbn [fst snd].
  set (s := ResetNonce n _). set (w3 := set_pool _ w2). intros Hrun.
  pose proof (all_steps_run grows (load_signers app addrs (acc ++ [pl_next (w_pool w2)]))
                w3 (load_signers_grows _ _ _)) as Hg.
  rewrite Hrun in Hg. destruct Hg as (_ & Hn & Hh & _).
  apply IH in Hrun as (qs & -> & Hnd & Hq & Hl).
  assert (pl_next (w_pool w2) = pl_next (w_pool w)) as Hnext by (simpl; by rewrite Hks).
  assert (pl_next (w_pool w3) = S (pl_next (w_pool w))) as Hnext3 by (simpl; by rewrite Hks).
  exists (pl_next (w_pool w2) :: qs). rewrite <- app_assoc. split; [done|].
  rewrite Hnext, Hnext3 in *. split; [|split].
  - constructor; [|done]. intros Hin. rewrite Forall_forall in Hq.
    apply Hq in Hin. lia.
  - constructor; [lia|]. eapply Forall_impl; [exact Hq|]. simpl. lia.
  - constructor; [|done]. exists s. split; [|done].
    rewrite Hh by lia. simpl. rewrite Hks. apply lookup_insert_eq.
Qed.

Lemma install_inv app qs w r w' held :
  pool_inv (w_pool w) held -> NoDup qs -> Forall (owned (w_pool w) app) qs ->
  run (install app qs) w = Done r w' -> pool_inv (w_pool w') held.
Proof.
  intros Hinv Hnd Hown. unfold install. rewrite run_pool_action.
  destruct (pl_apps (w_pool w) !! app) as [ap|] eqn:E; intros [= _ <-]; [done|].
  assert (forall a b, pl_apps (set_app app (AppPool qs qs) (w_pool w)) !! a = Some b ->
    (a = app /\ b = AppPool qs qs) \/ pl_apps (w_pool w) !! a = Some b) as Hold.
  { intros a b. simpl. destruct (decide (a = app)) as [->|Hne].
    - rewrite lookup_insert_eq. intros [= <-]. by left.
    - rewrite lookup_insert_ne by done. by right. }
  split; try apply Hinv.
  - intros a b [[-> ->]|Hb]%Hold; [done|]. exact (pi_nodup _ _ Hinv _ _ Hb).
  - intros a b [[-> ->]|Hb]%Hold; [|exact (pi_split _ _ Hinv _ _ Hb)].
    simpl. by rewrite (pi_unloaded _ _ Hinv _ E), app_nil_r.
  - intros a b [[-> ->]|Hb]%Hold; [done|]. exact (pi_owned _ _ Hinv _ _ Hb).
  - intros a. simpl. destruct (decide (a = app)) as [->|Hne].
    + by rewrite lookup_insert_eq.
    + rewrite lookup_insert_ne by done. apply (pi_unloaded _ _ Hinv).
Qed.

Lemma loaded_as_owned pl app qs addrs :
  Forall2 (loaded_as pl app) qs addrs -> Forall (owned pl app) qs.
Proof. induction 1 as [|q a qs addrs (s & ? & ? & ?)]; constructor; [by exists s|done]. Qed.

(** [Load] keeps the invariant, whatever its outcome. *)
Lemma Load_inv app w held :
  pool_inv (w_pool w) held ->
  match run (Load app) w with
  | Done _ w' | Panicked _ w' | Blocked w' => pool_inv (w_pool w') held
  end.
Proof.
  intros Hinv. unfold Load. rewrite run_bind, run_app_loaded.
  destruct (bool_decide _); [done|]. rewrite run_bind.
  pose proof (keeps_run w_pool _ w (lister_keeps app)) as Hl.
  destruct (run (lister_ListSigners app) w) as [[addrs|e] w1|m w1|w1];
    simpl; rewrite ?Hl; try done.
  destruct addrs as [|a addrs]; [by rewrite <- Hl in Hinv|]. rewrite run_bind.
  rewrite <- Hl in Hinv.
  pose proof (all_steps_run grows _ w1 (load_signers_grows app (a :: addrs) [])) as Hg.
  destruct (run (load_signers app (a :: addrs) []) w1) as [[ps|e] w2|m w2|w2] eqn:Hrun;
    try (by apply (grows_inv w1)).
  apply load_signers_spec in Hrun as (qs & -> & Hnd & _ & Hqs).
  destruct (run (install app ([] ++ qs)) w2) as [r w3|m w3|w3] eqn:Hi; try done.
  eapply install_inv; [by eapply grows_inv|exact Hnd|by eapply loaded_as_owned|exact Hi].
Qed.

(** What a successful first [Load] installs. *)
Lemma Load_installs app w w' :
  pl_apps (w_pool w) !! app = None ->
  run (Load app) w = Done (Ok tt) w' ->
  exists addrs ap w1, run (lister_ListSigners app) w = Done (Ok addrs) w1 /\
    pl_apps (w_pool w') !! app = Some ap /\ ap_idle ap = ap_signers ap /\
    Forall2 (loaded_as (w_pool w') app) (ap_signers ap) addrs /\ addrs <> [].
Proof.
  intros Hno. unfold Load. rewrite run_bind, run_app_loaded, Hno. simpl.
  rewrite run_bind. pose proof (keeps_run w_pool _ w (lister_keeps app)) as Hl.
  destruct (run (lister_ListSigners app) w) as [[addrs|e] w1|m w1|w1]; try done.
  destruct addrs as [|a addrs]; [done|]. rewrite run_bind.
  pose proof (all_steps_run grows _ w1 (load_signers_grows app (a :: addrs) [])) as Hg.
  destruct (run (load_signers app (a :: addrs) []) w1) as [[ps|e] w2|m w2|w2] eqn:Hrun;
    try done.
  apply load_signers_spec in Hrun as (qs & -> & _ & _ & Hqs).
  destruct Hg as (Ha & _). unfold install. rewrite run_pool_action, Ha, Hl, Hno.
  cbn [fst snd]. intros [= <-]. exists (a :: addrs), (AppPool qs qs), w1. simpl.
  rewrite lookup_insert_eq. eauto.
Qed.

Lemma load_signers_outside app addrs acc : keeps outside (load_signers app addrs acc).
Proof.
  revert acc. induction addrs as [|a addrs IH]; intros acc; [done|].
  cbn [load_signers]. apply keeps_bind; [auto with txmill|]. intros [k|e]; [|done].
  apply keeps_bind; [by apply rpc_keeps|]. intros [n|e]; [|done].
  apply keeps_bind; [apply pool_action_outside|]. intros p. apply IH.
Qed.

Lemma Load_outside app : keeps outside (Load app).
Proof.
  apply keeps_bind; [apply pool_action_outside|]. intros [|]; [done|].
  apply keeps_bind; [auto with txmill|]. intros [[|a addrs]|e]; [done| |done].
  apply keeps_bind; [apply load_signers_outside|]. intros [ps|e]; [|done].
  apply pool_action_outside.
Qed.

Lemma Checkout_outside app : keeps outside (Checkout app).
Proof.
  apply keeps_bind; [apply pool_action_outside|]. intros [|]; [|done].
  split; [|done]. intros w x w' Hw. repeat case_match; by simplify_eq.
Qed.

Lemma Release_outside p : keeps outside (Release p).
Proof.
  apply keeps_bind.
  { apply keeps_bind; [apply pool_action_outside|]. by intros [s|]. }
  intros s. apply keeps_bind; [apply pool_action_outside|]. intros [|]; [|done].
  split; [|done]. intros w x w' Hw. repeat case_match; by simplify_eq.
Qed.
End load.

Lemma pool_inv_ext pl held held' :
  (forall app, held app ≡ₚ held' app) -> pool_inv pl held -> pool_inv pl held'.
Proof.
  intros He Hinv. split; try apply Hinv.
  - intros app ap Hap. rewrite <- He. exact (pi_split _ _ Hinv _ _ Hap).
  - intros app Hap. apply (Permutation_nil_r (held' app)).
    rewrite <- He, (pi_unloaded _ _ Hinv _ Hap). done.
Qed.

(** ** Properties *)

(** The nonce counter: [UseNonce] hands out the current nonce and advances the
    counter by one modulo 2^64, and [RewindNonce] undoes exactly that. *)
Theorem nonce_counter s :
  in_u64 (sg_nonce s) ->
  (UseNonce s).1 = Nonce s /\ Nonce (UseNonce s).2 = u64 (Nonce s + 1) /\
  RewindNonce (UseNonce s).2 = s.
Proof. intros H. split; [by apply UseNonce_result|]. split; [done|]. by apply Rewind_Use. Qed.

Section properties.
Context `{Env : Environment} `{Eth : GoEthereum}.
Context `{KS : !KeystoreLoader} `{LS : !SignerLister}.
Context `{KSF : !KeystoreFrame} `{LSF : !ListerFrame}.

(** C16 Checkout is exclusive and Release gives back: a signer that is checked out
    belongs to the app and was held by nobody; releasing it never waits, puts it
    at the end of the idle queue and restores the set of held signers; the idle
    and the held signers are the app's signers, each exactly once, throughout. *)
Theorem Checkout_Release held app w p w1 :
  pool_inv (w_pool w) held ->
  run (Checkout app) w = Done (Ok p) w1 ->
  (p ∉ held app) /\ owned (w_pool w1) app p /\
  pool_inv (w_pool w1) (upd held app (p :: held app)) /\
  exists w2 ap rest, run (Release p) w1 = Done tt w2 /\ pool_inv (w_pool w2) held /\
    pl_apps (w_pool w) !! app = Some ap /\ ap_idle ap = p :: rest /\
    pl_apps (w_pool w2) !! app = Some (AppPool (ap_signers ap) (rest ++ [p])).
Proof.
  intros Hinv H. pose proof (Checkout_inv held app w p w1 Hinv H) as (Hp & Ho & Hinv1).
  do 3 (split; [done|]).
  destruct (Release_inv (upd held app (p :: held app)) app p (held app) w1 Hinv1)
    as (w2 & Hr & Hinv2 & _); [by rewrite upd_eq|].
  rewrite run_Checkout in H. destruct (pl_apps (w_pool w) !! app) as [ap|] eqn:Ea; [|done].
  destruct (ap_idle ap) as [|q rest] eqn:Ei; [by destruct (env_ctx_done _)|].
  destruct (env_ctx_done _ && _); [done|]. injection H as -> <-.
  exists w2, ap, rest. split; [done|]. split.
  { eapply pool_inv_ext; [|exact Hinv2]. intros a. unfold upd. by case_decide; subst. }
  do 2 (split; [done|]). rewrite run_Release in Hr. destruct Ho as (s & Hs & Happ).
  rewrite Hs, Happ in Hr. simpl in Hr. rewrite lookup_insert_eq in Hr. simpl in Hr.
  destruct (Nat.ltb (length rest) (length (ap_signers ap))); [|done]. injection Hr as <-. simpl.
  by rewrite lookup_insert_eq.
Qed.

(** [Checkout] of a loaded app waits exactly when no signer is idle and the
    context is live; of an app that is not loaded it fails at once. *)
Theorem Checkout_waits app w :
  (run (Checkout app) w = Blocked w <->
   exists ap, pl_apps (w_pool w) !! app = Some ap /\ ap_idle ap = [] /\
     env_ctx_done (w_hist w) = false) /\
  (pl_apps (w_pool w) !! app = None ->
   run (Checkout app) w = Done (Err (ESentinel ErrAppNotLoaded)) w).
Proof.
  rewrite run_Checkout. destruct (pl_apps (w_pool w) !! app) as [ap|].
  - split; [|done]. destruct (ap_idle ap) as [|p rest] eqn:Ei.
    + destruct (env_ctx_done (w_hist w)); split; try done; [|eauto].
      by intros (ap' & [= <-] & _ & ?).
    + destruct (_ && _); (split; [done|]); intros (ap' & [= <-] & ? & _); congruence.
  - split; [|done]. split; [done|]. by intros (ap & ? & _).
Qed.

(** C7 [Load] keeps the pool's invariant whatever its outcome; when it succeeds
    on an app that was not loaded, the app has one signer object per listed
    address, in order, all idle; and loading again changes nothing. *)
Theorem Load_installs_all held app w :
  pool_inv (w_pool w) held ->
  match run (Load app) w with
  | Done r w' =>
      pool_inv (w_pool w') held /\
      (r = Ok tt -> pl_apps (w_pool w) !! app = None ->
       exists addrs ap w1, run (lister_ListSigners app) w = Done (Ok addrs) w1 /\
         pl_apps (w_pool w') !! app = Some ap /\ ap_idle ap = ap_signers ap /\
         Forall2 (loaded_as (w_pool w') app) (ap_signers ap) addrs /\
         run (Load app) w' = Done (Ok tt) w')
  | Panicked _ w' | Blocked w' => pool_inv (w_pool w') held
  end.
Proof.
  intros Hinv. pose proof (Load_inv app w held Hinv) as Hi.
  destruct (run (Load app) w) as [r w'| |] eqn:E; [|done..]. split; [done|].
  intros -> Hno. destruct (Load_installs app w w' Hno E) as (addrs & ap & w1 & H1 & H2 & H3 & H4 & _).
  exists addrs, ap, w1. do 4 (split; [done|]). unfold Load. rewrite run_bind, run_app_loaded, H2. done.
Qed.
End properties.
