(* ===== verification/RefEnv.v ===== *)
(** * A concrete outside world

    Instances of the parameters — a PostgreSQL whose input functions are
    computable, an honest RPC node, a keystore whose key of an address is the
    address itself — on which the theorems are evaluated. *)

From Stdlib Require Import ZArith Lia.
From S2P Require Import Prelude GoLib Eth Database World Chain SignerPool.

Local Open Scope Z_scope.
Local Open Scope txmill_scope.

Export RefEth.

Module RefEnv.
(** ** PostgreSQL *)

(** 8-4-4-4-12 lower-case hexadecimal digits. *)
Definition uuid_check (s : string) : bool :=
  Nat.eqb (String.length s) 36 &&
  all_chars (fun c => lower_hex_char c || Ascii.eqb c "-") s.

Definition uuid_in (s : string) : option string :=
  let t := ToLower s in if uuid_check t then Some t else None.

Definition no_nul (s : string) : bool := all_chars (fun c => negb (Ascii.eqb c "000")) s.

#[export] Instance refPg : Postgres := {
  pg_uuid_in := uuid_in;
  pg_numeric_in s :=
    match SetString10 s with
    | Some z => if Z.abs z <? 10 ^ 78 then Some (Num z) else None
    | None => if String.eqb (ToLower s) "nan" then Some NaN else None
    end;
  pg_jsonb_in s := Some s;
  pg_nullif0_admits z := (- 2 ^ 31 <=? z) && (z <? 2 ^ 31);
  pg_text_ok := no_nul;
}.

#[export] Instance refPgLaws : PostgresLaws.
Proof.
  split; cbn [pg_uuid_in pg_numeric_in refPg].
  - intros s u. unfold uuid_in. destruct (uuid_check (ToLower s)) eqn:E; [|done].
    intros [= <-]. by rewrite ToLower_idemp, E.
  - intros z Hz. rewrite SetString10_String.
    destruct (Z.ltb_spec (Z.abs z) (10 ^ 78)); [done|lia].
  - reflexivity.
Qed.

(** ** The outside *)

Definition uuid_of (n : Z) : string :=
  "00000000-0000-4000-8000-" +:+ digits 12 n "".

Lemma uuid_of_lower n : ToLower (uuid_of n) = uuid_of n.
Proof.
  unfold uuid_of. pose proof (lower_hex_lower _ (digits_check 12 n "" eq_refl)) as Hd.
  revert Hd. generalize (digits 12 n ""). intros d Hd.
  rewrite <- Hd at 2. reflexivity.
Qed.

Lemma uuid_of_check n : uuid_check (uuid_of n) = true.
Proof.
  unfold uuid_check, uuid_of. apply andb_true_iff. split.
  - pose proof (digits_length 12 n "") as Hl. revert Hl. generalize (digits 12 n "").
    intros d Hl. apply Nat.eqb_eq. change (24 + String.length d = 36)%nat. by rewrite Hl.
  - generalize (digits_check 12 n "" eq_refl). generalize (digits 12 n "").
    intros d Hd. simpl. induction d as [|c d IH]; [done|]. simpl in *.
    apply andb_true_iff in Hd as [-> Hd]. by apply IH.
Qed.

Definition count_from (a : address) (txs : list signed_tx) : Z :=
  Z.of_nat (length (List.filter (fun s => bool_decide (stx_from s = a)) txs)).

(** Nanoseconds: one millisecond per interaction, from a fixed instant. *)
Definition clock (h : history) : Z :=
  1700000000 * 10 ^ 9 + Z.of_nat (length h) * 10 ^ 6.

(** An environment in which everything is served.  [status] is the receipt
    status of every accepted transaction, [code] the answer of every HTTP
    peer, [balance] the balance of every account. *)
Definition honest (status code balance : Z) : Environment := {|
  env_now := clock;
  env_zone _ := 0;
  env_pg_now h := clock h / 1000;
  env_uuid h := uuid_of (Z.of_nat (length h));
  env_pg_fate _ := PgServe;
  env_rand h n := Ok (String.concat "" (repeat "r" n));
  env_ctx_done _ := false;
  env_select _ := true;
  env_dial _ _ := None;
  env_ChainID _ := Ok 146;
  env_EstimateGas _ _ := Ok 50000;
  env_SuggestGasPrice _ := Ok 100;
  env_BalanceAt _ _ := Ok balance;
  env_PendingNonceAt h a := Ok (count_from a (accepted_txs h));
  env_SendTransaction _ _ := Ok tt;
  env_accepts _ _ := true;
  env_TransactionReceipt h hh :=
    if existsb (fun s => bool_decide (stx_hash s = hh)) (accepted_txs h)
    then Ok (Receipt status (Some 1234) 21000 (Some 100) (Ok "[]"))
    else Err (ESentinel EthNotFound);
  env_CallContract _ _ _ := Err (EText "execution reverted: out of stock ");
  env_url_ok _ := None;
  env_http _ _ := Ok (HttpResponse code "try later");
|}.

#[export] Instance refEnv : Environment := honest 1 200 5.

#[export] Instance refAccepts status code balance : @NodeAccepts (honest status code balance).
Proof. by split. Qed.

(** The key of an address is its number. *)
#[export] Instance refKs : KeystoreLoader := { ks_Load a := Ret (Ok (word_val a)) }.
#[export] Instance refKsFrame : KeystoreFrame.
Proof. by split. Qed.

#[export] Instance refUuidLaws status code balance :
  @UuidLaws (honest status code balance) refPg.
Proof.
  split. intros h. cbn [env_uuid honest pg_uuid_in refPg]. unfold uuid_in.
  rewrite uuid_of_lower, uuid_of_check. done.
Qed.

(** ** A small database: one app with a top-up policy and two signers. *)

Definition demo_app : string := uuid_of 7.
Definition demo_signer1 : address := addr 4097.
Definition demo_signer2 : address := addr 4098.
Definition demo_treasury : address := addr 9000.

Definition demo_app_row : app_row :=
  {| a_name := "shop"; a_treasury_address := lowerHex demo_treasury;
     a_bearer_token_hash := "hash"; a_pool_size := 2;
     a_default_callback_url := Some "https://shop.example/hook";
     a_default_callback_secret := Some "whsec_demo"; a_disabled := false;
     a_created_at := 0; a_signer_min_balance := Num 10; a_signer_refill_amount := Num 50;
     a_treasury_min_balance := Num 100 |}.

Definition demo_db : database :=
  Database {[ demo_app := demo_app_row ]}
    {[ lowerHex demo_signer1 := SignerRow demo_app 0 None;
       lowerHex demo_signer2 := SignerRow demo_app 0 None ]} ∅ ∅ ∅ ∅.

Definition demo_world : world := World demo_db empty_pool ∅ ∅ [].
End RefEnv.

(** ** Witnesses for the signer pool *)

Module PoolDemo.
Import RefEnv.

#[local] Instance demoLister : SignerLister := {
  lister_ListSigners _ := Ret (Ok [demo_signer1; demo_signer2]);
}.
#[local] Instance demoListerFrame : ListerFrame.
Proof. by split. Qed.

Definition fresh_signer : signer := Signer demo_app demo_signer1 4097 (2 ^ 64 - 1).

(** The last nonce wraps to zero. *)
Lemma nonce_counter_witness :
  Nonce (UseNonce fresh_signer).2 = 0 /\ RewindNonce (UseNonce fresh_signer).2 = fresh_signer.
Proof.
  assert (in_u64 (sg_nonce fresh_signer)) as H by (vm_compute; split; [discriminate|reflexivity]).
  split; [exact (proj1 (proj2 (nonce_counter _ H)))|exact (proj2 (proj2 (nonce_counter _ H)))].
Defined.

Definition loaded_world : world :=
  match run (Load demo_app) demo_world with
  | Done _ w | Panicked _ w | Blocked w => w
  end.

Lemma demo_load : run (Load demo_app) demo_world = Done (Ok tt) loaded_world.
Proof. vm_compute. reflexivity. Qed.

Lemma loaded_inv : pool_inv (w_pool loaded_world) (fun _ => []).
Proof.
  pose proof (Load_inv demo_app demo_world (fun _ => []) empty_pool_inv) as H.
  by rewrite demo_load in H.
Qed.

Lemma Load_installs_all_witness :
  exists ap, pl_apps (w_pool loaded_world) !! demo_app = Some ap /\
    ap_idle ap = ap_signers ap /\ run (Load demo_app) loaded_world = Done (Ok tt) loaded_world.
Proof.
  pose proof (Load_installs_all (fun _ => []) demo_app demo_world empty_pool_inv) as H.
  rewrite demo_load in H. destruct H as [_ H].
  destruct (H eq_refl eq_refl) as (addrs & ap & w1 & _ & H2 & H3 & _ & H5).
  exists ap. split; [exact H2|]. split; [exact H3|exact H5].
Defined.

Lemma demo_checkout : done_ok (run (Checkout demo_app) loaded_world) = true.
Proof. vm_compute. reflexivity. Qed.

Lemma Checkout_Release_witness :
  exists p w1 w2, run (Checkout demo_app) loaded_world = Done (Ok p) w1 /\
    run (Release p) w1 = Done tt w2 /\ pool_inv (w_pool w2) (fun _ => []).
Proof.
  destruct (done_ok_inv _ demo_checkout) as (p & w1 & E).
  destruct (Checkout_Release (fun _ => []) demo_app loaded_world p w1 loaded_inv E)
    as (_ & _ & _ & w2 & ap & rest & Hr & Hinv & _).
  exists p, w1, w2. split; [exact E|]. split; [exact Hr|exact Hinv].
Defined.
End PoolDemo.
