(* ===== verification/AppService.v ===== *)
(** * Apps: creation, authentication, accounts ([internal/app])

    [Create] validates, generates the keys, makes the bearer token and writes
    the app and its signers in one transaction; [Authenticate] finds the app of
    a token by its SHA-256; [ListSigners] and [Accounts] read the pool. *)

From Stdlib Require Import ZArith Lia.
From S2P Require Import Prelude GoLib Crypto Eth Database World SignerPool RefEnv.

Local Open Scope Z_scope.
Local Open Scope txmill_scope.

Definition minPoolSize : Z := 1.
Definition maxPoolSize : Z := 1024.
Definition bearerTokenLen : nat := 32.
Definition bearerTokenTag : string := "tk_".

(** [app.Keystore] *)
Class KeystoreGenerator := {
  ks_Generate : prog (result address);
}.

(** [app.Service] *)
Record AppSvc := MkAppSvc { as_keystore : KeystoreGenerator }.
Definition NewAppSvc (ks : KeystoreGenerator) : AppSvc := MkAppSvc ks.

Record CreateInput := MkCreateInput {
  ci_Name : string;
  ci_PoolSize : Z;
  ci_DefaultCallbackURL : string;
  ci_SignerMinBalance : string;
  ci_SignerRefillAmount : string;
  ci_TreasuryMinBalance : string;
}.

Record CreateResult := MkCreateResult {
  cr_AppID : string;
  cr_BearerToken : string;
  cr_DefaultCallbackSecret : string;
  cr_TreasuryAddress : address;
  cr_SignerAddresses : list address;
}.

Record Identity := MkIdentity {
  id_AppID : string;
  id_PoolSize : Z;
  id_Disabled : bool;
}.

Record SignerInfo := MkSignerInfo {
  si_Address : address;
  si_LastUsedAt : option Z;
}.

Record AppAccounts := MkAppAccounts {
  ac_Treasury : address;
  ac_Signers : list SignerInfo;
}.

(** ** Gas policy *)

Definition nonEmptyOrZero (s : string) : string :=
  if String.eqb s "" then "0" else s.

Definition parseUintOrZero (s : string) : Z :=
  if String.eqb s "" then 0
  else match SetString10 s with
       | Some v => if v <? 0 then 0 else v
       | None => 0
       end.

Definition validateGasPolicy (signerMin signerRefill : string) : result unit :=
  let min := parseUintOrZero signerMin in
  let refill := parseUintOrZero signerRefill in
  if (Z.sgn min =? 0) && (Z.sgn refill =? 0) then Ok tt
  else if (Z.sgn min =? 0) || (Z.sgn refill =? 0) then
    Err (EText "signer_min_balance and signer_refill_amount must be set together (or both zero)")
  else if refill <=? min then
    Err (EText "signer_refill_amount must be greater than signer_min_balance")
  else Ok tt.

(** The order of [ORDER BY created_at, address]: the addresses all have the
    same length, so their text order is the order of these numbers. *)
Definition text_key (s : string) : Z := fold_left (fun acc b => acc * 256 + b) (bytes s) 0.

Section app.
Context `{Env : Environment} `{Eth : GoEthereum} `{PG : Postgres}.
Context `{KG : !KeystoreGenerator}.

(** ** Secrets *)

Definition newBearerToken : prog (result (string * string)) :=
  let? raw := rand_Read bearerTokenLen or "token rand" in
  let token := bearerTokenTag +:+ RawURLEncode raw in
  Ret (Ok (token, Sum256 token)).

Definition newCallbackSecret : prog (result string) :=
  let? raw := rand_Read 32 or "callback secret rand" in
  Ret (Ok ("whsec_" +:+ RawURLEncode raw)).

(** ** Create *)

(** [COPY signers (address, app_id)] *)
Fixpoint copy_signers (addrs : list address) (appID : string) : stmt unit := fun se db =>
  match addrs with
  | [] => Ok (tt, db)
  | a :: rest =>
      match insert_signer (lowerHex a) appID se db with
      | Ok (_, db1) => copy_signers rest appID se db1
      | Err e => Err e
      end
  end.

Definition insert_app_stmt (name : string) (poolSize : Z) (callbackURL callbackSecret : string)
    (treasury : address) (tokenHash : string)
    (signerMinBalance signerRefillAmount treasuryMinBalance : string) : stmt string :=
  fun se db =>
    match pg_numeric_in signerMinBalance, pg_numeric_in signerRefillAmount,
          pg_numeric_in treasuryMinBalance with
    | Some smin, Some srefill, Some tmin =>
        check (pg_text_ok name && pg_text_ok callbackURL) invalid_text
        (insert_app
          {| a_name := name; a_treasury_address := lowerHex treasury;
             a_bearer_token_hash := tokenHash; a_pool_size := poolSize;
             a_default_callback_url := nullif_empty callbackURL;
             a_default_callback_secret := nullif_empty callbackSecret;
             a_disabled := false; a_created_at := se_now se;
             a_signer_min_balance := smin; a_signer_refill_amount := srefill;
             a_treasury_min_balance := tmin |} se db)
    | _, _, _ => Err invalid_text
    end.

Definition insert (name : string) (poolSize : Z) (callbackURL callbackSecret : string)
    (treasury : address) (signers : list address) (tokenHash : string)
    (signerMinBalance signerRefillAmount treasuryMinBalance : string) : prog (result string) :=
  let? t := pg_begin in
  let? r1 := pg_tx t (insert_app_stmt name poolSize callbackURL callbackSecret treasury
               tokenHash signerMinBalance signerRefillAmount treasuryMinBalance) in
  let appID := r1.1 in
  let? r2 := pg_tx r1.2 (copy_signers signers appID) in
  let? _u := pg_commit r2.2 in
  Ret (Ok appID).

(** The loop that generates the signer keys: [i] counts up to the pool
    size. *)
Fixpoint generate_signers (n : nat) (i : Z) (acc : list address) : prog (result (list address)) :=
  match n with
  | O => Ret (Ok acc)
  | S n' =>
      let! r := ks_Generate in
      match r with
      | Err e => Ret (Err (EWrap ("generate signer " +:+ bigint_String i) e))
      | Ok addr => generate_signers n' (i + 1) (acc ++ [addr])
      end
  end.

Definition callback_secret_for (url : string) : prog (result string) :=
  if String.eqb url "" then Ret (Ok "") else newCallbackSecret.

Definition Create (inp : CreateInput) : prog (result CreateResult) :=
  let name := TrimSpace (ci_Name inp) in
  if String.eqb name "" then Ret (Err (EText "name is required"))
  else if (ci_PoolSize inp <? minPoolSize) || (maxPoolSize <? ci_PoolSize inp) then
    Ret (Err (EText ("pool_size must be between " +:+ bigint_String minPoolSize
                     +:+ " and " +:+ bigint_String maxPoolSize)))
  else
    match validateGasPolicy (ci_SignerMinBalance inp) (ci_SignerRefillAmount inp) with
    | Err e => Ret (Err e)
    | Ok _ =>
        let? treasury := ks_Generate or "generate treasury" in
        let? signers := generate_signers (Z.to_nat (ci_PoolSize inp)) 0 [] in
        let? th := newBearerToken in
        let? secret := callback_secret_for (ci_DefaultCallbackURL inp) in
        let? appID := insert name (ci_PoolSize inp) (ci_DefaultCallbackURL inp) secret
               treasury signers th.2
               (nonEmptyOrZero (ci_SignerMinBalance inp))
               (nonEmptyOrZero (ci_SignerRefillAmount inp))
               (nonEmptyOrZero (ci_TreasuryMinBalance inp)) or "insert" in
        Ret (Ok (MkCreateResult appID th.1 secret treasury signers))
    end.

(** ** Authenticate *)

Definition app_by_hash (h : string) : stmt_env -> database -> result Identity := fun _ db =>
  match rows_where (fun _ r => String.eqb (a_bearer_token_hash r) h) (db_apps db) with
  | (id, r) :: _ => Ok (MkIdentity id (a_pool_size r) (a_disabled r))
  | [] => Err (ESentinel ErrNoRows)
  end.

Definition Authenticate (bearerToken : string) : prog (result Identity) :=
  if String.eqb bearerToken "" then Ret (Err (ESentinel ErrInvalidToken))
  else
    let! r := pg (select (app_by_hash (Sum256 bearerToken))) in
    match r with
    | Ok id => Ret (Ok id)
    | Err e =>
        if errors_Is e ErrNoRows then Ret (Err (ESentinel ErrInvalidToken))
        else Ret (Err (EWrap "authenticate" e))
    end.

(** ** Accounts *)

Definition treasury_of (appID : string) : stmt_env -> database -> result string := fun _ db =>
  match pg_uuid_in appID with
  | None => Err invalid_text
  | Some u =>
      match db_apps db !! u with
      | Some r => Ok (a_treasury_address r)
      | None => Err (ESentinel ErrNoRows)
      end
  end.

Definition signer_rows (appID : string) : stmt_env -> database -> result (list (string * signer_row)) :=
  fun _ db =>
    match pg_uuid_in appID with
    | None => Err invalid_text
    | Some u =>
        Ok (sort_by (fun kv => s_created_at kv.2)
             (sort_by (fun kv => text_key kv.1)
               (rows_where (fun _ r => String.eqb (s_app_id r) u) (db_signers db))))
    end.

Definition Accounts (appID : string) : prog (result AppAccounts) :=
  let? treasuryHex := pg (select (treasury_of appID)) or "treasury" in
  let? rows := pg (select (signer_rows appID)) or "signers" in
  Ret (Ok (MkAppAccounts (HexToAddress treasuryHex)
             (List.map (fun kv => MkSignerInfo (HexToAddress kv.1) (s_last_used_at kv.2)) rows))).

Definition ListSigners (appID : string) : prog (result (list address)) :=
  let? rows := pg (select (signer_rows appID)) or "list signers" in
  Ret (Ok (List.map (fun kv => HexToAddress kv.1) rows)).
End app.

(** The app service is the signer pool's lister. *)
#[export] Instance appLister `{Environment} `{GoEthereum} `{Postgres} : SignerLister := {
  lister_ListSigners := ListSigners;
}.

#[export] Instance appListerFrame `{Environment} `{GoEthereum} `{Postgres} :
  ListerFrame (H := appLister).
Proof.
  split. intros appID. apply keeps_bind; [apply pg_select_view|]. by intros [rows|e].
Qed.

(** ** Theorems *)

(** Policies given as decimal naturals are accepted exactly when they are off
    or refill above the threshold. *)
Lemma parseUintOrZero_String z : 0 <= z -> parseUintOrZero (bigint_String z) = z.
Proof.
  intros Hz. unfold parseUintOrZero. rewrite SetString10_String.
  destruct (String.eqb_spec (bigint_String z) "") as [E|_].
  - pose proof (SetString10_String z) as H. by rewrite E in H.
  - destruct (Z.ltb_spec z 0); [lia|done].
Qed.

Lemma parseUintOrZero_nonneg s : 0 <= parseUintOrZero s.
Proof.
  unfold parseUintOrZero. destruct (String.eqb s ""); [done|].
  destruct (SetString10 s) as [v|]; [|done]. destruct (Z.ltb_spec v 0); lia.
Qed.

Lemma validateGasPolicy_cases a b :
  let min := parseUintOrZero a in let refill := parseUintOrZero b in
  validateGasPolicy a b = Ok tt <-> (min = 0 /\ refill = 0) \/ (0 < min < refill).
Proof.
  intros min refill. unfold validateGasPolicy. fold min refill.
  assert (0 <= min) by apply parseUintOrZero_nonneg.
  assert (0 <= refill) by apply parseUintOrZero_nonneg.
  destruct (Z.eqb_spec (Z.sgn min) 0) as [E1|E1], (Z.eqb_spec (Z.sgn refill) 0) as [E2|E2];
    simpl; try (split; [done|lia]).
  - split; [|done]. lia.
  - destruct (Z.leb_spec refill min); split; done || lia.
Qed.

(** What [Create] relies on: generating a key changes neither the tables nor
    the pool, and sends nothing. *)
Class GeneratorFrame `{KeystoreGenerator} := {
  ks_Generate_view : keeps view ks_Generate;
}.

(** The rows [COPY] adds. *)
Definition add_signers `{GoEthereum} (addrs : list address) (appID : string) (now : Z)
    (m : gmap string signer_row) : gmap string signer_row :=
  fold_left (fun m a => <[lowerHex a := SignerRow appID now None]> m) addrs m.

Lemma add_signers_ne `{GoEthereum} addrs appID now m k :
  (forall a, a ∈ addrs -> lowerHex a <> k) -> add_signers addrs appID now m !! k = m !! k.
Proof.
  revert m. induction addrs as [|a addrs IH]; intros m Hk; [done|]. cbn.
  fold (add_signers addrs appID now (<[lowerHex a:=SignerRow appID now None]> m)).
  rewrite IH by set_solver. apply lookup_insert_ne. set_solver.
Qed.

Lemma add_signers_eq `{GoEthereum} addrs appID now m a :
  a ∈ addrs -> add_signers addrs appID now m !! lowerHex a = Some (SignerRow appID now None).
Proof.
  intros Ha.
  assert (forall l m, m !! lowerHex a = Some (SignerRow appID now None) ->
    add_signers l appID now m !! lowerHex a = Some (SignerRow appID now None)) as Hkeep.
  { induction l as [|b l IH]; intros m' Hm; [done|]. apply IH.
    destruct (decide (lowerHex b = lowerHex a)) as [->|]; [apply lookup_insert_eq|].
    by rewrite lookup_insert_ne. }
  revert m. induction addrs as [|b addrs IH]; intros m; [by apply not_elem_of_nil in Ha|].
  apply elem_of_cons in Ha as [->|Ha]; [|by apply IH].
  apply (Hkeep addrs), lookup_insert_eq.
Qed.

(** What a [Create] that took effect did to the tables. *)
(** The policy of an app as it was given: each amount is the column value
    PostgreSQL reads from its text. *)
Definition policy_stored `{Postgres} (smin srefill tmin : string) (row : app_row) : Prop :=
  pg_numeric_in smin = Some (a_signer_min_balance row) /\
  pg_numeric_in srefill = Some (a_signer_refill_amount row) /\
  pg_numeric_in tmin = Some (a_treasury_min_balance row).

Record created `{Environment} `{GoEthereum} `{Postgres} (inp : CreateInput) (res : CreateResult) (db db' : database) : Prop := {
  cre_app : exists row, db_apps db' = <[cr_AppID res := row]> (db_apps db) /\
    a_name row = TrimSpace (ci_Name inp) /\ a_pool_size row = ci_PoolSize inp /\
    a_treasury_address row = lowerHex (cr_TreasuryAddress res) /\
    a_bearer_token_hash row = Sum256 (cr_BearerToken res) /\ a_disabled row = false /\
    policy_stored (nonEmptyOrZero (ci_SignerMinBalance inp)) (nonEmptyOrZero (ci_SignerRefillAmount inp))
      (nonEmptyOrZero (ci_TreasuryMinBalance inp)) row;
  cre_uuid : exists h, cr_AppID res = env_uuid h;
  cre_bearer : cr_BearerToken res <> "";
  cre_fresh : db_apps db !! cr_AppID res = None;
  cre_token : forall id row, db_apps db !! id = Some row ->
    a_bearer_token_hash row <> Sum256 (cr_BearerToken res);
  cre_signers : exists now, db_signers db' =
    add_signers (cr_SignerAddresses res) (cr_AppID res) now (db_signers db);
  cre_count : Z.of_nat (length (cr_SignerAddresses res)) = ci_PoolSize inp;
  cre_nodup : NoDup (List.map lowerHex (cr_SignerAddresses res));
  cre_new : forall a, a ∈ cr_SignerAddresses res -> db_signers db !! lowerHex a = None;
  cre_rest : db_requests db' = db_requests db /\ db_attempts db' = db_attempts db /\
    db_deliveries db' = db_deliveries db /\ db_gas db' = db_gas db;
}.

Section theorems.
Context `{Env : Environment} `{Eth : GoEthereum} `{PG : Postgres}.
Context `{KG : !KeystoreGenerator}.

Lemma copy_signers_ok addrs appID se db u db' :
  copy_signers addrs appID se db = Ok (u, db') ->
  db' = with_signers (add_signers addrs appID (se_now se) (db_signers db)) db /\
  NoDup (List.map lowerHex addrs) /\
  forall a, a ∈ addrs -> db_signers db !! lowerHex a = None.
Proof.
  revert db. induction addrs as [|a addrs IH]; intros db; cbn [copy_signers].
  { intros [= _ <-]. split; [by destruct db|]. split; [constructor|set_solver]. }
  destruct (insert_signer (lowerHex a) appID se db) as [[x db1]|e] eqn:E; [|done].
  unfold insert_signer in E. apply check_Ok in E as [_ E].
  apply check_Ok in E as [Hf E]. apply check_Ok in E as [_ [= _ <-]].
  apply bool_decide_eq_true in Hf.
  intros (-> & Hnd & Hnew)%IH. split; [by destruct db|]. split.
  - cbn. constructor; [|done]. intros Hin.
    apply list_elem_of_In, in_map_iff in Hin as (b & Hb & Hin).
    apply list_elem_of_In, Hnew in Hin. simpl in Hin. by rewrite Hb, lookup_insert_eq in Hin.
  - intros b [->|Hb]%elem_of_cons; [done|]. apply Hnew in Hb. simpl in Hb.
    by apply lookup_insert_None in Hb as [? _].
Qed.

Lemma insert_app_stmt_ok name size url secret treasury h smin srefill tmin se db id db' :
  insert_app_stmt name size url secret treasury h smin srefill tmin se db = Ok (id, db') ->
  exists row, id = se_uuid se /\
    db' = with_apps (<[id := row]> (db_apps db)) db /\ db_apps db !! id = None /\
    no_row (fun r => String.eqb (a_bearer_token_hash r) h) (db_apps db) = true /\
    a_name row = name /\ a_pool_size row = size /\ a_treasury_address row = lowerHex treasury /\
    a_bearer_token_hash row = h /\ a_disabled row = false /\ policy_stored smin srefill tmin row.
Proof.
  unfold insert_app_stmt, policy_stored. destruct (pg_numeric_in smin), (pg_numeric_in srefill),
    (pg_numeric_in tmin); try done.
  intros [_ H]%check_Ok. unfold insert_app in H.
  do 2 apply check_Ok in H as [_ H]. apply check_Ok in H as [Hf H].
  apply check_Ok in H as [Hn [= <- <-]]. apply bool_decide_eq_true in Hf.
  eexists. split; [done|]. split; [done|]. simpl in *. eauto 15.
Qed.

(** The generation loop yields one address per round. *)
Lemma generate_signers_length n i acc :
  rets (fun r => match r with
                 | Ok l => length l = (length acc + n)%nat
                 | Err _ => True
                 end) (generate_signers n i acc).
Proof.
  revert i acc. induction n as [|n IH]; intros i acc; cbn [generate_signers].
  { simpl. lia. }
  eapply rets_bind; [apply rets_True|]. intros [a|e] _; [|done].
  specialize (IH (i + 1) (acc ++ [a])). revert IH. rewrite length_app. simpl.
  replace (length acc + 1 + n)%nat with (length acc + S n)%nat by lia. done.
Qed.

Context `{KGF : !GeneratorFrame}.

Lemma generate_signers_view n i acc : keeps view (generate_signers n i acc).
Proof.
  revert i acc. induction n as [|n IH]; intros i acc; [done|]. cbn [generate_signers].
  apply keeps_bind; [apply ks_Generate_view|]. intros [a|e]; [apply IH|done].
Qed.

Lemma insert_cases name size url secret treasury signers h smin srefill tmin w r w' :
  run (insert name size url secret treasury signers h smin srefill tmin) w = Done r w' ->
  w_pool w' = w_pool w /\ sent_log (w_hist w') = sent_log (w_hist w) /\
  ((is_ok r = false /\ w_db w' = w_db w) \/
   exists id row now, (forall x, r = Ok x -> x = id) /\ (exists h, id = env_uuid h) /\
     w_db w' = with_signers (add_signers signers id now (db_signers (w_db w)))
                 (with_apps (<[id := row]> (db_apps (w_db w))) (w_db w)) /\
     db_apps (w_db w) !! id = None /\
     no_row (fun r => String.eqb (a_bearer_token_hash r) h) (db_apps (w_db w)) = true /\
     a_name row = name /\ a_pool_size row = size /\ a_treasury_address row = lowerHex treasury /\
     a_bearer_token_hash row = h /\ a_disabled row = false /\ policy_stored smin srefill tmin row /\
     NoDup (List.map lowerHex signers) /\
     forall a, a ∈ signers -> db_signers (w_db w) !! lowerHex a = None).
Proof.
  unfold insert. intros H.
  apply (txn2_cases
    (insert_app_stmt name size url secret treasury h smin srefill tmin)
    (fun appID => copy_signers signers appID)
    (fun appID c => match c with Ok _ => Ret (Ok appID) | Err e => Ret (Err e) end)) in H
    as [(e & -> & Hv)|(id & c & w2 & Hr & Hp & Ht & Hdb)].
  { injection Hv as -> -> ->. auto. }
  assert (w' = w2 /\ (forall x, r = Ok x -> x = id) /\ (is_ok c = false -> is_ok r = false))
    as (-> & Hid & Hc).
  { destruct c as [u|e]; injection Hr as <- <-; (split; [done|split; [|done]]); by intros x [= ->]. }
  split; [done|]. split; [done|].
  destruct Hdb as [[E ->]|(now & h1 & h2 & y & db1 & S1 & S2)]; [by left; auto|right].
  apply insert_app_stmt_ok in S1 as (row & Hu & -> & Hf & Hn & H1 & H2 & H3 & H4 & H5 & H6).
  apply copy_signers_ok in S2 as (Hdb & Hnd & Hnew). simpl in *.
  exists id, row, now. rewrite Hdb. split; [done|]. split; [by exists h1|].
  repeat (split; [done|]). done.
Qed.

Lemma callback_secret_view url : keeps view (callback_secret_for url).
Proof.
  unfold callback_secret_for, newCallbackSecret. destruct (String.eqb url ""); [done|].
  apply keeps_bind; [by apply rand_Read_keeps|]. by intros [?|].
Qed.

Lemma newBearerToken_view : keeps view newBearerToken.
Proof.
  unfold newBearerToken. apply keeps_bind; [by apply rand_Read_keeps|]. by intros [?|].
Qed.

Lemma newBearerToken_hash w th w' :
  run newBearerToken w = Done (Ok th) w' -> th.2 = Sum256 th.1 /\ th.1 <> "".
Proof.
  unfold newBearerToken. intros (raw & w1 & _ & [= <- <-])%(try_Done _ _ (EWrap "token rand")).
  done.
Qed.

(** The tables after [Create] are the tables before, or hold the whole app. *)
(** What [insert] did, for a token with this hash, is the creation of an app. *)
Lemma created_by_insert inp id row now token secret treasury signers db db' :
  (exists h, id = env_uuid h) -> token <> "" -> db_apps db !! id = None ->
  db' = with_signers (add_signers signers id now (db_signers db))
          (with_apps (<[id := row]> (db_apps db)) db) ->
  no_row (fun r => String.eqb (a_bearer_token_hash r) (Sum256 token)) (db_apps db) = true ->
  a_name row = TrimSpace (ci_Name inp) -> a_pool_size row = ci_PoolSize inp ->
  a_treasury_address row = lowerHex treasury -> a_bearer_token_hash row = Sum256 token ->
  a_disabled row = false ->
  policy_stored (nonEmptyOrZero (ci_SignerMinBalance inp)) (nonEmptyOrZero (ci_SignerRefillAmount inp))
    (nonEmptyOrZero (ci_TreasuryMinBalance inp)) row ->
  NoDup (List.map lowerHex signers) ->
  (forall a, a ∈ signers -> db_signers db !! lowerHex a = None) ->
  Z.of_nat (length signers) = ci_PoolSize inp ->
  created inp (MkCreateResult id token secret treasury signers) db db'.
Proof.
  intros Huu Hne Hfresh -> Hno Hn Hs Htr Hh Hdis Hpol Hnd Hnew Hlen. split; simpl; try done.
  - exists row. eauto 15.
  - intros i rw Hi Heq. pose proof (no_row_elim _ _ _ _ Hno Hi) as Hc. simpl in Hc.
    by rewrite Heq, String.eqb_refl in Hc.
  - by exists now.
Qed.

Lemma Create_cases inp w r w' :
  run (Create inp) w = Done r w' ->
  w_pool w' = w_pool w /\ sent_log (w_hist w') = sent_log (w_hist w) /\
  ((is_ok r = false /\ w_db w' = w_db w) \/
   exists res, (forall x, r = Ok x -> x = res) /\ created inp res (w_db w) (w_db w')).
Proof.
  intros H.
  assert (forall v, view v = view w -> forall e, Done (Err e) v = Done r w' ->
    w_pool w' = w_pool w /\ sent_log (w_hist w') = sent_log (w_hist w) /\
    ((is_ok r = false /\ w_db w' = w_db w) \/
     exists res, (forall x, r = Ok x -> x = res) /\ created inp res (w_db w) (w_db w'))) as Hearly.
  { intros v Hv e [= <- <-]. injection Hv as -> -> ->. auto. }
  unfold Create in H. destruct (String.eqb _ ""); [by eapply Hearly in H|].
  destruct (_ || _) eqn:Esize; [by eapply Hearly in H|].
  destruct (validateGasPolicy _ _); [|by eapply Hearly in H].
  apply bind_Done in H as ([treasury|e] & w1 & H1 & H);
    apply (keeps_Done view) in H1; try apply ks_Generate_view;
    [|by eapply Hearly in H].
  apply bind_Done in H as ([signers|e] & w2 & H2 & H);
    pose proof H2 as Hlen;
    apply (keeps_Done view) in H2; try apply generate_signers_view; rewrite H1 in H2;
    [|by eapply Hearly in H].
  eapply rets_run in Hlen; [|apply generate_signers_length]. simpl in Hlen.
  apply bind_Done in H as ([th|e] & w3 & H3 & H);
    pose proof H3 as Hth;
    apply (keeps_Done view) in H3; try apply newBearerToken_view; rewrite H2 in H3;
    [|by eapply Hearly in H].
  apply newBearerToken_hash in Hth as [Hth Hne].
  apply bind_Done in H as ([secret|e] & w4 & H4 & H);
    apply (keeps_Done view) in H4; try apply callback_secret_view; rewrite H3 in H4;
    [|by eapply Hearly in H].
  apply bind_Done in H as (r5 & w5 & H5 & H).
  apply insert_cases in H5 as (Hp & Ht & Hdb). injection H4 as Hd4 Hp4 Ht4.
  rewrite Hd4 in Hdb. rewrite Hp4 in Hp. rewrite Ht4 in Ht.
  assert (w5 = w' /\ (is_ok r5 = false -> is_ok r = false) /\
    forall x, r = Ok x -> exists id, r5 = Ok id /\
      x = MkCreateResult id th.1 secret treasury signers) as (-> & Hf & Hr).
  { destruct r5 as [id|e]; injection H as <- <-; (split; [done|split; [done|]]);
      intros x [= <-]; eauto. }
  split; [done|]. split; [done|].
  destruct Hdb as [[E ->]|(id & row & now & Hid & Huu & Hdb & Hfresh & Hno & Hn & Hs & Htr & Hh & Hdis & Hpol & Hnd & Hnew)];
    [by left; auto|right].
  exists (MkCreateResult id th.1 secret treasury signers). split.
  { intros x Hx. destruct (Hr x Hx) as (id' & -> & ->). by rewrite (Hid id' eq_refl). }
  rewrite Hth in Hh, Hno. apply (created_by_insert _ _ row now); try done.
  rewrite Hlen. apply orb_false_iff in Esize as [E1 _]. apply Z.ltb_ge in E1.
  unfold minPoolSize in E1. lia.
Qed.
End theorems.

(** ** Properties *)

Section properties.
Context `{Env : Environment} `{Eth : GoEthereum} `{PG : Postgres}.
Context `{KG : !KeystoreGenerator} `{KGF : !GeneratorFrame}.

(** [validateGasPolicy] accepts two decimal amounts exactly when both are
    zero (top-ups off) or the refill is above a positive threshold. *)
Theorem validateGasPolicy_spec m r :
  0 <= m -> 0 <= r ->
  (validateGasPolicy (bigint_String m) (bigint_String r) = Ok tt <->
   (m = 0 /\ r = 0) \/ (0 < m /\ m < r)).
Proof.
  intros Hm Hr. rewrite validateGasPolicy_cases, !parseUintOrZero_String by done. done.
Qed.

(** C29 [Create] is all or nothing: whatever the outcome, and also when the
    commit reports an error, the tables are unchanged or hold the complete app
    — its row with the hash of the returned token and exactly [PoolSize] new,
    distinct signer rows — and nothing else changed; on success they hold it. *)
Theorem Create_atomic inp w r w' :
  run (Create inp) w = Done r w' ->
  w_pool w' = w_pool w /\ sent_log (w_hist w') = sent_log (w_hist w) /\
  ((is_ok r = false /\ w_db w' = w_db w) \/
   exists res, (forall x, r = Ok x -> x = res) /\ created inp res (w_db w) (w_db w')).
Proof. apply Create_cases. Qed.

Lemma app_by_hash_unique db se h id row :
  db_apps db !! id = Some row -> a_bearer_token_hash row = h ->
  (forall i r, db_apps db !! i = Some r -> a_bearer_token_hash r = h -> i = id) ->
  app_by_hash h se db = Ok (MkIdentity id (a_pool_size row) (a_disabled row)).
Proof.
  intros Hid Hh Hu. unfold app_by_hash.
  set (f := fun (_ : string) (r : app_row) => String.eqb (a_bearer_token_hash r) h).
  assert (forall i r, (i, r) ∈ rows_where f (db_apps db) <-> i = id /\ r = row) as Hel.
  { intros i r. rewrite rows_where_elem. unfold f. rewrite String.eqb_eq. split.
    - intros [Hi He]. assert (i = id) as -> by eauto. split; congruence.
    - by intros [-> ->]. }
  destruct (rows_where f (db_apps db)) as [|[i r] l].
  - exfalso. eapply (not_elem_of_nil (id, row)). by apply Hel.
  - destruct (Hel i r) as [[-> ->] _]; [by left|done].
Qed.

Lemma created_app_by_hash inp res db db' se :
  created inp res db db' ->
  app_by_hash (Sum256 (cr_BearerToken res)) se db'
    = Ok (MkIdentity (cr_AppID res) (ci_PoolSize inp) false).
Proof.
  intros Hc. destruct (cre_app _ _ _ _ Hc) as (row & Ha & _ & <- & _ & Hh & <- & _).
  apply app_by_hash_unique; [by rewrite Ha, lookup_insert_eq|done|].
  intros i r. rewrite Ha. destruct (decide (i = cr_AppID res)) as [->|Hne]; [done|].
  rewrite lookup_insert_ne by done. intros Hi Hr. by destruct (cre_token _ _ _ _ Hc i r Hi).
Qed.

(** C30 The bearer token that [Create] returns authenticates: [Authenticate]
    finds the new app, with its pool size, not disabled. *)
Theorem Create_Authenticate inp w res w' :
  run (Create inp) w = Done (Ok res) w' ->
  env_pg_fate (w_hist w') = PgServe ->
  run (Authenticate (cr_BearerToken res)) w'
    = Done (Ok (MkIdentity (cr_AppID res) (ci_PoolSize inp) false)) (log EvDb w').
Proof.
  intros H Hf. apply Create_cases in H as (_ & _ & [[? _]|(res' & Hr & Hc)]); [done|].
  specialize (Hr res eq_refl) as <-. unfold Authenticate.
  destruct (String.eqb_spec (cr_BearerToken res) "") as [E|_].
  { by apply (cre_bearer _ _ _ _ Hc) in E. }
  rewrite run_bind. unfold pg, select. rewrite run_action, Hf.
  rewrite (created_app_by_hash _ _ _ _ _ Hc). cbn [fst snd run].
  by destruct w' as [[] ? ? ? ?].
Qed.

(** What [Authenticate] answers and that it only reads. *)
Lemma Authenticate_cases token w r w' :
  run (Authenticate token) w = Done r w' ->
  view w' = view w /\
  match r with
  | Ok id => token <> "" /\ exists row, db_apps (w_db w) !! id_AppID id = Some row /\
      a_bearer_token_hash row = Sum256 token /\
      id = MkIdentity (id_AppID id) (a_pool_size row) (a_disabled row)
  | Err e => env_pg_fate (w_hist w) = PgServe -> e = ESentinel ErrInvalidToken /\
      (token = "" \/ forall i row, db_apps (w_db w) !! i = Some row ->
         a_bearer_token_hash row <> Sum256 token)
  end.
Proof.
  unfold Authenticate. destruct (String.eqb_spec token "") as [E|Hne].
  { intros [= <- <-]. auto. }
  rewrite run_bind. unfold pg, select. rewrite run_action.
  set (f := fun (_ : string) (r : app_row) => String.eqb (a_bearer_token_hash r) (Sum256 token)).
  assert (forall i row, (i, row) ∈ rows_where f (db_apps (w_db w)) <->
    db_apps (w_db w) !! i = Some row /\ a_bearer_token_hash row = Sum256 token) as Hel.
  { intros i row. rewrite rows_where_elem. unfold f. by rewrite String.eqb_eq. }
  unfold app_by_hash. fold f.
  destruct (env_pg_fate (w_hist w)) as [|[] e]; cycle 1.
  1,2: destruct (rows_where f (db_apps (w_db w))) as [|[i row] l]; cbn [fst snd];
    destruct (errors_Is _ _); intros [= <- <-]; by split.
  destruct (rows_where f (db_apps (w_db w))) as [|[i row] l]; cbn [fst snd];
    intros [= <- <-]; (split; [done|]).
  - intros _. split; [done|]. right. intros i row Hi Hh.
    eapply (not_elem_of_nil (i, row)). by apply Hel.
  - split; [done|]. exists row. simpl. destruct (Hel i row) as [[Hi Hh] _]; [by left|]. done.
Qed.

(** C31 [Authenticate] identifies an app only by a row whose stored hash is the
    SHA-256 of the presented token, reports a missing row as
    [ErrInvalidToken], and changes nothing. *)
Theorem Authenticate_sound token w r w' :
  run (Authenticate token) w = Done r w' ->
  view w' = view w /\
  match r with
  | Ok id => token <> "" /\ exists row, db_apps (w_db w) !! id_AppID id = Some row /\
      a_bearer_token_hash row = Sum256 token /\
      id = MkIdentity (id_AppID id) (a_pool_size row) (a_disabled row)
  | Err e => env_pg_fate (w_hist w) = PgServe -> e = ESentinel ErrInvalidToken /\
      (token = "" \/ forall i row, db_apps (w_db w) !! i = Some row ->
         a_bearer_token_hash row <> Sum256 token)
  end.
Proof. apply Authenticate_cases. Qed.

(** Every signer row belongs to an app (the foreign key of the schema). *)
Definition signers_fk (db : database) : Prop :=
  forall k row, db_signers db !! k = Some row -> is_Some (db_apps db !! s_app_id row).

Lemma created_rows inp res db db' k row :
  signers_fk db -> created inp res db db' ->
  (db_signers db' !! k = Some row /\ s_app_id row = cr_AppID res <->
   exists a, a ∈ cr_SignerAddresses res /\ k = lowerHex a /\ db_signers db' !! k = Some row).
Proof.
  intros Hfk Hc. destruct (cre_signers _ _ _ _ Hc) as (now & Hs). rewrite Hs. split.
  - intros [Hk Hr].
    destruct (decide (Exists (fun a => lowerHex a = k) (cr_SignerAddresses res))) as [He|He].
    + apply Exists_exists in He as (a & Ha & <-). eauto.
    + rewrite add_signers_ne in Hk.
      * destruct (Hfk k row Hk) as [r' Hr']. rewrite Hr, (cre_fresh _ _ _ _ Hc) in Hr'. done.
      * intros a Ha Hak. apply He, Exists_exists. eauto.
  - intros (a & Ha & -> & Hk). split; [done|].
    rewrite add_signers_eq in Hk by done. by injection Hk as <-.
Qed.

Lemma created_signer_rows `{EL : !GoEthereumLaws} `{UL : !UuidLaws} inp res db db' se :
  signers_fk db -> created inp res db db' ->
  exists rows, signer_rows (cr_AppID res) se db' = Ok rows /\
    List.map (fun kv => HexToAddress kv.1) rows ≡ₚ cr_SignerAddresses res.
Proof.
  intros Hfk Hc. unfold signer_rows. destruct (cre_uuid _ _ _ _ Hc) as [h Hh].
  rewrite Hh, env_uuid_canonical, <- Hh. eexists. split; [done|].
  rewrite !sort_by_perm. set (f := fun (_ : string) (r : signer_row) => String.eqb (s_app_id r) (cr_AppID res)).
  assert (List.map fst (rows_where f (db_signers db')) ≡ₚ
    List.map lowerHex (cr_SignerAddresses res)) as Hperm.
  { apply NoDup_Permutation; [apply rows_where_keys_nodup|apply (cre_nodup _ _ _ _ Hc)|].
    intros k. rewrite !list_elem_of_In, !in_map_iff. split.
    - intros ([k' row] & <- & Hin). apply list_elem_of_In, rows_where_elem in Hin as [Hk Hr].
      apply String.eqb_eq in Hr. destruct (proj1 (created_rows _ _ _ _ k' row Hfk Hc)) as (a & Ha & -> & _);
        [done|]. exists a. split; [done|]. by apply list_elem_of_In.
    - intros (a & <- & Ha). apply list_elem_of_In in Ha.
      destruct (cre_signers _ _ _ _ Hc) as (now & Hs).
      exists (lowerHex a, SignerRow (cr_AppID res) now None). split; [done|].
      apply list_elem_of_In, rows_where_elem. rewrite Hs, add_signers_eq by done.
      split; [done|]. apply String.eqb_refl. }
  rewrite <- (map_map fst HexToAddress), Hperm, map_map.
  rewrite (map_ext _ id) by apply HexToAddress_lowerHex. by rewrite map_id.
Qed.

(** The signers of a new app are what [ListSigners] returns for it, up to
    order, as long as no signer row is left over from an app that does not
    exist. *)
Theorem Create_ListSigners `{EL : !GoEthereumLaws} `{UL : !UuidLaws} inp w res w' :
  signers_fk (w_db w) ->
  run (Create inp) w = Done (Ok res) w' ->
  env_pg_fate (w_hist w') = PgServe ->
  exists addrs, run (ListSigners (cr_AppID res)) w' = Done (Ok addrs) (log EvDb w') /\
    addrs ≡ₚ cr_SignerAddresses res.
Proof.
  intros Hfk H Hf. apply Create_cases in H as (_ & _ & [[? _]|(res' & Hr & Hc)]); [done|].
  specialize (Hr res eq_refl) as <-. unfold ListSigners.
  destruct (created_signer_rows _ _ _ _ (env_stmt w') Hfk Hc) as (rows & Hrows & Hperm).
  rewrite run_bind. unfold pg, select. rewrite run_action, Hf, Hrows. cbn [fst snd run].
  eexists. split; [|exact Hperm]. by destruct w' as [[] ? ? ? ?].
Qed.
End properties.

(** ** Witnesses *)

Module AppDemo.
Import RefEnv.

(** Addresses numbered by the number of interactions so far. *)
#[export] Instance demoGen : KeystoreGenerator := {
  ks_Generate := action (fun w =>
    (Ok (addr (4096 + Z.of_nat (length (w_hist w)))), log EvFs w));
}.
#[export] Instance demoGenFrame : GeneratorFrame.
Proof. split. by apply keeps_action. Qed.

Definition demo_input : CreateInput :=
  MkCreateInput " shop " 3 "https://shop.example/hook" "10" "50" "".

Lemma demo_create : done_ok (run (Create demo_input) empty_world) = true.
Proof. vm_compute. reflexivity. Qed.

Lemma demo_fk : signers_fk empty_db.
Proof. intros k row H. simpl in H. by rewrite lookup_empty in H. Qed.

Lemma validateGasPolicy_spec_witness :
  validateGasPolicy (bigint_String 10) (bigint_String 50) = Ok tt /\
  validateGasPolicy (bigint_String 50) (bigint_String 50) <> Ok tt.
Proof.
  split.
  - apply (validateGasPolicy_spec 10 50); lia.
  - intros H. apply (validateGasPolicy_spec 50 50) in H; lia.
Defined.

Lemma Create_atomic_witness :
  exists res w', run (Create demo_input) empty_world = Done (Ok res) w' /\
    created demo_input res empty_db (w_db w').
Proof.
  destruct (done_ok_inv _ demo_create) as (res & w' & E). exists res, w'. split; [done|].
  destruct (Create_atomic _ _ _ _ E) as (_ & _ & [[? _]|(res' & Hr & Hc)]); [done|].
  by rewrite (Hr res eq_refl).
Defined.

Lemma Create_Authenticate_witness :
  exists res w', run (Create demo_input) empty_world = Done (Ok res) w' /\
    run (Authenticate (cr_BearerToken res)) w'
      = Done (Ok (MkIdentity (cr_AppID res) 3 false)) (log EvDb w').
Proof.
  destruct (done_ok_inv _ demo_create) as (res & w' & E). exists res, w'. split; [done|].
  exact (Create_Authenticate _ _ _ _ E eq_refl).
Defined.

Lemma Authenticate_sound_witness :
  run (Authenticate "tk_unknown") empty_world
    = Done (Err (ESentinel ErrInvalidToken)) (log EvDb empty_world) /\
  view (log EvDb empty_world) = view empty_world.
Proof.
  assert (run (Authenticate "tk_unknown") empty_world
    = Done (Err (ESentinel ErrInvalidToken)) (log EvDb empty_world)) as E by reflexivity.
  split; [exact E|]. exact (proj1 (Authenticate_sound _ _ _ _ E)).
Defined.

Lemma Create_ListSigners_witness :
  exists res w' addrs, run (Create demo_input) empty_world = Done (Ok res) w' /\
    run (ListSigners (cr_AppID res)) w' = Done (Ok addrs) (log EvDb w') /\
    addrs ≡ₚ cr_SignerAddresses res.
Proof.
  destruct (done_ok_inv _ demo_create) as (res & w' & E).
  destruct (Create_ListSigners _ empty_world _ _ demo_fk E eq_refl) as (addrs & H1 & H2).
  exists res, w', addrs. split; [exact E|]. split; [exact H1|exact H2].
Defined.
End AppDemo.
