(* ===== verification/FileSystem.v ===== *)
(** * Files: paths, the file system, and what the key store uses of the host

    [path/filepath] on Unix, the operations of package [os] on the part
    [w_files] of the world, and the parameters of the key store that are not
    code of the repository.  A file operation may fail, and a failing write may
    leave any prefix of the data behind.  A write that was served is kept, also
    across a crash of the process; what a machine that goes down loses of writes
    that were not synced is not modelled. *)

From Stdlib Require Import ZArith Lia.
From S2P Require Import Prelude GoLib JsonParse Eth Database World.

Local Open Scope Z_scope.
Local Open Scope txmill_scope.
#[local] Arguments string_drop : simpl never.

(** ** Paths: package [path/filepath] on Unix *)

Definition is_slash (c : ascii) : bool := Ascii.eqb c "/".

(** The components between slashes. *)
Fixpoint split_slash (s : string) : list string :=
  match s with
  | EmptyString => [""]
  | String c s' =>
      if is_slash c then "" :: split_slash s'
      else match split_slash s' with
           | x :: l => String c x :: l
           | [] => [String c ""]
           end
  end.

Fixpoint join_slash (l : list string) : string :=
  match l with
  | [] => ""
  | [x] => x
  | x :: l' => x +:+ "/" +:+ join_slash l'
  end.

(** One component, on the stack of those kept so far, the last on top. *)
Definition clean_step (rooted : bool) (stack : list string) (x : string) : list string :=
  if String.eqb x "" || String.eqb x "." then stack
  else if String.eqb x ".." then
    match stack with
    | top :: rest => if String.eqb top ".." then x :: stack else rest
    | [] => if rooted then [] else [x]
    end
  else x :: stack.

Definition filepath_Clean (s : string) : string :=
  let rooted := starts is_slash s in
  let out := join_slash (rev (fold_left (clean_step rooted) (split_slash s) [])) in
  if rooted then "/" +:+ out else if String.eqb out "" then "." else out.

Definition filepath_Join (dir name : string) : string :=
  if String.eqb dir "" then (if String.eqb name "" then "" else filepath_Clean name)
  else filepath_Clean (dir +:+ "/" +:+ name).

(** ** The file system *)

(** An operation is served, or it fails; a failed write has written some number
    of bytes or not opened the file, any other failed operation has taken effect
    ([Some _]) or not. *)
Inductive fs_fate :=
| FsServe
| FsFail (applied : option nat) (e : error).

(** What the key store uses from outside: the file system's faults,
    [crypto.GenerateKey], [crypto.FromECDSA], [crypto.ToECDSA] of go-ethereum
    and [argon2.IDKey] of x/crypto; [None] is a panic of it. *)
Class Host := {
  env_fs : history -> fs_fate;
  env_GenerateKey : history -> result private_key;
  FromECDSA : private_key -> string;
  ToECDSA : string -> result private_key;
  argon2_IDKey : string -> string -> Z -> Z -> Z -> Z -> option string;
}.

Class HostLaws `{Host} `{Environment} := {
  (** a generated key can be exported and read back *)
  GenerateKey_exports h k : env_GenerateKey h = Ok k -> ToECDSA (FromECDSA k) = Ok k;
  (** the derived key has the length asked for *)
  IDKey_length pw salt time memory threads len :
    1 <= time < 2 ^ 32 -> 0 <= memory < 2 ^ 32 -> 1 <= threads < 2 ^ 8 -> 4 <= len < 2 ^ 32 ->
    exists dk, argon2_IDKey pw salt time memory threads len = Some dk /\
      Z.of_nat (String.length dk) = len;
  (** [rand.Read] fills the whole slice *)
  rand_length h n s : env_rand h n = Ok s -> String.length s = n;
}.

Section actions.
Context `{Env : Environment} `{HO : Host}.

Definition ErrNotExist : error := EText "no such file or directory".

Definition os_ReadFile (path : string) : prog (result string) := action (fun w =>
  (match env_fs (w_hist w) with
   | FsServe => result_of_option ErrNotExist (w_files w !! path)
   | FsFail _ e => Err e
   end, log EvFs w)).

(** Creates or truncates the file, then writes. *)
Definition os_WriteFile (path data : string) : prog (result unit) := action (fun w =>
  match env_fs (w_hist w) with
  | FsServe => (Ok tt, set_files (<[path := data]> (w_files w)) (log EvFs w))
  | FsFail (Some n) e =>
      (Err e, set_files (<[path := string_take n data]> (w_files w)) (log EvFs w))
  | FsFail None e => (Err e, log EvFs w)
  end).

(** Moves the file, replacing what was there, in one step. *)
Definition os_Rename (src dst : string) : prog (result unit) := action (fun w =>
  let moved d := set_files (<[dst := d]> (delete src (w_files w))) (log EvFs w) in
  match env_fs (w_hist w), w_files w !! src with
  | FsServe, Some d => (Ok tt, moved d)
  | FsServe, None => (Err ErrNotExist, log EvFs w)
  | FsFail (Some _) e, Some d => (Err e, moved d)
  | FsFail _ e, _ => (Err e, log EvFs w)
  end).

Definition os_Remove (path : string) : prog (result unit) := action (fun w =>
  match env_fs (w_hist w) with
  | FsServe => (match w_files w !! path with Some _ => Ok tt | None => Err ErrNotExist end,
                set_files (delete path (w_files w)) (log EvFs w))
  | FsFail (Some _) e => (Err e, set_files (delete path (w_files w)) (log EvFs w))
  | FsFail None e => (Err e, log EvFs w)
  end).

(** Directories are not represented; whether one can be made or read is the
    environment's answer. *)
Definition os_MkdirAll (dir : string) : prog (result unit) := action (fun w =>
  (match env_fs (w_hist w) with FsServe => Ok tt | FsFail _ e => Err e end, log EvFs w)).

Definition crypto_GenerateKey : prog (result private_key) := action (fun w =>
  (env_GenerateKey (w_hist w), log EvGenerateKey w)).
End actions.

(** A directory entry. *)
Record dir_entry := DirEntry { de_Name : string; de_IsDir : bool }.

(** The entry of a directory that a file path belongs to, by the text before
    the directory's entries; a path that goes on after a further slash makes a
    subdirectory of it. *)
Definition entry_of (pre path : string) : option dir_entry :=
  if String.prefix pre path then
    match split_slash (string_drop (String.length pre) path) with
    | [name] => if String.eqb name "" then None else Some (DirEntry name false)
    | name :: _ =>
        if String.eqb name "" || String.eqb name ".." then None else Some (DirEntry name true)
    | [] => None
    end
  else None.

(** The text that precedes the names of a directory's files: its components,
    each with a slash. *)
Fixpoint slashes (l : list string) : string :=
  match l with [] => "" | x :: l' => x +:+ "/" +:+ slashes l' end.

Definition dir_prefix (dir : string) : string :=
  let rooted := starts is_slash dir in
  (if rooted then "/" else "") +:+ slashes (rev (fold_left (clean_step rooted) (split_slash dir) [])).

(** Sorted by name; the entry of a subdirectory appears once. *)
Fixpoint insert_entry (e : dir_entry) (l : list dir_entry) : list dir_entry :=
  match l with
  | [] => [e]
  | x :: l' =>
      match String.compare (de_Name e) (de_Name x) with
      | Lt => e :: l
      | Eq => if Bool.eqb (de_IsDir e) (de_IsDir x) then l else x :: insert_entry e l'
      | Gt => x :: insert_entry e l'
      end
  end.

Definition dir_entries (dir : string) (files : gmap string string) : list dir_entry :=
  foldr insert_entry [] (omap (entry_of (dir_prefix dir)) (map_to_list files).*1).

Definition os_ReadDir `{Environment} `{Host} (dir : string) : prog (result (list dir_entry)) :=
  action (fun w =>
    (match env_fs (w_hist w) with
     | FsServe => Ok (dir_entries dir (w_files w))
     | FsFail _ e => Err e
     end, log EvFs w)).

(** ** File names *)

(** A file name as [path] makes them. *)
Definition simple_name (n : string) : bool :=
  all_chars (fun c => negb (is_slash c)) n && negb (starts (Ascii.eqb ".") n) && negb (String.eqb n "").

Lemma split_slash_app a b :
  split_slash (a +:+ "/" +:+ b) = split_slash a ++ split_slash b.
Proof.
  induction a as [|c a IH]; [done|]. rewrite sapp_cons. cbn [split_slash]. rewrite IH.
  destruct (is_slash c); [done|]. destruct (split_slash a) as [|x l] eqn:E; [|done].
  exfalso. destruct a as [|c' a]; [done|]. cbn [split_slash] in E. destruct (is_slash c'); [done|].
  by destruct (split_slash a).
Qed.

Lemma split_slash_simple n :
  all_chars (fun c => negb (is_slash c)) n = true -> split_slash n = [n].
Proof.
  induction n as [|c n IH]; [done|]. cbn [all_chars split_slash].
  intros [Hc%negb_true_iff Hn]%andb_true_iff. by rewrite Hc, IH.
Qed.

Lemma join_snoc l x : join_slash (l ++ [x]) = slashes l +:+ x.
Proof.
  induction l as [|y l IH]; [done|]. cbn [slashes app]. rewrite !sapp_assoc, <- IH.
  by destruct l.
Qed.

Lemma simple_name_inv n :
  simple_name n = true ->
  split_slash n = [n] /\ starts is_slash n = false /\
  forall rooted stack, clean_step rooted stack n = n :: stack.
Proof.
  unfold simple_name. intros [[Hs Hd%negb_true_iff]%andb_true_iff Hne%negb_true_iff]%andb_true_iff.
  split; [by apply split_slash_simple|]. split.
  - destruct n as [|c n]; [done|]. cbn [all_chars starts] in *.
    by apply andb_true_iff in Hs as [?%negb_true_iff _].
  - intros rooted stack. unfold clean_step. rewrite Hne.
    destruct n as [|c n]; [done|]. cbn [starts] in Hd.
    assert (forall r, String.eqb (String c n) (String "." r) = false) as Hdot.
    { intros r. apply String.eqb_neq. intros [= -> _]. discriminate. }
    by rewrite !Hdot.
Qed.

(** A file of a directory. *)
Lemma Join_simple dir n :
  simple_name n = true -> filepath_Join dir n = dir_prefix dir +:+ n.
Proof.
  intros Hn. pose proof Hn as (Hs & Hr & Hc)%simple_name_inv. unfold filepath_Join, filepath_Clean.
  assert (n <> "") as Hne by by intros ->.
  destruct (String.eqb_spec dir "") as [->|Hd].
  - destruct (String.eqb_spec n ""); [done|]. rewrite Hr, Hs. cbn [fold_left]. rewrite Hc.
    cbn [rev app join_slash]. by destruct (String.eqb_spec n "").
  - rewrite starts_app by done. rewrite split_slash_app, fold_left_app, Hs. cbn [fold_left].
    rewrite Hc. cbn [rev]. rewrite join_snoc. unfold dir_prefix.
    destruct (starts is_slash dir); [by rewrite sapp_assoc|].
    destruct (String.eqb_spec (slashes (rev (fold_left (clean_step false) (split_slash dir) [])) +:+ n) "")
      as [E|]; [|done].
    apply (f_equal String.length) in E. rewrite sapp_length in E.
    destruct n; [done|]. simpl in E. lia.
Qed.

Lemma hex_check_inv n s :
  hex_check n s = true ->
  exists d, s = "0x" +:+ d /\ String.length d = n /\ all_chars lower_hex_char d = true.
Proof.
  unfold hex_check, HasPrefix. intros [[Hp Hl%Nat.eqb_eq]%andb_true_iff Hc]%andb_true_iff.
  destruct s as [|c1 [|c2 d]]; try (cbn in Hl; lia).
  exists d. cbn [String.prefix String.length] in Hp, Hl. destruct (ascii_dec "0" c1) as [<-|]; [|done].
  destruct (ascii_dec "x" c2) as [<-|]; [|done].
  split; [done|]. split; [lia|done].
Qed.

(** ** Frames *)

Section frames.
Context `{Env : Environment} `{HO : Host}.

Lemma os_ReadFile_view f : keeps view (os_ReadFile f).
Proof. by apply keeps_action. Qed.
Lemma os_ReadFile_files f : keeps w_files (os_ReadFile f).
Proof. by apply keeps_action. Qed.
Lemma os_ReadDir_files d : keeps w_files (os_ReadDir d).
Proof. by apply keeps_action. Qed.
Lemma os_WriteFile_view f d : keeps view (os_WriteFile f d).
Proof. apply keeps_action. intros w. by destruct (env_fs _) as [|[] e]. Qed.
Lemma os_Rename_view f d : keeps view (os_Rename f d).
Proof. apply keeps_action. intros w. by destruct (env_fs _) as [|[] e], (w_files w !! f). Qed.
Lemma os_Remove_view f : keeps view (os_Remove f).
Proof. apply keeps_action. intros w. by destruct (env_fs _) as [|[] e]. Qed.
Lemma GenerateKey_keeps {B} (g : world -> B) :
  (forall w, g (log EvGenerateKey w) = g w) -> keeps g crypto_GenerateKey.
Proof. intros H. apply keeps_action. intros w. apply H. Qed.

Lemma os_WriteFile_cases f data w r w' :
  run (os_WriteFile f data) w = Done r w' ->
  (r = Ok tt /\ w_files w' = <[f := data]> (w_files w)) \/
  (is_ok r = false /\ (w_files w' = w_files w \/ exists x, w_files w' = <[f := x]> (w_files w))).
Proof.
  unfold os_WriteFile. rewrite run_action. destruct (env_fs _) as [|[n|] e]; intros [= <- <-]; eauto.
Qed.
End frames.

#[export] Hint Resolve os_ReadFile_view os_WriteFile_view os_Rename_view os_Remove_view
  GenerateKey_keeps : txmill.

(** ** Directory entries *)

Lemma insert_entry_elem e l x : x ∈ insert_entry e l <-> x = e \/ x ∈ l.
Proof.
  induction l as [|y l IH]; cbn [insert_entry];
    [by rewrite elem_of_cons|].
  destruct (String.compare (de_Name e) (de_Name y)) eqn:Ec;
    [|rewrite !elem_of_cons, ?IH; tauto..].
  apply String.compare_eq_iff in Ec.
  destruct (Bool.eqb _ _) eqn:Eb; rewrite !elem_of_cons, ?IH; [|tauto].
  apply eqb_prop in Eb. assert (e = y) as -> by (destruct e, y; simpl in *; congruence). tauto.
Qed.

Lemma dir_entries_elem dir files e :
  e ∈ dir_entries dir files <->
  exists p data, files !! p = Some data /\ entry_of (dir_prefix dir) p = Some e.
Proof.
  unfold dir_entries.
  assert (forall l, e ∈ foldr insert_entry [] l <-> e ∈ l) as ->.
  { induction l as [|y l IH]; [done|]. cbn [foldr]. by rewrite insert_entry_elem, IH, elem_of_cons. }
  rewrite list_elem_of_omap. split.
  - intros (p & Hp & He). apply list_elem_of_fmap in Hp as ([p' data] & -> & Hp).
    apply elem_of_map_to_list in Hp. eauto.
  - intros (p & data & Hp & He). exists p. split; [|done]. apply list_elem_of_fmap.
    exists (p, data). split; [done|]. by apply elem_of_map_to_list.
Qed.

Lemma entry_of_file pre n : simple_name n = true -> entry_of pre (pre +:+ n) = Some (DirEntry n false).
Proof.
  intros Hn. unfold entry_of. rewrite prefix_app, string_drop_app.
  pose proof Hn as (-> & _ & _)%simple_name_inv.
  destruct (String.eqb_spec n "") as [->|]; done.
Qed.

Lemma join_split s : join_slash (split_slash s) = s.
Proof.
  induction s as [|c s IH]; [done|]. cbn [split_slash].
  destruct (is_slash c) eqn:E.
  - apply Ascii.eqb_eq in E as ->. destruct (split_slash s) as [|x l] eqn:Es; [|].
    + simpl in IH. by subst s.
    + change (join_slash ("" :: x :: l)) with ("/" +:+ join_slash (x :: l)). by rewrite IH.
  - destruct (split_slash s) as [|x l]; [by rewrite <- IH|].
    destruct l as [|y l]; [by rewrite <- IH|].
    change (join_slash (String c x :: y :: l)) with (String c (join_slash (x :: y :: l))).
    by rewrite IH.
Qed.

Lemma entry_of_inv pre p n : entry_of pre p = Some (DirEntry n false) -> p = pre +:+ n.
Proof.
  unfold entry_of. destruct (String.prefix pre p) eqn:Ep; [|done]. apply prefix_inv in Ep.
  intros H. rewrite Ep. f_equal. rewrite <- (join_split (string_drop _ p)).
  destruct (split_slash (string_drop _ p)) as [|x [|y l]]; [done| |by destruct (_ || _)].
  destruct (String.eqb x ""); [done|]. by injection H as ->.
Qed.
