(* ===== verification/Keystore.v ===== *)
(** * The key store ([internal/keystore])

    Private keys in one JSON file each, sealed with AES-256-GCM under a key
    derived from the store's password: [New], [Generate], [Load], [List] and the
    write through a temporary file; the file format and its round trip. *)

From Stdlib Require Import ZArith Lia.
From S2P Require Import Prelude GoLib Crypto Json JsonParse AesGcm Eth Database World SignerPool.
From S2P Require Import AppService FileSystem.

Local Open Scope Z_scope.
Local Open Scope txmill_scope.
#[local] Arguments string_drop : simpl never.

(** ** The file format *)

Definition fileVersion : Z := 1.
Definition keyLen : Z := 32.
Definition saltLen : nat := 16.
Definition kdfArgon2id : string := "argon2id".
Definition cipherAESGCM : string := "aes-256-gcm".

Record kdfParams := KdfParams {
  kdf_Name : string;
  kdf_Salt : string;
  kdf_Time : Z;
  kdf_Memory : Z;
  kdf_Threads : Z;
  kdf_KeyLen : Z;
}.

Record cipherBlob := CipherBlob {
  cb_Name : string;
  cb_Nonce : string;
  cb_Ciphertext : string;
}.

Record fileFormat := FileFormat {
  ff_Version : Z;
  ff_Address : string;
  ff_KDF : kdfParams;
  ff_Cipher : cipherBlob;
}.

Definition defaultKDF : kdfParams := KdfParams kdfArgon2id "" 1 (64 * 1024) 4 keyLen.

(** [kdf := defaultKDF; kdf.Salt = salt] *)
Definition with_salt (salt : string) (k : kdfParams) : kdfParams :=
  KdfParams (kdf_Name k) salt (kdf_Time k) (kdf_Memory k) (kdf_Threads k) (kdf_KeyLen k).

(** What [json.Unmarshal] stores where, by the structs' tags. *)
Definition kdf_fields : list (string * decoder kdfParams) := [
  ("name", at_field kdf_Name (fun x k => KdfParams x (kdf_Salt k) (kdf_Time k) (kdf_Memory k)
     (kdf_Threads k) (kdf_KeyLen k)) decode_string);
  ("salt", at_field kdf_Salt with_salt decode_bytes);
  ("time", at_field kdf_Time (fun x k => KdfParams (kdf_Name k) (kdf_Salt k) x (kdf_Memory k)
     (kdf_Threads k) (kdf_KeyLen k)) (decode_uint 32));
  ("memory", at_field kdf_Memory (fun x k => KdfParams (kdf_Name k) (kdf_Salt k) (kdf_Time k) x
     (kdf_Threads k) (kdf_KeyLen k)) (decode_uint 32));
  ("threads", at_field kdf_Threads (fun x k => KdfParams (kdf_Name k) (kdf_Salt k) (kdf_Time k)
     (kdf_Memory k) x (kdf_KeyLen k)) (decode_uint 8));
  ("key_len", at_field kdf_KeyLen (fun x k => KdfParams (kdf_Name k) (kdf_Salt k) (kdf_Time k)
     (kdf_Memory k) (kdf_Threads k) x) (decode_uint 32))].

Definition cipher_fields : list (string * decoder cipherBlob) := [
  ("name", at_field cb_Name (fun x c => CipherBlob x (cb_Nonce c) (cb_Ciphertext c)) decode_string);
  ("nonce", at_field cb_Nonce (fun x c => CipherBlob (cb_Name c) x (cb_Ciphertext c)) decode_bytes);
  ("ciphertext", at_field cb_Ciphertext (fun x c => CipherBlob (cb_Name c) (cb_Nonce c) x)
     decode_bytes)].

Definition file_fields : list (string * decoder fileFormat) := [
  ("version", at_field ff_Version (fun x f => FileFormat x (ff_Address f) (ff_KDF f) (ff_Cipher f))
     decode_int);
  ("address", at_field ff_Address (fun x f => FileFormat (ff_Version f) x (ff_KDF f) (ff_Cipher f))
     decode_string);
  ("kdf", at_field ff_KDF (fun x f => FileFormat (ff_Version f) (ff_Address f) x (ff_Cipher f))
     (decode_struct kdf_fields));
  ("cipher", at_field ff_Cipher (fun x f => FileFormat (ff_Version f) (ff_Address f) (ff_KDF f) x)
     (decode_struct cipher_fields))].

(** [var f fileFormat] *)
Definition zero_file : fileFormat :=
  FileFormat 0 "" (KdfParams "" "" 0 0 0 0) (CipherBlob "" "" "").

Definition unmarshal_file (data : string) : result fileFormat :=
  Unmarshal (decode_struct file_fields) zero_file data.

(** The JSON value of a file; its byte slices are never nil when written. *)
Definition file_json (f : fileFormat) : json :=
  JObj [
    ("version", JNum (bigint_String (ff_Version f)));
    ("address", JStr (ff_Address f));
    ("kdf", JObj [
      ("name", JStr (kdf_Name (ff_KDF f)));
      ("salt", JStr (StdEncode (kdf_Salt (ff_KDF f))));
      ("time", JNum (bigint_String (kdf_Time (ff_KDF f))));
      ("memory", JNum (bigint_String (kdf_Memory (ff_KDF f))));
      ("threads", JNum (bigint_String (kdf_Threads (ff_KDF f))));
      ("key_len", JNum (bigint_String (kdf_KeyLen (ff_KDF f))))]);
    ("cipher", JObj [
      ("name", JStr (cb_Name (ff_Cipher f)));
      ("nonce", JStr (StdEncode (cb_Nonce (ff_Cipher f))));
      ("ciphertext", JStr (StdEncode (cb_Ciphertext (ff_Cipher f))))])].

(** [json.MarshalIndent(doc, "", "  ")], which cannot fail on this type *)
Definition marshal_file (f : fileFormat) : string := indent_value 0 (file_json f).

(** ** The store *)

Record Keystore := MkKeystore {
  ks_dir : string;
  ks_password : string;
}.

Section keystore.
Context `{Env : Environment} `{HO : Host} `{Eth : GoEthereum}.

Definition New (dir password : string) : prog (result Keystore) :=
  if String.eqb password "" then Ret (Err (EText "keystore: password is required"))
  else
    let? _ := os_MkdirAll dir or "keystore: mkdir" in
    Ret (Ok (MkKeystore dir password)).

Definition path (k : Keystore) (addr : address) : string :=
  filepath_Join (ks_dir k) (lowerHex addr +:+ ".json").

(** The AEAD of a key; [cipher.NewGCM] cannot fail on an AES block. *)
Definition newGCM (key : string) : result string :=
  if aes_key_ok key then Ok key
  else Err (EWrap "keystore: aes" (EText ("crypto/aes: invalid key size " +:+
    bigint_String (Z.of_nat (String.length key))))).

Definition write (k : Keystore) (addr : address) (priv : private_key) : prog (result unit) :=
  let? salt := rand_Read saltLen or "keystore: salt" in
  let kdf := with_salt salt defaultKDF in
  match argon2_IDKey (ks_password k) salt (kdf_Time kdf) (kdf_Memory kdf) (kdf_Threads kdf)
          (kdf_KeyLen kdf) with
  | None => Panic "argon2"
  | Some dk =>
      match newGCM dk with
      | Err e => Ret (Err e)
      | Ok gcm =>
          let? nonce := rand_Read gcmNonceSize or "keystore: nonce" in
          let ct := gcm_Seal gcm nonce (FromECDSA priv) in
          let doc := FileFormat fileVersion (Address_Hex addr) kdf (CipherBlob cipherAESGCM nonce ct) in
          let data := marshal_file doc in
          let tmp := path k addr +:+ ".tmp" in
          let? _ := os_WriteFile tmp data or "keystore: write" in
          let! r := os_Rename tmp (path k addr) in
          match r with
          | Err e => do! os_Remove tmp in Ret (Err (EWrap "keystore: rename" e))
          | Ok _ => Ret (Ok tt)
          end
      end
  end.

Definition Generate (k : Keystore) : prog (result address) :=
  let? priv := crypto_GenerateKey or "keystore: generate key" in
  let addr := PubkeyToAddress priv in
  let? _ := write k addr priv in
  Ret (Ok addr).

(** What [Load] makes of the file's bytes; [None] is a panic, of
    [argon2.IDKey] or of [gcm.Open] on a nonce of the wrong length.  Two error
    texts leave out the quoted name ([%q]) they end with. *)
Definition open_file (password data : string) (addr : address) : option (result private_key) :=
  match unmarshal_file data with
  | Err e => Some (Err (EWrap "keystore: parse" e))
  | Ok f =>
      if negb (ff_Version f =? fileVersion) then
        Some (Err (EText ("keystore: unsupported version " +:+ bigint_String (ff_Version f))))
      else if negb (String.eqb (kdf_Name (ff_KDF f)) kdfArgon2id) then
        Some (Err (EText "keystore: unsupported kdf"))
      else if negb (String.eqb (cb_Name (ff_Cipher f)) cipherAESGCM) then
        Some (Err (EText "keystore: unsupported cipher"))
      else
        match argon2_IDKey password (kdf_Salt (ff_KDF f)) (kdf_Time (ff_KDF f))
                (kdf_Memory (ff_KDF f)) (kdf_Threads (ff_KDF f)) (kdf_KeyLen (ff_KDF f)) with
        | None => None
        | Some dk =>
            match newGCM dk with
            | Err e => Some (Err e)
            | Ok gcm =>
                if negb (Nat.eqb (String.length (cb_Nonce (ff_Cipher f))) gcmNonceSize) then None
                else
                  match gcm_Open gcm (cb_Nonce (ff_Cipher f)) (cb_Ciphertext (ff_Cipher f)) with
                  | Err e => Some (Err (EWrap "keystore: decrypt" e))
                  | Ok plaintext =>
                      match ToECDSA plaintext with
                      | Err e => Some (Err (EWrap "keystore: parse key" e))
                      | Ok priv =>
                          let got := PubkeyToAddress priv in
                          if bool_decide (got = addr) then Some (Ok priv)
                          else Some (Err (EText ("keystore: address mismatch: file=" +:+
                            Address_Hex got +:+ " want=" +:+ Address_Hex addr)))
                      end
                  end
            end
        end
  end.

Definition Load (k : Keystore) (addr : address) : prog (result private_key) :=
  let? data := os_ReadFile (path k addr) or "keystore: read" in
  match open_file (ks_password k) data addr with
  | Some r => Ret r
  | None => Panic "keystore: malformed key file"
  end.

(** The address an entry stands for, if it is one of the store's files. *)
Definition listed (e : dir_entry) : option address :=
  if de_IsDir e then None
  else if negb (HasSuffix (de_Name e) ".json") then None
  else
    let hexAddr := TrimSuffix (de_Name e) ".json" in
    if negb (IsHexAddress hexAddr) then None else Some (HexToAddress hexAddr).

Definition List (k : Keystore) : prog (result (list address)) :=
  let? entries := os_ReadDir (ks_dir k) or "keystore: readdir" in
  Ret (Ok (omap listed entries)).

(** The store as the interfaces its clients use. *)
Definition loader_of (k : Keystore) : KeystoreLoader := {| ks_Load := Load k |}.
Definition generator_of (k : Keystore) : KeystoreGenerator := {| ks_Generate := Generate k |}.
End keystore.

(** ** The file format: reading undoes writing *)

Lemma std_text_plain c : std_text c = true -> plain_char c = true.
Proof. destruct c as [[] [] [] [] [] [] [] []]; vm_compute; congruence. Qed.

Lemma std_encode_text l : Forall is_byte l -> all_chars std_text (std_encode l) = true.
Proof.
  induction l as [|a|a b|a b c l IH] using triple_ind; intros Hl; [done| | |].
  all: cbn [std_encode all_chars]; split_bytes; rewrite !std_char_text by lia; cbn.
  all: by rewrite ?IH.
Qed.

Lemma all_chars_impl (p q : ascii -> bool) s :
  (forall c, p c = true -> q c = true) -> all_chars p s = true -> all_chars q s = true.
Proof.
  intros Hpq. induction s as [|c s IH]; [done|]. cbn. intros [Hc Hs]%andb_true_iff.
  by rewrite (Hpq c Hc), IH.
Qed.

Lemma StdEncode_plain s : plain (StdEncode s) = true.
Proof.
  eapply all_chars_impl; [apply std_text_plain|]. apply std_encode_text, bytes_are_bytes.
Qed.

(** The values of the Go types, with texts that need no escape. *)
Definition file_ok (f : fileFormat) : Prop :=
  0 <= ff_Version f < 2 ^ 63 /\ plain (ff_Address f) = true /\
  plain (kdf_Name (ff_KDF f)) = true /\ 0 <= kdf_Time (ff_KDF f) < 2 ^ 32 /\
  0 <= kdf_Memory (ff_KDF f) < 2 ^ 32 /\ 0 <= kdf_Threads (ff_KDF f) < 2 ^ 8 /\
  0 <= kdf_KeyLen (ff_KDF f) < 2 ^ 32 /\ plain (cb_Name (ff_Cipher f)) = true.

Lemma file_json_printable f : file_ok f -> printable 2 (file_json f).
Proof.
  intros (? & ? & ? & ? & ? & ? & ? & ?). unfold file_json.
  repeat first [ apply Forall_nil_2 | apply Forall_cons; split | split ]; cbn [fst snd printable];
    first [ reflexivity | done | apply StdEncode_plain | apply bigint_plain; lia | idtac ].
Qed.

Lemma decode_uint_String bits z old :
  0 <= z < 2 ^ bits -> decode_uint bits (JNum (bigint_String z)) old = Some z.
Proof.
  intros H. unfold decode_uint. rewrite parse_digits_String by lia.
  destruct (Z.ltb_spec z (2 ^ bits)); [done|lia].
Qed.

Lemma decode_int_String z old :
  - 2 ^ 63 <= z < 2 ^ 63 -> decode_int (JNum (bigint_String z)) old = Some z.
Proof.
  intros H. unfold decode_int. rewrite SetString10_String.
  destruct (Z.leb_spec (- 2 ^ 63) z), (Z.ltb_spec z (2 ^ 63)); done || lia.
Qed.

(** One member of an object, when its field decodes. *)
Lemma decode_member_ok {A} (fields : list (string * decoder A)) k v a a' dec :
  find_field fields k = Some dec -> dec v a = Some a' ->
  decode_member fields (Some a) (k, v) = Some a'.
Proof. intros H1 H2. unfold decode_member. cbn [fst snd]. by rewrite H1. Qed.

(** Decode the next member, named [k], with [tac] for its value. *)
Ltac decode_next k tac :=
  erewrite (decode_member_ok _ k);
    [|reflexivity|cbn [snd]; unfold at_field; tac (); reflexivity].

Lemma decode_kdf k old :
  plain (kdf_Name k) = true -> 0 <= kdf_Time k < 2 ^ 32 -> 0 <= kdf_Memory k < 2 ^ 32 ->
  0 <= kdf_Threads k < 2 ^ 8 -> 0 <= kdf_KeyLen k < 2 ^ 32 ->
  decode_struct kdf_fields (JObj [
      ("name", JStr (kdf_Name k)); ("salt", JStr (StdEncode (kdf_Salt k)));
      ("time", JNum (bigint_String (kdf_Time k))); ("memory", JNum (bigint_String (kdf_Memory k)));
      ("threads", JNum (bigint_String (kdf_Threads k)));
      ("key_len", JNum (bigint_String (kdf_KeyLen k)))]) old = Some k.
Proof.
  intros ? ? ? ? ?. unfold decode_struct. cbn [fold_left].
  decode_next "name" ltac:(fun _ => idtac).
  decode_next "salt" ltac:(fun _ => unfold decode_bytes; rewrite StdDecode_Encode).
  decode_next "time" ltac:(fun _ => rewrite decode_uint_String by done).
  decode_next "memory" ltac:(fun _ => rewrite decode_uint_String by done).
  decode_next "threads" ltac:(fun _ => rewrite decode_uint_String by done).
  decode_next "key_len" ltac:(fun _ => rewrite decode_uint_String by done).
  by destruct k.
Qed.

Lemma decode_cipher c old :
  decode_struct cipher_fields (JObj [
      ("name", JStr (cb_Name c)); ("nonce", JStr (StdEncode (cb_Nonce c)));
      ("ciphertext", JStr (StdEncode (cb_Ciphertext c)))]) old = Some c.
Proof.
  unfold decode_struct. cbn [fold_left].
  decode_next "name" ltac:(fun _ => idtac).
  decode_next "nonce" ltac:(fun _ => unfold decode_bytes; rewrite StdDecode_Encode).
  decode_next "ciphertext" ltac:(fun _ => unfold decode_bytes; rewrite StdDecode_Encode).
  by destruct c.
Qed.

Lemma unmarshal_marshal f : file_ok f -> unmarshal_file (marshal_file f) = Ok f.
Proof.
  intros Hf. unfold unmarshal_file, Unmarshal, marshal_file.
  rewrite (parse_indent 2); [|by apply file_json_printable|done].
  destruct Hf as (? & ? & ? & ? & ? & ? & ? & ?). unfold file_json, decode_struct. cbn [fold_left].
  decode_next "version" ltac:(fun _ => rewrite decode_int_String by lia).
  decode_next "address" ltac:(fun _ => idtac).
  decode_next "kdf" ltac:(fun _ => rewrite decode_kdf by done).
  decode_next "cipher" ltac:(fun _ => rewrite decode_cipher).
  by destruct f.
Qed.

(** A property of structs that every field's decoder keeps. *)
Lemma decode_struct_inv {A} (P : A -> Prop) (fields : list (string * decoder A)) :
  Forall (fun f => forall j a a', P a -> f.2 j a = Some a' -> P a') fields ->
  forall j a a', P a -> decode_struct fields j a = Some a' -> P a'.
Proof.
  intros Hf j a a' Ha. destruct j as [| | | | |l]; try done; [by intros [= <-]|].
  unfold decode_struct. assert (forall o, (forall b, o = Some b -> P b) ->
    forall b, fold_left (decode_member fields) l o = Some b -> P b) as H.
  2:{ intros E. by eapply (H (Some a)); [intros b [= <-]|]. }
  induction l as [|m l IH]; intros o Ho b; [apply Ho|]. cbn [fold_left]. apply IH. clear IH.
  intros c. unfold decode_member. destruct o as [x|]; [|done].
  destruct (find_field fields m.1) as [dec|] eqn:E; [|by apply Ho].
  assert (exists f, f ∈ fields /\ dec = f.2) as (f & Hin & ->).
  { unfold find_field in E. destruct (List.find _ fields) as [f|] eqn:E1.
    - injection E as <-. exists f. apply find_some in E1 as [E1 _]. by apply list_elem_of_In in E1.
    - destruct (List.find (fun f => String.eqb (fold_name f.1) _) fields) as [f|] eqn:E2; [|done].
      injection E as <-. exists f. apply find_some in E2 as [E2 _]. by apply list_elem_of_In in E2. }
  rewrite Forall_forall in Hf. intros Hd. eapply (Hf f Hin); [by apply Ho|exact Hd].
Qed.

Lemma decode_uint_range bits j old z :
  0 <= old < 2 ^ bits -> decode_uint bits j old = Some z -> 0 <= z < 2 ^ bits.
Proof.
  intros Ho. destruct j; try done; [by intros [= <-]|]. unfold decode_uint.
  destruct (parse_digits lit) as [n|] eqn:E; [|done]. apply parse_digits_nonneg in E.
  destruct (Z.ltb_spec n (2 ^ bits)); [|done]. intros [= <-]. lia.
Qed.

(** The numbers of a decoded file are in the ranges of their Go types. *)
Definition kdf_ranges (k : kdfParams) : Prop :=
  0 <= kdf_Time k < 2 ^ 32 /\ 0 <= kdf_Memory k < 2 ^ 32 /\
  0 <= kdf_Threads k < 2 ^ 8 /\ 0 <= kdf_KeyLen k < 2 ^ 32.

Lemma at_field_inv {A F} (get : A -> F) set (dec : decoder F) (P : A -> Prop) :
  (forall j a f, P a -> dec j (get a) = Some f -> P (set f a)) ->
  forall j a a', P a -> at_field get set dec j a = Some a' -> P a'.
Proof.
  intros H j a a' Ha. unfold at_field. destruct (dec j (get a)) as [f|] eqn:E; [|done].
  intros [= <-]. by eapply H.
Qed.

Lemma decode_kdf_ranges j k k' :
  kdf_ranges k -> decode_struct kdf_fields j k = Some k' -> kdf_ranges k'.
Proof.
  apply decode_struct_inv.
  repeat (apply Forall_cons; split; [apply at_field_inv; intros j0 a0 x (? & ? & ? & ?) Hd;
    try (apply decode_uint_range in Hd; [|done]); unfold kdf_ranges;
    cbn [kdf_Time kdf_Memory kdf_Threads kdf_KeyLen with_salt]; tauto|]).
  constructor.
Qed.

Lemma unmarshal_ranges data f : unmarshal_file data = Ok f -> kdf_ranges (ff_KDF f).
Proof.
  unfold unmarshal_file, Unmarshal. destruct (parse_json data) as [j|]; [|done].
  destruct (decode_struct file_fields j zero_file) as [f'|] eqn:E; [|done]. intros [= <-].
  revert E. apply (decode_struct_inv (fun f => kdf_ranges (ff_KDF f))); [|by repeat split].
  apply Forall_cons; split; [by apply at_field_inv|].
  apply Forall_cons; split; [by apply at_field_inv|].
  apply Forall_cons; split; [|apply Forall_cons; split; [by apply at_field_inv|constructor]].
  apply at_field_inv. intros j0 a x Ha Hd. by eapply decode_kdf_ranges.
Qed.

(** ** Key file names *)

Section paths.
Context `{Eth : GoEthereum} `{EL : !GoEthereumLaws}.

Lemma lowerHex_length a : String.length (lowerHex a) = 42%nat.
Proof.
  destruct (hex_check_inv _ _ (lowerHex_check a)) as (d & -> & Hl & _). rewrite sapp_length, Hl. done.
Qed.

Lemma file_name_simple a suffix :
  all_chars (fun c => negb (is_slash c)) suffix = true -> simple_name (lowerHex a +:+ suffix) = true.
Proof.
  intros Hs. destruct (hex_check_inv _ _ (lowerHex_check a)) as (d & -> & _ & Hd).
  assert (all_chars (fun c => negb (is_slash c)) d = true) as Hn.
  { eapply all_chars_impl; [|exact Hd]. intros [[] [] [] [] [] [] [] []]; vm_compute; congruence. }
  unfold simple_name. by rewrite sapp_assoc, !all_chars_app, Hs, Hn.
Qed.

Lemma path_eq k a : path k a = dir_prefix (ks_dir k) +:+ lowerHex a +:+ ".json".
Proof. unfold path. by rewrite Join_simple by by apply file_name_simple. Qed.

Lemma path_inj k a b : path k a = path k b -> a = b.
Proof.
  rewrite !path_eq. intros H. apply sapp_inj_l, sapp_inj_r in H. by apply lowerHex_inj.
Qed.

(** A temporary file is never a key file. *)
Lemma tmp_not_path k a b : path k a +:+ ".tmp" <> path k b.
Proof.
  rewrite !path_eq, !sapp_assoc. intros H. apply sapp_inj_l, (f_equal String.length) in H.
  rewrite !sapp_length, !lowerHex_length in H. discriminate.
Qed.

Lemma Address_Hex_plain a : plain (Address_Hex a) = true.
Proof.
  destruct (hex_check_inv _ _ (lowerHex_check a)) as (d & E & _ & Hd).
  assert (all_chars (fun c => lower_hex_char c || Ascii.eqb c "x") (lowerHex a) = true) as H.
  { rewrite E, all_chars_app. apply andb_true_iff. split; [done|].
    eapply all_chars_impl; [|exact Hd]. by intros c ->. }
  revert H. unfold lowerHex. generalize (Address_Hex a). intros s. clear.
  induction s as [|c s IH]; [done|]. unfold plain. cbn. intros [Hc Hs]%andb_true_iff.
  apply andb_true_iff. split; [|by apply IH].
  revert Hc. destruct c as [[] [] [] [] [] [] [] []]; vm_compute; congruence.
Qed.
End paths.
