(* ===== verification/KeystoreSafety.v ===== *)
(** * What the key store guarantees

    Sealing and opening are inverse, key files are never damaged by a crash or a
    failing file system, [Load] and [List] are exact, and the store as a whole
    refines a finite map from addresses to keys. *)

From Stdlib Require Import ZArith Lia.
From S2P Require Import Prelude GoLib Crypto Json JsonParse AesGcm Eth Database World SignerPool.
From S2P Require Import RefEnv AppService FileSystem Keystore.

Local Open Scope Z_scope.
Local Open Scope txmill_scope.
#[local] Arguments string_drop : simpl never.

(** ** Frames: the store touches only its files *)

Section frames.
Context `{Env : Environment} `{HO : Host} `{Eth : GoEthereum}.

Lemma Load_view k a : keeps view (Load k a).
Proof. unfold Load. solve_keeps. Qed.
Lemma Load_files k a : keeps w_files (Load k a).
Proof. unfold Load. apply keeps_bind; [apply os_ReadFile_files|]. intros [d|e]; [|done].
  by destruct (open_file _ _ _). Qed.
Lemma Generate_view k : keeps view (Generate k).
Proof. unfold Generate, write. solve_keeps. Qed.

#[export] Instance loader_frame k : @KeystoreFrame (loader_of k).
Proof. split. intros a. apply Load_view. Qed.
#[export] Instance generator_frame k : @GeneratorFrame (generator_of k).
Proof. split. apply Generate_view. Qed.
End frames.

Section properties.
Context `{Env : Environment} `{HO : Host} `{Eth : GoEthereum}.
Context `{HL : !HostLaws} `{EL : !GoEthereumLaws}.

(** ** A sealed key opens *)

Definition sealed (dk salt nonce : string) (priv : private_key) : string :=
  marshal_file (FileFormat fileVersion (Address_Hex (PubkeyToAddress priv)) (with_salt salt defaultKDF)
    (CipherBlob cipherAESGCM nonce (gcm_Seal dk nonce (FromECDSA priv)))).

(** The derivation with the parameters [write] uses. *)
Definition derive (pw salt : string) : option string :=
  argon2_IDKey pw salt (kdf_Time defaultKDF) (kdf_Memory defaultKDF) (kdf_Threads defaultKDF)
    (kdf_KeyLen defaultKDF).

Lemma derive_key pw salt : exists dk, derive pw salt = Some dk /\ newGCM dk = Ok dk.
Proof.
  destruct (IDKey_length pw salt 1 (64 * 1024) 4 32) as (dk & E & Hl); [lia..|].
  exists dk. split; [exact E|]. unfold newGCM, aes_key_ok.
  replace (String.length dk) with 32%nat by lia. done.
Qed.

Lemma open_sealed pw dk salt nonce priv :
  derive pw salt = Some dk -> newGCM dk = Ok dk -> String.length nonce = gcmNonceSize ->
  ToECDSA (FromECDSA priv) = Ok priv ->
  open_file pw (sealed dk salt nonce priv) (PubkeyToAddress priv) = Some (Ok priv).
Proof.
  intros Hd Hg Hn Hk. unfold open_file, sealed. rewrite unmarshal_marshal.
  2:{ repeat split; cbn [ff_Version ff_Address ff_KDF ff_Cipher with_salt kdf_Name kdf_Time kdf_Memory
        kdf_Threads kdf_KeyLen defaultKDF cb_Name]; try done. apply Address_Hex_plain. }
  cbn [ff_Version ff_Address ff_KDF ff_Cipher with_salt kdf_Name kdf_Salt kdf_Time kdf_Memory
        kdf_Threads kdf_KeyLen cb_Name cb_Nonce cb_Ciphertext].
  unfold derive in Hd. rewrite Hd, Hg, Hn.
  assert (aes_key_ok dk = true) as Hok by (unfold newGCM in Hg; by destruct (aes_key_ok dk)).
  rewrite gcm_Open_Seal, Hk by done. cbn. by rewrite bool_decide_eq_true_2.
Qed.

(** ** Crash safety of [Generate] *)

(** The key of an address can be loaded from these files. *)
Definition holds_key (k : Keystore) (files : gmap string string) (a : address) (priv : private_key)
    : Prop :=
  exists data, files !! path k a = Some data /\ open_file (ks_password k) data a = Some (Ok priv).

(** The temporary files of the store. *)
Definition is_tmp (k : Keystore) (p : string) : Prop := exists a, p = path k a +:+ ".tmp".

Lemma path_not_tmp k a : ~ is_tmp k (path k a).
Proof. intros (b & E). by apply (tmp_not_path k b a). Qed.

(** All files are as they were, temporary ones apart. *)
Definition same_keys (k : Keystore) (old new : gmap string string) : Prop :=
  forall p, ~ is_tmp k p -> new !! p = old !! p.

(** At most the file of one key was added or replaced, by a complete one. *)
Definition added (k : Keystore) (priv : private_key) (old new : gmap string string) : Prop :=
  same_keys k old new \/
  exists data, open_file (ks_password k) data (PubkeyToAddress priv) = Some (Ok priv) /\
    new !! path k (PubkeyToAddress priv) = Some data /\
    forall p, ~ is_tmp k p -> p <> path k (PubkeyToAddress priv) -> new !! p = old !! p.

Lemma same_keys_tmp k files a x : same_keys k files (<[path k a +:+ ".tmp" := x]> files).
Proof. intros p Hp. rewrite lookup_insert_ne; [done|]. intros <-. apply Hp. by exists a. Qed.

Lemma same_keys_delete k files a : same_keys k files (delete (path k a +:+ ".tmp") files).
Proof. intros p Hp. rewrite lookup_delete_ne; [done|]. intros <-. apply Hp. by exists a. Qed.

#[local] Instance same_keys_preorder k : PreOrder (same_keys k).
Proof. split; [done|]. intros x y z H1 H2 p Hp. by rewrite H2, H1. Qed.

Lemma added_same k priv old new new' :
  added k priv old new -> same_keys k new new' -> added k priv old new'.
Proof.
  intros [H|(data & Ho & Hn & Hr)] Hs; [left; by etrans|]. right. exists data.
  rewrite (Hs _ (path_not_tmp _ _)). split; [done|]. split; [done|]. intros p Hp Hne.
  rewrite Hs by done. by apply Hr.
Qed.

Lemma added_insert k old files data priv :
  same_keys k old files -> open_file (ks_password k) data (PubkeyToAddress priv) = Some (Ok priv) ->
  added k priv old (<[path k (PubkeyToAddress priv) := data]> files).
Proof.
  intros H Ho. right. exists data. split; [done|]. split; [apply lookup_insert_eq|].
  intros p Hp Hne. rewrite lookup_insert_ne by done. by apply H.
Qed.

(** Every key file is as it was, or complete. *)
Definition keys_kept (k : Keystore) (old new : gmap string string) : Prop :=
  forall a, new !! path k a = old !! path k a \/ exists priv, holds_key k new a priv.

Lemma added_keys_kept k priv old new : added k priv old new -> keys_kept k old new.
Proof.
  intros [H|(data & Ho & Hn & Hr)] a; [left; apply H, path_not_tmp|].
  destruct (decide (a = PubkeyToAddress priv)) as [->|Hne].
  - right. exists priv, data. done.
  - left. apply Hr; [apply path_not_tmp|]. intros E. by apply path_inj in E.
Qed.

(** The last part of [write]: the document goes to the temporary file, which
    then replaces the key file. *)
Definition install (k : Keystore) (a : address) (data : string) : prog (result unit) :=
  let? _ := os_WriteFile (path k a +:+ ".tmp") data or "keystore: write" in
  let! r := os_Rename (path k a +:+ ".tmp") (path k a) in
  match r with
  | Err e => do! os_Remove (path k a +:+ ".tmp") in Ret (Err (EWrap "keystore: rename" e))
  | Ok _ => Ret (Ok tt)
  end.

Lemma install_worlds k data priv w :
  open_file (ks_password k) data (PubkeyToAddress priv) = Some (Ok priv) ->
  Forall (fun w' => added k priv (w_files w) (w_files w')) (worlds (install k (PubkeyToAddress priv) data) w).
Proof.
  intros Ho. unfold install. set (a := PubkeyToAddress priv) in *. apply worlds_bind.
  { apply worlds_action; [by left|].
    destruct (env_fs _) as [|[n|] e]; cbn; left; done || apply same_keys_tmp. }
  intros r w1 H1 Hk. apply os_WriteFile_cases in H1 as [[-> Hf]|[He _]].
  2:{ destruct r; [done|]. by apply worlds_Ret. }
  assert (same_keys k (w_files w) (delete (path k a +:+ ".tmp") (w_files w1))) as Hs.
  { rewrite Hf. etrans; [apply same_keys_tmp|apply same_keys_delete]. }
  apply worlds_bind.
  { apply worlds_action; [done|].
    destruct (env_fs _) as [|[n|] e]; rewrite ?Hf, ?lookup_insert_eq; cbn; try done;
      rewrite <- Hf; by apply added_insert. }
  intros r2 w2 _ Hk2. destruct r2 as [[]|e]; [by apply worlds_Ret|].
  apply worlds_bind; [|intros _ w3 _ Hk3; by apply worlds_Ret].
  apply worlds_action; [done|].
  destruct (env_fs _) as [|[n|] e']; cbn; try done; (eapply added_same; [done|apply same_keys_delete]).
Qed.

(** [write] fills buffers from the random source, then installs a document that
    opens to the key. *)
Lemma write_worlds k priv w :
  ToECDSA (FromECDSA priv) = Ok priv ->
  Forall (fun w' => added k priv (w_files w) (w_files w')) (worlds (write k (PubkeyToAddress priv) priv) w).
Proof.
  intros Hpriv. set (P := fun w' => added k priv (w_files w) (w_files w')).
  assert (forall n w1, P w1 -> Forall P (worlds (rand_Read n) w1)) as Hrand.
  { intros n w1 H1. by apply worlds_action. }
  unfold write. apply worlds_bind; [by apply Hrand; left|].
  intros r w1 H1 Hw1. destruct r as [salt|e]; [|by apply worlds_Ret].
  destruct (derive_key (ks_password k) salt) as (dk & Hdk & Hg).
  change (argon2_IDKey _ _ _ _ _ _) with (derive (ks_password k) salt). rewrite Hdk, Hg.
  apply worlds_bind; [by apply Hrand|].
  intros r w2 H2 Hw2. destruct r as [nonce|e]; [|by apply worlds_Ret].
  assert (w_files w2 = w_files w) as E2.
  { eapply (keeps_Done w_files) in H1, H2; [|by apply rand_Read_keeps..]. congruence. }
  assert (String.length nonce = gcmNonceSize) as Hn.
  { unfold rand_Read in H2. rewrite run_action in H2. injection H2 as H2 _. by eapply rand_length. }
  pose proof (install_worlds k (sealed dk salt nonce priv) priv w2) as Hi.
  rewrite E2 in Hi. apply Hi. by apply open_sealed.
Qed.

Lemma Generate_worlds k w :
  Forall (fun w' => w_files w' = w_files w \/ exists priv, env_GenerateKey (w_hist w) = Ok priv /\
    added k priv (w_files w) (w_files w')) (worlds (Generate k) w).
Proof.
  unfold Generate. apply worlds_bind; [by apply worlds_action; left|].
  intros r w1 H1 Hw1. destruct r as [priv|e]; [|by apply worlds_Ret].
  unfold crypto_GenerateKey in H1. rewrite run_action in H1. injection H1 as H1 <-.
  apply worlds_bind; [|intros [] w2 _ ?; by apply worlds_Ret].
  eapply Forall_impl; [apply (write_worlds k priv (log EvGenerateKey w)); by eapply GenerateKey_exports|].
  simpl. intros w' Ha. right. eauto.
Qed.

Lemma Generate_keys_kept k w :
  Forall (fun w' => keys_kept k (w_files w) (w_files w')) (worlds (Generate k) w).
Proof.
  eapply Forall_impl; [apply Generate_worlds|]. simpl. intros w' [->|(priv & _ & H)] a; [by left|].
  exact (added_keys_kept _ _ _ _ H a).
Qed.

Lemma install_Ok k a data w w' :
  run (install k a data) w = Done (Ok tt) w' -> w_files w' !! path k a = Some data.
Proof.
  unfold install. intros (u & w1 & H1 & H)%try_Done. destruct u.
  apply os_WriteFile_cases in H1 as [[_ Hf]|[? _]]; [|done].
  apply bind_Done in H as (r & w2 & H2 & H). destruct r as [[]|e].
  2:{ apply bind_Done in H as (? & ? & _ & ?). done. }
  injection H as <-. unfold os_Rename in H2. rewrite run_action, Hf, lookup_insert_eq in H2.
  destruct (env_fs _) as [|[n|] e]; simpl in H2; try done. injection H2 as <-. simpl.
  apply lookup_insert_eq.
Qed.

Lemma Generate_Ok k w a w' :
  run (Generate k) w = Done (Ok a) w' ->
  exists priv, env_GenerateKey (w_hist w) = Ok priv /\ a = PubkeyToAddress priv /\
    holds_key k (w_files w') a priv.
Proof.
  unfold Generate. intros (priv & w1 & H1 & H)%try_Done.
  unfold crypto_GenerateKey in H1. rewrite run_action in H1. injection H1 as H1 <-.
  apply (try_Done _ _ (fun e => e)) in H as (u & w2 & H2 & H). injection H as <- <-. destruct u.
  exists priv. split; [done|]. split; [done|]. unfold write in H2.
  apply try_Done in H2 as (salt & w3 & _ & H3).
  destruct (derive_key (ks_password k) salt) as (dk & Hdk & Hg).
  change (argon2_IDKey _ _ _ _ _ _) with (derive (ks_password k) salt) in H3. rewrite Hdk, Hg in H3.
  apply try_Done in H3 as (nonce & w4 & H4 & H5).
  unfold rand_Read in H4. rewrite run_action in H4. injection H4 as H4 _.
  change (run (install k (PubkeyToAddress priv) (sealed dk salt nonce priv)) w4 = Done (Ok tt) w2) in H5.
  apply install_Ok in H5. eexists. split; [exact H5|].
  apply open_sealed; [done|done|by eapply rand_length|by eapply GenerateKey_exports].
Qed.

(** C12 A generated key is durable: after a successful [Generate] the store holds,
    for the returned address, the key that was generated, and [Load] returns it
    whenever the file has not been replaced and the file system answers. *)
Theorem Generate_Load k w a w' :
  run (Generate k) w = Done (Ok a) w' ->
  exists priv, env_GenerateKey (w_hist w) = Ok priv /\ PubkeyToAddress priv = a /\
    holds_key k (w_files w') a priv /\
    forall w2, w_files w2 !! path k a = w_files w' !! path k a ->
      env_fs (w_hist w2) = FsServe -> run (Load k a) w2 = Done (Ok priv) (log EvFs w2).
Proof.
  intros H. apply Generate_Ok in H as (priv & Hg & -> & data & Hd & Ho).
  exists priv. do 2 (split; [done|]). split; [by exists data|]. intros w2 Hf Hs. unfold Load, os_ReadFile.
  rewrite run_bind, run_action, Hs, Hf, Hd. cbn [result_of_option fst snd]. by rewrite Ho.
Qed.

(** C13 A crash, or a file system that fails at any step, never damages a key
    file: in every state a run of [Generate] passes through, each key file is as
    it was before or is complete and opens to a key of its address. *)
Theorem Generate_crash_safe k w :
  Forall (fun w' => forall a, w_files w' !! path k a = w_files w !! path k a \/
    exists priv, holds_key k (w_files w') a priv) (worlds (Generate k) w).
Proof. exact (Generate_keys_kept k w). Qed.

(** ** Loading *)

(** What [Load] returns is a key of the address asked for. *)
Lemma open_file_sound pw data a priv :
  open_file pw data a = Some (Ok priv) -> PubkeyToAddress priv = a.
Proof.
  unfold open_file. intros H. repeat (case_match; simplify_eq/=; try done).
  by match goal with H : bool_decide _ = true |- _ => apply bool_decide_eq_true in H end.
Qed.

Lemma Load_rets k a :
  rets (fun r => match r with Ok priv => PubkeyToAddress priv = a | Err _ => True end) (Load k a).
Proof.
  intros [data|e]; cbn; [|done]. destruct (open_file _ data a) as [[priv|e]|] eqn:E; cbn; try done.
  by eapply open_file_sound.
Qed.

(** The parameters of a file on which [Load] cannot panic. *)
Definition params_ok (f : fileFormat) : Prop :=
  1 <= kdf_Time (ff_KDF f) /\ 1 <= kdf_Threads (ff_KDF f) /\ 4 <= kdf_KeyLen (ff_KDF f) /\
  String.length (cb_Nonce (ff_Cipher f)) = gcmNonceSize.

Lemma open_file_total pw data a f :
  unmarshal_file data = Ok f -> params_ok f -> exists r, open_file pw data a = Some r.
Proof.
  intros Hu (H1 & H2 & H3 & H4). unfold open_file. rewrite Hu.
  destruct (unmarshal_ranges _ _ Hu) as (R1 & R2 & R3 & R4).
  destruct (IDKey_length pw (kdf_Salt (ff_KDF f)) (kdf_Time (ff_KDF f)) (kdf_Memory (ff_KDF f))
    (kdf_Threads (ff_KDF f)) (kdf_KeyLen (ff_KDF f))) as (dk & -> & _); [lia..|].
  rewrite H4. repeat (case_match; eauto; try done).
Qed.

(** Files on which [Load] returns. *)
Definition safe_files (k : Keystore) (files : gmap string string) : Prop :=
  forall a data, files !! path k a = Some data -> open_file (ks_password k) data a <> None.

Lemma safe_files_kept k old new : keys_kept k old new -> safe_files k old -> safe_files k new.
Proof.
  intros Hk Hs a data Hd. destruct (Hk a) as [E|(priv & data' & E & Ho)].
  - apply Hs. by rewrite <- E.
  - rewrite Hd in E. injection E as <-. by rewrite Ho.
Qed.

(** Generating keys keeps the files safe, however it ends. *)
Lemma Generate_safe k w :
  safe_files k (w_files w) ->
  match run (Generate k) w with
  | Done _ w' | Panicked _ w' | Blocked w' => safe_files k (w_files w')
  end.
Proof.
  intros Hs. apply (worlds_run (fun w' => safe_files k (w_files w'))).
  eapply Forall_impl; [apply Generate_keys_kept|]. intros w' Hk.
  exact (safe_files_kept k _ _ Hk Hs).
Qed.

Lemma Generate_total k : total (Generate k).
Proof.
  unfold Generate. apply total_bind; [apply total_action|]. intros [priv|e]; [|done].
  apply total_bind; [|by intros []]. unfold write.
  apply total_bind; [apply total_action|]. intros [salt|e]; [|done].
  destruct (derive_key (ks_password k) salt) as (dk & Hdk & Hg).
  change (argon2_IDKey _ _ _ _ _ _) with (derive (ks_password k) salt). rewrite Hdk, Hg.
  solve_total.
Qed.

(** [Load] is an error-returning function on sane files: it returns, never
    panicking, if the file at the address's path is absent, is not a JSON document
    of the format, or has at least one round, one thread, a key length of four and
    a twelve-byte nonce; and a key it returns is the key of the address. *)
Theorem Load_returns k a w :
  (forall data f, w_files w !! path k a = Some data -> unmarshal_file data = Ok f -> params_ok f) ->
  exists r, run (Load k a) w = Done r (log EvFs w) /\
    forall priv, r = Ok priv -> PubkeyToAddress priv = a.
Proof.
  intros Hok. unfold Load, os_ReadFile. rewrite run_bind, run_action. cbn [fst snd].
  destruct (env_fs (w_hist w)) as [|n e]; [|by eexists].
  destruct (w_files w !! path k a) as [data|] eqn:Ed; cbn [result_of_option]; [|by eexists].
  assert (exists r, open_file (ks_password k) data a = Some r) as (r & E).
  { destruct (unmarshal_file data) as [f|e] eqn:Eu; [by eapply open_file_total, Hok|].
    unfold open_file. rewrite Eu. eauto. }
  rewrite E. exists r. split; [done|]. intros priv ->. by eapply open_file_sound.
Qed.

(** ** Listing *)

(** A file that ends in [.json] is not temporary. *)
Lemma json_not_tmp k pre name : ~ is_tmp k (pre +:+ name +:+ ".json").
Proof.
  intros (a & E). assert (HasSuffix (pre +:+ name +:+ ".json") ".tmp" = true) as H.
  { rewrite E. apply HasSuffix_app. }
  rewrite <- sapp_assoc in H. unfold HasSuffix in H. rewrite string_rev_sapp in H.
  discriminate H.
Qed.

(** What [List] returns when the directory can be read. *)
Lemma List_lists k w :
  env_fs (w_hist w) = FsServe ->
  exists l, run (List k) w = Done (Ok l) (log EvFs w) /\
    (forall a, is_Some (w_files w !! path k a) -> a ∈ l) /\
    (forall a, a ∈ l -> exists name data,
       w_files w !! (dir_prefix (ks_dir k) +:+ name +:+ ".json") = Some data /\
       IsHexAddress name = true /\ HexToAddress name = a).
Proof.
  intros Hs. exists (omap listed (dir_entries (ks_dir k) (w_files w))). split; [|split].
  - unfold List, os_ReadDir. by rewrite run_bind, run_action, Hs.
  - intros a [data Hd]. apply list_elem_of_omap. exists (DirEntry (lowerHex a +:+ ".json") false).
    split.
    + apply dir_entries_elem. exists (path k a), data. split; [done|]. rewrite path_eq.
      by apply entry_of_file, file_name_simple.
    + unfold listed. cbn [de_IsDir de_Name]. rewrite HasSuffix_app, TrimSuffix_app. cbn [negb].
      by rewrite IsHexAddress_lowerHex, HexToAddress_lowerHex.
  - intros a ([n dir] & He & Hl)%list_elem_of_omap. unfold listed in Hl. cbn [de_IsDir de_Name] in Hl.
    destruct dir; [done|]. destruct (HasSuffix n ".json") eqn:En; [|done]. apply HasSuffix_inv in En.
    destruct (IsHexAddress _) eqn:Eh; [|done]. injection Hl as <-.
    apply dir_entries_elem in He as (p & data & Hp & ->%entry_of_inv).
    exists (TrimSuffix n ".json"), data. by rewrite <- En.
Qed.

(** [List] is exact: when the directory can be read it returns every address
    whose key file exists, and every address it returns is that of a file of the
    directory named by it, with the suffix the store gives. *)
Theorem List_exact k w :
  env_fs (w_hist w) = FsServe ->
  exists l, run (List k) w = Done (Ok l) (log EvFs w) /\
    (forall a, is_Some (w_files w !! path k a) -> a ∈ l) /\
    (forall a, a ∈ l -> exists name data,
       w_files w !! (dir_prefix (ks_dir k) +:+ name +:+ ".json") = Some data /\
       IsHexAddress name = true /\ HexToAddress name = a).
Proof. exact (List_lists k w). Qed.

(** ** Refinement: the store is a finite map from addresses to keys *)

Inductive ks_op :=
| OpGenerate
| OpLoad (a : address)
| OpList.

Inductive ks_answer :=
| AnsAddress (r : result address)
| AnsKey (r : result private_key)
| AnsList (r : result (list address)).

Definition run_op (k : Keystore) (op : ks_op) : prog ks_answer :=
  match op with
  | OpGenerate => let! r := Generate k in Ret (AnsAddress r)
  | OpLoad a => let! r := Load k a in Ret (AnsKey r)
  | OpList => let! r := List k in Ret (AnsList r)
  end.

(** The abstract store.  Errors come from outside: on a reliable file system
    only a missing key makes [Load] fail, [List] does not fail, and a failing
    [Generate] (for want of random bytes) adds nothing. *)
Inductive ks_spec (reliable : Prop) (m : gmap address private_key)
    : ks_op -> ks_answer -> gmap address private_key -> Prop :=
| spec_generate priv :
    ks_spec reliable m OpGenerate (AnsAddress (Ok (PubkeyToAddress priv)))
      (<[PubkeyToAddress priv := priv]> m)
| spec_generate_nothing e :
    ks_spec reliable m OpGenerate (AnsAddress (Err e)) m
| spec_generate_unsure e priv :
    ~ reliable ->
    ks_spec reliable m OpGenerate (AnsAddress (Err e)) (<[PubkeyToAddress priv := priv]> m)
| spec_load a priv :
    m !! a = Some priv -> ks_spec reliable m (OpLoad a) (AnsKey (Ok priv)) m
| spec_load_fails a e :
    m !! a = None \/ ~ reliable -> ks_spec reliable m (OpLoad a) (AnsKey (Err e)) m
| spec_list l :
    (forall a, a ∈ l <-> is_Some (m !! a)) -> ks_spec reliable m OpList (AnsList (Ok l)) m
| spec_list_fails e :
    ~ reliable -> ks_spec reliable m OpList (AnsList (Err e)) m.

(** The map the files stand for; the directory holds no foreign file that
    looks like a key file. *)
Definition represents (k : Keystore) (m : gmap address private_key) (files : gmap string string) : Prop :=
  (forall a, match files !! path k a with
             | Some data => exists priv, open_file (ks_password k) data a = Some (Ok priv) /\
                              m !! a = Some priv
             | None => m !! a = None
             end) /\
  forall name data, files !! (dir_prefix (ks_dir k) +:+ name +:+ ".json") = Some data ->
    IsHexAddress name = true -> exists a, name = lowerHex a.

Lemma represents_same k m old new : same_keys k old new -> represents k m old -> represents k m new.
Proof.
  intros Hs [Hm Hd]. split.
  - intros a. rewrite (Hs _ (path_not_tmp k a)). apply Hm.
  - intros name data Hn. apply (Hd name data). rewrite <- Hn. symmetry. apply Hs.
    apply json_not_tmp.
Qed.

Lemma represents_added k m priv old new :
  added k priv old new -> represents k m old ->
  represents k m new \/ represents k (<[PubkeyToAddress priv := priv]> m) new.
Proof.
  intros [Hs|(data & Ho & Hn & Hr)] HR; [left; by eapply represents_same|].
  right. destruct HR as [Hm Hd]. split.
  - intros a. destruct (decide (a = PubkeyToAddress priv)) as [->|Hne].
    + rewrite Hn. exists priv. by rewrite lookup_insert_eq.
    + rewrite Hr, lookup_insert_ne; [apply Hm|done|apply path_not_tmp|].
      intros E. by apply path_inj in E.
  - intros name d Hl Hh.
    destruct (decide (dir_prefix (ks_dir k) +:+ name +:+ ".json" = path k (PubkeyToAddress priv))) as [E|Hne].
    + rewrite path_eq in E. apply sapp_inj_l, sapp_inj_r in E. eauto.
    + apply (Hd name d); [|done]. rewrite <- Hl. symmetry. by apply Hr; [apply json_not_tmp|].
Qed.

Definition reliable_fs : Prop := forall h, env_fs h = FsServe.

Lemma install_Err k a data w e w' : run (install k a data) w = Done (Err e) w' -> ~ reliable_fs.
Proof.
  intros H Hr. unfold install, os_WriteFile, os_Rename in H.
  rewrite run_bind, run_action, Hr in H. cbn [fst snd] in H.
  rewrite run_bind, run_action, Hr in H. cbn [fst snd w_files set_files log] in H.
  by rewrite lookup_insert_eq in H.
Qed.

Lemma Generate_Err k w e w' :
  run (Generate k) w = Done (Err e) w' -> w_files w' = w_files w \/ ~ reliable_fs.
Proof.
  unfold Generate. intros (r & w1 & H1 & H)%bind_Done.
  apply (keeps_Done w_files) in H1 as E1; [|by apply GenerateKey_keeps].
  destruct r as [priv|e1]; [|left; by injection H as _ <-].
  apply bind_Done in H as (r & w2 & H2 & H). destruct r as [u|e2]; [done|]. injection H as _ <-.
  unfold write in H2. apply bind_Done in H2 as (r & w3 & H3 & H).
  apply (keeps_Done w_files) in H3 as E3; [|by apply rand_Read_keeps].
  destruct r as [salt|e3]; [|left; injection H as _ <-; congruence].
  destruct (derive_key (ks_password k) salt) as (dk & Hdk & Hg).
  change (argon2_IDKey _ _ _ _ _ _) with (derive (ks_password k) salt) in H. rewrite Hdk, Hg in H.
  apply bind_Done in H as (r & w4 & H4 & H).
  apply (keeps_Done w_files) in H4 as E4; [|by apply rand_Read_keeps].
  destruct r as [nonce|e4]; [|left; injection H as _ <-; congruence].
  right. exact (install_Err _ _ _ _ _ _ H).
Qed.

Lemma represents_holds k m files a priv :
  represents k m files -> holds_key k files a priv -> m !! a = Some priv.
Proof.
  intros [Hm _] (data & Hd & Ho). specialize (Hm a). rewrite Hd in Hm.
  destruct Hm as (p & Hp & ->). congruence.
Qed.

(** What a run of [Generate] leaves behind, also one that stops half-way. *)
Lemma Generate_represents k w m :
  represents k m (w_files w) ->
  Forall (fun w' => represents k m (w_files w') \/
    exists priv, env_GenerateKey (w_hist w) = Ok priv /\
      represents k (<[PubkeyToAddress priv := priv]> m) (w_files w')) (worlds (Generate k) w).
Proof.
  intros HR. eapply Forall_impl; [apply Generate_worlds|]. simpl.
  intros w' [->|(priv & Hg & Ha)]; [by left|].
  destruct (represents_added _ _ _ _ _ Ha HR); [by left|right; eauto].
Qed.

Lemma Generate_refines k w m :
  represents k m (w_files w) ->
  exists ans w' m', run (run_op k OpGenerate) w = Done ans w' /\
    ks_spec reliable_fs m OpGenerate ans m' /\ represents k m' (w_files w').
Proof.
  intros HR. destruct (total_run (Generate k) w (Generate_total k)) as (r & w' & E).
  pose proof (worlds_run _ _ _ (Generate_represents k w m HR)) as Hw. rewrite E in Hw.
  cbn [run_op]. rewrite run_bind, E. cbn [run]. destruct r as [a|e].
  - destruct (Generate_Ok _ _ _ _ E) as (priv & Hg & -> & Hh).
    do 3 eexists. split; [done|]. split; [apply (spec_generate _ m priv)|].
    destruct Hw as [Hm|(priv' & Hg' & Hm)]; [|congruence].
    by rewrite insert_id by by eapply represents_holds.
  - destruct (Generate_Err _ _ _ _ E) as [Hf|Hnr].
    + do 3 eexists. split; [done|]. split; [apply spec_generate_nothing|]. by rewrite Hf.
    + destruct Hw as [Hm|(priv & _ & Hm)]; do 3 eexists; (split; [done|]);
        (split; [|exact Hm]); [apply spec_generate_nothing|by apply spec_generate_unsure].
Qed.

Lemma Load_refines k a w m :
  represents k m (w_files w) ->
  exists ans w', run (run_op k (OpLoad a)) w = Done ans w' /\
    ks_spec reliable_fs m (OpLoad a) ans m /\ w_files w' = w_files w.
Proof.
  intros [Hm _]. specialize (Hm a). cbn [run_op]. unfold Load, os_ReadFile.
  rewrite !run_bind, run_action. cbn [fst snd]. destruct (env_fs (w_hist w)) as [|n e] eqn:Ef.
  - destruct (w_files w !! path k a) as [data|]; cbn [result_of_option run].
    + destruct Hm as (priv & -> & Hl). cbn [run]. do 2 eexists. split; [done|].
      split; [by apply spec_load|done].
    + do 2 eexists. split; [done|]. split; [apply spec_load_fails; by left|done].
  - cbn [run]. do 2 eexists. split; [done|]. split; [|done]. apply spec_load_fails. right.
    intros Hr. by rewrite Hr in Ef.
Qed.

Lemma List_refines k w m :
  represents k m (w_files w) ->
  exists ans w', run (run_op k OpList) w = Done ans w' /\
    ks_spec reliable_fs m OpList ans m /\ w_files w' = w_files w.
Proof.
  intros [Hm Hd]. cbn [run_op]. destruct (env_fs (w_hist w)) as [|n e] eqn:Ef.
  - destruct (List_lists k w Ef) as (l & E & H1 & H2). rewrite run_bind, E. cbn [run].
    do 2 eexists. split; [done|]. split; [|done]. apply spec_list. intros a. split.
    + intros (name & data & Hf & Hh & Ha)%H2. destruct (Hd name data Hf Hh) as (b & ->).
      rewrite HexToAddress_lowerHex in Ha. subst b. rewrite <- path_eq in Hf.
      specialize (Hm a). rewrite Hf in Hm. destruct Hm as (priv & _ & ->). eauto.
    + intros [priv Hp]. apply H1. specialize (Hm a). destruct (w_files w !! path k a); [eauto|congruence].
  - unfold List, os_ReadDir. rewrite !run_bind, run_action, Ef. cbn [fst snd run].
    do 2 eexists. split; [done|]. split; [|done]. apply spec_list_fails. intros Hr. by rewrite Hr in Ef.
Qed.

Lemma op_refines k op w m :
  represents k m (w_files w) ->
  exists ans w' m', run (run_op k op) w = Done ans w' /\
    ks_spec reliable_fs m op ans m' /\ represents k m' (w_files w').
Proof.
  intros HR. destruct op as [|a|]; [by apply Generate_refines| |].
  - destruct (Load_refines k a w m HR) as (ans & w' & H1 & H2 & H3). exists ans, w', m. by rewrite H3.
  - destruct (List_refines k w m HR) as (ans & w' & H1 & H2 & H3). exists ans, w', m. by rewrite H3.
Qed.

(** A session: operations one after the other, on the program and on the
    specification. *)
Fixpoint run_ops (k : Keystore) (ops : list ks_op) : prog (list ks_answer) :=
  match ops with
  | [] => Ret []
  | op :: ops' => let! ans := run_op k op in let! rest := run_ops k ops' in Ret (ans :: rest)
  end.

Inductive ks_session (reliable : Prop)
    : gmap address private_key -> list ks_op -> list ks_answer -> gmap address private_key -> Prop :=
| session_end m : ks_session reliable m [] [] m
| session_op m op ans m1 ops answers m2 :
    ks_spec reliable m op ans m1 -> ks_session reliable m1 ops answers m2 ->
    ks_session reliable m (op :: ops) (ans :: answers) m2.

(** C11 The key store refines a finite map: any session of [Generate], [Load] and
    [List] calls on files that represent a map returns, with answers the
    abstract map could give, and leaves files that represent the abstract
    result, whatever the file system and the random source answer. *)
Theorem keystore_refines_map k ops w m :
  represents k m (w_files w) ->
  exists answers w' m', run (run_ops k ops) w = Done answers w' /\
    ks_session reliable_fs m ops answers m' /\ represents k m' (w_files w').
Proof.
  revert w m. induction ops as [|op ops IH]; intros w m HR.
  { exists [], w, m. split; [done|]. split; [constructor|done]. }
  destruct (op_refines k op w m HR) as (ans & w1 & m1 & E1 & S1 & R1).
  destruct (IH w1 m1 R1) as (answers & w2 & m2 & E2 & S2 & R2).
  exists (ans :: answers), w2, m2. cbn [run_ops]. rewrite run_bind, E1, run_bind, E2.
  split; [done|]. split; [by econstructor|done].
Qed.
End properties.

(** ** Witnesses *)

Module KeystoreDemo.
Import RefEnv.

(** A stand-in for argon2: bytes of a SHA-256 digest, repeated. *)
Definition stretch (seed : string) (n : nat) : string :=
  let d := sha256_bytes (bytes seed) in
  string_of_bytes (List.map (fun i => nth (i mod 32) d 0) (List.seq 0 n)).

(** A host with a working file system; every key is another number, while there
    are addresses left, and is exported in decimal. *)
#[export] Instance demoHost : Host := {
  env_fs _ := FsServe;
  env_GenerateKey h :=
    let k := 4097 + Z.of_nat (length h) in
    if k <? 2 ^ 160 then Ok k else Err (EText "no entropy");
  FromECDSA k := bigint_String k;
  ToECDSA s := result_of_option (EText "invalid private key") (SetString10 s);
  argon2_IDKey pw salt time memory threads len :=
    if (1 <=? time) && (1 <=? threads) then Some (stretch (pw +:+ salt) (Z.to_nat len)) else None;
}.

Lemma repeat_length n : String.length (String.concat "" (repeat "r" n)) = n.
Proof.
  induction n as [|n IH]; [done|]. cbn [repeat String.concat].
  destruct (repeat "r" n) as [|x l] eqn:E; [by destruct n|].
  rewrite !sapp_length. cbn [String.length]. rewrite IH. done.
Qed.

#[export] Instance demoHostLaws : HostLaws.
Proof.
  split.
  - intros h k _. cbn. by rewrite SetString10_String.
  - intros pw salt time memory threads len H1 H2 H3 H4. cbn [argon2_IDKey demoHost].
    destruct (Z.leb_spec 1 time), (Z.leb_spec 1 threads); try lia. eexists. split; [done|].
    unfold stretch. rewrite string_of_bytes_length, length_map, length_seq. lia.
  - intros h n s [= <-]. apply repeat_length.
Qed.

Definition demo_ks : Keystore := MkKeystore "./data/keys" "correct horse".

Definition demo_after : world :=
  match run (Generate demo_ks) demo_world with Done _ w | Panicked _ w | Blocked w => w end.

Lemma demo_generate : run (Generate demo_ks) demo_world = Done (Ok demo_signer1) demo_after.
Proof. vm_compute. reflexivity. Qed.

Example demo_path : path demo_ks demo_signer1 =
  "data/keys/0x0000000000000000000000000000000000001001.json".
Proof. vm_compute. reflexivity. Qed.

Lemma Generate_Load_witness :
  run (Load demo_ks demo_signer1) demo_after = Done (Ok 4097) (log EvFs demo_after).
Proof.
  destruct (Generate_Load demo_ks demo_world demo_signer1 demo_after demo_generate)
    as (priv & E & _ & _ & H).
  specialize (H demo_after eq_refl eq_refl). vm_compute in E. injection E as <-. exact H.
Defined.

Lemma List_exact_witness :
  exists l, run (List demo_ks) demo_after = Done (Ok l) (log EvFs demo_after) /\ demo_signer1 ∈ l.
Proof.
  assert (env_fs (w_hist demo_after) = FsServe) as Hs by reflexivity.
  destruct (List_exact demo_ks demo_after Hs) as (l & H1 & H2 & _).
  exists l. split; [exact H1|]. apply H2.
  apply (bool_decide_eq_true_1 (is_Some (w_files demo_after !! path demo_ks demo_signer1))).
  vm_compute. reflexivity.
Defined.

(** A session from an empty directory. *)
Definition demo_ops : list ks_op := [OpGenerate; OpLoad demo_signer1; OpList; OpLoad demo_signer2].

Lemma demo_empty : represents demo_ks ∅ (w_files demo_world).
Proof.
  split.
  - intros a. change (w_files demo_world) with (∅ : gmap string string). by rewrite lookup_empty.
  - intros name data. change (w_files demo_world) with (∅ : gmap string string).
    by rewrite lookup_empty.
Qed.

Lemma keystore_refines_map_witness :
  exists answers w' m', run (run_ops demo_ks demo_ops) demo_world = Done answers w' /\
    ks_session (reliable_fs (HO := demoHost)) ∅ demo_ops answers m' /\
    represents demo_ks m' (w_files w').
Proof. exact (keystore_refines_map demo_ks demo_ops demo_world ∅ demo_empty). Defined.

Example demo_answers :
  match run (run_ops demo_ks demo_ops) demo_world with
  | Done [AnsAddress (Ok a); AnsKey (Ok k); AnsList (Ok l); AnsKey (Err _)] _ =>
      bool_decide (a = demo_signer1 /\ k = 4097 /\ l = [demo_signer1])
  | _ => false
  end = true.
Proof. vm_compute. reflexivity. Qed.

(** The parameters of a file, checked. *)
Definition sane (data : string) : bool :=
  match unmarshal_file data with
  | Ok f => (1 <=? kdf_Time (ff_KDF f)) && (1 <=? kdf_Threads (ff_KDF f)) &&
            (4 <=? kdf_KeyLen (ff_KDF f)) &&
            Nat.eqb (String.length (cb_Nonce (ff_Cipher f))) gcmNonceSize
  | Err _ => true
  end.

Lemma sane_ok data f : sane data = true -> unmarshal_file data = Ok f -> params_ok f.
Proof.
  unfold sane. intros H E. rewrite E in H.
  apply andb_true_iff in H as [[[?%Z.leb_le ?%Z.leb_le]%andb_true_iff ?%Z.leb_le]%andb_true_iff
    ?%Nat.eqb_eq]. done.
Qed.

Lemma demo_sane :
  option_map sane (w_files demo_after !! path demo_ks demo_signer1) = Some true.
Proof. vm_compute. reflexivity. Qed.

Lemma Load_returns_witness :
  exists r, run (Load demo_ks demo_signer1) demo_after = Done r (log EvFs demo_after).
Proof.
  destruct (Load_returns demo_ks demo_signer1 demo_after) as (r & H & _).
  - intros data f Hd. apply sane_ok. pose proof demo_sane as Hs. rewrite Hd in Hs.
    by injection Hs.
  - exists r. exact H.
Defined.

(** A file system on which the write stops after seven bytes: the key file is
    never touched. *)
#[local] Instance tornHost : Host := {
  env_fs h := if Nat.eqb (length h) 3 then FsFail (Some 7%nat) (EText "disk full") else FsServe;
  env_GenerateKey := @env_GenerateKey demoHost;
  FromECDSA := @FromECDSA demoHost; ToECDSA := @ToECDSA demoHost;
  argon2_IDKey := @argon2_IDKey demoHost;
}.
#[local] Instance tornHostLaws : @HostLaws tornHost refEnv.
Proof.
  split; [exact (@GenerateKey_exports demoHost refEnv _)|exact (@IDKey_length demoHost refEnv _)|
    exact (@rand_length demoHost refEnv _)].
Qed.

Example torn_write :
  match run (@Generate refEnv tornHost _ demo_ks) demo_world with
  | Done (Err _) w => map_to_list (w_files w)
  | _ => []
  end = [(path demo_ks demo_signer1 +:+ ".tmp", String "{" (newline 1 +:+ quote +:+ "ve"))].
Proof. vm_compute. reflexivity. Qed.

Lemma Generate_crash_safe_witness :
  Forall (fun w' => forall a,
    w_files w' !! path demo_ks a = w_files demo_world !! path demo_ks a \/
    exists priv, @holds_key tornHost _ demo_ks (w_files w') a priv)
    (worlds (@Generate refEnv tornHost _ demo_ks) demo_world).
Proof. exact (@Generate_crash_safe refEnv tornHost _ _ _ demo_ks demo_world). Defined.

(** A key file whose nonce lacks a byte. *)
Definition bad_file : string :=
  marshal_file (FileFormat fileVersion (Address_Hex demo_signer1) (with_salt "salt" defaultKDF)
    (CipherBlob cipherAESGCM "elevenbytes" "ciphertext and a tag")).
Definition bad_world : world := set_files {[ path demo_ks demo_signer1 := bad_file ]} demo_world.

(** A key file with a nonce of the wrong length makes [Load] panic instead of
    returning an error: [gcm.Open] panics on it, and nothing checks the length
    before. *)
Theorem Load_malformed_panics :
  run (@Load demoHost _ demo_ks demo_signer1) bad_world
    = Panicked "keystore: malformed key file" (log EvFs bad_world).
Proof. vm_compute. reflexivity. Qed.
End KeystoreDemo.
