(* ===== verification/RelayService.v ===== *)
(** * The relay service ([internal/relay/service.go])

    [Submit] in full: validation, the request row, the signer checkout, gas
    estimation, nonce reservation, signing, the attempt row, the broadcast and
    the status updates, with the error path of every call. *)

From Stdlib Require Import ZArith Lia.
From S2P Require Import Prelude GoLib Eth Database World Chain SignerPool RefEnv AppService.

Local Open Scope Z_scope.
Local Open Scope txmill_scope.

Definition gasLimitBufferNumerator : Z := 12.
Definition gasLimitBufferDenominator : Z := 10.

(** [relay.WebhookEnqueuer] *)
Definition WebhookEnqueuer := string -> prog (result unit).

(** [relay.Service]; the database pool is the world's.  [webhooks] may be nil. *)
Record Service := MkService {
  svc_chain : Client;
  svc_pools : SignerPool;
  svc_webhooks : option WebhookEnqueuer;
}.

Definition NewService (ch : Client) (pools : SignerPool) : Service := MkService ch pools None.
Definition SetWebhooks (w : WebhookEnqueuer) (s : Service) : Service :=
  MkService (svc_chain s) (svc_pools s) (Some w).

Record SubmitInput := MkSubmitInput {
  in_AppID : string;
  in_ChainID : Z;
  in_To : address;
  in_Data : string;
  in_Value : option Z;
  in_GasLimit : Z;
  in_Deadline : Z;
  in_CallbackURL : string;
  in_CallbackMetadata : string;
}.

Record SubmitResult := MkSubmitResult {
  out_RequestID : string;
  out_TxHash : hash;
  out_Signer : address;
}.

Section relay.
Context `{Env : Environment} `{Eth : GoEthereum} `{PG : Postgres}.
Context `{KS : !KeystoreLoader} `{LS : !SignerLister}.

(** ** Statements *)

(** The row of the INSERT: the casts and NULLIFs of its VALUES list. *)
Definition request_row_of (inp : SubmitInput) (value : Z) (now : Z) : result request_row :=
  match pg_uuid_in (in_AppID inp), pg_decimal_in (bigint_String value) with
  | Some app, Some v =>
      let gas := int64_of (in_GasLimit inp) in
      check (in_ChainID inp <=? max_int64) encode_error
      (check (pg_nullif0_admits gas) encode_error
      (check (pg_nullif0_admits (in_Deadline inp)) encode_error
      (check (pg_text_ok (in_CallbackURL inp) && pg_text_ok (in_CallbackMetadata inp))
             invalid_text
      (Ok {| r_app_id := app; r_chain_id := in_ChainID inp;
             r_to_address := lowerHex (in_To inp); r_call_data := in_Data inp;
             r_value := v; r_gas_limit := nullif_zero gas;
             r_deadline := nullif_zero (in_Deadline inp);
             r_callback_url := nullif_empty (in_CallbackURL inp);
             r_callback_metadata := nullif_empty (in_CallbackMetadata inp);
             r_status := RPending; r_created_at := now; r_updated_at := now |}))))
  | _, _ => Err invalid_text
  end.

Definition insertRequest (inp : SubmitInput) (value : Z) : prog (result string) :=
  pg (fun se db =>
    match request_row_of inp value (se_now se) with
    | Err e => Err e
    | Ok row => insert_request row se db
    end).

Definition attempt_row_of (requestID : string) (signerAddr : address) (nonce : Z)
    (h : hash) (gasPrice : Z) (now : Z) : result attempt_row :=
  match pg_uuid_in requestID, pg_decimal_in (bigint_String gasPrice) with
  | Some rid, Some price =>
      Ok {| t_request_id := rid; t_signer_address := lowerHex signerAddr;
            t_nonce := int64_of nonce; t_tx_hash := lowerHash h; t_gas_price := price;
            t_status := TSubmitting; t_submitted_at := now;
            t_block_number := None; t_gas_used := None; t_effective_gas_price := None;
            t_logs := None; t_revert_reason := None |}
  | _, _ => Err invalid_text
  end.

Definition insertAttempt (requestID : string) (signerAddr : address) (nonce : Z)
    (h : hash) (gasPrice : Z) : prog (result string) :=
  pg (fun se db =>
    match attempt_row_of requestID signerAddr nonce h gasPrice (se_now se) with
    | Err e => Err e
    | Ok row => insert_attempt row se db
    end).

(** A failed enqueue is ignored. *)
Definition fireWebhook (s : Service) (requestID : string) : prog unit :=
  match svc_webhooks s with
  | None => Ret tt
  | Some enqueue => do! enqueue requestID in Ret tt
  end.

Definition is_rejected_or_failed (st : request_status) : bool :=
  match st with RRejected | RFailed => true | _ => false end.

Definition markRequestStatus (s : Service) (requestID : string) (st : request_status)
    : prog (result unit) :=
  let! r := pg (update_request requestID st) in
  if is_ok r && is_rejected_or_failed st
  then do! fireWebhook s requestID in Ret r
  else Ret r.

Definition markAttemptStatus (attemptID : string) (st : attempt_status) : prog (result unit) :=
  pg (update_attempt attemptID (set_attempt_status st)).

Definition markSubmitted (requestID attemptID : string) : prog (result unit) :=
  let? t := pg_begin in
  let? r1 := pg_tx t (update_attempt attemptID (set_attempt_status TSubmitted)) in
  let? r2 := pg_tx r1.2 (update_request requestID RSubmitted) in
  pg_commit r2.2.

(** ** Submit *)

(** [est * gasLimitBufferNumerator / gasLimitBufferDenominator] on [uint64] *)
Definition bufferedGas (est : Z) : Z :=
  u64 (est * gasLimitBufferNumerator) / gasLimitBufferDenominator.

Definition callMsg (inp : SubmitInput) (value : Z) (from : address) : call_msg :=
  CallMsg from (in_To inp) (Some value) (in_Data inp).

(** From the nonce reservation on. *)
Definition broadcast (s : Service) (inp : SubmitInput) (value : Z) (requestID : string)
    (sig : ptr) (sg : signer) (gasLimit gasPrice : Z) : prog (result SubmitResult) :=
  let! nonce := use_nonce_at sig in
  let tx := Transaction nonce (in_To inp) value gasLimit gasPrice (in_Data inp) in
  match SignTx (ChainID (svc_chain s)) tx (sg_Key sg) with
  | Err e => do! rewind_nonce_at sig in Ret (Err (EWrap "sign" e))
  | Ok signed =>
      let! a := insertAttempt requestID (sg_Address sg) nonce (stx_hash signed) gasPrice in
      match a with
      | Err e => do! rewind_nonce_at sig in Ret (Err (EWrap "insert attempt" e))
      | Ok attemptID =>
          let! r := SendTransaction signed in
          match r with
          | Err e =>
              do! rewind_nonce_at sig in
              do! markAttemptStatus attemptID TFailed in
              Ret (Err (EWrap "submit" e))
          | Ok _ =>
              let? _u := markSubmitted requestID attemptID or "mark submitted" in
              do! fireWebhook s requestID in
              Ret (Ok (MkSubmitResult requestID (stx_hash signed) (sg_Address sg)))
          end
      end
  end.

Definition gasLimitFor (inp : SubmitInput) (value : Z) (from : address) : prog (result Z) :=
  if in_GasLimit inp =? 0 then
    let? est := EstimateGas (callMsg inp value from) in
    Ret (Ok (bufferedGas est))
  else Ret (Ok (in_GasLimit inp)).

(** The body of [Submit] while the signer is checked out. *)
Definition submitWith (s : Service) (inp : SubmitInput) (value : Z) (requestID : string)
    (sig : ptr) : prog (result SubmitResult) :=
  let! sg := deref sig in
  let! g := gasLimitFor inp value (sg_Address sg) in
  match g with
  | Err e =>
      do! markRequestStatus s requestID RRejected in
      Ret (Err (EWrap "estimate gas" e))
  | Ok gasLimit =>
      let! p := SuggestGasPrice in
      match p with
      | Err e =>
          do! markRequestStatus s requestID RRejected in
          Ret (Err (EWrap "suggest gas price" e))
      | Ok gasPrice => broadcast s inp value requestID sig sg gasLimit gasPrice
      end
  end.

(** [in.Deadline > 0 && time.Now().Unix() > in.Deadline] *)
Definition pastDeadline (deadline : Z) : prog bool :=
  if 0 <? deadline then
    let! now := time_Now in Ret (deadline <? now / 10 ^ 9)
  else Ret false.

Definition Submit (s : Service) (inp : SubmitInput) : prog (result SubmitResult) :=
  if negb (in_ChainID inp =? u64 (ChainID (svc_chain s)))
  then Ret (Err (ESentinel ErrChainIDMismatch))
  else
    let! past := pastDeadline (in_Deadline inp) in
    if past then Ret (Err (ESentinel ErrPastDeadline))
    else
      let value := default 0 (in_Value inp) in
      let? requestID := insertRequest inp value or "insert request" in
      let! l := Load (in_AppID inp) in
      match l with
      | Err e =>
          do! markRequestStatus s requestID RRejected in
          Ret (Err (EWrap "load signer pool" e))
      | Ok _ =>
          let! c := Checkout (in_AppID inp) in
          match c with
          | Err e =>
              do! markRequestStatus s requestID RRejected in
              Ret (Err (EWrap "checkout" e))
          | Ok sig =>
              (* defer s.pools.Release(sig) *)
              let! r := submitWith s inp value requestID sig in
              do! Release sig in
              Ret r
          end
      end.
End relay.

(** ** Theorems *)

Section theorems.
Context `{Env : Environment} `{Eth : GoEthereum} `{PG : Postgres}.
Context `{KS : !KeystoreLoader} `{LS : !SignerLister}.

(** C18 The 20% buffer: exact below 2^64 / 12, never below the estimate there,
    and always a [uint64]. *)
Theorem bufferedGas_bounds est :
  0 <= est -> est * 12 < 2 ^ 64 ->
  bufferedGas est = est * 12 / 10 /\ est <= bufferedGas est <= est + est / 5 + 1 /\
  in_u64 (bufferedGas est).
Proof.
  intros H0 H. unfold bufferedGas, gasLimitBufferNumerator, gasLimitBufferDenominator.
  rewrite u64_small by (unfold in_u64; lia).
  assert (est <= est * 12 / 10) by (apply Z.div_le_lower_bound; lia).
  assert (est * 12 / 10 <= est + est / 5 + 1).
  { pose proof (Z.div_mod est 5). pose proof (Z.mod_pos_bound est 5).
    apply Z.lt_succ_r, Z.div_lt_upper_bound; lia. }
  assert (est * 12 / 10 < 2 ^ 64) by (apply Z.div_lt_upper_bound; lia).
  unfold in_u64. lia.
Qed.

(** Refusals touch nothing: a request for another chain is refused before
    anything is looked at, one with a past deadline after reading the clock. *)
Theorem Submit_refuses s inp w :
  (in_ChainID inp <> u64 (ChainID (svc_chain s)) ->
   run (Submit s inp) w = Done (Err (ESentinel ErrChainIDMismatch)) w) /\
  (in_ChainID inp = u64 (ChainID (svc_chain s)) ->
   0 < in_Deadline inp < env_now (w_hist w) / 10 ^ 9 ->
   run (Submit s inp) w = Done (Err (ESentinel ErrPastDeadline)) (log EvNow w)).
Proof.
  split.
  - intros H. unfold Submit. apply Z.eqb_neq in H. by rewrite H.
  - intros Hc [Hpos Hlt]. unfold Submit. rewrite Hc, Z.eqb_refl. cbn [negb].
    rewrite run_bind. unfold pastDeadline.
    apply Z.ltb_lt in Hpos. rewrite Hpos. rewrite run_bind. unfold time_Now.
    rewrite run_action. cbn [fst snd run]. apply Z.ltb_lt in Hlt. by rewrite Hlt.
Qed.
End theorems.

(** ** A successful submission *)

(** The webhook enqueuer leaves requests, attempts, the pool and the chain
    alone. *)
Definition enqueuer_frame (o : option WebhookEnqueuer) : Prop :=
  match o with None => True | Some enqueue => forall rid, keeps core (enqueue rid) end.

Section submit_ok.
Context `{Env : Environment} `{Eth : GoEthereum} `{PG : Postgres}.
Context `{KS : !KeystoreLoader} `{LS : !SignerLister}.
Context `{KSF : !KeystoreFrame} `{LSF : !ListerFrame} `{UUL : !UuidLaws} `{NA : !NodeAccepts}.

Lemma fireWebhook_core s rid : enqueuer_frame (svc_webhooks s) -> keeps core (fireWebhook s rid).
Proof.
  unfold enqueuer_frame, fireWebhook. destruct (svc_webhooks s) as [e|]; [|done].
  intros Hf. apply keeps_bind; [apply Hf|done].
Qed.

Lemma insertRequest_ok inp v w rid w' :
  run (insertRequest inp v) w = Done (Ok rid) w' ->
  exists row, request_row_of inp v (env_pg_now (w_hist w)) = Ok row /\
    rid = env_uuid (w_hist w) /\ db_requests (w_db w) !! rid = None /\
    w' = set_db (with_requests (<[rid := row]> (db_requests (w_db w))) (w_db w)) (log EvDb w).
Proof.
  intros (db' & Hs & ->)%pg_ok. simpl in Hs.
  destruct (request_row_of _ _ _) as [row|]; [|done].
  unfold insert_request in Hs. simpl in Hs.
  apply check_Ok in Hs as [_ Hs]. apply check_Ok in Hs as [Hfresh Hs].
  apply check_Ok in Hs as [_ [= <- <-]]. exists row.
  apply bool_decide_eq_true in Hfresh. done.
Qed.

Lemma insertAttempt_ok rid a n h price w aid w' :
  run (insertAttempt rid a n h price) w = Done (Ok aid) w' ->
  exists row, attempt_row_of rid a n h price (env_pg_now (w_hist w)) = Ok row /\
    aid = env_uuid (w_hist w) /\ db_attempts (w_db w) !! aid = None /\
    no_row (fun r => String.eqb (t_tx_hash r) (t_tx_hash row)) (db_attempts (w_db w)) = true /\
    w' = set_db (with_attempts (<[aid := row]> (db_attempts (w_db w))) (w_db w)) (log EvDb w).
Proof.
  intros (db' & Hs & ->)%pg_ok. simpl in Hs.
  destruct (attempt_row_of _ _ _ _ _ _) as [row|]; [|done].
  unfold insert_attempt in Hs. simpl in Hs.
  do 2 apply check_Ok in Hs as [_ Hs]. apply check_Ok in Hs as [Hfresh Hs].
  apply check_Ok in Hs as [Hun Hs]. apply check_Ok in Hs as [_ [= <- <-]]. exists row.
  apply bool_decide_eq_true in Hfresh. done.
Qed.

(** The two updates of [markSubmitted] on canonical ids. *)
Lemma markSubmitted_ok rid aid w w' :
  pg_uuid_in rid = Some rid -> pg_uuid_in aid = Some aid ->
  run (markSubmitted rid aid) w = Done (Ok tt) w' ->
  exists now,
    db_attempts (w_db w') = alter (set_attempt_status TSubmitted) aid (db_attempts (w_db w)) /\
    db_requests (w_db w') = alter (set_request_status RSubmitted now) rid (db_requests (w_db w)) /\
    db_signers (w_db w') = db_signers (w_db w) /\
    w_pool w' = w_pool w /\ sent_log (w_hist w') = sent_log (w_hist w).
Proof.
  intros Hr Ha H. unfold markSubmitted in H.
  apply (try_Done _ _ id) in H as (t & w1 & [-> ->]%pg_begin_ok & H).
  apply (try_Done _ _ id) in H as (r1 & w2 & (u1 & Hr1 & -> & _)%pg_tx_ok & H).
  apply (try_Done _ _ id) in H as (r2 & w3 & (u2 & Hr2 & -> & _)%pg_tx_ok & H).
  apply pg_commit_ok in H as (db' & Hc & ->). rewrite Hr2, Hr1 in Hc. simpl in Hc.
  unfold update_attempt, update_request in Hc. rewrite Ha, Hr in Hc. simpl in Hc.
  injection Hc as <-. eexists. simpl. eauto.
Qed.

(** What a successful broadcast leaves behind. *)
Definition broadcast_post (inp : SubmitInput) (value : Z) (rid : string) (s : Service)
    (sg : signer) (res : SubmitResult) (w w' : world) : Prop :=
  exists stx aid att now,
    SignTx (ChainID (svc_chain s)) (stx_tx stx) (sg_Key sg) = Ok stx /\
    tx_to (stx_tx stx) = in_To inp /\ tx_value (stx_tx stx) = value /\
    tx_data (stx_tx stx) = in_Data inp /\
    res = MkSubmitResult rid (stx_hash stx) (sg_Address sg) /\
    sent_log (w_hist w') = (stx, true) :: sent_log (w_hist w) /\
    db_attempts (w_db w) !! aid = None /\
    db_attempts (w_db w') = <[aid := att]> (db_attempts (w_db w)) /\
    t_request_id att = rid /\ t_tx_hash att = lowerHash (stx_hash stx) /\
    t_signer_address att = lowerHex (sg_Address sg) /\
    t_nonce att = int64_of (tx_nonce (stx_tx stx)) /\ t_status att = TSubmitted /\
    db_requests (w_db w') = alter (set_request_status RSubmitted now) rid (db_requests (w_db w)).

Lemma broadcast_ok `{EL : !GoEthereumLaws} s inp v rid sig sg gl gp w res w' :
  enqueuer_frame (svc_webhooks s) -> pg_uuid_in rid = Some rid ->
  run (broadcast s inp v rid sig sg gl gp) w = Done (Ok res) w' ->
  broadcast_post inp v rid s sg res w w'.
Proof.
  intros Hf Hrid H. unfold broadcast in H.
  apply bind_Done in H as (nonce & w1 & H1 & H).
  pose proof (keeps_Done outside _ _ _ _ (pool_action_outside _) H1) as [= Hdb1 Htx1].
  destruct (SignTx _ _ _) as [stx|e] eqn:Hsign.
  2:{ by apply bind_Done in H as (? & ? & _ & [=]). }
  pose proof (SignTx_sound _ _ _ _ Hsign) as [Htx _].
  apply bind_Done in H as ([aid|e] & w2 & H2 & H).
  2:{ by apply bind_Done in H as (? & ? & _ & [=]). }
  apply insertAttempt_ok in H2 as (row & Hrow & -> & Hfresh & _ & ->).
  set (aid := env_uuid (w_hist w1)) in *.
  apply bind_Done in H as (r & w3 & H3 & H).
  unfold SendTransaction in H3. rewrite run_action in H3. simpl in H3. injection H3 as <- <-.
  destruct (env_SendTransaction _ _) as [[]|e] eqn:Hsend.
  1: apply send_ok in Hsend; rewrite Hsend in H.
  2:{ apply bind_Done in H as (? & ? & _ & H). by apply bind_Done in H as (? & ? & _ & [=]). }
  apply (try_Done _ _ (EWrap "mark submitted")) in H as ([] & w4 & H4 & H).
  apply markSubmitted_ok in H4 as (now & Ha4 & Hr4 & _ & _ & Ht4);
    [|done|apply env_uuid_canonical].
  apply bind_Done in H as ([] & w5 & H5 & [= <- <-]).
  pose proof (keeps_Done core _ _ _ _ (fireWebhook_core s rid Hf) H5) as [= Hr5 Ha5 _ _ _ Ht5].
  unfold attempt_row_of in Hrow. rewrite Hrid in Hrow.
  destruct (pg_decimal_in _) as [price|]; [|done]. injection Hrow as <-.
  rewrite Hdb1 in *.
  eexists stx, aid, _, now. rewrite Htx in *. simpl in *.
  repeat split; try done.
  { by rewrite Ht5, Ht4, Htx1. }
  { rewrite Ha5, Ha4. simpl. by rewrite alter_insert_eq. }
  all: first [done | by rewrite Hr5, Hr4].
Qed.

Lemma pastDeadline_outside d : keeps outside (pastDeadline d).
Proof.
  unfold pastDeadline. destruct (0 <? d); [|done].
  apply keeps_bind; [by apply time_Now_keeps|done].
Qed.

Lemma gasLimitFor_outside inp v a : keeps outside (gasLimitFor inp v a).
Proof.
  unfold gasLimitFor. destruct (_ =? 0); [|done].
  apply keeps_bind; [by apply rpc_keeps|]. by intros [?|].
Qed.

Lemma submitWith_ok `{EL : !GoEthereumLaws} s inp v rid sig w res w' :
  enqueuer_frame (svc_webhooks s) -> pg_uuid_in rid = Some rid ->
  run (submitWith s inp v rid sig) w = Done (Ok res) w' ->
  exists sg w1, outside w1 = outside w /\ broadcast_post inp v rid s sg res w1 w'.
Proof.
  intros Hf Hrid H. unfold submitWith in H.
  apply bind_Done in H as (sg & w1 & H1 & H).
  apply (keeps_Done outside) in H1; [|apply deref_outside].
  apply bind_Done in H as (gl & w2 & H2 & H).
  apply (keeps_Done outside) in H2; [|apply gasLimitFor_outside]. destruct gl as [gl|e].
  2:{ by apply bind_Done in H as (? & ? & _ & [=]). }
  apply bind_Done in H as (gp & w3 & H3 & H).
  apply (keeps_Done outside) in H3; [|by apply rpc_keeps]. destruct gp as [gp|e].
  2:{ by apply bind_Done in H as (? & ? & _ & [=]). }
  exists sg, w3. split; [congruence|]. by apply broadcast_ok in H.
Qed.

(** Success of [Submit]: the signed transaction was accepted by the node and
    is the newest accepted one; its attempt row and its request row exist, are
    linked, and both say submitted. *)
Definition submitted_post (inp : SubmitInput) (res : SubmitResult) (w w' : world) : Prop :=
  exists stx aid att req,
    sent_log (w_hist w') = (stx, true) :: sent_log (w_hist w) /\
    out_TxHash res = stx_hash stx /\
    tx_to (stx_tx stx) = in_To inp /\ tx_data (stx_tx stx) = in_Data inp /\
    tx_value (stx_tx stx) = default 0 (in_Value inp) /\
    db_attempts (w_db w) !! aid = None /\
    db_attempts (w_db w') = <[aid := att]> (db_attempts (w_db w)) /\
    t_request_id att = out_RequestID res /\ t_tx_hash att = lowerHash (out_TxHash res) /\
    t_signer_address att = lowerHex (out_Signer res) /\ t_status att = TSubmitted /\
    db_requests (w_db w) !! out_RequestID res = None /\
    db_requests (w_db w') = <[out_RequestID res := req]> (db_requests (w_db w)) /\
    r_status req = RSubmitted.

Lemma Submit_ok_lemma `{EL : !GoEthereumLaws} s inp w res w' :
  enqueuer_frame (svc_webhooks s) ->
  run (Submit s inp) w = Done (Ok res) w' -> submitted_post inp res w w'.
Proof.
  intros Hf H. unfold Submit in H. destruct (negb _); [done|].
  apply bind_Done in H as (past & w1 & H1 & H).
  apply (keeps_Done outside) in H1; [|apply pastDeadline_outside].
  destruct past; [done|].
  apply (try_Done _ _ (EWrap "insert request")) in H as (rid & w2 & H2 & H).
  apply insertRequest_ok in H2 as (row & Hrow & -> & Hfresh & ->).
  set (rid := env_uuid (w_hist w1)) in *.
  apply bind_Done in H as (l & w3 & H3 & H).
  apply (keeps_Done outside) in H3; [|apply Load_outside]. destruct l as [[]|e].
  2:{ by apply bind_Done in H as (? & ? & _ & [=]). }
  apply bind_Done in H as (c & w4 & H4 & H).
  apply (keeps_Done outside) in H4; [|apply Checkout_outside]. destruct c as [sig|e].
  2:{ by apply bind_Done in H as (? & ? & _ & [=]). }
  apply bind_Done in H as (r & w5 & H5 & H).
  apply bind_Done in H as ([] & w6 & H6 & [= -> <-]).
  apply (keeps_Done outside) in H6; [|apply Release_outside].
  apply submitWith_ok in H5 as (sg & w7 & H7 & Hb); [|done|apply env_uuid_canonical].
  destruct Hb as (stx & aid & att & now & _ & Hto & Hv & Hd & -> & Ht & Hfa & Ha & Hrid' &
    Hth & Hsa & _ & Hst & Hreq).
  assert (outside w7 = (with_requests (<[rid:=row]> (db_requests (w_db w1))) (w_db w1),
    sent_log (w_hist w1))) as Ho by by rewrite H7, H4, H3.
  unfold outside in *. injection Ho as Hdb7 Htx7. injection H1 as Hdb1 Htx1.
  injection H6 as Hdb6 Htx6. rewrite Hdb7, Htx7, Hdb1, Htx1 in *. simpl in *.
  rewrite alter_insert_eq in Hreq. rewrite <- Hdb6 in *. rewrite <- Htx6 in *.
  unfold submitted_post. simpl. eauto 20.
Qed.
End submit_ok.

(** ** Failed submissions *)

Section submit_err.
Context `{Env : Environment} `{Eth : GoEthereum} `{PG : Postgres}.
Context `{KS : !KeystoreLoader} `{LS : !SignerLister}.
Context `{KSF : !KeystoreFrame} `{LSF : !ListerFrame} `{NA : !NodeAccepts}.

Abbreviation txs := (fun w => sent_log (w_hist w)).

Lemma outside_txs {A} (p : prog A) : keeps outside p -> keeps txs p.
Proof. apply (keeps_compose snd outside). Qed.

Lemma pg_txs {X} (st : stmt X) : keeps txs (pg st).
Proof. by apply pg_keeps. Qed.

Lemma fireWebhook_txs s rid : enqueuer_frame (svc_webhooks s) -> keeps txs (fireWebhook s rid).
Proof. intros Hf. apply (keeps_compose snd core). by apply fireWebhook_core. Qed.

Lemma markRequestStatus_txs s rid st :
  enqueuer_frame (svc_webhooks s) -> keeps txs (markRequestStatus s rid st).
Proof.
  intros Hf. apply keeps_bind; [apply pg_txs|]. intros r. destruct (_ && _); [|done].
  apply keeps_bind; [by apply fireWebhook_txs|done].
Qed.

Lemma markSubmitted_txs rid aid : keeps txs (markSubmitted rid aid).
Proof.
  apply keeps_bind; [by apply pg_begin_keeps|]. intros [t|e]; [|done].
  apply keeps_bind; [by apply pg_tx_keeps|]. intros [r1|e]; [|done].
  apply keeps_bind; [by apply pg_tx_keeps|]. intros [r2|e]; [|done].
  by apply pg_commit_keeps.
Qed.

(** What [Submit] sent, by its outcome. *)
Definition sent_by (r : result SubmitResult) (w w' : world) : Prop :=
  match r with
  | Ok res => exists stx, txs w' = (stx, true) :: txs w /\ stx_hash stx = out_TxHash res
  | Err e => txs w' = txs w \/
      exists e' stx answered, txs w' = (stx, answered) :: txs w /\
        (e = EWrap "mark submitted" e' /\ answered = true \/
         e = EWrap "submit" e' /\ answered = false /\
         exists h, env_SendTransaction h stx = Err e' /\ env_accepts h stx = true)
  end.

Lemma sent_by_eq r w1 w2 w' : txs w1 = txs w2 -> sent_by r w1 w' -> sent_by r w2 w'.
Proof. unfold sent_by. by intros ->. Qed.

(** A failing branch whose clean-up sends nothing. *)
Lemma fail_sent {A} (p : prog A) e w r w' :
  keeps txs p -> run (bind p (fun _ => Ret (Err e))) w = Done r w' -> sent_by r w w'.
Proof.
  intros Hp (a & w1 & H1 & [= <- <-])%bind_Done. left. by apply (keeps_Done txs) in H1.
Qed.

Lemma broadcast_sent s inp v rid sig sg gl gp w r w' :
  enqueuer_frame (svc_webhooks s) ->
  run (broadcast s inp v rid sig sg gl gp) w = Done r w' -> sent_by r w w'.
Proof.
  intros Hf H. unfold broadcast in H. apply bind_Done in H as (n & w1 & H1 & H).
  apply (keeps_Done txs) in H1; [|apply outside_txs, pool_action_outside].
  eapply sent_by_eq; [exact H1|]. destruct (SignTx _ _ _) as [stx|e].
  2:{ by eapply fail_sent; [apply outside_txs, pool_action_outside|exact H]. }
  apply bind_Done in H as (a & w2 & H2 & H).
  apply (keeps_Done txs) in H2; [|apply pg_txs]. eapply sent_by_eq; [exact H2|].
  destruct a as [aid|e].
  2:{ by eapply fail_sent; [apply outside_txs, pool_action_outside|exact H]. }
  apply bind_Done in H as (sr & w3 & H3 & H).
  unfold SendTransaction in H3. rewrite run_action in H3. simpl in H3. injection H3 as <- <-.
  destruct (env_SendTransaction _ _) as [[]|e] eqn:Hsend.
  - apply send_ok in Hsend as Hacc. rewrite Hacc in H.
    apply bind_Done in H as (m & w4 & H4 & H).
    apply (keeps_Done txs) in H4; [|apply markSubmitted_txs]. destruct m as [[]|e].
    + apply bind_Done in H as ([] & w5 & H5 & [= <- <-]).
      apply (keeps_Done txs) in H5; [|by apply fireWebhook_txs].
      exists stx. split; [|done]. by rewrite H5, H4.
    + injection H as <- <-. right. exists e, stx, true. split; [by rewrite H4|by left].
  - apply bind_Done in H as (u & w4 & H4 & H).
    apply (keeps_Done txs) in H4; [|apply outside_txs, pool_action_outside].
    apply bind_Done in H as (m & w5 & H5 & [= <- <-]).
    apply (keeps_Done txs) in H5; [|apply pg_txs].
    destruct (env_accepts (w_hist w2) stx) eqn:Hacc.
    + right. exists e, stx, false. split; [by rewrite H5, H4|]. right. eauto.
    + left. by rewrite H5, H4.
Qed.

Lemma submitWith_sent s inp v rid sig w r w' :
  enqueuer_frame (svc_webhooks s) ->
  run (submitWith s inp v rid sig) w = Done r w' -> sent_by r w w'.
Proof.
  intros Hf H. unfold submitWith in H. apply bind_Done in H as (sg & w1 & H1 & H).
  apply (keeps_Done txs) in H1; [|apply outside_txs, deref_outside].
  eapply sent_by_eq; [exact H1|]. apply bind_Done in H as (gl & w2 & H2 & H).
  apply (keeps_Done txs) in H2; [|apply outside_txs, gasLimitFor_outside].
  eapply sent_by_eq; [exact H2|]. destruct gl as [gl|e].
  2:{ by eapply fail_sent; [apply markRequestStatus_txs|exact H]. }
  apply bind_Done in H as (gp & w3 & H3 & H).
  apply (keeps_Done txs) in H3; [|by apply rpc_keeps].
  eapply sent_by_eq; [exact H3|]. destruct gp as [gp|e].
  2:{ by eapply fail_sent; [apply markRequestStatus_txs|exact H]. }
  by eapply broadcast_sent.
Qed.

(** What [Submit] had the node take in, on every path. *)
Lemma Submit_sent s inp w r w' :
  enqueuer_frame (svc_webhooks s) ->
  run (Submit s inp) w = Done r w' -> sent_by r w w'.
Proof.
  intros Hf H. unfold Submit in H. destruct (negb _).
  { injection H as <- <-. by left. }
  apply bind_Done in H as (past & w1 & H1 & H).
  apply (keeps_Done txs) in H1; [|apply outside_txs, pastDeadline_outside].
  eapply sent_by_eq; [exact H1|]. destruct past.
  { injection H as <- <-. by left. }
  apply bind_Done in H as (rid & w2 & H2 & H).
  apply (keeps_Done txs) in H2; [|apply pg_txs].
  eapply sent_by_eq; [exact H2|]. destruct rid as [rid|e].
  2:{ injection H as <- <-. by left. }
  apply bind_Done in H as (l & w3 & H3 & H).
  apply (keeps_Done txs) in H3; [|apply outside_txs, Load_outside].
  eapply sent_by_eq; [exact H3|]. destruct l as [l|e].
  2:{ by eapply fail_sent; [apply markRequestStatus_txs|exact H]. }
  apply bind_Done in H as (c & w4 & H4 & H).
  apply (keeps_Done txs) in H4; [|apply outside_txs, Checkout_outside].
  eapply sent_by_eq; [exact H4|]. destruct c as [sig|e].
  2:{ by eapply fail_sent; [apply markRequestStatus_txs|exact H]. }
  apply bind_Done in H as (r' & w5 & H5 & H).
  apply submitWith_sent in H5; [|done].
  apply bind_Done in H as ([] & w6 & H6 & [= <- <-]).
  apply (keeps_Done txs) in H6; [|apply outside_txs, Release_outside].
  unfold sent_by in *. by rewrite H6.
Qed.

(** C15 At most one transaction per submission, and none on error: [Submit]
    that succeeds had exactly one transaction accepted, the one it reports; one
    that returns an error had none, except when only the final bookkeeping
    failed, which the error says, or when the node took the transaction in and
    answered the broadcast with an error. *)
Theorem Submit_sends_at_most_one s inp w r w' :
  enqueuer_frame (svc_webhooks s) ->
  run (Submit s inp) w = Done r w' -> sent_by r w w'.
Proof. apply Submit_sent. Qed.

(** C14 A successful submission: the node accepted, as its newest transaction,
    one with the caller's destination, value and data; the returned hash is its
    hash; a new attempt row with that hash and signer and a new request row
    exist, are linked, and both are marked submitted. *)
Theorem Submit_success `{EL : !GoEthereumLaws} `{UUL : !UuidLaws} s inp w res w' :
  enqueuer_frame (svc_webhooks s) ->
  run (Submit s inp) w = Done (Ok res) w' -> submitted_post inp res w w'.
Proof. apply Submit_ok_lemma. Qed.
End submit_err.

(** ** The request status [failed] *)

(** No request becomes [failed]. *)
Definition no_new_failed (w w' : world) : Prop :=
  forall rid row', db_requests (w_db w') !! rid = Some row' -> r_status row' = RFailed ->
    exists row, db_requests (w_db w) !! rid = Some row /\ r_status row = RFailed.

#[export] Instance no_new_failed_preorder : PreOrder no_new_failed.
Proof.
  split.
  - intros w rid row H1 H2. eauto.
  - intros w1 w2 w3 H12 H23 rid row H1 H2. destruct (H23 rid row H1 H2) as (row2 & H3 & H4).
    eauto.
Qed.

Lemma no_new_failed_same w w' :
  db_requests (w_db w') = db_requests (w_db w) -> no_new_failed w w'.
Proof. unfold no_new_failed. intros ->. eauto. Qed.

Lemma no_new_failed_alter w w' rid st now :
  st <> RFailed ->
  db_requests (w_db w') = alter (set_request_status st now) rid (db_requests (w_db w)) ->
  no_new_failed w w'.
Proof.
  intros Hst Hr rid' row'. rewrite Hr. destruct (decide (rid' = rid)) as [->|Hne].
  - rewrite lookup_alter_eq. destruct (_ !! rid) as [row|]; [|done]. by intros [= <-].
  - rewrite lookup_alter_ne by done. eauto.
Qed.

Section never_failed.
Context `{Env : Environment} `{Eth : GoEthereum} `{PG : Postgres}.
Context `{KS : !KeystoreLoader} `{LS : !SignerLister}.
Context `{KSF : !KeystoreFrame} `{LSF : !ListerFrame}.

Lemma keeps_never_failed {A} (p : prog A) : keeps outside p -> ends no_new_failed p.
Proof.
  apply keeps_ends; [apply _|]. intros w w' [= Hd _]. apply no_new_failed_same. by rewrite Hd.
Qed.

Lemma core_never_failed {A} (p : prog A) : keeps core p -> ends no_new_failed p.
Proof.
  apply keeps_ends; [apply _|]. intros w w' [= Hd _ _ _]. by apply no_new_failed_same.
Qed.

Lemma db_same_never_failed w w' : w_db w' = w_db w -> no_new_failed w w'.
Proof. intros E. apply no_new_failed_same. by rewrite E. Qed.

Lemma insertRequest_never_failed inp v : ends no_new_failed (insertRequest inp v).
Proof.
  apply pg_ends; [apply _|apply db_same_never_failed|]. intros se w w' x H.
  destruct (request_row_of inp v (se_now se)) as [row|e] eqn:Er; [|done].
  apply check_Ok in H as [_ H]. apply check_Ok in H as [_ H].
  apply check_Ok in H as [_ [= _ Hd]]. unfold request_row_of in Er.
  destruct (pg_uuid_in (in_AppID inp)), (pg_decimal_in (bigint_String v)); try done.
  do 4 apply check_Ok in Er as [_ Er]. injection Er as <-.
  intros rid row'. rewrite <- Hd. simpl.
  destruct (decide (rid = se_uuid se)) as [->|Hne].
  - rewrite lookup_insert_eq. by intros [= <-].
  - rewrite lookup_insert_ne by done. eauto.
Qed.

Lemma insertAttempt_never_failed rid a n h gp : ends no_new_failed (insertAttempt rid a n h gp).
Proof.
  apply pg_ends; [apply _|apply db_same_never_failed|]. intros se w w' x H.
  destruct (attempt_row_of _ _ _ _ _ _) as [row|e]; [|done].
  do 4 apply check_Ok in H as [_ H].
  apply check_Ok in H as [_ [= _ Hd]]. apply no_new_failed_same. by rewrite <- Hd.
Qed.

Lemma update_request_never_failed rid st se w w' x :
  st <> RFailed -> update_request rid st se (w_db w) = Ok (x, w_db w') -> no_new_failed w w'.
Proof.
  intros Hst. unfold update_request. destruct (pg_uuid_in rid) as [u|]; [|done].
  intros [= _ Hd]. eapply (no_new_failed_alter _ _ u); [exact Hst|]. by rewrite <- Hd.
Qed.

Lemma fireWebhook_never_failed s rid :
  enqueuer_frame (svc_webhooks s) -> ends no_new_failed (fireWebhook s rid).
Proof. intros Hf. by apply core_never_failed, fireWebhook_core. Qed.

Lemma markRejected_never_failed s rid :
  enqueuer_frame (svc_webhooks s) -> ends no_new_failed (markRequestStatus s rid RRejected).
Proof.
  intros Hf. apply ends_bind; [apply _| |].
  - apply pg_ends; [apply _|apply db_same_never_failed|]. intros se w w' x.
    by apply update_request_never_failed.
  - intros r. destruct (_ && _); [|apply ends_Ret, _].
    apply ends_bind; [apply _|by apply fireWebhook_never_failed|]. intros _. apply ends_Ret, _.
Qed.

Lemma markAttemptStatus_never_failed aid st : ends no_new_failed (markAttemptStatus aid st).
Proof.
  apply pg_ends; [apply _|apply db_same_never_failed|]. intros se w w' x.
  unfold update_attempt. destruct (pg_uuid_in aid); [|done]. intros [= _ Hd].
  apply no_new_failed_same. by rewrite <- Hd.
Qed.

Lemma markSubmitted_never_failed rid aid : ends no_new_failed (markSubmitted rid aid).
Proof.
  apply (txn2_ends no_new_failed (update_attempt aid (set_attempt_status TSubmitted))
    (fun _ => update_request rid RSubmitted) (fun _ c => Ret c)); try done.
  - apply db_same_never_failed.
  - intros se1 se2 w w' x y db1. unfold update_attempt, update_request.
    destruct (pg_uuid_in aid); [|done]. destruct (pg_uuid_in rid) as [u|]; [|done].
    intros [= _ <-] [= _ Hd]. eapply (no_new_failed_alter _ _ u RSubmitted); [done|].
    by rewrite <- Hd.
  - intros x c. apply ends_Ret, _.
Qed.

Lemma Load_never_failed app : ends no_new_failed (Load app).
Proof. apply keeps_never_failed, Load_outside. Qed.

#[local] Hint Resolve Load_never_failed insertRequest_never_failed insertAttempt_never_failed
  fireWebhook_never_failed markRejected_never_failed markAttemptStatus_never_failed
  markSubmitted_never_failed keeps_never_failed pastDeadline_outside
  Checkout_outside Release_outside deref_outside gasLimitFor_outside : txmill.

(** A relay request never gets the status [failed]: whatever fails during a
    submission, the request ends pending, rejected or submitted. *)
Theorem Submit_never_failed s inp :
  enqueuer_frame (svc_webhooks s) -> ends no_new_failed (Submit s inp).
Proof.
  intros Hf. unfold Submit, submitWith, broadcast.
  pose proof (fun rid => markRejected_never_failed s rid Hf) as Hrej.
  pose proof (fun rid => fireWebhook_never_failed s rid Hf) as Hfire.
  assert (forall st, ends no_new_failed (SendTransaction st)) as Hsend.
  { intros st. apply (keeps_ends w_db); [apply _|apply db_same_never_failed|].
    by apply SendTransaction_keeps. }
  solve_ends; apply keeps_never_failed; first [apply pool_action_outside | by apply rpc_keeps].
Qed.
End never_failed.

(** ** A broadcast the node refused *)

Section send_failure.
Context `{Env : Environment} `{Eth : GoEthereum} `{PG : Postgres}.
Context `{KS : !KeystoreLoader} `{LS : !SignerLister}.
Context `{KSF : !KeystoreFrame} `{LSF : !ListerFrame} `{UUL : !UuidLaws}.

(** The attempt row that is left behind, in the world after the submission whose
    last interaction was the UPDATE that marks it: failed, and still submitting
    exactly when that statement had no effect. *)
Definition unsent_attempt (rid : string) (att : attempt_row) (w' : world) : Prop :=
  t_request_id att = rid /\
  t_status att =
    (match env_pg_fate (tail (w_hist w')) with PgFail false _ => TSubmitting | _ => TFailed end).

Lemma markFailed_cases aid att w r w' :
  pg_uuid_in aid = Some aid -> db_attempts (w_db w) !! aid = Some att ->
  t_status att = TSubmitting ->
  run (markAttemptStatus aid TFailed) w = Done r w' ->
  db_requests (w_db w') = db_requests (w_db w) /\
  db_deliveries (w_db w') = db_deliveries (w_db w) /\
  exists att', db_attempts (w_db w') = <[aid := att']> (db_attempts (w_db w)) /\
    unsent_attempt (t_request_id att) att' w'.
Proof.
  intros Hu Ha Hst H. unfold markAttemptStatus, pg in H. rewrite run_action in H.
  unfold update_attempt in H. rewrite Hu in H.
  assert (alter (set_attempt_status TFailed) aid (db_attempts (w_db w)) =
    <[aid := set_attempt_status TFailed att]> (db_attempts (w_db w))) as Halt.
  { apply map_eq. intros j. destruct (decide (j = aid)) as [->|Hne].
    - by rewrite lookup_alter_eq, Ha, lookup_insert_eq.
    - by rewrite lookup_alter_ne, lookup_insert_ne. }
  unfold unsent_attempt. destruct (env_pg_fate (w_hist w)) as [|[] e] eqn:Ef; simpl in H; injection H as _ <-;
    simpl; rewrite Ef; do 2 (split; [done|]).
  - by exists (set_attempt_status TFailed att).
  - by exists (set_attempt_status TFailed att).
  - exists att. by rewrite insert_id.
Qed.

Lemma Release_hist p : keeps w_hist (Release p).
Proof.
  apply keeps_bind; [apply keeps_bind; [by apply keeps_action|by intros [?|]]|]. intros sg.
  apply keeps_bind; [by apply keeps_action|]. intros []; [|done].
  split; [|done]. intros w x w'. destruct (pl_apps _ !! _); [|done].
  destruct (Nat.ltb _ _); [|done]. by intros [= _ <-].
Qed.

Lemma broadcast_send_failure s inp v rid sig sg gl gp w e w' :
  pg_uuid_in rid = Some rid ->
  run (broadcast s inp v rid sig sg gl gp) w = Done (Err (EWrap "submit" e)) w' ->
  db_requests (w_db w') = db_requests (w_db w) /\
  db_deliveries (w_db w') = db_deliveries (w_db w) /\
  exists aid att, db_attempts (w_db w) !! aid = None /\
    db_attempts (w_db w') = <[aid := att]> (db_attempts (w_db w)) /\ unsent_attempt rid att w'.
Proof.
  intros Hrid H. unfold broadcast in H.
  apply bind_Done in H as (nonce & w1 & H1 & H).
  pose proof (keeps_Done outside _ _ _ _ (pool_action_outside _) H1) as [= Hdb1 _].
  destruct (SignTx _ _ _) as [stx|e']; [|by apply bind_Done in H as (? & ? & _ & [=])].
  apply bind_Done in H as ([aid|e'] & w2 & H2 & H);
    [|by apply bind_Done in H as (? & ? & _ & [=])].
  apply insertAttempt_ok in H2 as (row & Hrow & -> & Hfresh & _ & ->).
  apply bind_Done in H as (r & w3 & H3 & H).
  unfold SendTransaction in H3. rewrite run_action in H3. simpl in H3. injection H3 as <- <-.
  destruct (env_SendTransaction _ _) as [[]|e'].
  { apply bind_Done in H as ([[]|e''] & w4 & _ & H); [|done].
    by apply bind_Done in H as (? & ? & _ & [=]). }
  apply bind_Done in H as (u & w4 & H4 & H).
  pose proof (keeps_Done outside _ _ _ _ (pool_action_outside _) H4) as [= Hdb4 _].
  apply bind_Done in H as (m & w5 & H5 & [= _ <-]).
  unfold attempt_row_of in Hrow. rewrite Hrid in Hrow.
  destruct (pg_decimal_in _) as [price|]; [|done]. injection Hrow as <-.
  set (aid := env_uuid (w_hist w1)) in *. set (row := AttemptRow _ _ _ _ _ _ _ _ _ _ _ _) in *.
  assert (db_attempts (w_db w4) !! aid = Some row) as Hlk.
  { rewrite Hdb4. apply lookup_insert_eq. }
  pose proof (markFailed_cases _ _ _ _ _ (env_uuid_canonical _) Hlk eq_refl H5)
    as (Hr5 & Hd5 & att & Ha5 & Hun).
  rewrite Hdb4 in Hr5, Ha5, Hd5. simpl in Hr5, Ha5, Hd5, Hun. rewrite Hr5, Hd5, Hdb1.
  do 2 (split; [done|]).
  exists aid, att. split; [by rewrite <- Hdb1|]. split; [|exact Hun].
  by rewrite Ha5, insert_insert_eq, Hdb1.
Qed.

(** C17 When the node answers the broadcast with an error, so does [Submit]; the
    attempt row is marked failed — it stays submitting exactly when the UPDATE
    that marks it, the last statement of the submission, had no effect — and the
    request row stays [pending]: it is neither rejected nor failed, and no webhook
    is queued for it. *)
Theorem Submit_send_failure s inp w e w' :
  run (Submit s inp) w = Done (Err (EWrap "submit" e)) w' ->
  db_deliveries (w_db w') = db_deliveries (w_db w) /\
  exists rid row aid att,
    db_requests (w_db w) !! rid = None /\
    db_requests (w_db w') = <[rid := row]> (db_requests (w_db w)) /\ r_status row = RPending /\
    db_attempts (w_db w) !! aid = None /\
    db_attempts (w_db w') = <[aid := att]> (db_attempts (w_db w)) /\ unsent_attempt rid att w'.
Proof.
  intros H. unfold Submit in H. destruct (negb _); [done|].
  apply bind_Done in H as (past & w1 & H1 & H).
  apply (keeps_Done outside) in H1 as [= Hd1 _]; [|apply pastDeadline_outside].
  destruct past; [done|].
  apply bind_Done in H as ([rid|e'] & w2 & H2 & H); [|done].
  apply insertRequest_ok in H2 as (row & Hrow & -> & Hfresh & ->).
  set (rid := env_uuid (w_hist w1)) in *.
  apply bind_Done in H as ([l|e'] & w3 & H3 & H); [|by apply bind_Done in H as (? & ? & _ & [=])].
  apply (keeps_Done outside) in H3 as [= Hd3 _]; [|apply Load_outside].
  apply bind_Done in H as ([sig|e'] & w4 & H4 & H); [|by apply bind_Done in H as (? & ? & _ & [=])].
  apply (keeps_Done outside) in H4 as [= Hd4 _]; [|apply Checkout_outside].
  apply bind_Done in H as (r & w5 & H5 & H).
  apply bind_Done in H as ([] & w6 & H6 & [= -> <-]).
  pose proof (keeps_Done w_hist _ _ _ _ (Release_hist _) H6) as Hh6.
  apply (keeps_Done outside) in H6 as [= Hd6 _]; [|apply Release_outside].
  unfold submitWith in H5. apply bind_Done in H5 as (sg & w7 & H7 & H5).
  apply (keeps_Done outside) in H7 as [= Hd7 _]; [|apply deref_outside].
  apply bind_Done in H5 as ([gl|e'] & w8 & H8 & H5); [|by apply bind_Done in H5 as (? & ? & _ & [=])].
  apply (keeps_Done outside) in H8 as [= Hd8 _]; [|apply gasLimitFor_outside].
  apply bind_Done in H5 as ([gp|e'] & w9 & H9 & H5); [|by apply bind_Done in H5 as (? & ? & _ & [=])].
  apply (keeps_Done outside) in H9 as [= Hd9 _]; [|by apply rpc_keeps].
  apply broadcast_send_failure in H5 as (Hr & Hde & aid & att & Hfa & Ha & Hun); [|apply env_uuid_canonical].
  rewrite Hd9, Hd8, Hd7, Hd4, Hd3 in Hr, Hde, Hfa, Ha. simpl in Hr, Hde, Hfa, Ha.
  split; [by rewrite Hd6, Hde, Hd1|]. exists rid, row, aid, att. rewrite Hd6, Hr, Ha, <- Hd1.
  unfold unsent_attempt in *. rewrite Hh6.
  do 2 (split; [done|]). split; [|by split].
  unfold request_row_of in Hrow.
  destruct (pg_uuid_in _) as [app|]; [|done]. destruct (pg_decimal_in _) as [v|]; [|done].
  do 4 apply check_Ok in Hrow as [_ Hrow]. by injection Hrow as <-.
Qed.
End send_failure.

(** ** Witnesses *)

Module RelayDemo.
Import RefEnv.

Definition demo_service : Service := NewService (MkClient 146) (NewPool refKs (MkClient 146) appLister).

Definition demo_submit : SubmitInput :=
  MkSubmitInput demo_app 146 (addr 77) "data" (Some 5) 0 0 "" "order 1".

Definition with_chain (c : Z) : SubmitInput :=
  MkSubmitInput demo_app c (addr 77) "data" None 0 0 "" "".

Definition with_deadline (d : Z) : SubmitInput :=
  MkSubmitInput demo_app 146 (addr 77) "data" None 0 d "" "".

(** The same outside, but the node refuses every transaction. *)
Definition refusing : Environment :=
  let h := honest 1 200 5 in {|
    env_now := @env_now h; env_zone := @env_zone h; env_pg_now := @env_pg_now h;
    env_uuid := @env_uuid h; env_pg_fate := @env_pg_fate h; env_rand := @env_rand h;
    env_ctx_done := @env_ctx_done h; env_select := @env_select h; env_dial := @env_dial h;
    env_ChainID := @env_ChainID h; env_EstimateGas := @env_EstimateGas h;
    env_SuggestGasPrice := @env_SuggestGasPrice h; env_BalanceAt := @env_BalanceAt h;
    env_PendingNonceAt := @env_PendingNonceAt h;
    env_SendTransaction _ _ := Err (EText "insufficient funds"); env_accepts _ _ := false;
    env_TransactionReceipt := @env_TransactionReceipt h;
    env_CallContract := @env_CallContract h; env_url_ok := @env_url_ok h;
    env_http := @env_http h |}.

#[export] Instance refusing_uuid : @UuidLaws refusing refPg.
Proof. split. exact (@env_uuid_canonical _ _ (refUuidLaws 1 200 5)). Qed.

Lemma demo_submit_ok : done_ok (run (Submit demo_service demo_submit) demo_world) = true.
Proof. vm_compute. reflexivity. Qed.

Lemma bufferedGas_bounds_witness : bufferedGas 21000 = 25200 /\ 21000 <= bufferedGas 21000.
Proof.
  destruct (bufferedGas_bounds 21000) as (H1 & H2 & _); [lia|lia|].
  split; [exact H1|apply H2].
Defined.

Lemma Submit_refuses_witness :
  run (Submit demo_service (with_chain 1)) demo_world
    = Done (Err (ESentinel ErrChainIDMismatch)) demo_world /\
  run (Submit demo_service (with_deadline 1600000000)) demo_world
    = Done (Err (ESentinel ErrPastDeadline)) (log EvNow demo_world).
Proof.
  split.
  - apply Submit_refuses. vm_compute. discriminate.
  - apply Submit_refuses; [reflexivity|]. split; reflexivity.
Defined.

Lemma Submit_success_witness :
  exists res w', run (Submit demo_service demo_submit) demo_world = Done (Ok res) w' /\
    submitted_post demo_submit res demo_world w'.
Proof.
  destruct (done_ok_inv _ demo_submit_ok) as (res & w' & E). exists res, w'.
  split; [exact E|]. exact (Submit_success demo_service _ _ _ _ I E).
Defined.

Lemma Submit_sends_at_most_one_witness :
  exists res w', run (Submit demo_service demo_submit) demo_world = Done (Ok res) w' /\
    sent_by (Ok res) demo_world w'.
Proof.
  destruct (done_ok_inv _ demo_submit_ok) as (res & w' & E). exists res, w'.
  split; [exact E|]. exact (Submit_sends_at_most_one demo_service _ _ _ _ I E).
Defined.

Lemma Submit_never_failed_witness : ends no_new_failed (Submit demo_service demo_submit).
Proof. apply Submit_never_failed. exact I. Defined.

(** The world after a refused broadcast. *)
Definition refused_world : world :=
  match run (Submit (Env := refusing) demo_service demo_submit) demo_world with
  | Done _ w | Panicked _ w | Blocked w => w
  end.

Lemma Submit_send_failure_witness :
  run (Submit (Env := refusing) demo_service demo_submit) demo_world
    = Done (Err (EWrap "submit" (EText "insufficient funds"))) refused_world /\
  exists rid row aid att, db_requests (w_db refused_world) !! rid = Some row /\ r_status row = RPending /\
    db_attempts (w_db refused_world) !! aid = Some att /\ t_status att = TFailed.
Proof.
  assert (run (Submit (Env := refusing) demo_service demo_submit) demo_world
    = Done (Err (EWrap "submit" (EText "insufficient funds"))) refused_world) as E.
  { vm_compute. reflexivity. }
  split; [exact E|].
  destruct (Submit_send_failure (Env := refusing) _ _ _ _ _ E)
    as (_ & rid & row & aid & att & _ & Hr & Hst & _ & Ha & _ & Ht).
  exists rid, row, aid, att. split; [rewrite Hr; apply lookup_insert_eq|]. split; [exact Hst|].
  split; [rewrite Ha; apply lookup_insert_eq|exact Ht].
Defined.

(** A node that follows the account nonces, whose answer to the first
    transaction it takes in is lost on the way. *)
Definition losing : Environment :=
  let h := honest 1 200 5 in
  let next hist s := bool_decide (tx_nonce (stx_tx s) = count_from (stx_from s) (accepted_txs hist)) in {|
    env_now := @env_now h; env_zone := @env_zone h; env_pg_now := @env_pg_now h;
    env_uuid := @env_uuid h; env_pg_fate := @env_pg_fate h; env_rand := @env_rand h;
    env_ctx_done := @env_ctx_done h; env_select := @env_select h; env_dial := @env_dial h;
    env_ChainID := @env_ChainID h; env_EstimateGas := @env_EstimateGas h;
    env_SuggestGasPrice := @env_SuggestGasPrice h; env_BalanceAt := @env_BalanceAt h;
    env_PendingNonceAt := @env_PendingNonceAt h;
    env_SendTransaction hist s :=
      if next hist s then
        match accepted_txs hist with [] => Err (EText "timeout") | _ => Ok tt end
      else Err (EText "nonce too low");
    env_accepts := next;
    env_TransactionReceipt := @env_TransactionReceipt h;
    env_CallContract := @env_CallContract h; env_url_ok := @env_url_ok h;
    env_http := @env_http h |}.

(** One signer only. *)
Definition lone_world : world :=
  World (with_signers {[ lowerHex demo_signer1 := SignerRow demo_app 0 None ]} demo_db)
    empty_pool ∅ ∅ [].

Definition lone_submit (gas : Z) : prog (result SubmitResult) :=
  Submit (Env := losing) demo_service
    (MkSubmitInput demo_app 146 (addr 77) "data" None gas 0 "" "").

Definition outcome_of_run (o : outcome (result SubmitResult)) : option error * world :=
  match o with
  | Done (Ok _) w => (None, w)
  | Done (Err e) w => (Some e, w)
  | Panicked _ w | Blocked w => (None, w)
  end.

Definition lone1 := outcome_of_run (run (lone_submit 50000) lone_world).
Definition lone2 := outcome_of_run (run (lone_submit 60000) lone1.2).

(** After a broadcast whose answer was lost the nonce is given back although it
    is used: the accepted transaction's attempt is marked failed, and the next
    submission through the signer, with another gas limit, is refused for its
    nonce, with the counter left where it was. *)
Lemma lost_answer_wedges :
  lone1.1 = Some (EWrap "submit" (EText "timeout")) /\
  length (accepted_txs (w_hist lone1.2)) = 1%nat /\
  no_row (fun r => negb (bool_decide (t_status r = TFailed))) (db_attempts (w_db lone1.2)) = true /\
  lone2.1 = Some (EWrap "submit" (EText "nonce too low")) /\
  option_map sg_nonce (pl_heap (w_pool lone2.2) !! 0%nat) = Some 0.
Proof. repeat split; vm_compute; reflexivity. Qed.
End RelayDemo.
