(* ===== verification/RelayStatus.v ===== *)
(** * Request status and startup recovery
      ([internal/relay/get.go], [internal/relay/recovery.go])

    [Get] is the polling endpoint's query, restricted to the caller's app;
    [GetRaw] renders the same status as JSON together with the webhook URL and
    secret in force; [Recover] is the read-only startup scan. *)

From Stdlib Require Import ZArith Lia Sorted.
From S2P Require Import Prelude GoLib Json Eth Database World Chain SignerPool RefEnv.
From S2P Require Import AppService RelayService.

Local Open Scope Z_scope.
Local Open Scope txmill_scope.

(** [relay.Status] *)
Record Status := MkStatus {
  st_RequestID : string;
  st_Status : string;
  st_TxHash : string;
  st_Signer : string;
  st_BlockNumber : option Z;
  st_GasUsed : option Z;
  st_EffectiveGasPrice : string;
  st_RevertReason : string;
  st_Logs : string;
  st_CallbackMetadata : string;
  st_UpdatedAt : Z;
}.

Definition empty_or (o : option string) : string := default "" o.

(** The LATERAL subquery: the newest attempt of a request. *)
Definition latest_attempt (rid : string) (db : database) : option attempt_row :=
  match sort_by (fun kv => - t_submitted_at kv.2)
          (rows_where (fun _ t => String.eqb (t_request_id t) rid) (db_attempts db)) with
  | (_, t) :: _ => Some t
  | [] => None
  end.

(** The row the SELECT produces, copied into a [Status] by the nil checks that
    follow the Scan. *)
Definition status_of (rid : string) (r : request_row) (a : option attempt_row) : Status :=
  {| st_RequestID := rid;
     st_Status := request_status_text (r_status r);
     st_TxHash := empty_or (t_tx_hash <$> a);
     st_Signer := empty_or (t_signer_address <$> a);
     st_BlockNumber := a ≫= t_block_number;
     st_GasUsed := a ≫= t_gas_used;
     st_EffectiveGasPrice := empty_or (bigint_String <$> (a ≫= t_effective_gas_price));
     st_RevertReason := empty_or (a ≫= t_revert_reason);
     st_Logs := empty_or (a ≫= t_logs);
     st_CallbackMetadata := empty_or (r_callback_metadata r);
     st_UpdatedAt := r_updated_at r |}.

Record RecoveryReport := MkRecoveryReport {
  rr_InflightAttempts : nat;
  rr_PendingWebhookDeliveries : nat;
  rr_StuckRequests : list (string * string * Z);
}.

Definition is_inflight (st : attempt_status) : bool :=
  match st with TSubmitting | TSubmitted => true | _ => false end.

Section status.
Context `{Env : Environment} `{PG : Postgres}.

(** [json.Marshal(&out)]: the field order, names and [omitempty] tags of the
    struct. *)
Definition Status_Marshal (s : Status) : result string :=
  let off := env_zone (st_UpdatedAt s) in
  let year := (civil ((st_UpdatedAt s / 10 ^ 6 + off) / 86400)).1.1 in
  if (year <? 0) || (9999 <? year) then
    Err (EText "json: error calling MarshalJSON for type time.Time")
  else
    Ok (json_object
      [("request_id", Some (json_string (st_RequestID s)));
       ("status", Some (json_string (st_Status s)));
       ("tx_hash", omit_empty_string (st_TxHash s));
       ("signer", omit_empty_string (st_Signer s));
       ("block_number", omit_nil bigint_String (st_BlockNumber s));
       ("gas_used", omit_nil bigint_String (st_GasUsed s));
       ("effective_gas_price", omit_empty_string (st_EffectiveGasPrice s));
       ("revert_reason", omit_empty_string (st_RevertReason s));
       ("logs", if String.eqb (st_Logs s) "" then None
                else Some (json_compact false false (st_Logs s)));
       ("callback_metadata", omit_empty_string (st_CallbackMetadata s));
       ("updated_at", Some (quote +:+ rfc3339 (st_UpdatedAt s) off +:+ quote))]).

(** ** Get *)

Definition get_query (requestID appID : string) : stmt_env -> database -> result Status :=
  fun _ db =>
    match pg_uuid_in requestID, pg_uuid_in appID with
    | Some rid, Some app =>
        match db_requests db !! rid with
        | Some r =>
            if String.eqb (r_app_id r) app
            then Ok (status_of rid r (latest_attempt rid db))
            else Err (ESentinel ErrNoRows)
        | None => Err (ESentinel ErrNoRows)
        end
    | _, _ => Err invalid_text
    end.

Definition Get (requestID appID : string) : prog (result Status) :=
  let! r := pg (select (get_query requestID appID)) in
  match r with
  | Ok s => Ret (Ok s)
  | Err e =>
      if errors_Is e ErrNoRows then Ret (Err (ESentinel ErrNotFound))
      else Ret (Err (EWrap "get relay" e))
  end.

(** ** GetRaw *)

(** [COALESCE(NULLIF(r.callback_url, ''), apps.default_callback_url, '')] and
    [COALESCE(apps.default_callback_secret, '')] *)
Definition effective_url (r : request_row) (a : app_row) : string :=
  match r_callback_url r ≫= nullif_empty with
  | Some u => u
  | None => empty_or (a_default_callback_url a)
  end.
Definition effective_secret (a : app_row) : string :=
  empty_or (a_default_callback_secret a).

Definition get_raw_query (requestID : string)
    : stmt_env -> database -> result (Status * string * string) :=
  fun _ db =>
    match pg_uuid_in requestID with
    | None => Err invalid_text
    | Some rid =>
        match db_requests db !! rid with
        | None => Err (ESentinel ErrNoRows)
        | Some r =>
            match db_apps db !! r_app_id r with
            | None => Err (ESentinel ErrNoRows)
            | Some a => Ok (status_of rid r (latest_attempt rid db),
                            effective_url r a, effective_secret a)
            end
        end
    end.

Definition GetRaw (requestID : string) : prog (result (string * string * string)) :=
  let! r := pg (select (get_raw_query requestID)) in
  match r with
  | Err e =>
      if errors_Is e ErrNoRows then Ret (Err (ESentinel ErrNotFound))
      else Ret (Err (EWrap "get raw" e))
  | Ok (out, url, secret) =>
      match Status_Marshal out with
      | Err e => Ret (Err (EWrap "get raw marshal" e))
      | Ok body => Ret (Ok (body, url, secret))
      end
  end.

(** ** Recover *)

Definition count_inflight : stmt_env -> database -> result nat := fun _ db =>
  Ok (length (rows_where (fun _ t => is_inflight (t_status t)) (db_attempts db))).

Definition count_pending_deliveries : stmt_env -> database -> result nat := fun _ db =>
  Ok (length (rows_where (fun _ d => bool_decide (d_status d = DPending)) (db_deliveries db))).

Definition has_attempt (rid : string) (db : database) : bool :=
  negb (no_row (fun t => String.eqb (t_request_id t) rid) (db_attempts db)).

Definition stuck_requests : stmt_env -> database -> result (list (string * string * Z)) :=
  fun _ db =>
    Ok (List.map (fun kv => (kv.1, r_app_id kv.2, r_created_at kv.2))
         (sort_by (fun kv => r_created_at kv.2)
           (rows_where (fun rid r => bool_decide (r_status r = RPending) && negb (has_attempt rid db))
              (db_requests db)))).

Definition Recover : prog (result RecoveryReport) :=
  let? inflight := pg (select count_inflight) or "count inflight attempts" in
  let? pending := pg (select count_pending_deliveries) or "count webhook deliveries" in
  let? stuck := pg (select stuck_requests) or "scan stuck requests" in
  Ret (Ok (MkRecoveryReport inflight pending stuck)).
End status.

(** ** Lemmas *)

Lemma latest_attempt_elem rid db t :
  latest_attempt rid db = Some t ->
  (exists i, db_attempts db !! i = Some t /\ t_request_id t = rid) /\
  forall i t', db_attempts db !! i = Some t' -> t_request_id t' = rid ->
    t_submitted_at t' <= t_submitted_at t.
Proof.
  unfold latest_attempt. set (key := fun kv : string * attempt_row => - t_submitted_at kv.2).
  set (rows := rows_where _ _).
  assert (forall i t', (i, t') ∈ sort_by key rows <->
    db_attempts db !! i = Some t' /\ t_request_id t' = rid) as Hel.
  { intros i t'. rewrite sort_by_elem. unfold rows. by rewrite rows_where_elem, String.eqb_eq. }
  pose proof (sort_by_sorted key rows) as Hs.
  destruct (sort_by key rows) as [|[i t0] l]; [done|]. intros [= ->].
  apply StronglySorted_inv in Hs as [_ Hle]. rewrite Forall_forall in Hle. split.
  - exists i. apply Hel. by left.
  - intros j t' Hj Hr. assert ((j, t') ∈ (i, t) :: l) as Hin by by apply Hel.
    apply elem_of_cons in Hin as [[= _ ->]|Hin]; [lia|].
    apply Hle in Hin. unfold key in Hin. simpl in Hin. lia.
Qed.

Lemma latest_attempt_none rid db :
  latest_attempt rid db = None <->
  forall i t, db_attempts db !! i = Some t -> t_request_id t <> rid.
Proof.
  unfold latest_attempt. set (key := fun kv : string * attempt_row => - t_submitted_at kv.2).
  set (rows := rows_where _ _).
  assert (forall i t', (i, t') ∈ sort_by key rows <->
    db_attempts db !! i = Some t' /\ t_request_id t' = rid) as Hel.
  { intros i t'. rewrite sort_by_elem. unfold rows. by rewrite rows_where_elem, String.eqb_eq. }
  destruct (sort_by key rows) as [|[i t0] l]; split; try done.
  - intros _ i t Hi Hr. eapply (not_elem_of_nil (i, t)), Hel. done.
  - intros H. destruct (proj1 (Hel i t0)) as [Hi Hr]; [by left|]. by apply H in Hi.
Qed.

Lemma has_attempt_spec rid db :
  has_attempt rid db = true <-> exists i t, db_attempts db !! i = Some t /\ t_request_id t = rid.
Proof.
  unfold has_attempt. rewrite negb_true_iff, no_row_false.
  split; intros (i & t & Hi & Hr); exists i, t; (split; [done|]); by apply String.eqb_eq.
Qed.

Section lemmas.
Context `{Env : Environment}.

(** A read-only statement, as seen by the caller. *)
Lemma run_select {X} (q : stmt_env -> database -> result X) w :
  run (pg (select q)) w =
  Done (match env_pg_fate (w_hist w) with
        | PgServe => q (env_stmt w) (w_db w)
        | PgFail _ e => Err e
        end) (log EvDb w).
Proof.
  unfold pg, select. rewrite run_action.
  destruct w as [db pl fl th h]; simpl.
  destruct (env_pg_fate h) as [|[] e]; simpl;
    destruct (q (env_stmt (World db pl fl th h)) db); done.
Qed.
End lemmas.

(** ** Properties *)

Section properties.
Context `{Env : Environment} `{PG : Postgres}.

(** What [Get] answers and that it only reads. *)
Lemma Get_cases requestID appID w r w' :
  run (Get requestID appID) w = Done r w' ->
  view w' = view w /\
  match r with
  | Ok s => exists rid app row, pg_uuid_in requestID = Some rid /\ pg_uuid_in appID = Some app /\
      db_requests (w_db w) !! rid = Some row /\ r_app_id row = app /\
      s = status_of rid row (latest_attempt rid (w_db w))
  | Err e => env_pg_fate (w_hist w) = PgServe ->
      forall rid app, pg_uuid_in requestID = Some rid -> pg_uuid_in appID = Some app ->
      e = ESentinel ErrNotFound /\
      forall row, db_requests (w_db w) !! rid = Some row -> r_app_id row <> app
  end.
Proof.
  unfold Get. rewrite run_bind, run_select. unfold get_query.
  destruct (env_pg_fate (w_hist w)) as [|b e].
  2:{ destruct (errors_Is e ErrNoRows); intros [= <- <-]; by split. }
  destruct (pg_uuid_in requestID) as [rid|]; cbn.
  2:{ intros [= <- <-]. by split. }
  destruct (pg_uuid_in appID) as [app|]; cbn.
  2:{ intros [= <- <-]. by split. }
  destruct (db_requests (w_db w) !! rid) as [row|] eqn:Er; cbn.
  2:{ intros [= <- <-]. split; [done|]. intros _ r a [= <-] [= <-]. split; [done|].
      intros row. by rewrite Er. }
  destruct (String.eqb_spec (r_app_id row) app) as [Ha|Ha]; cbn; intros [= <- <-];
    (split; [done|]).
  - by exists rid, app, row.
  - intros _ r a [= <-] [= <-]. split; [done|]. intros row'. rewrite Er. by intros [= <-].
Qed.

(** C26 [Get] is confined to the caller's app: it returns only the status of a
    request that belongs to that app, built from the request row and its newest
    attempt; when the server answers, a request of another app gives the very
    [ErrNotFound] of a request that does not exist; and it changes nothing. *)
Theorem Get_isolation requestID appID w r w' :
  run (Get requestID appID) w = Done r w' ->
  view w' = view w /\
  match r with
  | Ok s => exists rid app row, pg_uuid_in requestID = Some rid /\ pg_uuid_in appID = Some app /\
      db_requests (w_db w) !! rid = Some row /\ r_app_id row = app /\
      s = status_of rid row (latest_attempt rid (w_db w))
  | Err e => env_pg_fate (w_hist w) = PgServe ->
      forall rid app, pg_uuid_in requestID = Some rid -> pg_uuid_in appID = Some app ->
      e = ESentinel ErrNotFound /\
      forall row, db_requests (w_db w) !! rid = Some row -> r_app_id row <> app
  end.
Proof. apply Get_cases. Qed.

(** The status of a request carries its newest attempt, or none exactly when
    nothing was ever attempted. *)
Theorem latest_attempt_newest rid db :
  match latest_attempt rid db with
  | Some t => (exists i, db_attempts db !! i = Some t /\ t_request_id t = rid) /\
      forall i t', db_attempts db !! i = Some t' -> t_request_id t' = rid ->
        t_submitted_at t' <= t_submitted_at t
  | None => forall i t, db_attempts db !! i = Some t -> t_request_id t <> rid
  end.
Proof.
  destruct (latest_attempt rid db) eqn:E; [by apply latest_attempt_elem|].
  by apply latest_attempt_none.
Qed.

(** C27 The webhook payload is the JSON of the very status that polling returns
    to the owning app at that moment; the URL is the request's own, else the
    app's default, and the secret is the app's. *)
Theorem GetRaw_matches_Get requestID appID row w payload url secret w' :
  run (GetRaw requestID) w = Done (Ok (payload, url, secret)) w' ->
  pg_uuid_in requestID ≫= (fun rid => db_requests (w_db w) !! rid) = Some row ->
  pg_uuid_in appID = Some (r_app_id row) ->
  exists s a, run (Get requestID appID) w = Done (Ok s) w' /\ Status_Marshal s = Ok payload /\
    db_apps (w_db w) !! r_app_id row = Some a /\
    url = match r_callback_url row ≫= nullif_empty with
          | Some u => u
          | None => default "" (a_default_callback_url a)
          end /\
    secret = default "" (a_default_callback_secret a).
Proof.
  unfold GetRaw, Get. rewrite !run_bind, !run_select. unfold get_raw_query, get_query.
  destruct (env_pg_fate (w_hist w)) as [|b e]; [|by destruct (errors_Is e ErrNoRows)].
  destruct (pg_uuid_in requestID) as [rid|]; [|done]. cbn. intros H Hrow Happ.
  rewrite Hrow in H. rewrite Hrow, Happ, String.eqb_refl. cbn.
  destruct (db_apps (w_db w) !! r_app_id row) as [a|]; [|done].
  destruct (Status_Marshal _) as [body|e] eqn:Em; [|done]. injection H as -> <- <- <-.
  eexists _, a. split; [done|]. by split.
Qed.

(** C28 The startup scan changes nothing and is exact: it counts the attempts
    awaiting a receipt and the deliveries still pending, and lists, oldest
    first, precisely the pending requests without any attempt. *)
Theorem Recover_exact w rep w' :
  run Recover w = Done (Ok rep) w' ->
  view w' = view w /\
  rr_InflightAttempts rep =
    length (rows_where (fun _ t => is_inflight (t_status t)) (db_attempts (w_db w))) /\
  rr_PendingWebhookDeliveries rep =
    length (rows_where (fun _ d => bool_decide (d_status d = DPending)) (db_deliveries (w_db w))) /\
  StronglySorted (fun a b => a.2 <= b.2) (rr_StuckRequests rep) /\
  forall rid app t, (rid, app, t) ∈ rr_StuckRequests rep <->
    exists row, db_requests (w_db w) !! rid = Some row /\ r_status row = RPending /\
      r_app_id row = app /\ r_created_at row = t /\
      forall i a, db_attempts (w_db w) !! i = Some a -> t_request_id a <> rid.
Proof.
  unfold Recover.
  intros (n1 & w1 & H1 & H)%(try_Done _ _ (EWrap "count inflight attempts")).
  apply (try_Done _ _ (EWrap "count webhook deliveries")) in H as (n2 & w2 & H2 & H).
  apply (try_Done _ _ (EWrap "scan stuck requests")) in H as (n3 & w3 & H3 & [= <- <-]).
  rewrite run_select in H1. rewrite run_select in H2. rewrite run_select in H3.
  destruct (env_pg_fate (w_hist w)); [|done]. injection H1 as <- <-. cbn [w_hist w_db log] in *.
  destruct (env_pg_fate _); [|done]. injection H2 as <- <-. cbn [w_hist w_db log] in *.
  destruct (env_pg_fate _); [|done]. injection H3 as <- <-. cbn [w_hist w_db log] in *.
  split; [done|]. split; [done|]. split; [done|]. cbn [rr_StuckRequests].
  set (rows := rows_where _ _). split.
  - pose proof (sort_by_sorted (fun kv => r_created_at kv.2) rows) as Hs.
    induction Hs as [|x l Hs IH Hall]; simpl; [constructor|]. constructor; [done|].
    apply Forall_forall. intros y Hy.
    apply list_elem_of_In, in_map_iff in Hy as (z & <- & Hz).
    rewrite Forall_forall in Hall. by apply Hall, list_elem_of_In.
  - intros rid app t. rewrite list_elem_of_In, in_map_iff.
    assert (forall k r, In (k, r) (sort_by (fun kv => r_created_at kv.2) rows) <->
      db_requests (w_db w) !! k = Some r /\ r_status r = RPending /\
      forall i a, db_attempts (w_db w) !! i = Some a -> t_request_id a <> k) as Hel.
    { intros k r. rewrite <- list_elem_of_In, sort_by_elem. unfold rows.
      rewrite rows_where_elem, andb_true_iff, bool_decide_eq_true, negb_true_iff.
      rewrite <- not_true_iff_false, has_attempt_spec. split.
      - intros (H1 & H2 & H3). do 2 (split; [done|]). intros i a Hi Hr. apply H3. eauto.
      - intros (H1 & H2 & H3). do 2 (split; [done|]). intros (i & a & Hi & Hr). by eapply H3. }
    split.
    + intros ([k r] & [= <- <- <-] & Hin). apply Hel in Hin as (? & ? & ?). exists r. done.
    + intros (r & Hr & Hst & <- & <- & Hno). exists (rid, r). split; [done|]. by apply Hel.
Qed.
End properties.

(** ** Witnesses *)

Module StatusDemo.
Import RefEnv RelayDemo.

(** The world after one successful submission, and its request. *)
Definition submitted_world : world :=
  match run (Submit demo_service demo_submit) demo_world with
  | Done _ w | Panicked _ w | Blocked w => w
  end.
Definition demo_request : string := uuid_of 0.

Lemma demo_get : done_ok (run (Get demo_request demo_app) submitted_world) = true.
Proof. vm_compute. reflexivity. Qed.

Lemma demo_get_raw : done_ok (run (GetRaw demo_request) submitted_world) = true.
Proof. vm_compute. reflexivity. Qed.

Lemma Get_isolation_witness :
  exists s w' row, run (Get demo_request demo_app) submitted_world = Done (Ok s) w' /\
    db_requests (w_db submitted_world) !! demo_request = Some row /\ r_app_id row = demo_app.
Proof.
  destruct (done_ok_inv _ demo_get) as (s & w' & E). exists s, w'.
  destruct (Get_isolation _ _ _ _ _ E) as (_ & rid & app & row & Hr & Ha & Hrow & Happ & _).
  vm_compute in Hr, Ha. injection Hr as <-. injection Ha as <-. eauto.
Defined.

Lemma GetRaw_matches_Get_witness :
  exists payload url secret w' s,
    run (GetRaw demo_request) submitted_world = Done (Ok (payload, url, secret)) w' /\
    run (Get demo_request demo_app) submitted_world = Done (Ok s) w' /\
    Status_Marshal s = Ok payload.
Proof.
  destruct (done_ok_inv _ demo_get_raw) as ([[payload url] secret] & w' & E).
  destruct (db_requests (w_db submitted_world) !! demo_request) as [row|] eqn:Hrow;
    [|vm_compute in Hrow; discriminate].
  assert (option_map r_app_id (db_requests (w_db submitted_world) !! demo_request)
    = Some demo_app) as Happ by (vm_compute; reflexivity).
  rewrite Hrow in Happ. simpl in Happ. injection Happ as Happ.
  destruct (GetRaw_matches_Get demo_request demo_app row _ _ _ _ _ E) as (s & a & Hg & Hm & _).
  - transitivity (db_requests (w_db submitted_world) !! demo_request); [|exact Hrow].
    reflexivity.
  - rewrite Happ. vm_compute. reflexivity.
  - exists payload, url, secret, w', s. split; [exact E|]. split; [exact Hg|exact Hm].
Defined.

Lemma demo_recover : done_ok (run Recover submitted_world) = true.
Proof. vm_compute. reflexivity. Qed.

Lemma Recover_exact_witness :
  exists rep w', run Recover submitted_world = Done (Ok rep) w' /\
    view w' = view submitted_world /\ rr_InflightAttempts rep = 1%nat.
Proof.
  destruct (done_ok_inv _ demo_recover) as (rep & w' & E). exists rep, w'. split; [exact E|].
  destruct (Recover_exact _ _ _ E) as (Hv & Hn & _). split; [exact Hv|].
  rewrite Hn. vm_compute. reflexivity.
Defined.

(** A request whose broadcast was refused is pending for good, yet the startup
    scan reports nothing: its attempt is failed, so it is not in flight, and it
    has an attempt, so it does not count as stuck. *)
Lemma refused_request_unreported :
  option_map r_status (db_requests (w_db refused_world) !! demo_request) = Some RPending /\
  match run Recover refused_world with
  | Done (Ok rep) _ => rep = MkRecoveryReport 0 0 []
  | _ => False
  end.
Proof. vm_compute. split; reflexivity. Qed.
End StatusDemo.
