(* ===== verification/Watcher.v ===== *)
(** * The receipt watcher ([internal/relay/watcher.go])

    One tick reads a batch of in-flight attempts, oldest first, asks the node
    for each receipt and writes the outcome to the attempt and its request in
    one transaction. *)

From Stdlib Require Import ZArith Lia.
From S2P Require Import Prelude GoLib Eth Database World Chain SignerPool RefEnv.
From S2P Require Import AppService RelayService RelayStatus.

Local Open Scope Z_scope.
Local Open Scope txmill_scope.

Record Watcher := MkWatcher {
  wt_chain : Client;
  wt_interval : Z;
  wt_batchSize : Z;
  wt_webhooks : option WebhookEnqueuer;
}.

Definition NewWatcher (ch : Client) (interval batchSize : Z) : Watcher :=
  MkWatcher ch interval batchSize None.
Definition Watcher_SetWebhooks (e : WebhookEnqueuer) (w : Watcher) : Watcher :=
  MkWatcher (wt_chain w) (wt_interval w) (wt_batchSize w) (Some e).

Record pendingAttempt := MkPendingAttempt {
  pa_attemptID : string;
  pa_requestID : string;
  pa_signerHex : string;
  pa_txHash : string;
  pa_requestTo : string;
  pa_requestData : string;
  pa_requestValue : string;
}.

(** The JOIN of an attempt with its request. *)
Definition join_request (db : database) (kv : string * attempt_row) : option pendingAttempt :=
  let '(id, t) := kv in
  match db_requests db !! t_request_id t with
  | None => None
  | Some r =>
      Some (MkPendingAttempt id (t_request_id t) (t_signer_address t) (t_tx_hash t)
              (r_to_address r) (r_call_data r) (bigint_String (r_value r)))
  end.

(** The in-flight attempts that have a request, oldest first. *)
Definition inflight_attempts (db : database) : list (string * attempt_row) :=
  sort_by (fun kv => t_submitted_at kv.2)
    (rows_where (fun _ t => is_inflight (t_status t) && present (t_request_id t) (db_requests db))
       (db_attempts db)).

(** [LIMIT $1] rejects a negative limit. *)
Definition pending_query (batchSize : Z) : stmt_env -> database -> result (list pendingAttempt) :=
  fun _ db =>
    if batchSize <? 0 then Err (EText "LIMIT must not be negative")
    else Ok (omap (join_request db) (take (Z.to_nat batchSize) (inflight_attempts db))).

(** ** Revert reasons *)

Definition revertPrefix : string := "execution reverted: ".

Definition cleanRevertString (s : string) : string :=
  match strings_Index s revertPrefix with
  | Some i => TrimSpace (string_drop (i + String.length revertPrefix) s)
  | None => TrimSpace s
  end.

Definition effectiveGasPriceString (r : receipt) : string :=
  match rcpt_effective_gas_price r with
  | None => "0"
  | Some p => bigint_String p
  end.

Section watcher.
Context `{Env : Environment} `{Eth : GoEthereum} `{PG : Postgres}.

(** [big.Int.Sub] dereferences the block number. *)
Definition fetchRevertReason (p : pendingAttempt) (blockNumber : option Z) : prog string :=
  let msg := CallMsg (HexToAddress (pa_signerHex p)) (HexToAddress (pa_requestTo p))
               (SetString10 (pa_requestValue p)) (pa_requestData p) in
  let! number := deref_big blockNumber in
  let! r := CallContract msg (number - 1) in
  match r with
  | Err e => Ret (cleanRevertString (error_text e))
  | Ok _ => Ret ""
  end.

Definition set_receipt (st : attempt_status) (block gas price : Z) (logs : string)
    (reason : option string) (t : attempt_row) : attempt_row :=
  {| t_request_id := t_request_id t; t_signer_address := t_signer_address t;
     t_nonce := t_nonce t; t_tx_hash := t_tx_hash t; t_gas_price := t_gas_price t;
     t_status := st; t_submitted_at := t_submitted_at t;
     t_block_number := Some block; t_gas_used := Some gas;
     t_effective_gas_price := Some price; t_logs := Some logs;
     t_revert_reason := reason |}.

(** The UPDATE of the attempt. *)
Definition update_receipt (attemptID : string) (st : attempt_status) (rc : receipt)
    (number : Z) (logsJSON revertReason : string) : stmt unit := fun se db =>
  match pg_decimal_in (effectiveGasPriceString rc), pg_jsonb_in logsJSON with
  | Some price, Some logs =>
      check (pg_text_ok revertReason) invalid_text
        (update_attempt attemptID
           (set_receipt st (int64_of number) (int64_of (rcpt_gas_used rc))
              price logs (nullif_empty revertReason)) se db)
  | _, _ => Err invalid_text
  end.

Definition outcome_of (rc : receipt) : attempt_status * request_status :=
  if rcpt_status rc =? ReceiptStatusFailed then (TReverted, RReverted)
  else (TConfirmed, RConfirmed).

(** The transaction that records the outcome.  The parameters of the first
    statement are evaluated with the transaction open: [BlockNumber.Int64()]
    dereferences the block number. *)
Definition record_outcome (p : pendingAttempt) (rc : receipt) (logsJSON revertReason : string)
    : prog (result unit) :=
  let? t := pg_begin in
  let! number := deref_big (rcpt_block_number rc) in
  let? r1 := pg_tx t (update_receipt (pa_attemptID p) (outcome_of rc).1 rc number logsJSON revertReason) in
  let? r2 := pg_tx r1.2 (update_request (pa_requestID p) (outcome_of rc).2) in
  pg_commit r2.2.

Definition process (w : Watcher) (p : pendingAttempt) : prog (result unit) :=
  let! r := TransactionReceipt (HexToHash (pa_txHash p)) in
  match r with
  | Err e => if errors_Is e EthNotFound then Ret (Ok tt) else Ret (Err e)
  | Ok rc =>
      match rcpt_logs_json rc with
      | Err e => Ret (Err e)
      | Ok logsJSON =>
          let! reason :=
            (if rcpt_status rc =? ReceiptStatusFailed
             then fetchRevertReason p (rcpt_block_number rc) else Ret "") in
          let? _u := record_outcome p rc logsJSON reason in
          match wt_webhooks w with
          | None => Ret (Ok tt)
          | Some enqueue => do! enqueue (pa_requestID p) in Ret (Ok tt)
          end
      end
  end.

(** The loop over the batch: a failed item is logged and skipped. *)
Fixpoint process_all (w : Watcher) (ps : list pendingAttempt) (processed : Z) : prog Z :=
  match ps with
  | [] => Ret processed
  | p :: rest =>
      let! r := process w p in
      match r with
      | Err _ => process_all w rest processed
      | Ok _ => process_all w rest (processed + 1)
      end
  end.

Definition tick (w : Watcher) : prog (result Z) :=
  let? pending := pg (select (pending_query (wt_batchSize w))) in
  let! n := process_all w pending 0 in
  Ret (Ok n).
End watcher.

(** ** Lemmas *)

(** What a receipt means for the attempt and its request: status 0 is a
    reverted transaction. *)
Definition mined_attempt (rc : receipt) : attempt_status :=
  if rcpt_status rc =? 0 then TReverted else TConfirmed.
Definition mined_request (rc : receipt) : request_status :=
  if rcpt_status rc =? 0 then RReverted else RConfirmed.

Lemma outcome_mined rc : outcome_of rc = (mined_attempt rc, mined_request rc).
Proof.
  unfold outcome_of, mined_attempt, mined_request, ReceiptStatusFailed. by destruct (_ =? _).
Qed.

(** What recording a receipt does to the two tables. *)
Definition recorded (rc : receipt) (aid rid : string) (w w' : world) : Prop :=
  exists number price logs reason now, rcpt_block_number rc = Some number /\
    db_attempts (w_db w') =
      alter (set_receipt (mined_attempt rc) (int64_of number)
               (int64_of (rcpt_gas_used rc)) price logs reason) aid (db_attempts (w_db w)) /\
    db_requests (w_db w') =
      alter (set_request_status (mined_request rc) now) rid (db_requests (w_db w)).

(** The enqueuer and the receipt table frames the watcher relies on. *)
Definition same_tables (w w' : world) : Prop :=
  db_attempts (w_db w') = db_attempts (w_db w) /\ db_requests (w_db w') = db_requests (w_db w).

Lemma recorded_same rc aid rid w1 w2 w' :
  same_tables w1 w2 -> recorded rc aid rid w2 w' -> recorded rc aid rid w1 w'.
Proof. unfold recorded. by intros [-> ->]. Qed.

Section lemmas.
Context `{Env : Environment} `{Eth : GoEthereum} `{PG : Postgres}.

Lemma record_outcome_cases p rc logs reason w r w' :
  run (record_outcome p rc logs reason) w = Done r w' ->
  (is_ok r = false /\ same_tables w w') \/
  exists aid rid, pg_uuid_in (pa_attemptID p) = Some aid /\ pg_uuid_in (pa_requestID p) = Some rid /\
    recorded rc aid rid w w'.
Proof.
  unfold record_outcome. destruct (rcpt_block_number rc) as [number|] eqn:Enum; intros H.
  2:{ apply bind_Done in H as ([t|e] & w1 & H1 & H); [done|]. injection H as <- <-. left. split; [done|].
      apply (keeps_Done w_db) in H1; [|by apply pg_begin_keeps]. unfold same_tables. by rewrite H1. }
  cbn [deref_big bind] in H.
  apply (txn2_cases (update_receipt (pa_attemptID p) (outcome_of rc).1 rc number logs reason)
    (fun _ => update_request (pa_requestID p) (outcome_of rc).2) (fun _ c => Ret c)) in H
    as [(e & -> & [= Hd _ _])|(x & c & w2 & [= <- <-] & _ & _ & Hdb)].
  { left. unfold same_tables. by rewrite Hd. }
  destruct Hdb as [[Hc Hd]|(now & h1 & h2 & y & db1 & S1 & S2)].
  { left. unfold same_tables. by rewrite Hd. }
  right. unfold update_receipt in S1. destruct (pg_decimal_in _) as [price|]; [|done].
  destruct (pg_jsonb_in logs) as [lg|]; [|done].
  apply check_Ok in S1 as [_ S1]. unfold update_attempt in S1.
  destruct (pg_uuid_in (pa_attemptID p)) as [aid|]; [|done]. injection S1 as _ <-.
  unfold update_request in S2. destruct (pg_uuid_in (pa_requestID p)) as [rid|]; [|done].
  injection S2 as _ Hd. exists aid, rid. split; [done|]. split; [done|].
  exists number, price, lg, (nullif_empty reason), now. split; [done|]. rewrite <- Hd. by rewrite outcome_mined.
Qed.

Lemma fetchRevertReason_view p b : keeps view (fetchRevertReason p b).
Proof.
  apply keeps_bind; [by destruct b|]. intros n. apply keeps_bind; [by apply rpc_keeps|]. by intros [?|].
Qed.

Lemma fetchRevertReason_files p b : keeps w_files (fetchRevertReason p b).
Proof.
  apply keeps_bind; [by destruct b|]. intros n. apply keeps_bind; [by apply rpc_keeps|]. by intros [?|].
Qed.

Lemma view_same_tables w w' : view w' = view w -> same_tables w w'.
Proof. unfold same_tables. by intros [= -> _ _]. Qed.

Lemma enqueue_same_tables (e : WebhookEnqueuer) rid w r w' :
  enqueuer_frame (Some e) -> run (e rid) w = Done r w' -> same_tables w w'.
Proof.
  intros Hf H. pose proof (keeps_Done core _ _ _ _ (Hf rid) H) as [= Hr Ha _ _ _ _]. by split.
Qed.

(** What one item of the batch does, on every path. *)
Lemma process_cases wt p w r w' :
  enqueuer_frame (wt_webhooks wt) ->
  run (process wt p) w = Done r w' ->
  match env_TransactionReceipt (w_hist w) (HexToHash (pa_txHash p)) with
  | Err e => same_tables w w' /\ r = if errors_Is e EthNotFound then Ok tt else Err e
  | Ok rc =>
      (is_ok r = false /\ same_tables w w') \/
      exists aid rid, pg_uuid_in (pa_attemptID p) = Some aid /\
        pg_uuid_in (pa_requestID p) = Some rid /\ recorded rc aid rid w w'
  end.
Proof.
  intros Hf H. unfold process in H. apply bind_Done in H as (rr & w1 & H1 & H).
  unfold TransactionReceipt, rpc in H1. rewrite run_action in H1. simpl in H1.
  injection H1 as <- <-. destruct (env_TransactionReceipt _ _) as [rc|e].
  2:{ destruct (errors_Is e EthNotFound); by injection H as <- <-. }
  destruct (rcpt_logs_json rc) as [logs|e]; [|injection H as <- <-; by left].
  apply bind_Done in H as (reason & w2 & H2 & H).
  assert (same_tables w w2) as Hs2.
  { assert (view w2 = view (log (EvTransactionReceipt (HexToHash (pa_txHash p))) w)) as Hv.
    { destruct (_ =? _); [by apply (keeps_Done view) in H2; [|apply fetchRevertReason_view]|].
      by injection H2 as _ <-. }
    apply view_same_tables in Hv. done. }
  apply bind_Done in H as (c & w3 & H3 & H). apply record_outcome_cases in H3.
  destruct c as [[]|e].
  2:{ injection H as <- <-. destruct H3 as [[_ Hs]|(aid & rid & Ha & Hr & Hrec)].
      - left. split; [done|]. destruct Hs2 as [E1 E2], Hs as [E3 E4]. split; congruence.
      - right. exists aid, rid. eauto using recorded_same. }
  destruct H3 as [[? _]|(aid & rid & Ha & Hr & Hrec)]; [done|]. right. exists aid, rid.
  split; [done|]. split; [done|]. apply (recorded_same _ _ _ _ _ _ Hs2) in Hrec.
  destruct (wt_webhooks wt) as [e|] eqn:Ew; [|by injection H as <- <-].
  apply bind_Done in H as (u & w4 & H4 & [= <- <-]).
  apply enqueue_same_tables in H4 as [E1 E2]; [|done].
  destruct Hrec as (num & price & lg & rs & now & Hn & Hrec1 & Hrec2). exists num, price, lg, rs, now.
  by rewrite E1, E2.
Qed.
End lemmas.

(** The change a batch may make: only the named attempts and requests, and an
    attempt keeps its transaction and only moves to a mined status. *)
Definition settles (t t' : attempt_row) : Prop :=
  t_request_id t' = t_request_id t /\ t_signer_address t' = t_signer_address t /\
  t_nonce t' = t_nonce t /\ t_tx_hash t' = t_tx_hash t /\
  (t' = t \/ t_status t' = TConfirmed \/ t_status t' = TReverted).

Record touches (aids rids : list string) (w w' : world) : Prop := {
  to_attempts k : k ∉ aids -> db_attempts (w_db w') !! k = db_attempts (w_db w) !! k;
  to_requests k : k ∉ rids -> db_requests (w_db w') !! k = db_requests (w_db w) !! k;
  to_settles k t' : db_attempts (w_db w') !! k = Some t' ->
    exists t, db_attempts (w_db w) !! k = Some t /\ settles t t';
}.

#[export] Instance settles_preorder : PreOrder settles.
Proof.
  split.
  - intros t. repeat split. by left.
  - intros t1 t2 t3 (A1 & A2 & A3 & A4 & A5) (B1 & B2 & B3 & B4 & B5).
    repeat split; try congruence. destruct B5 as [->|B5]; [done|by right].
Qed.

#[export] Instance touches_preorder aids rids : PreOrder (touches aids rids).
Proof.
  split.
  - intros w. split; [done..|]. intros k t Hk. exists t. split; [done|]. reflexivity.
  - intros w1 w2 w3 [A1 A2 A3] [B1 B2 B3]. split.
    + intros k Hk. by rewrite B1, A1.
    + intros k Hk. by rewrite B2, A2.
    + intros k t3 Hk. apply B3 in Hk as (t2 & Hk & H23). apply A3 in Hk as (t1 & Hk & H12).
      exists t1. split; [done|]. by transitivity t2.
Qed.

Lemma same_tables_touches aids rids w w' : same_tables w w' -> touches aids rids w w'.
Proof.
  intros [Ea Er]. split; rewrite ?Ea, ?Er; [done..|].
  intros k t Hk. exists t. split; [done|]. reflexivity.
Qed.

Lemma recorded_touches rc aid rid aids rids w w' :
  aid ∈ aids -> rid ∈ rids -> recorded rc aid rid w w' -> touches aids rids w w'.
Proof.
  intros Ha Hr (number & price & logs & reason & now & _ & Ea & Er). split.
  - intros k Hk. rewrite Ea, lookup_alter_ne; [done|]. by intros ->.
  - intros k Hk. rewrite Er, lookup_alter_ne; [done|]. by intros ->.
  - intros k t'. rewrite Ea. destruct (decide (k = aid)) as [->|Hne].
    + rewrite lookup_alter_eq. destruct (_ !! aid) as [t|]; [|done]. intros [= <-].
      exists t. split; [done|]. repeat split. right. unfold mined_attempt.
      destruct (_ =? _); simpl; auto.
    + rewrite lookup_alter_ne by done. intros Hk. exists t'. split; [done|]. reflexivity.
Qed.

(** The stored ids are in canonical form. *)
Definition canonical_ids `{Postgres} (db : database) : Prop :=
  (forall k, is_Some (db_attempts db !! k) -> pg_uuid_in k = Some k) /\
  (forall k, is_Some (db_requests db !! k) -> pg_uuid_in k = Some k).

Lemma inflight_attempts_elem db k t :
  (k, t) ∈ inflight_attempts db <->
  db_attempts db !! k = Some t /\ is_inflight (t_status t) = true /\
  is_Some (db_requests db !! t_request_id t).
Proof.
  unfold inflight_attempts. rewrite sort_by_elem, rows_where_elem, andb_true_iff.
  unfold present. by rewrite bool_decide_eq_true.
Qed.

Lemma join_request_elem db p (l : list (string * attempt_row)) :
  p ∈ omap (join_request db) l -> exists k t, (k, t) ∈ l /\
    pa_attemptID p = k /\ pa_requestID p = t_request_id t /\ pa_txHash p = t_tx_hash t /\
    is_Some (db_requests db !! t_request_id t).
Proof.
  rewrite list_elem_of_omap. intros ([k t] & Hin & Hj). exists k, t. split; [done|].
  simpl in Hj. destruct (db_requests db !! t_request_id t) as [r|]; [|done].
  by injection Hj as <-.
Qed.

Section batch.
Context `{Env : Environment} `{Eth : GoEthereum} `{PG : Postgres}.

Lemma process_all_touches wt ps n aids rids w m w' :
  enqueuer_frame (wt_webhooks wt) ->
  (forall p, p ∈ ps -> (pa_attemptID p ∈ aids /\ pg_uuid_in (pa_attemptID p) = Some (pa_attemptID p)) /\
     (pa_requestID p ∈ rids /\ pg_uuid_in (pa_requestID p) = Some (pa_requestID p))) ->
  run (process_all wt ps n) w = Done m w' -> touches aids rids w w'.
Proof.
  intros Hf. revert n w. induction ps as [|p ps IH]; intros n w Hps H; cbn [process_all] in H.
  { injection H as _ <-. reflexivity. }
  apply bind_Done in H as (r & w1 & H1 & H). transitivity w1.
  - apply process_cases in H1; [|done].
    destruct (Hps p) as ([Ha Hac] & [Hr Hrc]); [by left|].
    destruct (env_TransactionReceipt _ _) as [rc|e].
    + destruct H1 as [[_ Hs]|(aid & rid & Hu1 & Hu2 & Hrec)].
      * by apply same_tables_touches.
      * rewrite Hac in Hu1. rewrite Hrc in Hu2. injection Hu1 as <-. injection Hu2 as <-.
        by eapply recorded_touches.
    + destruct H1 as [H1 _]. by apply same_tables_touches.
  - assert (forall p, p ∈ ps -> (pa_attemptID p ∈ aids /\ pg_uuid_in (pa_attemptID p) = Some (pa_attemptID p)) /\
     (pa_requestID p ∈ rids /\ pg_uuid_in (pa_requestID p) = Some (pa_requestID p))) as Hps'
      by (intros q Hq; apply Hps; by right).
    destruct r as [u|e]; by apply IH in H.
Qed.

(** C20 A watcher tick changes only attempts that were in flight and requests
    that had one: every other attempt and request row is untouched, and an
    attempt that changes keeps its transaction and becomes confirmed or
    reverted. *)
Theorem tick_only_inflight wt w r w' :
  enqueuer_frame (wt_webhooks wt) -> canonical_ids (w_db w) ->
  run (tick wt) w = Done r w' ->
  (forall k, (forall t, db_attempts (w_db w) !! k = Some t -> is_inflight (t_status t) = false) ->
     db_attempts (w_db w') !! k = db_attempts (w_db w) !! k) /\
  (forall k, (forall i t, db_attempts (w_db w) !! i = Some t -> t_request_id t = k ->
       is_inflight (t_status t) = false) ->
     db_requests (w_db w') !! k = db_requests (w_db w) !! k) /\
  (forall k t', db_attempts (w_db w') !! k = Some t' ->
     exists t, db_attempts (w_db w) !! k = Some t /\ settles t t').
Proof.
  intros Hf [Hca Hcr] H. unfold tick in H. apply bind_Done in H as (q & w1 & H1 & H).
  rewrite run_select in H1. injection H1 as Hq <-.
  destruct q as [ps|e].
  2:{ injection H as <- <-. simpl. repeat split; try done. intros k t Hk. exists t.
      split; [done|]. reflexivity. }
  apply bind_Done in H as (n & w2 & H2 & [= <- <-]).
  destruct (env_pg_fate (w_hist w)); [|done].
  unfold pending_query in Hq. destruct (wt_batchSize wt <? 0); [done|]. injection Hq as <-.
  set (l := take _ _) in H2.
  assert (forall k t, (k, t) ∈ l -> db_attempts (w_db w) !! k = Some t /\
    is_inflight (t_status t) = true) as Hl.
  { intros k t Hin. apply elem_of_take in Hin as (i & Hi & _).
    apply list_elem_of_lookup_2, inflight_attempts_elem in Hi as (? & ? & _). done. }
  apply (process_all_touches _ _ _ (List.map fst l) (List.map (fun kv => t_request_id kv.2) l)) in H2
    as [Ta Tr Ts]; [|done|].
  - simpl in *. split; [|split; [|exact Ts]].
    + intros k Hk. apply Ta. intros Hin. apply list_elem_of_In, in_map_iff in Hin as ([k' t] & <- & Hin).
      apply list_elem_of_In, Hl in Hin as [Hk' Hi]. simpl in *. specialize (Hk t Hk'). congruence.
    + intros k Hk. apply Tr. intros Hin. apply list_elem_of_In, in_map_iff in Hin as ([k' t] & <- & Hin).
      apply list_elem_of_In, Hl in Hin as [Hk' Hi]. simpl in *.
      specialize (Hk k' t Hk' eq_refl). congruence.
  - intros p Hp. apply join_request_elem in Hp as (k & t & Hin & -> & -> & _ & Hreq).
    destruct (Hl k t Hin) as [Hk _]. apply list_elem_of_In in Hin. repeat split.
    + apply list_elem_of_In, in_map_iff. by exists (k, t).
    + by apply Hca.
    + apply list_elem_of_In, in_map_iff. by exists (k, t).
    + by apply Hcr.
Qed.
End batch.

Lemma batch_length n db :
  0 <= n ->
  Z.of_nat (length (omap (join_request db) (take (Z.to_nat n) (inflight_attempts db)))) <= n.
Proof.
  intros Hn. set (l := take _ _).
  assert (length (omap (join_request db) l) <= length l)%nat.
  { clear. induction l as [|x l IH]; csimpl; [done|]. destruct (join_request db x); csimpl; lia. }
  assert (length l <= Z.to_nat n)%nat by (unfold l; rewrite length_take; lia). lia.
Qed.

Section properties.
Context `{Env : Environment} `{Eth : GoEthereum} `{PG : Postgres}.

(** C19 Processing one attempt records the receipt in the attempt and its request
    together or not at all — both confirmed, or both reverted when the receipt
    says failed — and a receipt the node does not have yet leaves both as they
    are and is not an error. *)
Theorem process_atomic wt p w r w' :
  enqueuer_frame (wt_webhooks wt) ->
  run (process wt p) w = Done r w' ->
  match env_TransactionReceipt (w_hist w) (HexToHash (pa_txHash p)) with
  | Err e => same_tables w w' /\ r = if errors_Is e EthNotFound then Ok tt else Err e
  | Ok rc =>
      (is_ok r = false /\ same_tables w w') \/
      exists aid rid, pg_uuid_in (pa_attemptID p) = Some aid /\
        pg_uuid_in (pa_requestID p) = Some rid /\ recorded rc aid rid w w'
  end.
Proof. apply process_cases. Qed.

(** The batch of a tick: at most [batchSize] attempts, each in flight with
    its request, and no in-flight attempt that is left out is older than one
    that is taken. *)
Theorem pending_query_batch n se db ps :
  pending_query n se db = Ok ps ->
  Z.of_nat (length ps) <= n /\
  forall p, p ∈ ps -> exists t, db_attempts db !! pa_attemptID p = Some t /\
    is_inflight (t_status t) = true /\ t_request_id t = pa_requestID p /\
    t_tx_hash t = pa_txHash p /\
    forall k t', db_attempts db !! k = Some t' -> is_inflight (t_status t') = true ->
      is_Some (db_requests db !! t_request_id t') ->
      (exists p', p' ∈ ps /\ pa_attemptID p' = k) \/ t_submitted_at t <= t_submitted_at t'.
Proof.
  unfold pending_query. destruct (Z.ltb_spec n 0) as [|Hn]; [done|]. intros [= <-].
  pose proof (batch_length n db Hn) as Hlen. set (l := take _ _) in *. split; [exact Hlen|].
  intros p Hp. apply join_request_elem in Hp as (k & t & Hin & -> & -> & -> & Hreq).
  exists t. pose proof Hin as Hin'. unfold l in Hin'. apply elem_of_take in Hin' as (i & Hi & _).
  apply list_elem_of_lookup_2, inflight_attempts_elem in Hi as (Hk & Hf & _).
  do 4 (split; [done|]). intros k' t' Hk' Hf' Hr'.
  assert ((k', t') ∈ inflight_attempts db) as Hin2 by by apply inflight_attempts_elem.
  rewrite <- (take_drop (Z.to_nat n) (inflight_attempts db)) in Hin2.
  apply elem_of_app in Hin2 as [Hin2|Hin2].
  - left. destruct Hr' as [row Hrow].
    exists (MkPendingAttempt k' (t_request_id t') (t_signer_address t') (t_tx_hash t')
              (r_to_address row) (r_call_data row) (bigint_String (r_value row))).
    split; [|done]. apply list_elem_of_omap. exists (k', t'). split; [exact Hin2|].
    simpl. by rewrite Hrow.
  - right. exact (sort_by_take_le (fun kv => t_submitted_at kv.2) _ _ (k, t) (k', t') Hin Hin2).
Qed.

(** The node's receipts carry their block number. *)
Definition receipts_numbered : Prop :=
  forall h hh rc, env_TransactionReceipt h hh = Ok rc -> is_Some (rcpt_block_number rc).

Lemma process_total wt p :
  receipts_numbered -> (forall e rid, wt_webhooks wt = Some e -> total (e rid)) ->
  total_on (fun _ => True) (process wt p).
Proof.
  intros Hnum He w _. split; [done|]. intros r w' [= <- _].
  destruct (env_TransactionReceipt _ _) as [rc|e] eqn:Er; [|cbn; by destruct (errors_Is e EthNotFound)].
  apply Hnum in Er as [number Hn]. apply total_total_on. cbn [bind]. destruct (rcpt_logs_json rc); [|done].
  unfold record_outcome, fetchRevertReason. rewrite Hn. cbn [deref_big bind].
  destruct (wt_webhooks wt) as [e|].
  - pose proof (fun rid => He e rid eq_refl) as He'. solve_total.
  - solve_total.
Qed.

Lemma tick_counts wt w :
  receipts_numbered -> (forall e rid, wt_webhooks wt = Some e -> total (e rid)) ->
  exists r w', run (tick wt) w = Done r w' /\
    match r with Ok n => 0 <= n <= Z.max 0 (wt_batchSize wt) | Err _ => True end.
Proof.
  intros Hnum He. unfold tick. rewrite run_bind, run_select.
  set (q := match env_pg_fate (w_hist w) with PgServe => _ | PgFail _ e => Err e end).
  destruct q as [ps|e] eqn:Eq; [|by eexists _, _].
  assert (Z.of_nat (length ps) <= Z.max 0 (wt_batchSize wt)) as Hlen.
  { unfold q in Eq. destruct (env_pg_fate _); [|done].
    unfold pending_query in Eq. destruct (Z.ltb_spec (wt_batchSize wt) 0) as [|Hn]; [done|].
    injection Eq as <-. pose proof (batch_length _ (w_db w) Hn). lia. }
  assert (forall l n w1, exists m w2, run (process_all wt l n) w1 = Done m w2 /\
    n <= m <= n + Z.of_nat (length l)) as Hall.
  { induction l as [|p l IH]; intros n w1; cbn [process_all].
    - exists n, w1. simpl. split; [done|lia].
    - rewrite run_bind.
      destruct (total_on_run (fun _ => tt) (fun _ => True) _ w1 (process_total wt p Hnum He))
        as ([u|e] & w2 & -> & _); [|done| |].
      + apply (all_steps_impl (fun _ _ => True)); [done|]. apply all_steps_True.
      + destruct (IH (n + 1) w2) as (m & w3 & -> & Hm). exists m, w3. split; [done|]. simpl. lia.
      + destruct (IH n w2) as (m & w3 & -> & Hm). exists m, w3. split; [done|]. simpl. lia. }
  rewrite run_bind. destruct (Hall ps 0 (log EvDb w)) as (m & w2 & -> & Hm).
  exists (Ok m), w2. split; [done|]. lia.
Qed.

(** A receipt without a block number stops the process: with the database
    serving, the watcher's goroutine dereferences the nil number. *)
Theorem unnumbered_receipt_panics wt p w rc logs :
  (forall h, env_pg_fate h = PgServe) ->
  env_TransactionReceipt (w_hist w) (HexToHash (pa_txHash p)) = Ok rc ->
  rcpt_logs_json rc = Ok logs -> rcpt_block_number rc = None ->
  exists w', run (process wt p) w
    = Panicked "invalid memory address or nil pointer dereference" w' /\ w_db w' = w_db w.
Proof.
  intros Hs Hrc Hl Hn. unfold process, TransactionReceipt, rpc. rewrite run_bind, run_action. cbn [fst snd].
  rewrite Hrc, Hl. unfold fetchRevertReason, record_outcome. rewrite Hn. rewrite run_bind.
  destruct (_ =? _); [by eexists|]. cbn [run]. rewrite run_bind, run_bind. unfold pg_begin.
  rewrite run_action, Hs. by eexists.
Qed.

(** What PostgreSQL can store of an outcome: the receipt's logs as [JSONB], the
    effective gas price as [NUMERIC] and the revert reason as [TEXT]. *)
Definition storable (rc : receipt) (logs reason : string) : Prop :=
  is_Some (pg_jsonb_in logs) /\ is_Some (pg_decimal_in (effectiveGasPriceString rc)) /\
  pg_text_ok reason = true.

(** The revert reason [process] finds in world [w] for a receipt in block
    [number]: the node's message, cleaned. *)
Definition revert_reason (p : pendingAttempt) (rc : receipt) (number : Z) (w : world) : string :=
  if rcpt_status rc =? 0 then
    match env_CallContract (EvTransactionReceipt (HexToHash (pa_txHash p)) :: w_hist w)
            (CallMsg (HexToAddress (pa_signerHex p)) (HexToAddress (pa_requestTo p))
               (SetString10 (pa_requestValue p)) (pa_requestData p)) (number - 1) with
    | Err e => cleanRevertString (error_text e)
    | Ok _ => ""
    end
  else "".

Lemma run_reason p rc number w :
  rcpt_block_number rc = Some number ->
  exists w', run (if rcpt_status rc =? ReceiptStatusFailed
      then fetchRevertReason p (rcpt_block_number rc) else Ret "")
      (log (EvTransactionReceipt (HexToHash (pa_txHash p))) w) = Done (revert_reason p rc number w) w' /\
    w_db w' = w_db w.
Proof.
  intros ->. unfold revert_reason, ReceiptStatusFailed. destruct (_ =? 0); [|by eexists].
  unfold fetchRevertReason, CallContract, rpc. cbn [deref_big]. rewrite run_bind. cbn [run].
  rewrite run_bind, run_action. simpl. destruct (env_CallContract _ _ _); by eexists.
Qed.

Lemma run_record p rc number logs reason w aid rid :
  (forall h, env_pg_fate h = PgServe) -> rcpt_block_number rc = Some number ->
  storable rc logs reason ->
  pg_uuid_in (pa_attemptID p) = Some aid -> pg_uuid_in (pa_requestID p) = Some rid ->
  exists w', run (record_outcome p rc logs reason) w = Done (Ok tt) w'.
Proof.
  intros Hs Hn ([lg Hlg] & [pr Hpr] & Hok) Ha Hr.
  destruct (txn2_serves (update_receipt (pa_attemptID p) (outcome_of rc).1 rc number logs reason)
    (fun _ => update_request (pa_requestID p) (outcome_of rc).2) w Hs) as [w2 Hw2].
  { intros se. eexists _, _. unfold update_receipt. rewrite Hpr, Hlg, Hok. unfold update_attempt.
    rewrite Ha. split; [done|]. intros se'. unfold update_request. rewrite Hr. by eexists _, _. }
  exists w2. unfold record_outcome. rewrite Hn. exact Hw2.
Qed.

(** C21 An attempt whose receipt is available, with a block number and logs, is
    settled by one processing step when the database serves every statement and
    can store the receipt's logs, its gas price and the revert reason found: the
    step succeeds, the attempt is recorded as confirmed or reverted with the
    receipt's block and gas, its request gets the same outcome, and the attempt is
    no longer in flight.  When the revert reason cannot be stored — a message of
    the called contract with a NUL byte, say — the step fails and the attempt and
    its request stay as they are, at every tick again. *)
Theorem process_settles wt p w rc number logs aid rid t req :
  (forall h, env_pg_fate h = PgServe) ->
  enqueuer_frame (wt_webhooks wt) ->
  (forall e i, wt_webhooks wt = Some e -> total (e i)) ->
  env_TransactionReceipt (w_hist w) (HexToHash (pa_txHash p)) = Ok rc ->
  rcpt_block_number rc = Some number -> rcpt_logs_json rc = Ok logs ->
  pg_uuid_in (pa_attemptID p) = Some aid -> db_attempts (w_db w) !! aid = Some t ->
  pg_uuid_in (pa_requestID p) = Some rid -> db_requests (w_db w) !! rid = Some req ->
  (storable rc logs (revert_reason p rc number w) ->
   exists w' t' req', run (process wt p) w = Done (Ok tt) w' /\
    db_attempts (w_db w') !! aid = Some t' /\ t_status t' = mined_attempt rc /\
    t_block_number t' = Some (int64_of number) /\
    t_gas_used t' = Some (int64_of (rcpt_gas_used rc)) /\ is_inflight (t_status t') = false /\
    db_requests (w_db w') !! rid = Some req' /\ r_status req' = mined_request rc) /\
  (pg_text_ok (revert_reason p rc number w) = false ->
   exists e w', run (process wt p) w = Done (Err e) w' /\ w_db w' = w_db w).
Proof.
  intros Hs Hf Ht Hrc Hn Hl Ha Hat Hr Hreq.
  destruct (run_reason p rc number w Hn) as (w1 & Hre & Hd1). split.
  - intros Hst. assert (exists w', run (process wt p) w = Done (Ok tt) w') as [w' Hrun].
    { unfold process, TransactionReceipt, rpc. rewrite run_bind, run_action. cbn [fst snd].
      rewrite Hrc, Hl, run_bind, Hre, run_bind.
      destruct (run_record p rc number logs _ w1 aid rid Hs Hn Hst Ha Hr) as [w2 ->].
      destruct (wt_webhooks wt) as [e|] eqn:Ew; [|by eexists].
      rewrite run_bind. destruct (total_run _ w2 (Ht e (pa_requestID p) eq_refl)) as (x & w3 & ->).
      by eexists. }
    pose proof (process_cases wt p w _ w' Hf Hrun) as Hc. rewrite Hrc in Hc.
    destruct Hc as [[? _]|(aid' & rid' & Ha' & Hr' & Hrec)]; [done|].
    rewrite Ha in Ha'. rewrite Hr in Hr'. injection Ha' as <-. injection Hr' as <-.
    destruct Hrec as (number' & price & lg' & reason & now & Hn' & Ea & Er).
    rewrite Hn in Hn'. injection Hn' as <-.
    eexists w', _, _. split; [done|]. rewrite Ea, Er, !lookup_alter_eq, Hat, Hreq.
    do 4 (split; [done|]). split; [|done]. simpl. unfold mined_attempt. by destruct (_ =? _).
  - intros Hbad. unfold process, TransactionReceipt, rpc. rewrite run_bind, run_action. cbn [fst snd].
    rewrite Hrc, Hl, run_bind, Hre. unfold record_outcome. rewrite Hn. cbn [deref_big bind].
    rewrite !run_bind. unfold pg_begin, pg_tx. rewrite run_action, Hs. cbn [fst snd].
    rewrite run_bind, run_action, Hs. cbn [txn_apply fst snd]. unfold update_receipt. rewrite Hbad.
    destruct (pg_decimal_in _), (pg_jsonb_in logs); by eexists _, _.
Qed.
End properties.

(** ** Witnesses *)

Module WatcherDemo.
Import RefEnv RelayDemo StatusDemo.

Definition demo_watcher : Watcher := NewWatcher (MkClient 146) (2 * 10 ^ 9) 10.

Definition demo_pending : pendingAttempt :=
  match pending_query 10 (StmtEnv 0 "") (w_db submitted_world) with
  | Ok (p :: _) => p
  | _ => MkPendingAttempt "" "" "" "" "" "" ""
  end.

Lemma demo_tick : done_ok (run (tick demo_watcher) submitted_world) = true.
Proof. vm_compute. reflexivity. Qed.

Lemma demo_keys :
  all_rows (fun k _ => bool_decide (pg_uuid_in k = Some k)) (db_attempts (w_db submitted_world)) = true /\
  all_rows (fun k _ => bool_decide (pg_uuid_in k = Some k)) (db_requests (w_db submitted_world)) = true.
Proof. vm_compute. split; reflexivity. Qed.

Lemma demo_canonical : canonical_ids (w_db submitted_world).
Proof.
  split; intros k [v Hk].
  - pose proof (all_rows_elim _ _ _ _ (proj1 demo_keys) Hk) as H. by apply bool_decide_eq_true_1 in H.
  - pose proof (all_rows_elim _ _ _ _ (proj2 demo_keys) Hk) as H. by apply bool_decide_eq_true_1 in H.
Qed.

Lemma tick_only_inflight_witness :
  exists r w', run (tick demo_watcher) submitted_world = Done (Ok r) w' /\
    forall k t', db_attempts (w_db w') !! k = Some t' ->
      exists t, db_attempts (w_db submitted_world) !! k = Some t /\ settles t t'.
Proof.
  destruct (done_ok_inv _ demo_tick) as (r & w' & E). exists r, w'. split; [exact E|].
  exact (proj2 (proj2 (tick_only_inflight demo_watcher _ _ _ I demo_canonical E))).
Defined.

Lemma demo_process : done_ok (run (process demo_watcher demo_pending) submitted_world) = true.
Proof. vm_compute. reflexivity. Qed.

Lemma process_atomic_witness :
  exists r w' rc aid rid, run (process demo_watcher demo_pending) submitted_world = Done (Ok r) w' /\
    recorded rc aid rid submitted_world w'.
Proof.
  destruct (done_ok_inv _ demo_process) as (r & w' & E).
  pose proof (process_atomic demo_watcher _ _ _ _ I E) as H.
  destruct (env_TransactionReceipt _ _) as [rc|e] eqn:Er; [|vm_compute in Er; discriminate].
  destruct H as [[? _]|(aid & rid & _ & _ & Hrec)]; [discriminate|].
  exists r, w', rc, aid, rid. split; [exact E|exact Hrec].
Defined.

Lemma pending_query_batch_witness :
  exists ps, pending_query 1 (StmtEnv 0 "") (w_db submitted_world) = Ok ps /\
    Z.of_nat (length ps) <= 1.
Proof.
  eexists. split; [reflexivity|].
  exact (proj1 (pending_query_batch 1 (StmtEnv 0 "") (w_db submitted_world) _ eq_refl)).
Defined.

Lemma process_settles_witness :
  exists w' t', run (process demo_watcher demo_pending) submitted_world = Done (Ok tt) w' /\
    db_attempts (w_db w') !! pa_attemptID demo_pending = Some t' /\ t_status t' = TConfirmed.
Proof.
  destruct (db_attempts (w_db submitted_world) !! pa_attemptID demo_pending) as [t|] eqn:Et;
    [|vm_compute in Et; discriminate].
  destruct (db_requests (w_db submitted_world) !! pa_requestID demo_pending) as [q|] eqn:Eq;
    [|vm_compute in Eq; discriminate].
  destruct (process_settles demo_watcher demo_pending submitted_world
    (Receipt 1 (Some 1234) 21000 (Some 100) (Ok "[]")) 1234 "[]" (pa_attemptID demo_pending)
    (pa_requestID demo_pending) t q) as [H _].
  - reflexivity.
  - exact I.
  - done.
  - vm_compute. reflexivity.
  - reflexivity.
  - reflexivity.
  - vm_compute. reflexivity.
  - exact Et.
  - vm_compute. reflexivity.
  - exact Eq.
  - destruct H as (w' & t' & q' & Hrun & Ht & Hst & _).
    { split; [exists "[]"; reflexivity|]. split; [exists 100; vm_compute; reflexivity|vm_compute; reflexivity]. }
    exists w', t'. split; [exact Hrun|]. split; [exact Ht|exact Hst].
Defined.

(** A contract that reverts with a NUL in its message. *)
Definition nul_revert : Environment :=
  let h := honest 0 200 5 in {|
    env_now := @env_now h; env_zone := @env_zone h; env_pg_now := @env_pg_now h;
    env_uuid := @env_uuid h; env_pg_fate := @env_pg_fate h; env_rand := @env_rand h;
    env_ctx_done := @env_ctx_done h; env_select := @env_select h; env_dial := @env_dial h;
    env_ChainID := @env_ChainID h; env_EstimateGas := @env_EstimateGas h;
    env_SuggestGasPrice := @env_SuggestGasPrice h; env_BalanceAt := @env_BalanceAt h;
    env_PendingNonceAt := @env_PendingNonceAt h;
    env_SendTransaction := @env_SendTransaction h; env_accepts := @env_accepts h;
    env_TransactionReceipt := @env_TransactionReceipt h;
    env_CallContract _ _ _ := Err (EText ("execution reverted: " +:+ String "000" "x"));
    env_url_ok := @env_url_ok h; env_http := @env_http h |}.

Example nul_never_settles :
  match run (process (Env := nul_revert) demo_watcher demo_pending) submitted_world with
  | Done (Err _) w' =>
      map_to_list (db_attempts (w_db w')) = map_to_list (db_attempts (w_db submitted_world))
  | _ => False
  end.
Proof. vm_compute. reflexivity. Qed.
End WatcherDemo.
