(* ===== verification/Webhook.v ===== *)
(** * Webhooks ([internal/webhook])

    [Enqueue] snapshots a request's status, signs it and queues a delivery;
    [tick] sends the deliveries that are due, oldest due first; [deliver] makes
    one HTTP attempt and records its outcome; [recordFailure] schedules the
    retry or gives up after the backoff schedule is used up. *)

From Stdlib Require Import ZArith Lia.
From S2P Require Import Prelude GoLib Crypto Eth Database World Chain SignerPool RefEnv.
From S2P Require Import AppService RelayService RelayStatus.

Local Open Scope Z_scope.
Local Open Scope txmill_scope.

(** [webhook.StatusFetcher]: payload, URL and secret of a request. *)
Class StatusFetcher := {
  fetch_GetRaw : string -> prog (result (string * string * string));
}.

(** Durations are nanoseconds. *)
Definition second : Z := 10 ^ 9.
Definition minute : Z := 60 * second.

Definition BackoffSchedule : list Z := [5 * second; 30 * second; 5 * minute; 30 * minute].

Definition sign (secret body : string) : string :=
  "sha256=" +:+ hex_EncodeToString (hmac_sha256 secret body).

(** [webhook.Worker] *)
Record WebhookWorker := MkWebhookWorker {
  ww_interval : Z;
  ww_batchSize : Z;
}.

Definition NewWebhookWorker (interval batchSize : Z) : WebhookWorker :=
  MkWebhookWorker interval batchSize.

Record pendingDelivery := MkPendingDelivery {
  pd_id : string;
  pd_url : string;
  pd_payload : string;
  pd_signature : string;
  pd_attempt : Z;
}.

(** ** The UPDATEs of [webhook_deliveries] *)

Definition set_delivered (code : Z) (d : delivery_row) : delivery_row :=
  {| d_request_id := d_request_id d; d_url := d_url d; d_payload := d_payload d;
     d_signature := d_signature d; d_attempt := d_attempt d + 1; d_status := DDelivered;
     d_response_code := Some code; d_last_error := None;
     d_created_at := d_created_at d; d_next_attempt_at := d_next_attempt_at d |}.

Definition set_dead (code : Z) (msg : string) (attempt : Z) (d : delivery_row) : delivery_row :=
  {| d_request_id := d_request_id d; d_url := d_url d; d_payload := d_payload d;
     d_signature := d_signature d; d_attempt := attempt; d_status := DDead;
     d_response_code := nullif_zero code; d_last_error := Some msg;
     d_created_at := d_created_at d; d_next_attempt_at := d_next_attempt_at d |}.

Definition set_retry (code : Z) (msg : string) (attempt next : Z) (d : delivery_row) : delivery_row :=
  {| d_request_id := d_request_id d; d_url := d_url d; d_payload := d_payload d;
     d_signature := d_signature d; d_attempt := attempt; d_status := d_status d;
     d_response_code := nullif_zero code; d_last_error := Some msg;
     d_created_at := d_created_at d; d_next_attempt_at := next |}.

(** [TIMESTAMPTZ] keeps microseconds. *)
Definition pg_timestamp (ns : Z) : Z := ns / 1000.

Definition due (now : Z) (d : delivery_row) : bool :=
  bool_decide (d_status d = DPending) && (d_next_attempt_at d <=? now).

Definition due_deliveries (now : Z) (db : database) : list (string * delivery_row) :=
  sort_by (fun kv => d_next_attempt_at kv.2) (rows_where (fun _ d => due now d) (db_deliveries db)).

Definition pending_delivery_of (kv : string * delivery_row) : pendingDelivery :=
  MkPendingDelivery kv.1 (d_url kv.2) (d_payload kv.2) (d_signature kv.2) (d_attempt kv.2).

Definition due_query (batchSize : Z) : stmt_env -> database -> result (list pendingDelivery) :=
  fun se db =>
    if batchSize <? 0 then Err (EText "LIMIT must not be negative")
    else Ok (List.map pending_delivery_of
               (take (Z.to_nat batchSize) (due_deliveries (se_now se) db))).

Definition delivery_headers (d : pendingDelivery) : list (string * string) :=
  [("Content-Type", "application/json");
   ("X-Txmill-Signature", pd_signature d);
   ("X-Txmill-Delivery", pd_id d);
   ("X-Txmill-Attempt", bigint_String (pd_attempt d))].

(** [io.ReadAll(io.LimitReader(body, 512))] *)
Definition limit512 (body : string) : string := String.substring 0 512 body.

Section webhook.
Context `{Env : Environment} `{PG : Postgres} `{SF : !StatusFetcher}.

Definition delivery_row_of (requestID url payload sig : string) (now : Z) : result delivery_row :=
  match pg_uuid_in requestID with
  | None => Err invalid_text
  | Some rid =>
      check (pg_text_ok url) invalid_text
        (Ok {| d_request_id := rid; d_url := url; d_payload := payload; d_signature := sig;
               d_attempt := 0; d_status := DPending; d_response_code := None;
               d_last_error := None; d_created_at := now; d_next_attempt_at := now |})
  end.

Definition insert_delivery_stmt (requestID url payload sig : string) : stmt unit :=
  fun se db =>
    match delivery_row_of requestID url payload sig (se_now se) with
    | Err e => Err e
    | Ok row => insert_delivery row se db
    end.

Definition Enqueue (requestID : string) : prog (result unit) :=
  let! r := fetch_GetRaw requestID in
  match r with
  | Err e => Ret (Err (EWrap "webhook: snapshot status" e))
  | Ok (payload, url, secret) =>
      if String.eqb url "" || String.eqb secret "" then Ret (Ok tt)
      else
        let sig := sign secret payload in
        let? _u := pg (insert_delivery_stmt requestID url payload sig)
              or "webhook: insert delivery" in
        Ret (Ok tt)
  end.

(** The texts written to [last_error] must be acceptable to the server. *)
Definition update_failure (id : string) (msg : string) (f : delivery_row -> delivery_row)
    : stmt unit := fun se db =>
  check (pg_text_ok msg) invalid_text (update_delivery id f se db).

(** [BackoffSchedule[d.attempt]] panics out of range. *)
Definition recordFailure (d : pendingDelivery) (code : Z) (msg : string) : prog (result unit) :=
  let nextAttempt := pd_attempt d + 1 in
  if Z.of_nat (length BackoffSchedule) + 1 <=? nextAttempt then
    pg (update_failure (pd_id d) msg (set_dead code msg nextAttempt))
  else
    let! now := time_Now in
    match (if pd_attempt d <? 0 then None else BackoffSchedule !! Z.to_nat (pd_attempt d)) with
    | None => Panic "index out of range"
    | Some backoff =>
        pg (update_failure (pd_id d) msg
              (set_retry code msg nextAttempt (pg_timestamp (now + backoff))))
    end.

Definition deliver (d : pendingDelivery) : prog (result unit) :=
  match http_NewRequest "POST" (pd_url d) (delivery_headers d) (pd_payload d) with
  | Err e => recordFailure d 0 (error_text e)
  | Ok req =>
      let! r := http_Do req in
      match r with
      | Err e => recordFailure d 0 (error_text e)
      | Ok resp =>
          if (200 <=? rs_status resp) && (rs_status resp <? 300) then
            pg (update_delivery (pd_id d) (set_delivered (rs_status resp)))
          else
            recordFailure d (rs_status resp)
              ("HTTP " +:+ bigint_String (rs_status resp) +:+ ": " +:+ limit512 (rs_body resp))
      end
  end.

Fixpoint deliver_all (ds : list pendingDelivery) (processed : Z) : prog Z :=
  match ds with
  | [] => Ret processed
  | d :: rest => do! deliver d in deliver_all rest (processed + 1)
  end.

Definition webhook_tick (batchSize : Z) : prog (result Z) :=
  let? ds := pg (select (due_query batchSize)) in
  let! n := deliver_all ds 0 in
  Ret (Ok n).
End webhook.

(** The relay service is the webhook service's status source. *)
#[export] Instance relayFetcher `{Environment} `{Postgres} : StatusFetcher := {
  fetch_GetRaw := GetRaw;
}.

(** ** Lemmas *)

(** A delivery's life: at most five attempts, pending while fewer than five
    were made, dead exactly after the fifth. *)
Definition delivery_ok (d : delivery_row) : Prop :=
  0 <= d_attempt d /\
  match d_status d with
  | DPending => d_attempt d <= 4
  | DDelivered => 1 <= d_attempt d <= 5
  | DDead => d_attempt d = 5
  end.

Definition deliveries_ok (db : database) : Prop :=
  forall k d, db_deliveries db !! k = Some d -> delivery_ok d.

(** The outcome of one delivery attempt that was recorded. *)
Definition attempted (row row' : delivery_row) : Prop :=
  d_attempt row' = d_attempt row + 1 /\ d_payload row' = d_payload row /\
  d_signature row' = d_signature row /\ d_url row' = d_url row /\
  d_request_id row' = d_request_id row /\ delivery_ok row'.

(** Only this delivery's row changed, if anything. *)
Definition delivery_step (id : string) (row : delivery_row) (w w' : world) : Prop :=
  core w' = core w /\ db_apps (w_db w') = db_apps (w_db w) /\ db_gas (w_db w') = db_gas (w_db w) /\
  (db_deliveries (w_db w') = db_deliveries (w_db w) \/
   exists row', db_deliveries (w_db w') = <[id := row']> (db_deliveries (w_db w)) /\
     attempted row row').

Lemma alter_to_insert {V} (f : V -> V) (m : gmap string V) k v :
  m !! k = Some v -> alter f k m = <[k := f v]> m.
Proof.
  intros Hk. apply map_eq. intros j. destruct (decide (j = k)) as [->|Hne].
  - by rewrite lookup_alter_eq, Hk, lookup_insert_eq.
  - by rewrite lookup_alter_ne, lookup_insert_ne.
Qed.

Section lemmas.
Context `{Env : Environment} `{PG : Postgres}.

Lemma update_delivery_step id key f row w se x w1 w' :
  pg_uuid_in id = Some key -> db_deliveries (w_db w) !! key = Some row ->
  attempted row (f row) -> core w1 = core w -> w_db w1 = w_db w ->
  core w' = core (set_db (w_db w') w1) ->
  update_delivery id f se (w_db w1) = Ok (x, w_db w') -> delivery_step key row w w'.
Proof.
  intros Hid Hrow Hatt Hc Hd Hc' H. unfold update_delivery in H. rewrite Hid in H.
  injection H as _ H. rewrite Hd in H. unfold delivery_step. rewrite Hc', <- H. simpl.
  split; [|split; [done|split; [done|]]].
  - unfold core in *. simpl. injection Hc as H1 H2 H3 H4 H5 H6. by rewrite H5, H6.
  - right. exists (f row). split; [|done]. by apply alter_to_insert.
Qed.

Lemma pg_update_step {X} (s : stmt X) id key f row w w1 r w' :
  pg_uuid_in id = Some key -> db_deliveries (w_db w) !! key = Some row ->
  attempted row (f row) -> view w1 = view w ->
  (forall se db x db', s se db = Ok (x, db') -> exists y, update_delivery id f se db = Ok (y, db')) ->
  run (pg s) w1 = Done r w' -> delivery_step key row w w'.
Proof.
  intros Hid Hrow Hatt [= Hd Hp Ht] Hs H. apply pg_frame in H as (Hp' & Ht' & [Hd'|[x Hx]]).
  - unfold delivery_step, core. rewrite Hd', Hd, Hp', Hp, Ht', Ht. auto.
  - apply Hs in Hx as [y Hy]. eapply (update_delivery_step id key f row w _ _ w1); try done.
    + unfold core. by rewrite Hd, Hp, Ht.
    + unfold core. simpl. by rewrite Hp', Ht'.
Qed.

(** [recordFailure] on a pending delivery: it never panics, and it records the
    attempt or nothing. *)
Lemma recordFailure_step d code msg key row w w1 :
  pg_uuid_in (pd_id d) = Some key -> db_deliveries (w_db w) !! key = Some row ->
  d_status row = DPending -> d_attempt row = pd_attempt d -> delivery_ok row ->
  view w1 = view w ->
  exists r w', run (recordFailure d code msg) w1 = Done r w' /\ delivery_step key row w w'.
Proof.
  intros Hid Hrow Hst Hat [H0 Hok] Hv. rewrite Hst in Hok. unfold recordFailure.
  assert (forall f, forall se db x db', update_failure (pd_id d) msg f se db = Ok (x, db') ->
    exists y, update_delivery (pd_id d) f se db = Ok (y, db')) as Hup.
  { intros f se db x db' [_ H]%check_Ok. eauto. }
  change (Z.of_nat (length BackoffSchedule) + 1) with 5.
  destruct (Z.leb_spec 5 (pd_attempt d + 1)) as [Hle|Hlt].
  - assert (d_attempt row = 4) by lia.
    destruct (total_run (pg (update_failure (pd_id d) msg (set_dead code msg (pd_attempt d + 1)))) w1
      (total_action _)) as (r & w' & Hr).
    exists r, w'. split; [done|]. eapply pg_update_step; [done..| |done|apply Hup|exact Hr].
    unfold attempted, delivery_ok. simpl. rewrite Hat. repeat split; lia.
  - rewrite run_bind. unfold time_Now. rewrite run_action. cbn [fst snd].
    destruct (Z.ltb_spec (pd_attempt d) 0) as [|_]; [lia|].
    destruct (BackoffSchedule !! Z.to_nat (pd_attempt d)) as [b|] eqn:Eb.
    2:{ apply lookup_ge_None in Eb. simpl in Eb. lia. }
    match goal with |- context [run (pg ?s) ?w2] =>
      destruct (total_run (pg s) w2 (total_action _)) as (r & w' & Hr) end.
    exists r, w'. split; [done|].
    eapply (pg_update_step _ _ _ _ _ w); [done..| | |apply Hup|exact Hr].
    + unfold attempted, delivery_ok. simpl. rewrite Hst, Hat. repeat split; lia.
    + done.
Qed.

Lemma deliver_step d key row w :
  pg_uuid_in (pd_id d) = Some key -> db_deliveries (w_db w) !! key = Some row ->
  d_status row = DPending -> d_attempt row = pd_attempt d -> delivery_ok row ->
  exists r w', run (deliver d) w = Done r w' /\ delivery_step key row w w'.
Proof.
  intros Hid Hrow Hst Hat Hok. unfold deliver.
  destruct (http_NewRequest _ _ _ _) as [req|e]; [|by eapply recordFailure_step].
  rewrite run_bind. unfold http_Do. rewrite run_action. cbn [fst snd].
  destruct (env_http _ _) as [resp|e]; [|by eapply recordFailure_step].
  destruct (_ && _); [|by eapply recordFailure_step].
  match goal with |- context [run (pg ?s) ?w2] =>
    destruct (total_run (pg s) w2 (total_action _)) as (r & w' & Hr) end.
  exists r, w'. split; [done|].
  eapply (pg_update_step _ _ _ (set_delivered (rs_status resp)) _ w); [done..| | | |exact Hr].
  - destruct Hok as [H0 Hok]. rewrite Hst in Hok.
    unfold attempted, delivery_ok. simpl. repeat split; lia.
  - done.
  - eauto.
Qed.
End lemmas.

Lemma delivery_step_ok id row w w' :
  delivery_step id row w w' -> deliveries_ok (w_db w) -> deliveries_ok (w_db w').
Proof.
  intros (_ & _ & _ & [E|(row' & E & Hatt)]) Hok k d; rewrite E; [apply Hok|].
  destruct (decide (k = id)) as [->|Hne].
  - rewrite lookup_insert_eq. intros [= <-]. apply Hatt.
  - rewrite lookup_insert_ne by done. apply Hok.
Qed.

(** No delivery is added or removed. *)
Lemma delivery_step_dom id row w w' :
  delivery_step id row w w' -> db_deliveries (w_db w) !! id = Some row ->
  dom (db_deliveries (w_db w')) = dom (db_deliveries (w_db w)).
Proof.
  intros (_ & _ & _ & [->|(row' & -> & _)]) Hrow; [done|].
  rewrite dom_insert_L. apply elem_of_dom_2 in Hrow. set_solver.
Qed.

Lemma delivery_step_other id row w w' k :
  delivery_step id row w w' -> k <> id ->
  db_deliveries (w_db w') !! k = db_deliveries (w_db w) !! k.
Proof.
  intros (_ & _ & _ & [->|(row' & -> & _)]) Hne; [done|]. by rewrite lookup_insert_ne.
Qed.

(** The item matches its row: pending, with the attempt count it was read
    with. *)
Definition fresh_item `{Postgres} (db : database) (d : pendingDelivery) : Prop :=
  pg_uuid_in (pd_id d) = Some (pd_id d) /\
  exists row, db_deliveries db !! pd_id d = Some row /\ d_status row = DPending /\
    d_attempt row = pd_attempt d.

Lemma fresh_item_step `{Postgres} id row w w' d :
  delivery_step id row w w' -> pd_id d <> id -> fresh_item (w_db w) d -> fresh_item (w_db w') d.
Proof.
  intros Hs Hne (Hid & row0 & Hrow & Hst & Hat). split; [done|]. exists row0.
  split; [|done]. by rewrite (delivery_step_other id row w).
Qed.

Section properties.
Context `{Env : Environment} `{PG : Postgres}.

Lemma deliver_all_ok ds n w :
  deliveries_ok (w_db w) -> NoDup (List.map pd_id ds) -> Forall (fresh_item (w_db w)) ds ->
  exists w', run (deliver_all ds n) w = Done (n + Z.of_nat (length ds)) w' /\
    core w' = core w /\ deliveries_ok (w_db w') /\
    dom (db_deliveries (w_db w')) = dom (db_deliveries (w_db w)) /\
    (forall k, ~ k ∈ List.map pd_id ds ->
       db_deliveries (w_db w') !! k = db_deliveries (w_db w) !! k).
Proof.
  revert n w. induction ds as [|d ds IH]; intros n w Hok Hnd Hfr; cbn [deliver_all].
  { exists w. simpl. rewrite Z.add_0_r. done. }
  apply NoDup_cons in Hnd as [Hd Hnd]. apply Forall_cons in Hfr as [(Hid & row & Hrow & Hst & Hat) Hfr].
  destruct (deliver_step d _ row w Hid Hrow Hst Hat (Hok _ _ Hrow)) as (r & w1 & Hr & Hstep).
  rewrite run_bind, Hr.
  destruct (IH (n + 1) w1) as (w' & Hrun & Hc & Hok' & Hdom & Hoth); [by eapply delivery_step_ok|done| |].
  - rewrite Forall_forall in Hfr |- *. intros d' Hd'. eapply fresh_item_step; [done| |by apply Hfr].
    intros E. apply Hd. rewrite <- E. apply list_elem_of_In, in_map, list_elem_of_In, Hd'.
  - exists w'. split; [|split; [|split; [done|split]]].
    + rewrite Hrun. f_equal. simpl. lia.
    + rewrite Hc. apply Hstep.
    + rewrite Hdom. by eapply delivery_step_dom.
    + cbn [List.map]. intros k [Hk1 Hk2]%not_elem_of_cons. rewrite Hoth by done.
      by apply (delivery_step_other (pd_id d) row).
Qed.

Lemma due_deliveries_elem now db k d :
  (k, d) ∈ due_deliveries now db <->
  db_deliveries db !! k = Some d /\ d_status d = DPending /\ d_next_attempt_at d <= now.
Proof.
  unfold due_deliveries, due. rewrite sort_by_elem, rows_where_elem, andb_true_iff.
  by rewrite bool_decide_eq_true, Z.leb_le.
Qed.

Lemma due_deliveries_nodup now db n : NoDup (List.map fst (take n (due_deliveries now db))).
Proof.
  rewrite <- firstn_map. apply (NoDup_app _ (drop n (List.map fst (due_deliveries now db)))).
  rewrite take_drop. unfold due_deliveries. rewrite sort_by_perm. apply rows_where_keys_nodup.
Qed.

(** The deliveries a tick reads match their rows, each once. *)
Lemma batch_fresh n now db :
  (forall k, is_Some (db_deliveries db !! k) -> pg_uuid_in k = Some k) ->
  let ds := List.map pending_delivery_of (take n (due_deliveries now db)) in
  NoDup (List.map pd_id ds) /\ Forall (fresh_item db) ds.
Proof.
  intros Hcan ds. split; [unfold ds; rewrite map_map; apply due_deliveries_nodup|].
  apply Forall_forall. intros d Hd.
  apply list_elem_of_In, in_map_iff in Hd as ([k row] & <- & Hin).
  apply list_elem_of_In, elem_of_take in Hin as (i & Hi & _).
  apply list_elem_of_lookup_2, due_deliveries_elem in Hi as (Hk & Hst & _).
  split; [by apply Hcan|]. by exists row.
Qed.

(** One tick: it returns, keeps the life of every delivery, and neither adds nor
    removes one. *)
Lemma webhook_tick_ok batchSize w :
  deliveries_ok (w_db w) ->
  (forall k, is_Some (db_deliveries (w_db w) !! k) -> pg_uuid_in k = Some k) ->
  exists r w', run (webhook_tick batchSize) w = Done r w' /\
    deliveries_ok (w_db w') /\ core w' = core w /\
    dom (db_deliveries (w_db w')) = dom (db_deliveries (w_db w)).
Proof.
  intros Hok Hcan. unfold webhook_tick. rewrite run_bind, run_select.
  set (q := match env_pg_fate (w_hist w) with PgServe => _ | PgFail _ e => Err e end).
  destruct q as [ds|e] eqn:Eq; [|by eexists _, _].
  unfold q in Eq. destruct (env_pg_fate _); [|done]. unfold due_query in Eq.
  destruct (batchSize <? 0); [done|]. injection Eq as <-.
  rewrite run_bind. destruct (batch_fresh (Z.to_nat batchSize) (env_pg_now (w_hist w)) (w_db w) Hcan)
    as [Hnd Hfr].
  destruct (deliver_all_ok _ 0 (log EvDb w) Hok Hnd Hfr) as (w' & -> & Hc & Hok' & Hdom & _).
  by eexists _, w'.
Qed.

(** The delivery worker's invariant: a delivery has at most five attempts, is
    pending only while fewer than five were made and dead only after the fifth.
    A tick keeps it, always returns — in particular the backoff index is never
    out of range — and touches no other table, the pool or the chain. *)
Theorem webhook_tick_invariant batchSize w :
  deliveries_ok (w_db w) ->
  (forall k, is_Some (db_deliveries (w_db w) !! k) -> pg_uuid_in k = Some k) ->
  exists r w', run (webhook_tick batchSize) w = Done r w' /\
    deliveries_ok (w_db w') /\ core w' = core w.
Proof.
  intros Hok Hcan. destruct (webhook_tick_ok batchSize w Hok Hcan) as (r & w' & E & H1 & H2 & _).
  eauto.
Qed.

(** C23 A failed attempt is recorded exactly: the count goes up by one; the fifth
    failure makes the delivery dead, an earlier one schedules the retry after
    the backoff of that attempt. *)
Theorem recordFailure_spec d code msg row w :
  (forall h, env_pg_fate h = PgServe) -> pg_text_ok msg = true ->
  pg_uuid_in (pd_id d) = Some (pd_id d) -> db_deliveries (w_db w) !! pd_id d = Some row ->
  0 <= pd_attempt d <= 4 ->
  exists w', run (recordFailure d code msg) w = Done (Ok tt) w' /\
    (pd_attempt d = 4 ->
       db_deliveries (w_db w') !! pd_id d = Some (set_dead code msg 5 row)) /\
    (forall b, BackoffSchedule !! Z.to_nat (pd_attempt d) = Some b ->
       db_deliveries (w_db w') !! pd_id d =
         Some (set_retry code msg (pd_attempt d + 1)
                 (pg_timestamp (env_now (w_hist w) + b)) row)).
Proof.
  intros Hs Htx Hid Hrow Ha. unfold recordFailure.
  change (Z.of_nat (length BackoffSchedule) + 1) with 5.
  assert (forall f w1, db_deliveries (w_db w1) !! pd_id d = Some row ->
    exists w', run (pg (update_failure (pd_id d) msg f)) w1 = Done (Ok tt) w' /\
      db_deliveries (w_db w') !! pd_id d = Some (f row)) as Hup.
  { intros f w1 Hr1. unfold pg, update_failure, update_delivery. rewrite run_action, Hs, Htx, Hid.
    simpl. eexists. split; [done|]. simpl. by rewrite lookup_alter_eq, Hr1. }
  destruct (Z.leb_spec 5 (pd_attempt d + 1)) as [Hle|Hlt].
  - destruct (Hup (set_dead code msg (pd_attempt d + 1)) w Hrow) as (w' & Hrun & Hr').
    exists w'. split; [done|]. split.
    + intros E. rewrite Hr', E. done.
    + intros b Hb. apply lookup_lt_Some in Hb. simpl in Hb. lia.
  - rewrite run_bind. unfold time_Now. rewrite run_action. cbn [fst snd].
    destruct (Z.ltb_spec (pd_attempt d) 0) as [|_]; [lia|].
    destruct (BackoffSchedule !! Z.to_nat (pd_attempt d)) as [b|] eqn:Eb.
    2:{ apply lookup_ge_None in Eb. simpl in Eb. lia. }
    destruct (Hup (set_retry code msg (pd_attempt d + 1) (pg_timestamp (env_now (w_hist w) + b)))
      (log EvNow w) Hrow) as (w' & Hrun & Hr').
    exists w'. split; [done|]. split; [lia|]. by intros b' [= <-].
Qed.

(** C24 A failure whose message is not acceptable as text — the first 512 bytes
    of a response body need not be — is not recorded at all: the row keeps its
    attempt count and its due time, so the delivery is sent again on every
    tick. *)
Theorem recordFailure_unrecordable d code msg w :
  pg_text_ok msg = false -> 0 <= pd_attempt d <= 4 ->
  exists e w', run (recordFailure d code msg) w = Done (Err e) w' /\ view w' = view w.
Proof.
  intros Htx Ha. unfold recordFailure.
  assert (forall f w1, exists e w', run (pg (update_failure (pd_id d) msg f)) w1 = Done (Err e) w' /\
      view w' = view w1) as Hup.
  { intros f w1. unfold pg, update_failure. rewrite run_action, Htx. simpl.
    destruct (env_pg_fate _) as [|[] e]; simpl; eauto. }
  change (Z.of_nat (length BackoffSchedule) + 1) with 5.
  destruct (Z.leb_spec 5 (pd_attempt d + 1)) as [Hle|Hlt]; [apply Hup|].
  rewrite run_bind. unfold time_Now. rewrite run_action. cbn [fst snd].
  destruct (Z.ltb_spec (pd_attempt d) 0) as [|_]; [lia|].
  destruct (BackoffSchedule !! Z.to_nat (pd_attempt d)) as [b|] eqn:Eb.
  - apply (Hup _ (log EvNow w)).
  - apply lookup_ge_None in Eb. simpl in Eb. lia.
Qed.

(** The signature header is ["sha256="] followed by the 64 hexadecimal digits
    of the HMAC-SHA256 of the payload under the app's secret: decoding the
    digits gives the MAC back. *)
Theorem sign_format secret body :
  exists digits, sign secret body = "sha256=" +:+ digits /\ String.length digits = 64%nat /\
    hex_DecodeString digits = Ok (hmac_sha256 secret body).
Proof.
  exists (hex_EncodeToString (hmac_sha256 secret body)). split; [done|]. split.
  - rewrite hex_encode_length, hmac_length. done.
  - apply hex_decode_encode.
Qed.

Lemma GetRaw_view rid : keeps view (GetRaw rid).
Proof.
  apply keeps_bind; [apply pg_select_view|]. intros [[[st url] secret]|e].
  - by destruct (Status_Marshal st).
  - by destruct (errors_Is e ErrNoRows).
Qed.

Lemma GetRaw_files rid : keeps w_files (GetRaw rid).
Proof.
  apply keeps_bind; [by apply pg_keeps|]. intros [[[st url] secret]|e].
  - by destruct (Status_Marshal st).
  - by destruct (errors_Is e ErrNoRows).
Qed.

Lemma GetRaw_total rid : total (GetRaw rid).
Proof.
  apply total_bind; [apply total_action|]. intros [[[st url] secret]|e].
  - by destruct (Status_Marshal st).
  - by destruct (errors_Is e ErrNoRows).
Qed.

Lemma insert_delivery_stmt_ok rid url payload sig se db x db' :
  insert_delivery_stmt rid url payload sig se db = Ok (x, db') ->
  exists row, delivery_row_of rid url payload sig (se_now se) = Ok row /\
    db_deliveries db !! se_uuid se = None /\
    db' = with_deliveries (<[se_uuid se := row]> (db_deliveries db)) db.
Proof.
  unfold insert_delivery_stmt. destruct (delivery_row_of _ _ _ _ _) as [row|e]; [|done].
  unfold insert_delivery. intros [Hf H]%check_Ok. apply check_Ok in H as [_ [= _ <-]].
  apply bool_decide_eq_true in Hf. eauto.
Qed.

(** The webhook service is an enqueuer as the relay service and the watcher
    need it: it always returns and only adds delivery rows. *)
Lemma Enqueue_frame : enqueuer_frame (Some Enqueue).
Proof.
  intros rid. apply keeps_bind; [apply keeps_view_core, GetRaw_view|].
  intros [[[payload url] secret]|e]; [|done]. destruct (_ || _); [done|].
  apply keeps_bind; [|by intros [?|]]. apply keeps_action. intros w. simpl.
  destruct (insert_delivery_stmt _ _ _ _ _ _) as [[x db']|e] eqn:E;
    destruct (env_pg_fate _) as [|[] e']; try done;
    apply insert_delivery_stmt_ok in E as (row & _ & _ & ->); done.
Qed.

Lemma Enqueue_files rid : keeps w_files (Enqueue rid).
Proof.
  apply keeps_bind; [apply GetRaw_files|]. intros [[[payload url] secret]|e]; [|done].
  destruct (_ || _); [done|]. apply keeps_bind; [by apply pg_keeps|]. by intros [?|].
Qed.

Lemma Enqueue_total rid : total (Enqueue rid).
Proof.
  apply total_bind; [apply GetRaw_total|]. intros [[[payload url] secret]|e]; [|done].
  destruct (_ || _); [done|]. apply total_bind; [apply total_action|]. by intros [?|].
Qed.

(** C25 [Enqueue] queues nothing for a request without callback URL or secret;
    otherwise, when it succeeds, it adds exactly one delivery: pending, due at
    once, not attempted yet, carrying the payload and its signature under the
    app's secret. *)
Theorem Enqueue_effect requestID w w' :
  run (Enqueue requestID) w = Done (Ok tt) w' ->
  exists payload url secret w1, run (GetRaw requestID) w = Done (Ok (payload, url, secret)) w1 /\
    ((url = "" \/ secret = "") /\ view w' = view w \/
     url <> "" /\ secret <> "" /\ exists k row, db_deliveries (w_db w) !! k = None /\
       w_db w' = with_deliveries (<[k := row]> (db_deliveries (w_db w))) (w_db w) /\
       pg_uuid_in requestID = Some (d_request_id row) /\ d_url row = url /\
       d_payload row = payload /\ d_signature row = sign secret payload /\
       d_attempt row = 0 /\ d_status row = DPending /\ d_next_attempt_at row = d_created_at row /\
       delivery_ok row).
Proof.
  unfold Enqueue. intros (r & w1 & H1 & H)%bind_Done. cbn [fetch_GetRaw relayFetcher] in H1.
  destruct r as [[[payload url] secret]|e]; [|done]. exists payload, url, secret, w1.
  split; [done|]. apply (keeps_Done view) in H1; [|apply GetRaw_view].
  destruct (String.eqb_spec url "") as [Eu|Eu]; cbn [orb] in H.
  { left. injection H as <-. auto. }
  destruct (String.eqb_spec secret "") as [Es|Es].
  { left. injection H as <-. auto. }
  right. split; [done|]. split; [done|].
  apply (try_Done _ _ (EWrap "webhook: insert delivery")) in H as (u & w2 & H2 & [= <-]).
  apply pg_ok in H2 as (db' & Hs & ->). apply insert_delivery_stmt_ok in Hs as (row & Hr & Hf & ->).
  injection H1 as Hd _ _. rewrite Hd in *. exists (se_uuid (env_stmt w1)), row.
  split; [done|]. split; [done|]. unfold delivery_row_of in Hr.
  destruct (pg_uuid_in requestID) as [rid|]; [|done].
  apply check_Ok in Hr as [_ [= <-]]. repeat split; try done.
Qed.
End properties.

(** ** Witnesses *)

Module WebhookDemo.
Import RefEnv RelayDemo StatusDemo.

Lemma demo_enqueue : done_ok (run (Enqueue demo_request) submitted_world) = true.
Proof. vm_compute. reflexivity. Qed.

Definition queued_world : world :=
  match run (Enqueue demo_request) submitted_world with
  | Done _ w | Panicked _ w | Blocked w => w
  end.

Lemma Enqueue_effect_witness :
  exists w' k row, run (Enqueue demo_request) submitted_world = Done (Ok tt) w' /\
    db_deliveries (w_db w') !! k = Some row /\ d_status row = DPending.
Proof.
  destruct (done_ok_inv _ demo_enqueue) as ([] & w' & E). exists w'.
  destruct (Enqueue_effect _ _ _ E) as (payload & url & secret & w1 & H1 & [[Hn _]|
    (_ & _ & k & row & _ & Hd & _ & _ & _ & _ & _ & Hst & _)]).
  - exfalso. assert (match run (GetRaw demo_request) submitted_world with
      | Done (Ok r) _ => negb (String.eqb r.1.2 "") && negb (String.eqb r.2 "")
      | _ => false end = true) as Hc by (vm_compute; reflexivity).
    rewrite H1 in Hc. simpl in Hc. destruct Hn as [-> | ->]; [discriminate|].
    rewrite andb_false_r in Hc. discriminate.
  - exists k, row. split; [exact E|]. split; [|exact Hst]. rewrite Hd. apply lookup_insert_eq.
Defined.

Definition row_ok (d : delivery_row) : bool :=
  (0 <=? d_attempt d) && match d_status d with DPending => d_attempt d <=? 4 | _ => false end.

Lemma row_ok_sound d : row_ok d = true -> delivery_ok d.
Proof.
  unfold row_ok. intros [H1 H2]%andb_true_iff. split; [lia|].
  destruct (d_status d); [lia|discriminate..].
Qed.

Lemma queued_rows :
  all_rows (fun k d => row_ok d && bool_decide (pg_uuid_in k = Some k))
    (db_deliveries (w_db queued_world)) = true.
Proof. vm_compute. reflexivity. Qed.

Lemma queued_ok : deliveries_ok (w_db queued_world).
Proof.
  intros k d Hk. pose proof (all_rows_elim _ _ _ _ queued_rows Hk) as H.
  apply andb_true_iff in H as [H _]. by apply row_ok_sound.
Qed.

Lemma queued_canonical k :
  is_Some (db_deliveries (w_db queued_world) !! k) -> pg_uuid_in k = Some k.
Proof.
  intros [d Hk]. pose proof (all_rows_elim _ _ _ _ queued_rows Hk) as H.
  apply andb_true_iff in H as [_ H]. by apply bool_decide_eq_true_1 in H.
Qed.

Lemma webhook_tick_invariant_witness :
  exists r w', run (webhook_tick 10) queued_world = Done r w' /\ deliveries_ok (w_db w').
Proof.
  destruct (webhook_tick_invariant 10 queued_world queued_ok queued_canonical)
    as (r & w' & E & Hok & _).
  exists r, w'. split; [exact E|exact Hok].
Defined.

Definition demo_delivery : pendingDelivery :=
  match due_query 1 (StmtEnv (10 ^ 30) "") (w_db queued_world) with
  | Ok (d :: _) => d
  | _ => MkPendingDelivery "" "" "" "" 0
  end.

Lemma recordFailure_spec_witness :
  exists row w', run (recordFailure demo_delivery 503 "HTTP 503: busy") queued_world = Done (Ok tt) w' /\
    db_deliveries (w_db w') !! pd_id demo_delivery =
      Some (set_retry 503 "HTTP 503: busy" 1
        (pg_timestamp (env_now (w_hist queued_world) + 5 * second)) row).
Proof.
  destruct (db_deliveries (w_db queued_world) !! pd_id demo_delivery) as [row|] eqn:Er;
    [|vm_compute in Er; discriminate].
  destruct (recordFailure_spec demo_delivery 503 "HTTP 503: busy" row queued_world)
    as (w' & E & _ & Hb).
  - reflexivity.
  - reflexivity.
  - vm_compute. reflexivity.
  - exact Er.
  - vm_compute. split; discriminate.
  - exists row, w'. split; [exact E|].
    assert (pd_attempt demo_delivery = 0) as Ha by (vm_compute; reflexivity).
    rewrite Ha in Hb. exact (Hb (5 * second) eq_refl).
Defined.

(** A NUL byte in the response body. *)
Lemma recordFailure_unrecordable_witness :
  exists e w', run (recordFailure demo_delivery 503 (String "000" "")) queued_world = Done (Err e) w' /\
    view w' = view queued_world.
Proof.
  apply recordFailure_unrecordable; [reflexivity|]. vm_compute. split; discriminate.
Defined.
End WebhookDemo.
