(* ===== verification/Deliveries.v ===== *)
(** * The life of one delivery over many ticks ([internal/webhook])

    A delivery that the worker keeps selecting is settled — delivered or dead —
    after at most five ticks, whatever the receiver answers, as long as the
    database serves and the texts of the answers can be stored.  Between two
    ticks anything may happen that leaves this delivery's row alone: requests,
    other workers, the passing of time. *)

From Stdlib Require Import ZArith Lia.
From S2P Require Import Prelude GoLib Crypto Eth Database World Chain SignerPool RefEnv.
From S2P Require Import AppService RelayService RelayStatus Webhook.

Local Open Scope Z_scope.
Local Open Scope txmill_scope.

(** One attempt was recorded for the delivery [k]. *)
Definition recorded (k : string) (w w' : world) : Prop :=
  exists row row', db_deliveries (w_db w) !! k = Some row /\
    db_deliveries (w_db w') !! k = Some row' /\ attempted row row'.

Definition canonical_keys `{Postgres} (db : database) : Prop :=
  forall k, is_Some (db_deliveries db !! k) -> pg_uuid_in k = Some k.

Section attempts.
Context `{Env : Environment} `{PG : Postgres}.

(** Every failure that the receiver at [url] can produce has a text that the
    column [last_error] accepts. *)
Definition answers_recordable (url : string) : Prop :=
  forall headers body,
    match http_NewRequest "POST" url headers body with
    | Err e => pg_text_ok (error_text e) = true
    | Ok req => forall h,
        match env_http h req with
        | Err e => pg_text_ok (error_text e) = true
        | Ok resp =>
            pg_text_ok ("HTTP " +:+ bigint_String (rs_status resp) +:+ ": " +:+
                          limit512 (rs_body resp)) = true
        end
    end.

(** The delivery is among those the tick starting in [w] reads. *)
Definition selected (batchSize : Z) (k : string) (w : world) : Prop :=
  0 <= batchSize /\
  exists row, (k, row) ∈ take (Z.to_nat batchSize) (due_deliveries (env_pg_now (w_hist w)) (w_db w)).

Hypothesis Hserve : forall h, env_pg_fate h = PgServe.

(** A served UPDATE of the row is recorded. *)
Lemma served_update {X} (s : stmt X) k f row w w1 :
  db_deliveries (w_db w) !! k = Some row -> attempted row (f row) -> w_db w1 = w_db w ->
  (forall se db, exists x, s se db =
     Ok (x, with_deliveries (alter f k (db_deliveries db)) db)) ->
  exists r w', run (pg s) w1 = Done r w' /\ recorded k w w'.
Proof.
  intros Hrow Hatt Hd Hs. unfold pg. rewrite run_action, Hserve.
  destruct (Hs (env_stmt w1) (w_db w1)) as [x ->]. simpl. do 2 eexists. split; [done|].
  exists row, (f row). split; [done|]. simpl. by rewrite Hd, lookup_alter_eq, Hrow.
Qed.

Lemma recordFailure_records d code msg row w w1 :
  pg_uuid_in (pd_id d) = Some (pd_id d) -> db_deliveries (w_db w) !! pd_id d = Some row ->
  d_status row = DPending -> d_attempt row = pd_attempt d -> delivery_ok row ->
  pg_text_ok msg = true -> w_db w1 = w_db w ->
  exists r w', run (recordFailure d code msg) w1 = Done r w' /\ recorded (pd_id d) w w'.
Proof.
  intros Hid Hrow Hst Hat [H0 Hok] Htx Hd. rewrite Hst in Hok. unfold recordFailure.
  assert (forall f se db, exists x, update_failure (pd_id d) msg f se db =
    Ok (x, with_deliveries (alter f (pd_id d) (db_deliveries db)) db)) as Hup.
  { intros f se db. unfold update_failure, update_delivery. rewrite Htx, Hid. by exists tt. }
  change (Z.of_nat (length BackoffSchedule) + 1) with 5.
  destruct (Z.leb_spec 5 (pd_attempt d + 1)) as [Hle|Hlt].
  - eapply served_update; [done| |done|apply Hup].
    unfold attempted, delivery_ok. simpl. rewrite Hat. repeat split; lia.
  - rewrite run_bind. unfold time_Now. rewrite run_action. cbn [fst snd].
    destruct (Z.ltb_spec (pd_attempt d) 0) as [|_]; [lia|].
    destruct (BackoffSchedule !! Z.to_nat (pd_attempt d)) as [b|] eqn:Eb.
    2:{ apply lookup_ge_None in Eb. simpl in Eb. lia. }
    eapply served_update; [done| |done|apply Hup].
    unfold attempted, delivery_ok. simpl. rewrite Hst, Hat. repeat split; lia.
Qed.

Lemma deliver_records d row w :
  pg_uuid_in (pd_id d) = Some (pd_id d) -> db_deliveries (w_db w) !! pd_id d = Some row ->
  d_status row = DPending -> d_attempt row = pd_attempt d -> delivery_ok row ->
  answers_recordable (pd_url d) ->
  exists r w', run (deliver d) w = Done r w' /\ recorded (pd_id d) w w'.
Proof.
  intros Hid Hrow Hst Hat Hok Hans. unfold deliver.
  specialize (Hans (delivery_headers d) (pd_payload d)).
  destruct (http_NewRequest _ _ _ _) as [req|e]; [|by eapply recordFailure_records].
  rewrite run_bind. unfold http_Do. rewrite run_action. cbn [fst snd].
  specialize (Hans (w_hist w)).
  destruct (env_http _ _) as [resp|e]; [|by eapply recordFailure_records].
  destruct (_ && _); [|by eapply recordFailure_records].
  eapply (served_update _ _ (set_delivered (rs_status resp))); [done| |done|].
  - destruct Hok as [H0 Hok]. rewrite Hst in Hok.
    unfold attempted, delivery_ok. simpl. repeat split; lia.
  - intros se db. unfold update_delivery. rewrite Hid. by exists tt.
Qed.

Lemma deliver_all_app ds1 ds2 n :
  forall w, run (deliver_all (ds1 ++ ds2) n) w =
    run (let! m := deliver_all ds1 n in deliver_all ds2 m) w.
Proof.
  revert n. induction ds1 as [|d ds1 IH]; intros n w; [done|]. cbn [app deliver_all].
  rewrite !run_bind. destruct (run (deliver d) w) as [r w1| |]; [|done..].
  rewrite IH, run_bind. done.
Qed.

(** A batch that contains the delivery records one attempt for it: the others
    of the batch leave its row alone. *)
Lemma deliver_all_records ds d n w :
  deliveries_ok (w_db w) -> NoDup (List.map pd_id ds) -> Forall (fresh_item (w_db w)) ds ->
  d ∈ ds -> answers_recordable (pd_url d) ->
  exists m w', run (deliver_all ds n) w = Done m w' /\ recorded (pd_id d) w w' /\
    deliveries_ok (w_db w') /\ dom (db_deliveries (w_db w')) = dom (db_deliveries (w_db w)).
Proof.
  intros Hok Hnd Hfr Hd Hans.
  destruct (deliver_all_ok ds n w Hok Hnd Hfr) as (w' & Hrun & _ & Hok' & Hdom & _).
  exists (n + Z.of_nat (length ds)), w'. split; [done|]. split; [|done].
  apply list_elem_of_split in Hd as (l1 & l2 & ->).
  rewrite List.map_app in Hnd. cbn [List.map] in Hnd.
  apply NoDup_app in Hnd as (Hnd1 & Hsep & Hnd2). apply NoDup_cons in Hnd2 as [Hd2 Hnd2].
  apply Forall_app in Hfr as [Hfr1 [Hf Hfr2]%Forall_cons].
  destruct (deliver_all_ok l1 n w Hok Hnd1 Hfr1) as (w1 & E1 & _ & Hok1 & _ & Hoth1).
  destruct Hf as (Hid & row & Hrow & Hst & Hat).
  assert (db_deliveries (w_db w1) !! pd_id d = Some row) as Hrow1.
  { rewrite Hoth1; [done|]. intros Hin. by apply (Hsep (pd_id d) Hin), list_elem_of_here. }
  destruct (deliver_records d row w1 Hid Hrow1 Hst Hat (Hok1 _ _ Hrow1) Hans) as (r & w2 & E2 & Hrec).
  destruct (deliver_step d _ row w1 Hid Hrow1 Hst Hat (Hok1 _ _ Hrow1)) as (r' & w2' & E2' & Hstep).
  rewrite E2 in E2'. injection E2' as <- <-.
  destruct (deliver_all_ok l2 (n + Z.of_nat (length l1) + 1) w2) as (w3 & E3 & _ & _ & _ & Hoth2);
    [by eapply delivery_step_ok|done| |].
  - rewrite Forall_forall in Hfr2 |- *. intros d' Hd'.
    assert (pd_id d' ∈ List.map pd_id l2) by (by apply list_elem_of_In, in_map, list_elem_of_In).
    assert (fresh_item (w_db w1) d') as Hf'.
    { destruct (Hfr2 d' Hd') as (Hi & row0 & Hr0 & ?). split; [done|]. exists row0.
      rewrite Hoth1; [done|]. intros Hin. by apply (Hsep _ Hin), list_elem_of_further. }
    eapply fresh_item_step; [done| |done]. intros E. by rewrite E in *.
  - rewrite deliver_all_app, run_bind, E1 in Hrun. cbn [deliver_all] in Hrun.
    rewrite run_bind, E2, E3 in Hrun. injection Hrun as _ <-.
    destruct Hrec as (row1 & row' & H1 & H2 & Hatt). exists row1, row'.
    split; [by rewrite <- H1, Hrow1|]. by rewrite Hoth2.
Qed.

(** A tick that reads the delivery returns and records one attempt for it. *)
Lemma tick_records batchSize k w :
  deliveries_ok (w_db w) -> canonical_keys (w_db w) -> selected batchSize k w ->
  (forall row, db_deliveries (w_db w) !! k = Some row -> answers_recordable (d_url row)) ->
  exists r w', run (webhook_tick batchSize) w = Done r w' /\ recorded k w w' /\
    deliveries_ok (w_db w') /\ canonical_keys (w_db w').
Proof.
  intros Hok Hcan [Hb (row & Hsel)] Hans. unfold webhook_tick.
  rewrite run_bind, run_select, Hserve. unfold due_query.
  destruct (Z.ltb_spec batchSize 0) as [|_]; [lia|]. rewrite run_bind.
  destruct (batch_fresh (Z.to_nat batchSize) (env_pg_now (w_hist w)) (w_db w) Hcan) as [Hnd Hfr].
  destruct (deliver_all_records _ (pending_delivery_of (k, row)) 0 (log EvDb w) Hok Hnd Hfr)
    as (m & w' & E & Hrec & Hok' & Hdom).
  - by apply list_elem_of_In, in_map, list_elem_of_In.
  - cbn. apply elem_of_take in Hsel as (i & Hi & _).
    apply list_elem_of_lookup_2, due_deliveries_elem in Hi as (Hk & _). by apply Hans.
  - exists (Ok m), w'. cbn [se_now env_stmt]. rewrite E. split; [done|].
    split; [exact Hrec|]. split; [done|]. intros j Hj%elem_of_dom. rewrite Hdom in Hj.
    by apply Hcan, elem_of_dom.
Qed.
End attempts.

(** ** Many ticks *)

Section rounds.
Context `{Env : Environment} `{PG : Postgres}.

(** What happens between two ticks of the worker leaves the delivery's row
    alone and keeps the table well formed; the rest of the world may change in
    any way. *)
Definition between (k : string) (w w' : world) : Prop :=
  db_deliveries (w_db w') !! k = db_deliveries (w_db w) !! k /\
  deliveries_ok (w_db w') /\ canonical_keys (w_db w').

(** [n] ticks that read the delivery, with anything in between. *)
Inductive rounds (batchSize : Z) (k : string) : nat -> world -> world -> Prop :=
| rounds_none w : rounds batchSize k 0 w w
| rounds_tick n w w1 w2 r w3 :
    rounds batchSize k n w w1 -> between k w1 w2 -> selected batchSize k w2 ->
    run (webhook_tick batchSize) w2 = Done r w3 -> rounds batchSize k (S n) w w3.

(** What the receiver is sent. *)
Definition message (d : delivery_row) : string * string * string * string :=
  (d_request_id d, d_url d, d_payload d, d_signature d).

Hypothesis Hserve : forall h, env_pg_fate h = PgServe.

Lemma rounds_attempts batchSize k row n w w' :
  db_deliveries (w_db w) !! k = Some row -> answers_recordable (d_url row) ->
  delivery_ok row -> rounds batchSize k n w w' ->
  exists row', db_deliveries (w_db w') !! k = Some row' /\ delivery_ok row' /\
    d_attempt row' = d_attempt row + Z.of_nat n /\ message row' = message row.
Proof.
  intros Hrow Hans Hok H. induction H as [w|n w w1 w2 r w3 _ IH Hb Hsel Hrun].
  { exists row. split; [done|]. split; [done|]. split; [lia|done]. }
  destruct (IH Hrow) as (row1 & Hrow1 & _ & Hat1 & Hm1).
  destruct Hb as (Hk & Hok2 & Hcan2). rewrite Hrow1 in Hk.
  destruct (tick_records Hserve batchSize k w2 Hok2 Hcan2 Hsel) as (r' & w3' & E & Hrec & _).
  { intros row0. rewrite Hk. intros [= <-]. injection Hm1 as _ -> _ _. done. }
  rewrite Hrun in E. injection E as <- <-. destruct Hrec as (ra & row' & Ha & Hb' & Hatt).
  rewrite Hk in Ha. injection Ha as <-. destruct Hatt as (H1 & H2 & H3 & H4 & H5 & H6).
  exists row'. split; [done|]. split; [done|]. split; [lia|].
  unfold message in *. by rewrite H2, H3, H4, H5.
Qed.

(** C22 A delivery the worker keeps reading is settled: as long as the database
    serves and the receiver's failures can be stored as text, every tick that
    reads a pending delivery returns and counts exactly one more attempt, with
    the request, the URL, the payload and the signature unchanged; so it is read
    at most [5 - attempts] more times, and after that many ticks it is delivered
    or dead, whichever status or such failure the receiver answers with.  Between
    the ticks nobody changes its row; everything else may change. *)
Theorem delivery_settles batchSize k row n w w' :
  db_deliveries (w_db w) !! k = Some row -> answers_recordable (d_url row) ->
  delivery_ok row -> rounds batchSize k n w w' ->
  exists row', db_deliveries (w_db w') !! k = Some row' /\
    d_attempt row' = d_attempt row + Z.of_nat n /\ message row' = message row /\
    d_attempt row + Z.of_nat n <= 5 /\
    (d_attempt row + Z.of_nat n = 5 -> d_status row' = DDelivered \/ d_status row' = DDead) /\
    (forall w1, between k w' w1 -> selected batchSize k w1 ->
       exists r w2, run (webhook_tick batchSize) w1 = Done r w2 /\ rounds batchSize k (S n) w w2).
Proof.
  intros Hrow Hans Hok Hr.
  destruct (rounds_attempts _ _ _ _ _ _ Hrow Hans Hok Hr) as (row' & Hrow' & [H0 Hok'] & Hat & Hm).
  exists row'. split; [done|]. split; [done|]. split; [done|]. split; [|split].
  - rewrite <- Hat. destruct (d_status row'); lia.
  - rewrite <- Hat. destruct (d_status row'); [lia|auto..].
  - intros w1 Hb Hsel. pose proof Hb as (Hk & Hok1 & Hcan1).
    destruct (tick_records Hserve batchSize k w1 Hok1 Hcan1 Hsel) as (r & w2 & E & _).
    { intros row1. rewrite Hk, Hrow'. intros [= <-]. injection Hm as _ -> _ _. done. }
    exists r, w2. split; [done|]. by econstructor.
Qed.
End rounds.

(** ** Witness *)

Module DeliveriesDemo.
Import RefEnv RelayDemo StatusDemo WebhookDemo.

(** A receiver that always answers 503; an hour passes between any two
    interactions, so that every retry is due at the next tick. *)
#[local] Instance patient : Environment :=
  let h := honest 1 503 5 in {|
    env_now := @env_now h; env_zone := @env_zone h;
    env_pg_now hist := @env_pg_now h hist + Z.of_nat (length hist) * (3600 * 10 ^ 6);
    env_uuid := @env_uuid h; env_pg_fate := @env_pg_fate h; env_rand := @env_rand h;
    env_ctx_done := @env_ctx_done h; env_select := @env_select h;
    env_dial := @env_dial h; env_ChainID := @env_ChainID h;
    env_EstimateGas := @env_EstimateGas h; env_SuggestGasPrice := @env_SuggestGasPrice h;
    env_BalanceAt := @env_BalanceAt h; env_PendingNonceAt := @env_PendingNonceAt h;
    env_SendTransaction := @env_SendTransaction h; env_accepts := @env_accepts h;
    env_TransactionReceipt := @env_TransactionReceipt h;
    env_CallContract := @env_CallContract h; env_url_ok := @env_url_ok h;
    env_http := @env_http h |}.

Definition world_after (w : world) : world :=
  match run (webhook_tick 10) w with Done _ w' | Panicked _ w' | Blocked w' => w' end.

Definition the_key : string := pd_id demo_delivery.

Definition w0 : world := Eval vm_compute in queued_world.
Definition w1 : world := Eval vm_compute in world_after w0.
Definition w2 : world := Eval vm_compute in world_after w1.
Definition w3 : world := Eval vm_compute in world_after w2.
Definition w4 : world := Eval vm_compute in world_after w3.
Definition w5 : world := Eval vm_compute in world_after w4.

(** The table is well formed and the tick reads the delivery and returns. *)
Definition tick_check (w w' : world) : bool :=
  all_rows (fun k d => row_ok d && bool_decide (pg_uuid_in k = Some k)) (db_deliveries (w_db w)) &&
  existsb (fun kv => String.eqb kv.1 the_key)
    (take 10 (due_deliveries (env_pg_now (w_hist w)) (w_db w))) &&
  match run (webhook_tick 10) w with Done _ _ => true | _ => false end.

Lemma round_of n w w' :
  tick_check w w' = true -> world_after w = w' ->
  rounds 10 the_key n w0 w -> rounds 10 the_key (S n) w0 w'.
Proof.
  unfold tick_check, world_after. intros [[Ha Hs]%andb_true_iff Hr]%andb_true_iff Hw H.
  destruct (run (webhook_tick 10) w) as [r w1'| |] eqn:E; [|discriminate Hr..]. subst w1'.
  econstructor; [exact H| | |exact E].
  - split; [done|]. split.
    + intros k d Hk. pose proof (all_rows_elim _ _ _ _ Ha Hk) as H'.
      apply andb_true_iff in H' as [H' _]. by apply row_ok_sound.
    + intros k [d Hk]. pose proof (all_rows_elim _ _ _ _ Ha Hk) as H'.
      apply andb_true_iff in H' as [_ H']. by apply bool_decide_eq_true_1 in H'.
  - split; [done|]. apply existsb_exists in Hs as ([k row] & Hin & Hk). exists row.
    apply String.eqb_eq in Hk. cbn [fst] in Hk. subst k. by apply list_elem_of_In.
Qed.

Lemma five_rounds : rounds 10 the_key 5 w0 w5.
Proof.
  apply (round_of 4 w4); [vm_compute; reflexivity..|].
  apply (round_of 3 w3); [vm_compute; reflexivity..|].
  apply (round_of 2 w2); [vm_compute; reflexivity..|].
  apply (round_of 1 w1); [vm_compute; reflexivity..|].
  apply (round_of 0 w0); [vm_compute; reflexivity..|].
  constructor.
Qed.

Lemma delivery_settles_witness :
  exists row, db_deliveries (w_db w5) !! the_key = Some row /\
    d_attempt row = 5 /\ (d_status row = DDelivered \/ d_status row = DDead).
Proof.
  destruct (db_deliveries (w_db w0) !! the_key) as [row|] eqn:Er;
    [|vm_compute in Er; discriminate].
  assert (row_ok row && (d_attempt row =? 0) = true) as Hr.
  { vm_compute in Er. injection Er as <-. reflexivity. }
  apply andb_true_iff in Hr as [Hok%row_ok_sound Ha%Z.eqb_eq].
  destruct (delivery_settles (Env := patient) (fun _ => eq_refl) 10 the_key row 5 w0 w5 Er) as
    (row' & Hrow' & Hat & _ & _ & Hset & _).
  - intros headers body h. reflexivity.
  - exact Hok.
  - exact five_rounds.
  - rewrite Ha in Hat, Hset. exists row'. split; [exact Hrow'|]. split; [exact Hat|].
    apply Hset. reflexivity.
Defined.
End DeliveriesDemo.
