(* ===== verification/Alert.v ===== *)
(** * Alerts ([internal/alert])

    The [Notifier] interface and its implementations: [Discard], [Multi] (fan
    out, errors joined), [Throttled] (one alert per key and interval), and the
    webhook and Telegram transports. *)

From Stdlib Require Import ZArith Lia.
From S2P Require Import Prelude GoLib Json Eth Database World RefEnv.

Local Open Scope Z_scope.
Local Open Scope txmill_scope.

Inductive Level := LevelInfo | LevelWarn | LevelError.

Definition level_text (l : Level) : string :=
  match l with LevelInfo => "info" | LevelWarn => "warn" | LevelError => "error" end.

(** [Tags] is a Go map; it is carried in the order the program ranges over
    it. *)
Record Alert := MkAlert {
  al_Key : string;
  al_Level : Level;
  al_Title : string;
  al_Message : string;
  al_Tags : list (string * string);
}.

(** [alert.Notifier] *)
Definition Notifier := Alert -> prog (result unit).

Definition Discard : Notifier := fun _ => Ret (Ok tt).

(** [errors.Join(errs...)]: nil when there is none. *)
Fixpoint errors_Join (errs : list error) : option error :=
  match errs with
  | [] => None
  | [e] => Some e
  | e :: rest =>
      match errors_Join rest with
      | Some e' => Some (EJoin e e')
      | None => Some e
      end
  end.

Fixpoint notify_all (ns : list Notifier) (a : Alert) (errs : list error) : prog (list error) :=
  match ns with
  | [] => Ret errs
  | n :: rest =>
      let! r := n a in
      match r with
      | Ok _ => notify_all rest a errs
      | Err e => notify_all rest a (errs ++ [e])
      end
  end.

Definition Multi (ns : list Notifier) : Notifier := fun a =>
  let! errs := notify_all ns a [] in
  match errors_Join errs with
  | None => Ret (Ok tt)
  | Some e => Ret (Err e)
  end.

Section transports.
Context `{Env : Environment}.

(** The critical section of [Throttled.Notify]: whether the alert passes. *)
Definition throttle_pass (interval : Z) (key : string) : prog bool := action (fun w =>
  let now := env_now (w_hist w) in
  let w1 := log EvNow w in
  match w_throttle w !! key with
  | Some last =>
      if now - last <? interval then (false, w1)
      else (true, set_throttle (<[key := now]> (w_throttle w)) w1)
  | None => (true, set_throttle (<[key := now]> (w_throttle w)) w1)
  end).

Definition Throttled (inner : Notifier) (interval : Z) : Notifier := fun a =>
  let! pass := throttle_pass interval (al_Key a) in
  if pass then inner a else Ret (Ok tt).

(** A JSON object of strings; [encoding/json] writes map keys sorted. *)
Definition json_tags (tags : list (string * string)) : string :=
  json_object (List.map (fun kv => (kv.1, Some (json_string kv.2))) tags).

(** The body of the webhook transport: the keys of the map in sorted
    order. *)
Definition alert_body (a : Alert) (ts : Z) : string :=
  json_object
    [("key", Some (json_string (al_Key a)));
     ("level", Some (json_string (level_text (al_Level a))));
     ("message", Some (json_string (al_Message a)));
     ("tags", Some (json_tags (al_Tags a)));
     ("title", Some (json_string (al_Title a)));
     ("ts", Some (bigint_String ts))].

Definition WebhookNotify (url : string) : Notifier := fun a =>
  let! now := time_Now in
  match http_NewRequest "POST" url [("Content-Type", "application/json")]
          (alert_body a (now / 10 ^ 9)) with
  | Err e => Ret (Err e)
  | Ok req =>
      let? resp := http_Do req in
      if 400 <=? rs_status resp
      then Ret (Err (EText ("alert webhook: HTTP " +:+ bigint_String (rs_status resp))))
      else Ret (Ok tt)
  end.

(** The text of a Telegram message. *)
Definition telegram_text (a : Alert) : string :=
  "[" +:+ ToUpper (level_text (al_Level a)) +:+ "] " +:+ al_Title a +:+
  String "010"%char (al_Message a) +:+
  foldr (fun kv s => String "010"%char (kv.1 +:+ ": " +:+ kv.2) +:+ s) "" (al_Tags a).

Record Telegram := MkTelegram {
  tg_apiBase : string;
  tg_botToken : string;
  tg_chatID : string;
}.

Definition NewTelegram (botToken chatID : string) : Telegram :=
  MkTelegram "https://api.telegram.org" botToken chatID.
Definition SetAPIBase (base : string) (t : Telegram) : Telegram :=
  MkTelegram base (tg_botToken t) (tg_chatID t).

(** [url.Values.Encode]: the keys sorted, here [chat_id] before [text]. *)
Definition telegram_form (t : Telegram) (a : Alert) : string :=
  "chat_id=" +:+ QueryEscape (tg_chatID t) +:+ "&text=" +:+ QueryEscape (telegram_text a).

Definition TelegramNotify (t : Telegram) : Notifier := fun a =>
  let apiURL := tg_apiBase t +:+ "/bot" +:+ tg_botToken t +:+ "/sendMessage" in
  match http_NewRequest "POST" apiURL [("Content-Type", "application/x-www-form-urlencoded")]
          (telegram_form t a) with
  | Err e => Ret (Err e)
  | Ok req =>
      let? resp := http_Do req in
      if 400 <=? rs_status resp
      then Ret (Err (EText ("telegram: HTTP " +:+ bigint_String (rs_status resp) +:+ ": " +:+
             String.substring 0 512 (rs_body resp))))
      else Ret (Ok tt)
  end.
End transports.

(** ** Frames *)

Section frames.
Context `{Env : Environment}.

Lemma WebhookNotify_total url a : total (WebhookNotify url a).
Proof. unfold WebhookNotify. solve_total. Qed.
Lemma TelegramNotify_total t a : total (TelegramNotify t a).
Proof. unfold TelegramNotify. solve_total. Qed.

(** The notifiers touch only the history and the throttle's memory. *)
Definition alert_blind {B} (g : world -> B) : Prop :=
  (forall w, g (log EvNow w) = g w) /\ (forall r w, g (log (EvHttp r) w) = g w) /\
  forall t w, g (set_throttle t w) = g w.

Lemma WebhookNotify_keeps {B} (g : world -> B) url a : alert_blind g -> keeps g (WebhookNotify url a).
Proof.
  intros (Hn & Hl & _). apply keeps_bind; [by apply time_Now_keeps|]. intros now.
  destruct (http_NewRequest _ _ _ _); [|done].
  apply keeps_bind; [by apply http_Do_keeps|]. intros [resp|e]; [|done]. by destruct (_ <=? _).
Qed.
Lemma TelegramNotify_keeps {B} (g : world -> B) t a : alert_blind g -> keeps g (TelegramNotify t a).
Proof.
  intros (_ & Hl & _). unfold TelegramNotify. destruct (http_NewRequest _ _ _ _); [|done].
  apply keeps_bind; [by apply http_Do_keeps|]. intros [resp|e]; [|done]. by destruct (_ <=? _).
Qed.

(** What holds of every transport holds of the composed notifiers. *)
Lemma Multi_total ns a : Forall (fun n : Notifier => total (n a)) ns -> total (Multi ns a).
Proof.
  intros H. unfold Multi. apply total_bind; [|intros errs; by destruct (errors_Join errs)].
  generalize (@nil error). induction H as [|n ns Hn Hns IH]; intros errs; [done|]. cbn [notify_all].
  apply total_bind; [done|]. intros [?|?]; apply IH.
Qed.
Lemma Multi_keeps {B} (g : world -> B) ns a :
  Forall (fun n : Notifier => keeps g (n a)) ns -> keeps g (Multi ns a).
Proof.
  intros H. unfold Multi. apply keeps_bind; [|intros errs; by destruct (errors_Join errs)].
  generalize (@nil error). induction H as [|n ns Hn Hns IH]; intros errs; [done|]. cbn [notify_all].
  apply keeps_bind; [done|]. intros [?|?]; apply IH.
Qed.
Lemma Throttled_total inner i a : total (inner a) -> total (Throttled inner i a).
Proof. intros H. apply total_bind; [apply total_action|]. by intros []. Qed.
Lemma Throttled_keeps {B} (g : world -> B) inner i a :
  alert_blind g -> keeps g (inner a) -> keeps g (Throttled inner i a).
Proof.
  intros (Hl & _ & Ht) H. apply keeps_bind; [|by intros []]. apply keeps_action. intros w. cbv zeta.
  destruct (w_throttle w !! al_Key a) as [last|]; [destruct (_ <? _)|]; cbn [fst snd]; by rewrite ?Ht.
Qed.
End frames.

(** ** Properties *)

(** Every transport run in turn, whatever the others answer: the answers and the
    final world. *)
Fixpoint ask_each (ns : list Notifier) (a : Alert) (w : world) : option (list (result unit) * world) :=
  match ns with
  | [] => Some ([], w)
  | n :: rest =>
      match run (n a) w with
      | Done r w1 =>
          match ask_each rest a w1 with
          | Some (rs, w2) => Some (r :: rs, w2)
          | None => None
          end
      | _ => None
      end
  end.

Definition errors_of (rs : list (result unit)) : list error :=
  omap (fun r => match r with Ok _ => None | Err e => Some e end) rs.

Lemma notify_all_asks ns a errs w rs w' :
  ask_each ns a w = Some (rs, w') ->
  run (notify_all ns a errs) w = Done (errs ++ errors_of rs) w'.
Proof.
  revert errs w rs. induction ns as [|n ns IH]; intros errs w rs; cbn [ask_each notify_all].
  { intros [= <- <-]. simpl. by rewrite app_nil_r. }
  rewrite run_bind. destruct (run (n a) w) as [r w1| |]; [|done..].
  destruct (ask_each ns a w1) as [[rs' w2]|] eqn:E; [|done]. intros [= <- <-].
  destruct r as [[]|e].
  - by rewrite (IH errs w1 rs').
  - rewrite (IH (errs ++ [e]) w1 rs') by done. by rewrite <- app_assoc.
Qed.

Lemma errors_Join_None errs : errors_Join errs = None <-> errs = [].
Proof. destruct errs as [|e [|e' l]]; [done..|]. split; [|done]. simpl. intros H. by repeat case_match. Qed.

Lemma errors_of_nil rs : errors_of rs = [] <-> Forall (fun r => r = Ok tt) rs.
Proof.
  induction rs as [|[[]|e] rs IH]; unfold errors_of in *; csimpl.
  - split; [constructor|done].
  - rewrite IH. split; [by constructor|]. by intros [_ H]%Forall_cons.
  - split; [done|]. by intros [? _]%Forall_cons.
Qed.

(** [Multi] asks every transport in turn, also after one failed, and reports
    success exactly when all of them succeeded. *)
Theorem Multi_fans_out ns a w rs w' :
  ask_each ns a w = Some (rs, w') ->
  exists r, run (Multi ns a) w = Done r w' /\ length rs = length ns /\
    (r = Ok tt <-> Forall (fun x => x = Ok tt) rs).
Proof.
  intros H. unfold Multi. rewrite run_bind, (notify_all_asks _ _ _ _ _ _ H). simpl.
  assert (length rs = length ns) as Hl.
  { revert w rs H. induction ns as [|n ns IH]; intros w rs; simpl; [by intros [= <- _]|].
    destruct (run (n a) w); [|done..]. destruct (ask_each ns a w0) as [[rs' w2]|] eqn:E; [|done].
    intros [= <- ->]. simpl. f_equal. by eapply IH. }
  pose proof (errors_Join_None (errors_of rs)) as Hj. rewrite errors_of_nil in Hj.
  destruct (errors_Join (errors_of rs)); eexists; do 2 (split; [done|]); rewrite <- Hj; by split.
Qed.

Section throttle.
Context `{Env : Environment}.

(** The throttle's record of a key is at least [t], and so is the clock. *)
Definition sent_since (key : string) (t : Z) (w : world) : Prop :=
  t <= env_now (w_hist w) /\ exists last, w_throttle w !! key = Some last /\ t <= last.

(** What the transports behind a throttle do: leave its record alone, and time
    does not go back. *)
Definition transport_frame (inner : Notifier) : Prop :=
  forall a w r w', run (inner a) w = Done r w' ->
    w_throttle w' = w_throttle w /\ env_now (w_hist w) <= env_now (w_hist w').

Lemma throttle_pass_since interval k key t w b w' :
  (forall h e, env_now h <= env_now (e :: h)) ->
  run (throttle_pass interval k) w = Done b w' -> sent_since key t w -> sent_since key t w'.
Proof.
  intros Hmono H [Ht (last & Hl & Hlt)]. unfold throttle_pass in H. rewrite run_action in H.
  pose proof (Hmono (w_hist w) EvNow) as Hm.
  assert (forall th, (exists last, th !! key = Some last /\ t <= last) ->
    sent_since key t (set_throttle th (log EvNow w))) as Hth.
  { intros th Hth. split; [simpl; lia|]. done. }
  assert (exists last, <[k := env_now (w_hist w)]> (w_throttle w) !! key = Some last /\ t <= last) as Hnew.
  { destruct (decide (k = key)) as [->|Hne].
    - rewrite lookup_insert_eq. eauto.
    - rewrite lookup_insert_ne by done. eauto. }
  destruct (w_throttle w !! k) as [lk|]; [destruct (_ <? interval)|]; simpl in H;
    injection H as _ <-; [|by apply Hth..].
  split; [simpl; lia|]. exists last. done.
Qed.

End throttle.

(** ** Witnesses *)

Module AlertDemo.
Import RefEnv.

Definition demo_alert : Alert := MkAlert "treasury_low:1" LevelWarn "low" "balance 1" [].
Definition failing : Notifier := fun _ => Ret (Err (EText "HTTP 500")).

Lemma Multi_fans_out_witness :
  exists r, run (Multi [failing; Discard] demo_alert) demo_world = Done r demo_world /\ r <> Ok tt.
Proof.
  destruct (Multi_fans_out [failing; Discard] demo_alert demo_world
    [Err (EText "HTTP 500"); Ok tt] demo_world eq_refl) as (r & Hr & _ & Hiff).
  exists r. split; [exact Hr|]. intros E. apply Hiff in E. inversion E. discriminate.
Defined.

Lemma clock_mono h e : env_now h <= env_now (e :: h).
Proof. cbn [env_now refEnv honest]. unfold clock. simpl length. lia. Qed.

Lemma discard_frame : transport_frame Discard.
Proof. intros a w r w' [= _ <-]. split; [done|lia]. Qed.

End AlertDemo.
