(* ===== verification/Gas.v ===== *)
(** * The gas worker ([internal/gas])

    One tick visits every app with a top-up policy; for each it warns when the
    treasury is low and refills, from the treasury, every signer whose balance
    is below the threshold and that was not topped up within the window. *)

From Stdlib Require Import ZArith Lia.
From S2P Require Import Prelude GoLib Eth Database World Chain SignerPool RefEnv.
From S2P Require Import AppService RelayService RelayStatus Alert.

Local Open Scope Z_scope.
Local Open Scope txmill_scope.

(** [60 * time.Second], in the microseconds of the database. *)
Definition recentTopupWindow : Z := 60 * 10 ^ 6.
Definition topupGasLimit : Z := 21000.

Record Worker := MkWorker {
  gw_chain : Client;
  gw_keystore : KeystoreLoader;
  gw_notifier : Notifier;
  gw_interval : Z;
}.

(** A nil notifier is replaced by [Discard]. *)
Definition NewWorker (ch : Client) (ks : KeystoreLoader) (n : option Notifier) (interval : Z) : Worker :=
  MkWorker ch ks (default Discard n) interval.

(** The amounts are [*big.Int] parsed from the columns' text; one that does not
    parse is nil. *)
Record appPolicy := MkAppPolicy {
  po_id : string;
  po_treasuryAddress : address;
  po_signerMinBalance : option Z;
  po_signerRefillAmount : option Z;
  po_treasuryMinBalance : option Z;
}.

(** [String()] of a possibly nil [*big.Int] *)
Definition bigptr_String (o : option Z) : string :=
  match o with Some z => bigint_String z | None => "<nil>" end.

Section gas.
Context `{Env : Environment} `{Eth : GoEthereum} `{PG : Postgres}.

Definition policy_of (kv : string * app_row) : appPolicy :=
  MkAppPolicy kv.1 (HexToAddress (a_treasury_address kv.2))
    (SetString10 (numeric_text (a_signer_min_balance kv.2)))
    (SetString10 (numeric_text (a_signer_refill_amount kv.2)))
    (SetString10 (numeric_text (a_treasury_min_balance kv.2))).

Definition policies_query : stmt_env -> database -> result (list appPolicy) := fun _ db =>
  Ok (List.map policy_of
       (rows_where (fun _ a => numeric_positive (a_signer_min_balance a) && numeric_positive (a_signer_refill_amount a))
          (db_apps db))).

Definition listSigners (appID : string) : prog (result (list address)) :=
  let? rows := pg (select (signer_rows appID)) in
  Ret (Ok (List.map (fun kv => HexToAddress kv.1) rows)).

Definition is_recent (a : string) (now : Z) (g : gas_row) : bool :=
  String.eqb (g_signer_address g) a &&
  match g_status g with GSubmitted | GConfirmed => true | _ => false end &&
  (now - recentTopupWindow <? g_submitted_at g).

Definition recent_query (a : address) : stmt_env -> database -> result bool := fun se db =>
  Ok (negb (no_row (is_recent (lowerHex a) (se_now se)) (db_gas db))).

Definition hasRecentTopup (a : address) : prog (result bool) := pg (select (recent_query a)).

(** ** refill *)

Definition gas_row_of (appID : string) (to : address) (nonce : Z) (h : hash)
    (amount : option Z) (gasPrice now : Z) : result gas_row :=
  match pg_uuid_in appID, pg_decimal_in (bigptr_String amount),
        pg_decimal_in (bigint_String gasPrice) with
  | Some app, Some amt, Some price =>
      Ok {| g_app_id := app; g_signer_address := lowerHex to; g_nonce := int64_of nonce;
            g_tx_hash := lowerHash h; g_amount := amt; g_gas_price := price;
            g_status := GSubmitted; g_submitted_at := now |}
  | _, _, _ => Err invalid_text
  end.

Definition insert_gas_stmt (appID : string) (to : address) (nonce : Z) (h : hash)
    (amount : option Z) (gasPrice : Z) : stmt unit := fun se db =>
  match gas_row_of appID to nonce h amount gasPrice (se_now se) with
  | Err e => Err e
  | Ok row => insert_gas row se db
  end.

(** The row is written after the broadcast; a failed insert is only
    logged.  [types.NewTransaction] takes a nil amount for zero. *)
Definition refill (wk : Worker) (p : appPolicy) (treasuryKey : private_key) (nonce gasPrice : Z)
    (to : address) : prog (result unit) :=
  let amount := po_signerRefillAmount p in
  let tx := Transaction nonce to (default 0 amount) topupGasLimit gasPrice "" in
  match SignTx (ChainID (gw_chain wk)) tx treasuryKey with
  | Err e => Ret (Err (EWrap "sign" e))
  | Ok signed =>
      let? _u := SendTransaction signed or "send" in
      do! pg (insert_gas_stmt (po_id p) to nonce (stx_hash signed) amount gasPrice) in
      Ret (Ok tt)
  end.

(** ** processApp *)

(** The loop over the signers: the nonce advances only after a refill that
    was broadcast. *)
Fixpoint refill_all (wk : Worker) (p : appPolicy) (key : private_key) (gasPrice : Z)
    (signers : list address) (nonce : Z) : prog unit :=
  match signers with
  | [] => Ret tt
  | s :: rest =>
      let! rc := hasRecentTopup s in
      match rc with
      | Err _ => refill_all wk p key gasPrice rest nonce
      | Ok true => refill_all wk p key gasPrice rest nonce
      | Ok false =>
          let! b := BalanceAt s in
          match b with
          | Err _ => refill_all wk p key gasPrice rest nonce
          | Ok bal =>
              let! min := deref_big (po_signerMinBalance p) in
              if min <=? bal then refill_all wk p key gasPrice rest nonce
              else
                let! r := refill wk p key nonce gasPrice s in
                match r with
                | Err _ => refill_all wk p key gasPrice rest nonce
                | Ok _ => refill_all wk p key gasPrice rest (u64 (nonce + 1))
                end
          end
      end
  end.

Definition treasury_alert (p : appPolicy) (tBal tMin : Z) : Alert :=
  MkAlert ("treasury_low:" +:+ po_id p) LevelWarn "Treasury balance low"
    ("balance " +:+ bigint_String tBal +:+ " wei (min " +:+ bigint_String tMin +:+ " wei)")
    [("app_id", po_id p); ("treasury", Address_Hex (po_treasuryAddress p))].

Definition processApp (wk : Worker) (p : appPolicy) : prog (result unit) :=
  let? tBal := BalanceAt (po_treasuryAddress p) or "treasury balance" in
  let! tMin := deref_big (po_treasuryMinBalance p) in
  do! (if (0 <? tMin) && (tBal <? tMin)
       then gw_notifier wk (treasury_alert p tBal tMin) else Ret (Ok tt)) in
  let? signers := listSigners (po_id p) or "list signers" in
  match signers with
  | [] => Ret (Ok tt)
  | _ =>
      let? priv := ks_Load (KeystoreLoader := gw_keystore wk) (po_treasuryAddress p) or "load treasury key" in
      let? nonce := PendingNonceAt (po_treasuryAddress p) or "treasury nonce" in
      let? gasPrice := SuggestGasPrice or "gas price" in
      do! refill_all wk p priv gasPrice signers nonce in
      Ret (Ok tt)
  end.

Definition gas_tick (wk : Worker) : prog (result unit) :=
  let? apps := pg (select policies_query) or "list apps" in
  do! for_each apps (fun p => do! processApp wk p in Ret tt) in
  Ret (Ok tt).
End gas.

(** ** Lemmas *)

Abbreviation txs := (fun w => sent_log (w_hist w)).

(** A top-up transfer of a policy. *)
Definition is_topup (p : appPolicy) (nonce gasPrice : Z) (to : address) (tx : transaction) : Prop :=
  tx = Transaction nonce to (default 0 (po_signerRefillAmount p)) topupGasLimit gasPrice "".

Section lemmas.
Context `{Env : Environment} `{Eth : GoEthereum} `{PG : Postgres}.
Context `{EL : !GoEthereumLaws} `{NA : !NodeAccepts}.

Lemma refill_cases wk p key nonce gp s w r w' :
  run (refill wk p key nonce gp s) w = Done r w' ->
  (is_ok r = false /\ txs w' = txs w) \/
  exists stx, txs w' = (stx, is_ok r) :: txs w /\ is_topup p nonce gp s (stx_tx stx) /\
     stx_from stx = PubkeyToAddress key.
Proof.
  unfold refill. destruct (SignTx _ _ _) as [stx|e] eqn:Es.
  2:{ intros [= <- <-]. by left. }
  apply SignTx_sound in Es as [Htx Hfrom].
  intros (sr & w1 & H1 & H)%bind_Done. unfold SendTransaction in H1. rewrite run_action in H1.
  simpl in H1. injection H1 as <- <-.
  destruct (env_SendTransaction _ _) as [[]|e] eqn:Esend.
  - rewrite (send_ok _ _ _ Esend) in H. apply bind_Done in H as (u & w2 & H2 & [= <- <-]).
    apply (keeps_Done txs) in H2; [|by apply pg_keeps]. right. exists stx. by rewrite H2.
  - injection H as <- <-. destruct (env_accepts _ _); [right; by exists stx|by left].
Qed.

(** How many of the broadcasts were answered. *)
Definition answers (sent : list (signed_tx * bool)) : Z := Z.of_nat (length (List.filter snd sent)).

(** The transactions one pass over the signers sends, oldest first: the nonce of
    each is the first one plus the number of answered broadcasts before it. *)
Definition pass_sent (p : appPolicy) (key : private_key) (gp : Z) (signers : list address)
    (nonce : Z) (sent : list (signed_tx * bool)) : Prop :=
  List.map (fun e => tx_to (stx_tx e.1)) sent `sublist_of` signers /\
  forall i e, sent !! i = Some e ->
    is_topup p (u64 (nonce + answers (take i sent))) gp (tx_to (stx_tx e.1)) (stx_tx e.1) /\
    stx_from e.1 = PubkeyToAddress key.

Lemma pass_sent_skip p key gp s signers nonce sent :
  pass_sent p key gp signers nonce sent -> pass_sent p key gp (s :: signers) nonce sent.
Proof. intros [H1 H2]. split; [by apply sublist_cons|done]. Qed.

Lemma pass_sent_cons p key gp s signers nonce stx (ok : bool) sent :
  in_u64 nonce -> is_topup p nonce gp s (stx_tx stx) -> stx_from stx = PubkeyToAddress key ->
  pass_sent p key gp signers (if ok then u64 (nonce + 1) else nonce) sent ->
  pass_sent p key gp (s :: signers) nonce ((stx, ok) :: sent).
Proof.
  intros Hn Ht Hf [H1 H2]. assert (tx_to (stx_tx stx) = s) as Hto by by rewrite Ht.
  split.
  - simpl. rewrite Hto. by apply sublist_skip.
  - intros [|i] x Hx; simpl in Hx.
    + injection Hx as <-. unfold answers. cbn [take List.filter length fst].
      rewrite Z.add_0_r, u64_small by done. by rewrite Hto.
    + apply H2 in Hx as [Hx Hfx]. split; [|done]. unfold answers in *. cbn [take List.filter snd].
      destruct ok; [|done]. rewrite u64_add_l in Hx. cbn [length].
      rewrite Nat2Z.inj_succ, <- Z.add_1_l, Z.add_assoc. done.
Qed.

Lemma refill_all_sent wk p key gp signers nonce w w' :
  in_u64 nonce -> run (refill_all wk p key gp signers nonce) w = Done tt w' ->
  exists sent, txs w' = rev sent ++ txs w /\ pass_sent p key gp signers nonce sent.
Proof.
  revert nonce w. induction signers as [|s signers IH]; intros nonce w Hn H;
    cbn [refill_all] in H.
  { injection H as <-. exists []. split; [done|]. split; [constructor|done]. }
  assert (forall w1, txs w1 = txs w -> run (refill_all wk p key gp signers nonce) w1 = Done tt w' ->
    exists sent, txs w' = rev sent ++ txs w /\ pass_sent p key gp (s :: signers) nonce sent) as Hskip.
  { intros w1 E Hr. apply IH in Hr as (sent & Hs & Hp); [|done]. exists sent.
    rewrite Hs, E. split; [done|]. by apply pass_sent_skip. }
  apply bind_Done in H as (rc & w1 & H1 & H).
  apply (keeps_Done txs) in H1; [|by apply keeps_view_txs, pg_select_view].
  destruct rc as [[|]|e]; [by eapply Hskip| |by eapply Hskip].
  apply bind_Done in H as (b & w2 & H2 & H).
  apply (keeps_Done txs) in H2; [|by apply rpc_keeps]. rewrite H1 in H2.
  destruct b as [bal|e]; [|by eapply Hskip].
  apply bind_Done in H as (mn & w3 & H3 & H). unfold deref_big in H3.
  destruct (po_signerMinBalance p) as [m|]; [|done]. injection H3 as -> <-.
  destruct (mn <=? bal); [by eapply Hskip|].
  apply bind_Done in H as (r & w4 & H4 & H). apply refill_cases in H4 as
    [[E Ht]|(stx & Ht & Htop & Hf)]; rewrite H2 in Ht.
  { destruct r as [u|e]; [done|]. by eapply Hskip. }
  assert (exists sent, txs w' = rev sent ++ txs w4 /\
    pass_sent p key gp signers (if is_ok r then u64 (nonce + 1) else nonce) sent) as (sent & Hs & Hp).
  { destruct r as [u|e]; (eapply IH; [|exact H]); [apply u64_range|done]. }
  exists ((stx, is_ok r) :: sent).
  split; [by rewrite Hs, Ht; simpl; rewrite <- app_assoc|]. by apply pass_sent_cons.
Qed.

Lemma answers_all sent i :
  Forall (fun e => e.2 = true) sent -> (i <= length sent)%nat -> answers (take i sent) = Z.of_nat i.
Proof.
  intros Ha. revert i. unfold answers.
  induction Ha as [|[s b] sent Hb _ IH]; intros [|i] Hi; simpl in *; try done; [lia|].
  subst b. simpl. rewrite Nat2Z.inj_succ, (IH i) by lia. lia.
Qed.
End lemmas.

(** ** Properties *)

Section properties.
Context `{Env : Environment} `{Eth : GoEthereum} `{PG : Postgres}.
Context `{EL : !GoEthereumLaws} `{NA : !NodeAccepts}.

(** C32 One pass over an app's signers sends at most one top-up per signer and in
    their order, each for exactly the refill amount (zero when the stored one is
    not a number) and signed with the treasury
    key, with treasury nonces that count the answered broadcasts: consecutive,
    without gap or reuse, when no answer was lost; after a transfer the node took
    in but answered with an error the next one carries the same nonce.  (A
    broadcast answered without error was taken in: [NodeAccepts].) *)
Theorem refill_all_consecutive wk p key gp signers nonce w w' :
  in_u64 nonce -> run (refill_all wk p key gp signers nonce) w = Done tt w' ->
  exists sent, txs w' = rev sent ++ txs w /\
    List.map (fun e => tx_to (stx_tx e.1)) sent `sublist_of` signers /\
    (forall i s b, sent !! i = Some (s, b) ->
      tx_nonce (stx_tx s) = u64 (nonce + answers (take i sent)) /\
      tx_value (stx_tx s) = default 0 (po_signerRefillAmount p) /\
      tx_gas_limit (stx_tx s) = 21000 /\ stx_from s = PubkeyToAddress key) /\
    (Forall (fun e => e.2 = true) sent -> forall i s b, sent !! i = Some (s, b) ->
      tx_nonce (stx_tx s) = u64 (nonce + Z.of_nat i)).
Proof.
  intros Hn H. apply refill_all_sent in H as (sent & Hs & Hsub & Hall); [|done].
  exists sent. split; [done|]. split; [done|]. split.
  - intros i s b Hi. apply Hall in Hi as [Ht Hf]. simpl in Ht, Hf. by rewrite Ht, Hf.
  - intros Hans i s b Hi. pose proof (lookup_lt_Some _ _ _ Hi) as Hlt.
    apply Hall in Hi as [Ht _]. simpl in Ht. rewrite Ht. cbn [tx_nonce].
    by rewrite answers_all by (done || lia).
Qed.

(** A signer is topped up only when the database shows no top-up of it within
    the window and its balance is below the threshold; otherwise nothing is
    sent. *)
Theorem refill_guarded wk p key gp s nonce w w' :
  run (refill_all wk p key gp [s] nonce) w = Done tt w' ->
  txs w' = txs w \/
  exists bal min stx, env_pg_fate (w_hist w) = PgServe /\
    recent_query s (env_stmt w) (w_db w) = Ok false /\
    env_BalanceAt (EvDb :: w_hist w) s = Ok bal /\ po_signerMinBalance p = Some min /\
    bal < min /\ txs w' = stx :: txs w /\ tx_to (stx_tx stx.1) = s.
Proof.
  intros H. cbn [refill_all] in H. unfold hasRecentTopup in H.
  rewrite run_bind, run_select in H.
  destruct (env_pg_fate (w_hist w)) as [|b e]; [|injection H as <-; by left].
  destruct (recent_query s (env_stmt w) (w_db w)) as [[|]|e] eqn:Eq; [by injection H as <-; left| |by injection H as <-; left].
  unfold BalanceAt, rpc in H. rewrite run_bind, run_action in H. cbn [fst snd] in H.
  cbn [w_hist log] in H.
  destruct (env_BalanceAt (EvDb :: w_hist w) s) as [bal|e] eqn:Eb; [|by injection H as <-; left].
  destruct (po_signerMinBalance p) as [mn|]; [|done]. rewrite run_bind in H. cbn [run deref_big] in H.
  destruct (Z.leb_spec mn bal) as [Hle|Hlt]; [by injection H as <-; left|].
  apply bind_Done in H as (r & w2 & H2 & H).
  assert (w2 = w') as ->. { destruct r; by injection H. }
  apply refill_cases in H2 as [[_ Ht]|(stx & Ht & Htop & _)]; [by left|right].
  exists bal, mn, (stx, is_ok r). do 6 (split; [done|]). simpl. by rewrite Htop.
Qed.

Lemma insert_gas_stmt_ok appID to nonce h amount gp se db x db' :
  insert_gas_stmt appID to nonce h amount gp se db = Ok (x, db') ->
  exists row, db_gas db' = <[se_uuid se := row]> (db_gas db) /\
    g_signer_address row = lowerHex to /\ g_status row = GSubmitted /\
    g_submitted_at row = se_now se.
Proof.
  unfold insert_gas_stmt. destruct (gas_row_of _ _ _ _ _ _ _) as [row|e] eqn:Er; [|done].
  unfold insert_gas. intros H. do 4 apply check_Ok in H as [_ H].
  apply check_Ok in H as [_ [= _ <-]]. exists row. split; [done|].
  unfold gas_row_of in Er. destruct (pg_uuid_in appID); [|done].
  destruct (pg_decimal_in (bigptr_String amount)); [|done].
  destruct (pg_decimal_in (bigint_String gp)); [|done]. by injection Er as <-.
Qed.

(** A recorded top-up silences the worker for that signer: while a submitted
    or confirmed top-up of it is younger than the window, a pass over the signer
    sends nothing and changes nothing. *)
Lemma recent_topup_suppresses wk p key gp s nonce w k row :
  db_gas (w_db w) !! k = Some row -> g_signer_address row = lowerHex s ->
  g_status row = GSubmitted \/ g_status row = GConfirmed ->
  env_pg_now (w_hist w) - recentTopupWindow < g_submitted_at row ->
  run (refill_all wk p key gp [s] nonce) w = Done tt (log EvDb w).
Proof.
  intros Hk Ha Hst Hnow. cbn [refill_all]. unfold hasRecentTopup.
  rewrite run_bind, run_select. destruct (env_pg_fate (w_hist w)); [|done].
  unfold recent_query. replace (no_row _ _) with false; [done|]. symmetry.
  apply no_row_false. exists k, row. split; [done|]. unfold is_recent.
  rewrite Ha, String.eqb_refl. simpl. apply andb_true_iff. split; [|by apply Z.ltb_lt].
  by destruct Hst as [-> | ->].
Qed.

Lemma refill_records wk p key nonce gp s w w1 :
  run (refill wk p key nonce gp s) w = Done (Ok tt) w1 ->
  db_gas (w_db w1) <> db_gas (w_db w) ->
  exists k row, db_gas (w_db w1) !! k = Some row /\ g_signer_address row = lowerHex s /\
    g_status row = GSubmitted /\ g_submitted_at row = env_pg_now (tail (w_hist w1)).
Proof.
  unfold refill. destruct (SignTx _ _ _) as [stx|e]; [|done].
  intros (u & w2 & H2 & H)%(try_Done _ _ (EWrap "send")) Hne.
  apply (keeps_Done w_db) in H2; [|by apply SendTransaction_keeps].
  apply bind_Done in H as (r & w3 & H3 & [= <-]).
  unfold pg in H3. rewrite run_action in H3.
  destruct (insert_gas_stmt _ _ _ _ _ _ _ _) as [[x db']|e] eqn:Ei;
    destruct (env_pg_fate _) as [|[] e']; simpl in H3; injection H3 as _ <-; simpl in Hne;
    rewrite ?H2 in Hne; try done;
    apply insert_gas_stmt_ok in Ei as (row & Hg & Ha & Hst & Hat);
    exists (se_uuid (env_stmt w2)), row; simpl; rewrite Hg, lookup_insert_eq; done.
Qed.

(** C33 No double top-up: once the row of a top-up is recorded, further passes over
    the signer send nothing until the window has passed, as long as the row is
    kept. *)
Theorem topup_once wk p key nonce gp s w w1 key' gp' nonce' w2 :
  run (refill wk p key nonce gp s) w = Done (Ok tt) w1 ->
  db_gas (w_db w1) <> db_gas (w_db w) ->
  db_gas (w_db w1) ⊆ db_gas (w_db w2) ->
  env_pg_now (w_hist w2) < env_pg_now (tail (w_hist w1)) + 60 * 10 ^ 6 ->
  run (refill_all wk p key' gp' [s] nonce') w2 = Done tt (log EvDb w2).
Proof.
  intros H Hne Hsub Hnow. apply refill_records in H as (k & row & Hk & Ha & Hst & Hat); [|done].
  eapply recent_topup_suppresses; [by eapply lookup_weaken|done|by left|].
  unfold recentTopupWindow. lia.
Qed.

(** Apps the worker visits: both amounts of the top-up policy are positive,
    which [NaN] is for PostgreSQL. *)
Definition has_policy (row : app_row) : bool :=
  numeric_positive (a_signer_min_balance row) && numeric_positive (a_signer_refill_amount row).

(** The amounts the worker compares with are numbers. *)
Definition policy_numbers (row : app_row) : Prop :=
  a_signer_min_balance row <> NaN /\ a_treasury_min_balance row <> NaN.

Definition numeric_policies (db : database) : Prop :=
  forall id row, db_apps db !! id = Some row -> has_policy row = true -> policy_numbers row.

Lemma policy_parse n : is_Some (SetString10 (numeric_text n)) <-> n <> NaN.
Proof.
  destruct n as [z|]; simpl; [|split; [by intros [? [=]]|done]]. rewrite SetString10_String. split; eauto.
Qed.

Lemma policies_parse db se l :
  numeric_policies db -> policies_query se db = Ok l ->
  Forall (fun p => is_Some (po_signerMinBalance p) /\ is_Some (po_treasuryMinBalance p)) l.
Proof.
  intros Hnum [= <-]. apply Forall_forall. intros p Hp.
  apply list_elem_of_In, in_map_iff in Hp as ([id row] & <- & Hin).
  apply list_elem_of_In, rows_where_elem in Hin as [Hrow Hsel].
  destruct (Hnum _ _ Hrow Hsel) as [H1 H2]. split; by apply policy_parse.
Qed.

(** C39 A policy amount that is not a number stops the process: an app created
    with the treasury threshold "NaN", which [Create] does not check and
    PostgreSQL stores, and with a top-up policy, is visited by the gas worker,
    and as soon as the node answers its treasury's balance the worker
    dereferences a nil big integer. *)
Theorem nan_threshold_panics `{PL : !PostgresLaws} `{KG : !KeystoreGenerator} `{KGF : !GeneratorFrame}
    wk inp m r w res w' :
  ci_TreasuryMinBalance inp = "NaN" ->
  ci_SignerMinBalance inp = bigint_String m -> ci_SignerRefillAmount inp = bigint_String r ->
  0 < m < r -> r < 10 ^ 78 ->
  run (Create inp) w = Done (Ok res) w' ->
  exists row, db_apps (w_db w') !! cr_AppID res = Some row /\
    (forall se l, policies_query se (w_db w') = Ok l -> policy_of (cr_AppID res, row) ∈ l) /\
    forall w2 bal, env_BalanceAt (w_hist w2) (po_treasuryAddress (policy_of (cr_AppID res, row))) = Ok bal ->
      exists w3, run (processApp wk (policy_of (cr_AppID res, row))) w2
        = Panicked "invalid memory address or nil pointer dereference" w3.
Proof.
  intros Ht Hm Hr Hmr Hbig H.
  assert (forall z, nonEmptyOrZero (bigint_String z) = bigint_String z) as Hne.
  { intros z. unfold nonEmptyOrZero. destruct (String.eqb_spec (bigint_String z) "") as [E|]; [|done].
    pose proof (SetString10_String z) as Hz. by rewrite E in Hz. }
  apply Create_cases in H as (_ & _ & [[? _]|(res' & Heq & Hc)]); [done|].
  specialize (Heq _ eq_refl) as <-.
  destruct (cre_app _ _ _ _ Hc) as (row & Ha & _ & _ & _ & _ & _ & Hp1 & Hp2 & Hp3).
  rewrite Hm, Hne, pg_numeric_decimal in Hp1 by lia. rewrite Hr, Hne, pg_numeric_decimal in Hp2 by lia.
  rewrite Ht in Hp3. change (nonEmptyOrZero "NaN") with "NaN" in Hp3. rewrite pg_numeric_nan in Hp3.
  injection Hp1 as Hp1. injection Hp2 as Hp2. injection Hp3 as Hp3.
  assert (db_apps (w_db w') !! cr_AppID res = Some row) as Hrow by by rewrite Ha, lookup_insert_eq.
  exists row. split; [done|]. split.
  - intros se l [= <-]. apply list_elem_of_In, in_map_iff. exists (cr_AppID res, row). split; [done|].
    apply list_elem_of_In, rows_where_elem. split; [done|]. rewrite <- Hp1, <- Hp2. simpl.
    apply andb_true_iff. split; apply Z.ltb_lt; lia.
  - intros w2 bal Hb. unfold processApp, BalanceAt, rpc. rewrite run_bind, run_action. cbn [fst snd].
    rewrite Hb. unfold policy_of. cbn [po_treasuryMinBalance snd]. rewrite <- Hp3. by eexists.
Qed.

Lemma refill_all_total wk p key gp signers nonce :
  is_Some (po_signerMinBalance p) -> total (refill_all wk p key gp signers nonce).
Proof.
  intros [m Hm]. revert nonce. induction signers as [|s l IH]; intros nonce; [done|].
  cbn [refill_all]. rewrite Hm. cbn [deref_big].
  apply total_bind; [apply total_action|]. intros [[|]|e]; try apply IH.
  apply total_bind; [apply total_action|]. intros [bal|e]; try apply IH.
  apply total_bind; [done|]. intros mn. destruct (mn <=? bal); [apply IH|].
  apply total_bind; [|intros [?|?]; apply IH]. unfold refill. destruct (SignTx _ _ _); [|done].
  apply total_bind; [apply total_action|]. intros [?|?]; [|done].
  apply total_bind; [apply total_action|done].
Qed.

Lemma processApp_total P wk p :
  (forall a, total_on P (gw_notifier wk a)) -> (forall a, total_on P (ks_Load (KeystoreLoader := gw_keystore wk) a)) ->
  is_Some (po_signerMinBalance p) -> is_Some (po_treasuryMinBalance p) ->
  total_on P (processApp wk p).
Proof.
  intros Hn Hk Hm [t Ht]. unfold processApp. rewrite Ht. cbn [deref_big].
  apply total_on_bind; [apply total_on_action|]. intros [tBal|e]; [|done].
  apply total_on_bind; [done|]. intros tMin.
  apply total_on_bind; [destruct (_ && _); [apply Hn|done]|]. intros _.
  apply total_on_bind; [apply total_on_bind; [apply total_on_action|by intros [?|?]]|].
  intros [[|s l]|e]; [done| |done].
  apply total_on_bind; [apply Hk|]. intros [key|e]; [|done].
  apply total_on_bind; [apply total_on_action|]. intros [nonce|e]; [|done].
  apply total_on_bind; [apply total_on_action|]. intros [gp|e]; [|done].
  apply total_on_bind; [by apply total_total_on, refill_all_total|done].
Qed.

Lemma refill_all_files wk p key gp signers nonce : keeps w_files (refill_all wk p key gp signers nonce).
Proof.
  revert nonce. induction signers as [|s l IH]; intros nonce; [done|]. cbn [refill_all].
  apply keeps_bind; [by apply pg_keeps|]. intros [[|]|e]; try apply IH.
  apply keeps_bind; [by apply rpc_keeps|]. intros [bal|e]; try apply IH.
  apply keeps_bind; [by destruct (po_signerMinBalance p)|]. intros mn. destruct (mn <=? bal); [apply IH|].
  apply keeps_bind; [|intros [?|?]; apply IH]. unfold refill. destruct (SignTx _ _ _); [|done].
  apply keeps_bind; [by apply keeps_action|]. intros [?|?]; [|done].
  apply keeps_bind; [by apply pg_keeps|done].
Qed.

Lemma processApp_files wk p :
  (forall a, keeps w_files (gw_notifier wk a)) -> (forall a, keeps w_files (ks_Load (KeystoreLoader := gw_keystore wk) a)) ->
  keeps w_files (processApp wk p).
Proof.
  intros Hn Hk. unfold processApp.
  apply keeps_bind; [by apply rpc_keeps|]. intros [tBal|e]; [|done].
  apply keeps_bind; [by destruct (po_treasuryMinBalance p)|]. intros tMin.
  apply keeps_bind; [destruct (_ && _); [apply Hn|done]|]. intros _.
  apply keeps_bind; [apply keeps_bind; [by apply pg_keeps|by intros [?|?]]|].
  intros [[|s l]|e]; [done| |done].
  apply keeps_bind; [apply Hk|]. intros [key|e]; [|done].
  apply keeps_bind; [by apply rpc_keeps|]. intros [nonce|e]; [|done].
  apply keeps_bind; [by apply rpc_keeps|]. intros [gp|e]; [|done].
  apply keeps_bind; [apply refill_all_files|done].
Qed.

(** A tick returns while the key files are such that loading returns and the
    amounts of the policies are numbers. *)
Lemma gas_tick_safe (safe : gmap string string -> Prop) wk w :
  (forall a, total_on (fun w => safe (w_files w)) (gw_notifier wk a)) ->
  (forall a, keeps w_files (gw_notifier wk a)) ->
  (forall a, total_on (fun w => safe (w_files w)) (ks_Load (KeystoreLoader := gw_keystore wk) a)) ->
  (forall a, keeps w_files (ks_Load (KeystoreLoader := gw_keystore wk) a)) ->
  safe (w_files w) -> numeric_policies (w_db w) ->
  exists r w', run (gas_tick wk) w = Done r w' /\ w_files w' = w_files w.
Proof.
  intros Hn Hnf Hk Hkf Hs Hnum. unfold gas_tick. rewrite run_bind, run_select.
  set (q := match env_pg_fate (w_hist w) with PgServe => _ | PgFail _ e => Err e end).
  destruct q as [apps|e] eqn:Eq; [|by eexists _, _].
  unfold q in Eq. destruct (env_pg_fate _); [|done].
  apply policies_parse in Eq; [|done]. rewrite Forall_forall in Eq.
  apply (total_on_run w_files safe _ (log EvDb w)); [| |done].
  - apply total_on_bind; [|done]. apply total_on_for_each. intros p Hp.
    apply Eq in Hp as [H1 H2]. apply total_on_bind; [by apply processApp_total|done].
  - apply keeps_bind; [|done]. apply keeps_for_each. intros p.
    apply keeps_bind; [by apply processApp_files|done].
Qed.
End properties.

(** ** Witnesses *)

Module GasDemo.
Import RefEnv.

Definition demo_worker : Worker := NewWorker (MkClient 146) refKs None (60 * 10 ^ 9).
Definition demo_policy : appPolicy := policy_of (demo_app, demo_app_row).

Definition both : list address := [demo_signer1; demo_signer2].

Definition pass_world : world :=
  match run (refill_all demo_worker demo_policy 9000 100 both 7) demo_world with
  | Done _ w | Panicked _ w | Blocked w => w
  end.

Lemma demo_pass :
  run (refill_all demo_worker demo_policy 9000 100 both 7) demo_world = Done tt pass_world.
Proof. vm_compute. reflexivity. Qed.

(** Both signers hold 5, below the threshold of 10: two transfers of 50. *)
Lemma refill_all_consecutive_witness :
  exists sent, txs pass_world = rev sent ++ txs demo_world /\ length sent = 2%nat /\
    forall i s b, sent !! i = Some (s, b) -> tx_nonce (stx_tx s) = u64 (7 + Z.of_nat i) /\
      tx_value (stx_tx s) = 50.
Proof.
  destruct (refill_all_consecutive _ _ _ _ _ 7 _ _ ltac:(vm_compute; split; [discriminate|reflexivity])
    demo_pass) as (sent & Hs & _ & Hall & Hans).
  assert (Forall (fun e => e.2 = true) sent) as Ht.
  { assert (Forall (fun e => e.2 = true) (txs pass_world)) as Hf by (vm_compute; repeat constructor).
    cbv beta in Hf, Hs. rewrite Hs in Hf. apply Forall_app in Hf as [Hf _].
    by rewrite Forall_forall in Hf |- *; intros x Hx; apply Hf, list_elem_of_In, in_rev; rewrite rev_involutive;
      apply list_elem_of_In. }
  exists sent. split; [exact Hs|]. split.
  - assert (length (txs pass_world) = 2%nat) as Hl by (vm_compute; reflexivity).
    cbv beta in Hl, Hs. rewrite Hs, length_app, length_rev in Hl. simpl in Hl. lia.
  - intros i s b Hi. split; [exact (Hans Ht i s b Hi)|]. exact (proj1 (proj2 (Hall i s b Hi))).
Defined.

Definition guarded_world : world :=
  match run (refill_all demo_worker demo_policy 9000 100 [demo_signer1] 7) demo_world with
  | Done _ w | Panicked _ w | Blocked w => w
  end.

Lemma demo_guarded :
  run (refill_all demo_worker demo_policy 9000 100 [demo_signer1] 7) demo_world
    = Done tt guarded_world.
Proof. vm_compute. reflexivity. Qed.

Lemma refill_guarded_witness :
  exists stx, txs guarded_world = stx :: txs demo_world /\ tx_to (stx_tx stx.1) = demo_signer1.
Proof.
  destruct (refill_guarded _ _ _ _ _ _ _ _ demo_guarded)
    as [Hno|(bal & mn & stx & _ & _ & _ & _ & _ & Ht & Hto)].
  - exfalso. revert Hno. vm_compute. discriminate.
  - exists stx. split; [exact Ht|exact Hto].
Defined.

Definition refilled_world : world :=
  match run (refill demo_worker demo_policy 9000 7 100 demo_signer1) demo_world with
  | Done _ w | Panicked _ w | Blocked w => w
  end.

Lemma topup_once_witness :
  run (refill_all demo_worker demo_policy 9000 100 [demo_signer1] 8) refilled_world
    = Done tt (log EvDb refilled_world).
Proof.
  apply (topup_once demo_worker demo_policy 9000 7 100 demo_signer1 demo_world refilled_world).
  - vm_compute. reflexivity.
  - intros E. assert (map_to_list (db_gas (w_db refilled_world)) = map_to_list (db_gas (w_db demo_world)))
      as E' by by rewrite E. revert E'. vm_compute. discriminate.
  - reflexivity.
  - vm_compute. reflexivity.
Defined.

(** An app with the threshold "NaN". *)
Definition nan_input : CreateInput := MkCreateInput "shop" 1 "" "10" "50" "NaN".

#[local] Instance demoGen : KeystoreGenerator := { ks_Generate := rpc EvGenerateKey (fun h =>
  Ok (addr (9100 + Z.of_nat (length h)))) }.
#[local] Instance demoGenFrame : GeneratorFrame.
Proof. split. by apply rpc_keeps. Qed.

Lemma nan_created : done_ok (run (Create nan_input) demo_world) = true.
Proof. vm_compute. reflexivity. Qed.

Lemma nan_threshold_panics_witness :
  exists res row w' w3, run (Create nan_input) demo_world = Done (Ok res) w' /\
    run (processApp demo_worker (policy_of (cr_AppID res, row))) w'
      = Panicked "invalid memory address or nil pointer dereference" w3.
Proof.
  destruct (done_ok_inv _ nan_created) as (res & w' & E).
  destruct (nan_threshold_panics demo_worker nan_input 10 50 demo_world res w' eq_refl eq_refl eq_refl
    ltac:(lia) ltac:(lia) E) as (row & _ & _ & H).
  destruct (H w' 5 eq_refl) as [w3 H3]. exists res, row, w', w3. split; [exact E|exact H3].
Defined.
End GasDemo.
