(* ===== verification/Treasury.v ===== *)
(** * Treasury sweeps ([internal/treasury])

    [Sweep] sends a given amount, or everything that remains after gas, from an
    app's treasury to an address. *)

From Stdlib Require Import ZArith Lia.
From S2P Require Import Prelude GoLib Eth Database World Chain SignerPool RefEnv.
From S2P Require Import AppService RelayService RelayStatus.

Local Open Scope Z_scope.
Local Open Scope txmill_scope.

Definition sweepGasLimit : Z := 21000.

Record SweepResult := MkSweepResult {
  sw_TxHash : hash;
  sw_From : address;
  sw_To : address;
  sw_ValueWei : Z;
}.

(** [treasury.Service] *)
Record TreasuryService := MkTreasuryService {
  ts_chain : Client;
  ts_keystore : KeystoreLoader;
}.

Definition NewService (ch : Client) (ks : KeystoreLoader) : TreasuryService := MkTreasuryService ch ks.

Section sweep.
Context `{Env : Environment} `{Eth : GoEthereum} `{PG : Postgres}.

(** The amount to send: the whole balance less the cost of the transfer when
    no amount is given. *)
Definition sweep_amount (from : address) (value : option Z) (gasPrice : Z) : prog (result Z) :=
  match value with
  | Some v => Ret (Ok v)
  | None =>
      let? bal := BalanceAt from or "treasury balance" in
      let gasCost := gasPrice * sweepGasLimit in
      let send := bal - gasCost in
      if send <=? 0 then
        Ret (Err (EText ("treasury balance " +:+ bigint_String bal
                         +:+ " wei does not cover gas " +:+ bigint_String gasCost +:+ " wei")))
      else Ret (Ok send)
  end.

Definition Sweep (s : TreasuryService) (appID : string) (to : address) (value : option Z)
    : prog (result SweepResult) :=
  let! r := pg (select (treasury_of appID)) in
  match r with
  | Err e =>
      if errors_Is e ErrNoRows then Ret (Err (ESentinel ErrAppNotFound))
      else Ret (Err (EWrap "treasury lookup" e))
  | Ok treasuryHex =>
      let from := HexToAddress treasuryHex in
      let? priv := ks_Load (KeystoreLoader := ts_keystore s) from or "load treasury key" in
      let? nonce := PendingNonceAt from or "treasury nonce" in
      let? gasPrice := SuggestGasPrice or "gas price" in
      let? send := sweep_amount from value gasPrice in
      let tx := Transaction nonce to send sweepGasLimit gasPrice "" in
      match SignTx (ChainID (ts_chain s)) tx priv with
      | Err e => Ret (Err (EWrap "sign" e))
      | Ok signed =>
          let? _u := SendTransaction signed or "send" in
          Ret (Ok (MkSweepResult (stx_hash signed) from to send))
      end
  end.
End sweep.

(** ** Properties *)

Section properties.
Context `{Env : Environment} `{Eth : GoEthereum} `{PG : Postgres} `{EL : !GoEthereumLaws}.

(** What [sweep_amount] answers: the given value, or the balance less the cost
    of the transfer, when that is positive. *)
Lemma sweep_amount_ok from value gp w v w' :
  run (sweep_amount from value gp) w = Done (Ok v) w' ->
  view w' = view w /\
  match value with
  | Some x => v = x
  | None => 0 < v /\ exists bal, env_BalanceAt (w_hist w) from = Ok bal /\ v + gp * 21000 = bal
  end.
Proof.
  unfold sweep_amount. destruct value as [x|]; [by intros [= <- <-]|].
  unfold BalanceAt, rpc. rewrite run_bind, run_action. cbn [fst snd].
  destruct (env_BalanceAt (w_hist w) from) as [bal|e]; [|done].
  destruct (Z.leb_spec (bal - gp * sweepGasLimit) 0) as [|Hpos]; [done|]. intros [= <- <-].
  unfold sweepGasLimit in *. split; [done|]. split; [lia|]. exists bal. split; [done|lia].
Qed.

Lemma sweep_amount_view from value gp : keeps view (sweep_amount from value gp).
Proof.
  unfold sweep_amount. destruct value; [done|].
  apply keeps_bind; [by apply rpc_keeps|]. intros [bal|e]; [|done]. by destruct (_ <=? 0).
Qed.

(** The transfer a sweep makes of [v] wei: a plain transfer to the given address,
    signed for the treasury of the app, for the given value, or, when none is
    given, for a positive value that together with the gas cost is the whole
    balance the node reported. *)
Definition sweep_transfer (appID : string) (to : address) (value : option Z) (w : world)
    (stx : signed_tx) (v : Z) : Prop :=
  exists u row, pg_uuid_in appID = Some u /\ db_apps (w_db w) !! u = Some row /\
    stx_from stx = HexToAddress (a_treasury_address row) /\
    tx_to (stx_tx stx) = to /\ tx_data (stx_tx stx) = "" /\ tx_value (stx_tx stx) = v /\
    match value with
    | Some x => v = x
    | None => 0 < v /\ exists h bal, env_BalanceAt h (stx_from stx) = Ok bal /\
        v + tx_gas_price (stx_tx stx) * tx_gas_limit (stx_tx stx) = bal
    end.

(** What a sweep sent, by its outcome: whatever the node took in is the one
    transfer, and its answer was the outcome. *)
Definition sweep_post (appID : string) (to : address) (value : option Z)
    (r : result SweepResult) (w w' : world) : Prop :=
  match r with
  | Ok res => exists stx h, env_SendTransaction h stx = Ok tt /\
      sent_log (w_hist w') =
        (if env_accepts h stx then [(stx, true)] else []) ++ sent_log (w_hist w) /\
      sw_TxHash res = stx_hash stx /\ sw_From res = stx_from stx /\ sw_To res = to /\
      sweep_transfer appID to value w stx (sw_ValueWei res)
  | Err e => sent_log (w_hist w') = sent_log (w_hist w) \/
      exists stx v h e', e = EWrap "send" e' /\ env_SendTransaction h stx = Err e' /\
        env_accepts h stx = true /\
        sent_log (w_hist w') = (stx, false) :: sent_log (w_hist w) /\
        sweep_transfer appID to value w stx v
  end.

Lemma sweep_post_fail appID to value r w v w' e :
  view v = view w -> Done (Err e) v = Done r w' ->
  w_db w' = w_db w /\ sweep_post appID to value r w w'.
Proof. intros [= Hd _ Ht] [= <- <-]. simpl. rewrite Hd, Ht. auto. Qed.

(** A loader that answers with the key of the address asked for. *)
Definition loads_own (ks : KeystoreLoader) : Prop :=
  forall a k w1 w2, run (ks_Load (KeystoreLoader := ks) a) w1 = Done (Ok k) w2 -> PubkeyToAddress k = a.

Lemma Sweep_cases s appID to value w r w' :
  @KeystoreFrame (ts_keystore s) -> loads_own (ts_keystore s) ->
  run (Sweep s appID to value) w = Done r w' ->
  w_db w' = w_db w /\ sweep_post appID to value r w w'.
Proof.
  intros Hkf Hks H. unfold Sweep in H.
  pose proof (sweep_post_fail appID to value r w) as Hfail.
  rewrite run_bind, run_select in H.
  destruct (env_pg_fate (w_hist w)) as [|b e0].
  2:{ destruct (errors_Is e0 ErrNoRows); by eapply (Hfail (log EvDb w)) in H. }
  unfold treasury_of in H. destruct (pg_uuid_in appID) as [u|] eqn:Hu; [|by eapply (Hfail (log EvDb w)) in H].
  destruct (db_apps (w_db w) !! u) as [row|] eqn:Hrow; [|by eapply (Hfail (log EvDb w)) in H].
  apply bind_Done in H as (k & w1 & H1 & H). pose proof H1 as Hk.
  apply (keeps_Done view) in H1; [|apply ks_Load_view].
  destruct k as [key|e]; [|by eapply (Hfail w1) in H]. apply Hks in Hk.
  apply bind_Done in H as (n & w2 & H2 & H).
  apply (keeps_Done view) in H2; [|by apply rpc_keeps]. rewrite H1 in H2.
  destruct n as [nonce|e]; [|by eapply (Hfail w2) in H].
  apply bind_Done in H as (g & w3 & H3 & H).
  apply (keeps_Done view) in H3; [|by apply rpc_keeps]. rewrite H2 in H3.
  destruct g as [gp|e]; [|by eapply (Hfail w3) in H].
  apply bind_Done in H as (a & w4 & H4 & H). pose proof H4 as Ha.
  apply (keeps_Done view) in H4; [|apply sweep_amount_view]. rewrite H3 in H4.
  destruct a as [v|e]; [|by eapply (Hfail w4) in H].
  apply sweep_amount_ok in Ha as [_ Ha].
  destruct (SignTx _ _ _) as [stx|e] eqn:Es; [|by eapply (Hfail w4) in H].
  apply SignTx_sound in Es as [Htx Hfrom].
  assert (sweep_transfer appID to value w stx v) as Htr.
  { exists u, row. rewrite Htx. simpl. do 2 (split; [done|]). split; [congruence|]. do 3 (split; [done|]).
    destruct value as [x|]; [done|]. destruct Ha as (Hpos & bal & Hb & Hsum). split; [done|].
    eexists _, bal. split; [|exact Hsum]. rewrite Hfrom, Hk. exact Hb. }
  apply bind_Done in H as (sr & w5 & H5 & H). unfold SendTransaction in H5.
  rewrite run_action in H5. simpl in H5. injection H5 as <- <-. injection H4 as Hd4 _ Ht4.
  destruct (env_SendTransaction (w_hist w4) stx) as [[]|e] eqn:Esend; injection H as <- <-; simpl; rewrite Hd4.
  - split; [done|]. exists stx, (w_hist w4). split; [done|].
    split; [destruct (env_accepts (w_hist w4) stx); simpl; by rewrite Ht4|]. split; [done|].
    split; [simpl; congruence|]. done.
  - split; [done|]. destruct (env_accepts (w_hist w4) stx) eqn:Eacc; simpl; rewrite Ht4; [right|by left].
    exists stx, v, (w_hist w4), e. done.
Qed.

(** C35 A sweep moves treasury funds at most once and exactly: on success the
    node, whose answer had no error, took in one plain transfer to the given
    address for the requested value — or, when no value is given, for a positive
    value that together with the gas cost is the whole balance the node reported —
    from the treasury of the app; on an error nothing was sent, or it was exactly
    that transfer and its answer was lost; the database is never changed.  (A
    broadcast answered without error was taken in: [NodeAccepts]; the key store
    answers with the key asked for.) *)
Theorem Sweep_exact `{NA : !NodeAccepts} s appID to value w r w' :
  @KeystoreFrame (ts_keystore s) -> loads_own (ts_keystore s) ->
  run (Sweep s appID to value) w = Done r w' ->
  w_db w' = w_db w /\
  match r with
  | Ok res => exists stx, sent_log (w_hist w') = (stx, true) :: sent_log (w_hist w) /\
      sw_TxHash res = stx_hash stx /\ sw_From res = stx_from stx /\ sw_To res = to /\
      sweep_transfer appID to value w stx (sw_ValueWei res)
  | Err e => sent_log (w_hist w') = sent_log (w_hist w) \/
      exists stx v h e', e = EWrap "send" e' /\ env_SendTransaction h stx = Err e' /\
        env_accepts h stx = true /\
        sent_log (w_hist w') = (stx, false) :: sent_log (w_hist w) /\
        sweep_transfer appID to value w stx v
  end.
Proof.
  intros Hkf Hks H. apply Sweep_cases in H as [Hd Hp]; [|done..]. split; [done|].
  destruct r as [res|e]; [|exact Hp]. destruct Hp as (stx & h & Hs & Hl & Hrest). exists stx.
  rewrite (send_ok _ _ _ Hs) in Hl. by split.
Qed.
End properties.

(** ** Witnesses *)

Module SweepDemo.
Import RefEnv.

(** Every account holds 10^9 wei. *)
#[local] Instance rich : Environment := honest 1 200 (10 ^ 9).
Definition demo_treasury_service : TreasuryService := NewService (MkClient 146) refKs.

Definition sweep_run (env : Environment) : outcome (result SweepResult) :=
  run (Sweep (Env := env) demo_treasury_service demo_app (addr 55) None) demo_world.

Definition swept_world : world :=
  match sweep_run rich with Done _ w | Panicked _ w | Blocked w => w end.

Definition swept : result SweepResult :=
  match sweep_run rich with Done r _ => r | _ => Err (EText "") end.

Lemma demo_sweep : sweep_run rich = Done swept swept_world.
Proof. vm_compute. reflexivity. Qed.

Lemma demo_key : loads_own refKs.
Proof. intros a k w1 w2 [= <- _]. by apply word_mod_val. Qed.

Lemma Sweep_exact_witness :
  w_db swept_world = demo_db /\
  match swept with
  | Ok res => exists stx, sent_log (w_hist swept_world) = [(stx, true)] /\
      tx_value (stx_tx stx) = sw_ValueWei res
  | Err _ => False
  end.
Proof.
  destruct (Sweep_exact (Env := rich) demo_treasury_service _ _ _ _ _ _ _ demo_key demo_sweep) as [Hd Hr].
  split; [exact Hd|]. destruct swept as [res|e] eqn:Es.
  - destruct Hr as (stx & Hl & _ & _ & _ & u & row & _ & _ & _ & _ & _ & Hv & _).
    exists stx. split; [exact Hl|exact Hv].
  - revert Es. vm_compute. discriminate.
Defined.

(** The node takes the transfer in and its answer is lost. *)
Definition timing_out : Environment :=
  let h := honest 1 200 (10 ^ 9) in {|
    env_now := @env_now h; env_zone := @env_zone h; env_pg_now := @env_pg_now h;
    env_uuid := @env_uuid h; env_pg_fate := @env_pg_fate h; env_rand := @env_rand h;
    env_ctx_done := @env_ctx_done h; env_select := @env_select h; env_dial := @env_dial h;
    env_ChainID := @env_ChainID h; env_EstimateGas := @env_EstimateGas h;
    env_SuggestGasPrice := @env_SuggestGasPrice h; env_BalanceAt := @env_BalanceAt h;
    env_PendingNonceAt := @env_PendingNonceAt h;
    env_SendTransaction _ _ := Err (EText "timeout"); env_accepts _ _ := true;
    env_TransactionReceipt := @env_TransactionReceipt h;
    env_CallContract := @env_CallContract h; env_url_ok := @env_url_ok h;
    env_http := @env_http h |}.

(** An errored sweep may have been sent. *)
Example lost_sweep :
  match sweep_run timing_out with
  | Done (Err _) w => List.map snd (sent_log (w_hist w)) = [false]
  | _ => False
  end.
Proof. vm_compute. reflexivity. Qed.
End SweepDemo.
