(* ===== verification/Api.v ===== *)
(** * The HTTP API ([internal/api])

    The routes, the bearer-token middleware and the handlers, over the services
    they call.  Decoding a request body ([c.Bind]) is the web framework's and a
    parameter; a response is the status and the structure that is rendered as
    JSON, an [echo.HTTPError], or a plain error, which the framework answers with
    500. *)

From Stdlib Require Import ZArith Lia.
From S2P Require Import Prelude GoLib Crypto Json Eth Database World Chain SignerPool RefEnv.
From S2P Require Import AppService RelayService RelayStatus Treasury.

Local Open Scope Z_scope.
Local Open Scope txmill_scope.

(** ** Messages *)

Record createAppRequest := MkCreateAppRequest {
  ca_Name : string;
  ca_PoolSize : Z;
  ca_DefaultCallbackURL : string;
  ca_SignerMinBalance : string;
  ca_SignerRefillAmount : string;
  ca_TreasuryMinBalance : string;
}.

Record createAppResponse := MkCreateAppResponse {
  car_AppID : string;
  car_BearerToken : string;
  car_DefaultCallbackSecret : string;
  car_TreasuryAddress : string;
  car_SignerAddresses : list string;
}.

Record relayRequest := MkRelayRequest {
  rr_ChainID : Z;
  rr_To : string;
  rr_Data : string;
  rr_Value : string;
  rr_GasLimit : Z;
  rr_Deadline : Z;
  rr_CallbackURL : string;
  rr_CallbackMetadata : string;
}.

Record relayResponse := MkRelayResponse {
  rp_RequestID : string;
  rp_TxHash : string;
  rp_Signer : string;
}.

Record signersResponse := MkSignersResponse {
  sr_AppID : string;
  sr_SignerAddresses : list string;
}.

Record balancesAccount := MkBalancesAccount {
  ba_Address : string;
  ba_BalanceWei : string;
}.

Record balancesSigner := MkBalancesSigner {
  bs_Address : string;
  bs_BalanceWei : string;
  bs_LastUsedAt : option string;
}.

Record balancesResponse := MkBalancesResponse {
  br_Treasury : balancesAccount;
  br_Signers : list balancesSigner;
}.

Record sweepRequest := MkSweepRequest {
  sq_To : string;
  sq_Value : string;
}.

Record sweepResponse := MkSweepResponse {
  sp_TxHash : string;
  sp_From : string;
  sp_To : string;
  sp_ValueWei : string;
}.

Inductive body :=
| BHealth
| BCreateApp (r : createAppResponse)
| BRelay (r : relayResponse)
| BStatus (s : Status)
| BSigners (r : signersResponse)
| BBalances (r : balancesResponse)
| BSweep (r : sweepResponse).

Inductive response :=
| JSON (code : Z) (b : body)
| HTTPError (code : Z) (msg : string)
  (** an error that is not an [echo.HTTPError] *)
| Failure (e : error)
  (** no handler of this program is registered for the route *)
| Unrouted.

(** What a handler reads of the request besides its path. *)
Record http_in := HttpIn {
  hi_Authorization : string;
  hi_body : string;
}.

(** [c.Bind]: the framework's decoding of the body. *)
Class Binder := {
  Bind_createApp : http_in -> result createAppRequest;
  Bind_relay : http_in -> result relayRequest;
  Bind_sweep : http_in -> result sweepRequest;
}.

Definition maxCallbackMetadataLen : nat := 1024.

(** [api.Handlers]; the services may be nil. *)
Record Handlers := MkHandlers {
  h_Apps : option AppSvc;
  h_Relay : option Service;
  h_Chain : option Client;
  h_Treasury : option TreasuryService;
}.

Definition extractBearerToken (authHeader : string) : result string :=
  if negb (HasPrefix authHeader "Bearer ") then Err (EText "not a bearer token")
  else
    let tok := TrimPrefix authHeader "Bearer " in
    if String.eqb tok "" then Err (EText "empty token") else Ok tok.

Definition decodeHexBytes (s : string) : result string :=
  let s := TrimPrefix s "0x" in
  if String.eqb s "" then Ok "" else hex_DecodeString s.

(** [value]: empty is zero; otherwise a non-negative decimal. *)
Definition relay_value (s : string) : option Z :=
  if String.eqb s "" then Some 0
  else match SetString10 s with
       | Some v => if v <? 0 then None else Some v
       | None => None
       end.

(** [value] of a sweep: empty is everything; otherwise a positive decimal. *)
Definition sweep_value (s : string) : option (option Z) :=
  if String.eqb s "" then Some None
  else match SetString10 s with
       | Some v => if v <=? 0 then None else Some (Some v)
       | None => None
       end.

Section api.
Context `{Env : Environment} `{Eth : GoEthereum} `{PG : Postgres} `{B : Binder}.

(** ** Authentication *)

Definition bearerAuth (next : Identity -> prog response) (rq : http_in) : prog response :=
  match extractBearerToken (hi_Authorization rq) with
  | Err _ => Ret (HTTPError 401 "missing or invalid Authorization header")
  | Ok tok =>
      let! r := Authenticate tok in
      match r with
      | Err e =>
          if errors_Is e ErrInvalidToken then Ret (HTTPError 401 "invalid token")
          else Ret (Failure e)
      | Ok id =>
          if id_Disabled id then Ret (HTTPError 403 "app is disabled")
          else next id
      end
  end.

(** ** Handlers *)

Definition health : prog response := Ret (JSON 200 BHealth).

Definition createApp (apps : AppSvc) (rq : http_in) : prog response :=
  match Bind_createApp rq with
  | Err _ => Ret (HTTPError 400 "invalid json body")
  | Ok req =>
      let! r := Create (KG := as_keystore apps) (MkCreateInput (TrimSpace (ca_Name req)) (ca_PoolSize req)
                 (TrimSpace (ca_DefaultCallbackURL req))
                 (TrimSpace (ca_SignerMinBalance req))
                 (TrimSpace (ca_SignerRefillAmount req))
                 (TrimSpace (ca_TreasuryMinBalance req))) in
      match r with
      | Err e => Ret (HTTPError 400 (error_text e))
      | Ok res =>
          Ret (JSON 201 (BCreateApp (MkCreateAppResponse (cr_AppID res) (cr_BearerToken res)
                 (cr_DefaultCallbackSecret res) (Address_Hex (cr_TreasuryAddress res))
                 (List.map Address_Hex (cr_SignerAddresses res)))))
      end
  end.

Definition listSigners (id : string) (caller : Identity) : prog response :=
  if negb (String.eqb id (id_AppID caller)) then Ret (HTTPError 404 "not found")
  else
    let! r := ListSigners (id_AppID caller) in
    match r with
    | Err e => Ret (Failure e)
    | Ok addrs =>
        Ret (JSON 200 (BSigners (MkSignersResponse (id_AppID caller) (List.map Address_Hex addrs))))
    end.

(** One goroutine per address; the answers are kept by index.  The calls only
    read, and are made here in the order of the addresses. *)
Fixpoint fetch_balances (addrs : list address) : prog (list (result Z)) :=
  match addrs with
  | [] => Ret []
  | a :: rest =>
      let! b := BalanceAt a in
      let! bs := fetch_balances rest in
      Ret (b :: bs)
  end.

(** The balances, or the first error by index. *)
Fixpoint all_ok (rs : list (result Z)) : result (list Z) :=
  match rs with
  | [] => Ok []
  | Err e :: _ => Err e
  | Ok b :: rest => match all_ok rest with Ok bs => Ok (b :: bs) | Err e => Err e end
  end.

Definition signer_balance (s : SignerInfo) (b : Z) : balancesSigner :=
  MkBalancesSigner (Address_Hex (si_Address s)) (bigint_String b)
    (option_map utc_micros (si_LastUsedAt s)).

Definition getBalances (h : Handlers) (id : string) (caller : Identity) : prog response :=
  if negb (String.eqb id (id_AppID caller)) then Ret (HTTPError 404 "not found")
  else if negb (bool_decide (is_Some (h_Chain h))) then Ret (HTTPError 503 "chain client not configured")
  else
    let! r := Accounts (id_AppID caller) in
    match r with
    | Err e => Ret (Failure e)
    | Ok accounts =>
        let! rs := fetch_balances
                     (ac_Treasury accounts :: List.map si_Address (ac_Signers accounts)) in
        match all_ok rs with
        | Err e => Ret (HTTPError 502 ("balance fetch: " +:+ error_text e))
        | Ok [] => Panic "index out of range"
        | Ok (b :: bs) =>
            Ret (JSON 200 (BBalances (MkBalancesResponse
              (MkBalancesAccount (Address_Hex (ac_Treasury accounts)) (bigint_String b))
              (zip_with signer_balance (ac_Signers accounts) bs))))
        end
    end.

Definition getRelay (requestID : string) (caller : Identity) : prog response :=
  let! r := Get requestID (id_AppID caller) in
  match r with
  | Err e => if errors_Is e ErrNotFound then Ret (HTTPError 404 "not found") else Ret (Failure e)
  | Ok st => Ret (JSON 200 (BStatus st))
  end.

(** The checks of [postRelay] up to the submission: the input, or the message
    of the 400 answer. *)
Definition relay_input (appID : string) (rq : http_in) : string + SubmitInput :=
  match Bind_relay rq with
  | Err _ => inl "invalid json body"
  | Ok req =>
      if negb (IsHexAddress (rr_To req)) then inl "to is not a valid address"
      else
        match decodeHexBytes (rr_Data req) with
        | Err e => inl ("data: " +:+ error_text e)
        | Ok data =>
            match relay_value (rr_Value req) with
            | None => inl "value must be a non-negative decimal string"
            | Some value =>
                if Nat.ltb maxCallbackMetadataLen (String.length (rr_CallbackMetadata req))
                then inl "callback_metadata exceeds limit"
                else inr (MkSubmitInput appID (rr_ChainID req) (HexToAddress (rr_To req)) data
                            (Some value) (rr_GasLimit req) (rr_Deadline req)
                            (TrimSpace (rr_CallbackURL req)) (rr_CallbackMetadata req))
            end
        end
  end.

Definition postRelay (s : Service) (rq : http_in) (caller : Identity) : prog response :=
  match relay_input (id_AppID caller) rq with
  | inl msg => Ret (HTTPError 400 msg)
  | inr inp =>
      let! r := Submit (KS := sp_keystore (svc_pools s)) (LS := sp_lister (svc_pools s)) s inp in
      match r with
      | Err e =>
          if errors_Is e ErrChainIDMismatch || errors_Is e ErrPastDeadline
          then Ret (HTTPError 400 (error_text e))
          else Ret (HTTPError 502 (error_text e))
      | Ok res =>
          Ret (JSON 202 (BRelay (MkRelayResponse (out_RequestID res) (Hash_Hex (out_TxHash res))
                 (Address_Hex (out_Signer res)))))
      end
  end.

Definition sweepTreasury (h : Handlers) (id : string) (rq : http_in) (caller : Identity)
    : prog response :=
  if negb (String.eqb id (id_AppID caller)) then Ret (HTTPError 404 "not found")
  else
    match h_Treasury h with
    | None => Ret (HTTPError 503 "treasury service not configured")
    | Some svc =>
        match Bind_sweep rq with
        | Err _ => Ret (HTTPError 400 "invalid json body")
        | Ok req =>
            if negb (IsHexAddress (sq_To req)) then Ret (HTTPError 400 "to is not a valid address")
            else
              match sweep_value (sq_Value req) with
              | None => Ret (HTTPError 400 "value must be a positive decimal string")
              | Some value =>
                  let! r := Sweep svc (id_AppID caller) (HexToAddress (sq_To req)) value in
                  match r with
                  | Err e =>
                      if errors_Is e ErrAppNotFound then Ret (HTTPError 404 "not found")
                      else Ret (HTTPError 502 (error_text e))
                  | Ok res =>
                      Ret (JSON 202 (BSweep (MkSweepResponse (Hash_Hex (sw_TxHash res))
                             (Address_Hex (sw_From res)) (Address_Hex (sw_To res))
                             (bigint_String (sw_ValueWei res)))))
                  end
              end
        end
    end.

(** ** Routes *)

Inductive endpoint :=
| GET_health
| POST_apps
| GET_signers (id : string)
| GET_balances (id : string)
| POST_sweep (id : string)
| POST_relay
| GET_relay (request_id : string).

(** The routes of [NewRouter]: which handler serves an endpoint, behind which
    middleware. *)
Definition serve (h : Handlers) (ep : endpoint) (rq : http_in) : prog response :=
  match ep with
  | GET_health => health
  | POST_apps => match h_Apps h with Some apps => createApp apps rq | None => Ret Unrouted end
  | GET_signers id =>
      match h_Apps h with Some _ => bearerAuth (listSigners id) rq | None => Ret Unrouted end
  | GET_balances id =>
      match h_Apps h with Some _ => bearerAuth (getBalances h id) rq | None => Ret Unrouted end
  | POST_sweep id =>
      match h_Apps h, h_Treasury h with
      | Some _, Some _ => bearerAuth (sweepTreasury h id rq) rq
      | _, _ => Ret Unrouted
      end
  | POST_relay =>
      match h_Apps h, h_Relay h with
      | Some _, Some s => bearerAuth (postRelay s rq) rq
      | _, _ => Ret Unrouted
      end
  | GET_relay request_id =>
      match h_Apps h, h_Relay h with
      | Some _, Some _ => bearerAuth (getRelay request_id) rq
      | _, _ => Ret Unrouted
      end
  end.

(** [e.Use(middleware.Recover())]: a panic of a handler is answered as a
    failure. *)
Definition NewRouter (h : Handlers) (ep : endpoint) (rq : http_in) : prog response :=
  recovered (fun m => Failure (EText m)) (serve h ep rq).

Definition protected (ep : endpoint) : bool :=
  match ep with GET_health | POST_apps => false | _ => true end.
End api.

(** The router answers as the handler does, and a panicking handler's caller
    gets a failure. *)
Theorem NewRouter_recovers `{Environment} `{GoEthereum} `{Postgres} `{Binder} h ep rq w :
  run (NewRouter h ep rq) w =
  match run (serve h ep rq) w with
  | Panicked m w' => Done (Failure (EText m)) w'
  | o => o
  end.
Proof. apply run_recovered. Qed.

(** ** Which request rows a submission touches *)

(** Only the request row [rid] may change, and it keeps its app. *)
Definition own_request (rid : string) (w w' : world) : Prop :=
  (forall k, k <> rid -> db_requests (w_db w') !! k = db_requests (w_db w) !! k) /\
  r_app_id <$> db_requests (w_db w') !! rid = r_app_id <$> db_requests (w_db w) !! rid.

#[export] Instance own_request_preorder rid : PreOrder (own_request rid).
Proof.
  split.
  - by intros w.
  - intros w1 w2 w3 [A1 B1] [A2 B2]. split; [|congruence].
    intros k Hk. rewrite A2, A1; done.
Qed.

Lemma own_request_same rid w w' :
  db_requests (w_db w') = db_requests (w_db w) -> own_request rid w w'.
Proof. unfold own_request. by intros ->. Qed.

Lemma own_request_db rid w w' : w_db w' = w_db w -> own_request rid w w'.
Proof. intros E. apply own_request_same. by rewrite E. Qed.

Lemma own_request_alter rid st now w w' :
  db_requests (w_db w') = alter (set_request_status st now) rid (db_requests (w_db w)) ->
  own_request rid w w'.
Proof.
  unfold own_request. intros ->. split.
  - intros k Hk. by rewrite lookup_alter_ne.
  - rewrite lookup_alter_eq. by destruct (_ !! rid).
Qed.

Section own.
Context `{Env : Environment} `{Eth : GoEthereum} `{PG : Postgres}.
Context `{KS : !KeystoreLoader} `{LS : !SignerLister}.
Context `{KSF : !KeystoreFrame} `{LSF : !ListerFrame} `{UUL : !UuidLaws}.
Context (rid : string) (Hrid : pg_uuid_in rid = Some rid).

Lemma outside_own {A} (p : prog A) : keeps outside p -> ends (own_request rid) p.
Proof.
  apply keeps_ends; [apply _|]. intros w w' [= Hd _]. apply own_request_same. by rewrite Hd.
Qed.

Lemma fireWebhook_own s r : enqueuer_frame (svc_webhooks s) -> ends (own_request rid) (fireWebhook s r).
Proof.
  intros Hf. apply (keeps_ends core); [apply _| |by apply fireWebhook_core].
  intros w w' [= Hd _ _ _]. by apply own_request_same.
Qed.

Lemma update_request_own st se w w' x :
  update_request rid st se (w_db w) = Ok (x, w_db w') -> own_request rid w w'.
Proof.
  unfold update_request. rewrite Hrid. intros [= _ Hd].
  eapply (own_request_alter rid st). by rewrite <- Hd.
Qed.

Lemma markRequestStatus_own s st :
  enqueuer_frame (svc_webhooks s) -> ends (own_request rid) (markRequestStatus s rid st).
Proof.
  intros Hf. apply ends_bind; [apply _| |].
  - apply pg_ends; [apply _|apply own_request_db|]. intros se w w' x. apply update_request_own.
  - intros r. destruct (_ && _); [|apply ends_Ret, _].
    apply ends_bind; [apply _|by apply fireWebhook_own|]. intros _. apply ends_Ret, _.
Qed.

Lemma insertAttempt_own r a n h gp : ends (own_request rid) (insertAttempt r a n h gp).
Proof.
  apply pg_ends; [apply _|apply own_request_db|]. intros se w w' x H.
  destruct (attempt_row_of _ _ _ _ _ _) as [row|e]; [|done].
  do 4 apply check_Ok in H as [_ H].
  apply check_Ok in H as [_ [= _ Hd]]. apply own_request_same. by rewrite <- Hd.
Qed.

Lemma markAttemptStatus_own aid st : ends (own_request rid) (markAttemptStatus aid st).
Proof.
  apply pg_ends; [apply _|apply own_request_db|]. intros se w w' x.
  unfold update_attempt. destruct (pg_uuid_in aid); [|done]. intros [= _ Hd].
  apply own_request_same. by rewrite <- Hd.
Qed.

Lemma markSubmitted_own aid : ends (own_request rid) (markSubmitted rid aid).
Proof.
  apply (txn2_ends (own_request rid) (update_attempt aid (set_attempt_status TSubmitted))
    (fun _ => update_request rid RSubmitted) (fun _ c => Ret c)); try done.
  - apply own_request_db.
  - intros se1 se2 w w' x y db1. unfold update_attempt. destruct (pg_uuid_in aid); [|done].
    intros [= _ <-] H. unfold update_request in H. rewrite Hrid in H. injection H as _ Hd.
    eapply (own_request_alter rid RSubmitted). by rewrite <- Hd.
Qed.

Lemma SendTransaction_own s : ends (own_request rid) (SendTransaction s).
Proof.
  apply (keeps_ends w_db); [apply _|apply own_request_db|]. by apply SendTransaction_keeps.
Qed.

#[local] Hint Resolve outside_own fireWebhook_own markRequestStatus_own insertAttempt_own
  markAttemptStatus_own markSubmitted_own SendTransaction_own Checkout_outside Load_outside
  Release_outside deref_outside gasLimitFor_outside : txmill.

Lemma submitWith_own s inp v sig :
  enqueuer_frame (svc_webhooks s) -> ends (own_request rid) (submitWith s inp v rid sig).
Proof.
  intros Hf. unfold submitWith, broadcast.
  solve_ends; apply outside_own; first [apply pool_action_outside | by apply rpc_keeps].
Qed.

(** [Submit] after the request row is written. *)
Lemma Submit_rest_own s inp v :
  enqueuer_frame (svc_webhooks s) ->
  ends (own_request rid)
    (let! l := Load (in_AppID inp) in
     match l with
     | Err e => do! markRequestStatus s rid RRejected in Ret (Err (EWrap "load signer pool" e))
     | Ok _ =>
         let! c := Checkout (in_AppID inp) in
         match c with
         | Err e => do! markRequestStatus s rid RRejected in Ret (Err (EWrap "checkout" e))
         | Ok sig => let! r := submitWith s inp v rid sig in do! Release sig in Ret r
         end
     end).
Proof.
  intros Hf. pose proof (fun sig => submitWith_own s inp v sig Hf) as Hw.
  pose proof (outside_own _ (Load_outside (in_AppID inp))) as Hl.
  pose proof (outside_own _ (Checkout_outside (in_AppID inp))) as Hc.
  pose proof (fun p => outside_own _ (Release_outside p)) as Hr. solve_ends.
Qed.
End own.

(** New request rows belong to the app, the others are as they were. *)
Definition requests_of (app : string) (w w' : world) : Prop :=
  forall k, db_requests (w_db w') !! k = db_requests (w_db w) !! k \/
    db_requests (w_db w) !! k = None /\
    exists row, db_requests (w_db w') !! k = Some row /\ r_app_id row = app.

Lemma requests_of_same app w w' :
  db_requests (w_db w') = db_requests (w_db w) -> requests_of app w w'.
Proof. intros E k. left. by rewrite E. Qed.

Section isolation.
Context `{Env : Environment} `{Eth : GoEthereum} `{PG : Postgres}.
Context `{KS : !KeystoreLoader} `{LS : !SignerLister}.
Context `{KSF : !KeystoreFrame} `{LSF : !ListerFrame} `{UUL : !UuidLaws}.

Lemma request_row_app inp v now row :
  request_row_of inp v now = Ok row -> pg_uuid_in (in_AppID inp) = Some (r_app_id row).
Proof.
  unfold request_row_of. destruct (pg_uuid_in (in_AppID inp)); [|done].
  destruct (pg_decimal_in _); [|done]. intros H. do 4 apply check_Ok in H as [_ H].
  by injection H as <-.
Qed.

(** The row is inserted, or nothing happened, whatever the client sees. *)
Lemma insertRequest_requests inp v app w r w' :
  pg_uuid_in (in_AppID inp) = Some app ->
  run (insertRequest inp v) w = Done r w' -> requests_of app w w'.
Proof.
  intros Happ H. apply pg_frame in H as (_ & _ & [E|[x Hs]]); [by apply requests_of_same; rewrite E|].
  destruct (request_row_of _ _ _) as [row|] eqn:Er; [|done]. apply request_row_app in Er.
  apply check_Ok in Hs as [_ Hs]. apply check_Ok in Hs as [Hfr Hs].
  apply check_Ok in Hs as [_ [= _ Hd]]. apply bool_decide_eq_true in Hfr.
  intros k. rewrite <- Hd. simpl. destruct (decide (k = env_uuid (w_hist w))) as [->|Hne].
  - right. split; [done|]. exists row. rewrite lookup_insert_eq. split; [done|]. congruence.
  - left. by rewrite lookup_insert_ne.
Qed.

Lemma requests_of_own app rid w w1 w2 :
  requests_of app w w1 -> db_requests (w_db w) !! rid = None ->
  own_request rid w1 w2 -> requests_of app w w2.
Proof.
  intros H1 Hfr [Ho Hr] k. destruct (decide (k = rid)) as [->|Hne]; [|rewrite Ho by done; apply H1].
  destruct (H1 rid) as [E|(_ & row & E & Ha)]; rewrite E in Hr.
  - rewrite Hfr in Hr. simpl in Hr. apply fmap_None in Hr. left. congruence.
  - apply fmap_Some in Hr as (row' & Hr' & E'). right. split; [done|]. exists row'.
    split; [done|congruence].
Qed.

Lemma Submit_requests s inp app w r w' :
  enqueuer_frame (svc_webhooks s) -> pg_uuid_in (in_AppID inp) = Some app ->
  run (Submit s inp) w = Done r w' -> requests_of app w w'.
Proof.
  intros Hf Happ H. unfold Submit in H. destruct (negb _).
  { injection H as _ <-. by apply requests_of_same. }
  apply bind_Done in H as (past & w1 & H1 & H).
  apply (keeps_Done outside) in H1 as [= Hd1 _]; [|apply pastDeadline_outside].
  destruct past. { injection H as _ <-. apply requests_of_same. by rewrite Hd1. }
  apply bind_Done in H as (rr & w2 & H2 & H).
  pose proof (insertRequest_requests _ _ _ _ _ _ Happ H2) as Hreq.
  unfold requests_of in Hreq. rewrite Hd1 in Hreq. fold (requests_of app w w2) in Hreq.
  destruct rr as [rid|e]; [|by injection H as _ <-].
  apply insertRequest_ok in H2 as (row & _ & -> & Hfr & _). rewrite Hd1 in Hfr.
  eapply requests_of_own; [exact Hreq|exact Hfr|].
  eapply ends_Done; [|exact H]. apply Submit_rest_own; [apply env_uuid_canonical|done].
Qed.
End isolation.

(** ** Properties *)

Lemma prefix_split p s : String.prefix p s = true -> s = p +:+ string_drop (String.length p) s.
Proof.
  revert s. induction p as [|c p IH]; intros s H; [by destruct s|].
  destruct s as [|d s]; [done|]. simpl in H. destruct (ascii_dec c d) as [<-|]; [|done].
  simpl string_drop. rewrite (IH s H) at 1. reflexivity.
Qed.

Lemma extractBearerToken_ok h tok :
  extractBearerToken h = Ok tok -> h = "Bearer " +:+ tok /\ tok <> "".
Proof.
  unfold extractBearerToken, TrimPrefix. destruct (HasPrefix h "Bearer ") eqn:E; [|done]. simpl negb.
  cbn iota. destruct (String.eqb_spec (string_drop (String.length "Bearer ") h) "") as [|Hne]; [done|].
  intros [= <-]. split; [|done]. by apply prefix_split.
Qed.

(** The app that a request's token authenticates. *)
Definition caller_of (w : world) (rq : http_in) (app : string) : Prop :=
  exists tok row, hi_Authorization rq = "Bearer " +:+ tok /\ tok <> "" /\
    db_apps (w_db w) !! app = Some row /\ a_bearer_token_hash row = Sum256 tok /\
    a_disabled row = false.

(** The answers to a request that is not let in. *)
Definition rejected (r : response) : Prop :=
  match r with
  | HTTPError c _ => c = 401 \/ c = 403
  | Failure _ | Unrouted => True
  | JSON _ _ => False
  end.

Section properties.
Context `{Env : Environment} `{Eth : GoEthereum} `{PG : Postgres} `{B : Binder}.

Lemma bearerAuth_cases next rq w r w' :
  run (bearerAuth next rq) w = Done r w' ->
  (view w' = view w /\ rejected r) \/
  exists id w1, caller_of w rq (id_AppID id) /\ view w1 = view w /\ run (next id) w1 = Done r w'.
Proof.
  unfold bearerAuth. destruct (extractBearerToken _) as [tok|e] eqn:Et.
  2:{ intros [= <- <-]. left. split; [done|]. by left. }
  apply extractBearerToken_ok in Et as [Eh Hne].
  intros (a & w1 & H1 & H)%bind_Done. apply Authenticate_cases in H1 as [Hv Ha].
  destruct a as [id|e].
  2:{ left. destruct (errors_Is e ErrInvalidToken); injection H as <- <-; (split; [done|]);
      [by left|done]. }
  destruct Ha as (_ & row & Hrow & Hh & Hid). destruct (id_Disabled id) eqn:Ed.
  { injection H as <- <-. left. split; [done|]. by right. }
  right. exists id, w1. split; [|done]. exists tok, row. do 4 (split; [done|]).
  rewrite Hid in Ed. exact Ed.
Qed.

(** C8 No protected endpoint does anything without a token of an enabled app:
    either the request carries one, or nothing changes and the answer is 401, 403
    or a failure. *)
Theorem serve_authenticated h ep rq w r w' :
  protected ep = true -> run (serve h ep rq) w = Done r w' ->
  (exists app, caller_of w rq app) \/ (view w' = view w /\ rejected r).
Proof.
  intros Hp H.
  assert (forall next, run (bearerAuth next rq) w = Done r w' ->
    (exists app, caller_of w rq app) \/ (view w' = view w /\ rejected r)) as Hb.
  { intros next [Hl|(id & w1 & Hc & _)]%bearerAuth_cases; [by right|left; eauto]. }
  assert (Done Unrouted w = Done r w' -> (exists app, caller_of w rq app) \/
    (view w' = view w /\ rejected r)) as Hu by (intros [= <- <-]; by right).
  destruct ep; simpl in Hp, H; try done;
    destruct (h_Apps h), (h_Relay h), (h_Treasury h); eauto.
Qed.

Lemma listSigners_view id c : keeps view (listSigners id c).
Proof.
  unfold listSigners. destruct (negb _); [done|].
  apply keeps_bind; [exact (lister_view (H := appLister) (id_AppID c))|]. by intros [?|].
Qed.

Lemma fetch_balances_view addrs : keeps view (fetch_balances addrs).
Proof.
  induction addrs as [|a addrs IH]; [done|]. apply keeps_bind; [by apply rpc_keeps|].
  intros b. apply keeps_bind; [apply IH|done].
Qed.

Lemma Accounts_view app : keeps view (Accounts app).
Proof.
  apply keeps_bind; [apply pg_select_view|]. intros [t|e]; [|done].
  apply keeps_bind; [apply pg_select_view|]. by intros [rows|e].
Qed.

Lemma getBalances_view h id c : keeps view (getBalances h id c).
Proof.
  unfold getBalances. destruct (negb _); [done|]. destruct (negb _); [done|].
  apply keeps_bind; [apply Accounts_view|]. intros [acc|e]; [|done].
  apply keeps_bind; [apply fetch_balances_view|]. intros rs.
  by destruct (all_ok rs) as [[|b bs]|e].
Qed.

Context `{UUL : !UuidLaws} `{EL : !GoEthereumLaws}.

(** The signer rows of an app, all of them and no other. *)
Definition own_signers (app : string) (db : database) (rows : list (string * signer_row)) : Prop :=
  forall k row, (k, row) ∈ rows <-> db_signers db !! k = Some row /\ s_app_id row = app.

Lemma signer_rows_own app se db rows :
  pg_uuid_in app = Some app -> signer_rows app se db = Ok rows -> own_signers app db rows.
Proof.
  unfold signer_rows. intros -> [= <-] k row. by rewrite !sort_by_elem, rows_where_elem, String.eqb_eq.
Qed.

(** What the signers answer shows. *)
Definition shows_signers (app : string) (db : database) (b : body) : Prop :=
  exists rows, own_signers app db rows /\
    b = BSigners (MkSignersResponse app (List.map (fun kv => Address_Hex (HexToAddress kv.1)) rows)).

(** What the balances answer shows of one account: the node's answer for it. *)
Definition shows_balance (a : address) (hex wei : string) : Prop :=
  exists h b, env_BalanceAt h a = Ok b /\ hex = Address_Hex a /\ wei = bigint_String b.

Definition shows_balances (app : string) (db : database) (b : body) : Prop :=
  exists row rows br, db_apps db !! app = Some row /\ own_signers app db rows /\ b = BBalances br /\
    shows_balance (HexToAddress (a_treasury_address row))
      (ba_Address (br_Treasury br)) (ba_BalanceWei (br_Treasury br)) /\
    Forall2 (fun kv s => shows_balance (HexToAddress kv.1) (bs_Address s) (bs_BalanceWei s))
      rows (br_Signers br).

(** What a sweep may send: transfers of the app's own treasury. *)
Definition treasury_sent (app : string) (w w' : world) : Prop :=
  sent_log (w_hist w') = sent_log (w_hist w) \/
  exists e row, sent_log (w_hist w') = e :: sent_log (w_hist w) /\
    db_apps (w_db w) !! app = Some row /\ stx_from e.1 = HexToAddress (a_treasury_address row).

(** What a let-in caller may see and change, per endpoint. *)
Definition confined (ep : endpoint) (app : string) (r : response) (w w' : world) : Prop :=
  match ep with
  | GET_signers id => view w' = view w /\
      forall c b, r = JSON c b -> id = app /\ shows_signers app (w_db w) b
  | GET_balances id => view w' = view w /\
      forall c b, r = JSON c b -> id = app /\ shows_balances app (w_db w) b
  | POST_sweep id =>
      w_db w' = w_db w /\ treasury_sent app w w' /\
      (id <> app -> view w' = view w /\ r = HTTPError 404 "not found")
  | POST_relay => requests_of app w w'
  | GET_relay rid => view w' = view w /\
      forall c b, r = JSON c b -> exists u row, pg_uuid_in rid = Some u /\
        db_requests (w_db w) !! u = Some row /\ r_app_id row = app
  | GET_health | POST_apps => True
  end.

Definition apps_canonical (db : database) : Prop :=
  forall k row, db_apps db !! k = Some row -> pg_uuid_in k = Some k.

Lemma listSigners_confined id c w r w' :
  pg_uuid_in (id_AppID c) = Some (id_AppID c) -> run (listSigners id c) w = Done r w' ->
  view w' = view w /\
  (forall n b, r = JSON n b -> id = id_AppID c /\ shows_signers (id_AppID c) (w_db w) b).
Proof.
  intros Hc H. split; [by eapply keeps_Done in H; [|apply listSigners_view]|].
  unfold listSigners in H. destruct (String.eqb_spec id (id_AppID c)); [|by injection H as <- <-].
  cbn [negb] in H. unfold ListSigners in H. rewrite !run_bind, run_select in H.
  destruct (env_pg_fate _); [|by injection H as <- <-].
  destruct (signer_rows _ _ _) as [rows|] eqn:Er; [|by injection H as <- <-].
  apply signer_rows_own in Er; [|done]. injection H as <- <-. intros n b [= _ <-]. split; [done|].
  exists rows. split; [done|]. by rewrite List.map_map.
Qed.

Lemma fetch_balances_shows addrs w rs w' bs :
  run (fetch_balances addrs) w = Done rs w' -> all_ok rs = Ok bs ->
  Forall2 (fun a b => exists h, env_BalanceAt h a = Ok b) addrs bs.
Proof.
  revert w rs bs. induction addrs as [|a addrs IH]; intros w rs bs; cbn [fetch_balances].
  { intros [= <- _] [= <-]. constructor. }
  intros (b & w1 & H1 & H)%bind_Done. apply bind_Done in H as (rs' & w2 & H2 & [= <- <-]).
  unfold BalanceAt, rpc in H1. rewrite run_action in H1. injection H1 as <- _. cbn [all_ok].
  destruct (env_BalanceAt (w_hist w) a) as [z|] eqn:Ez; [|done].
  destruct (all_ok rs') as [bs'|] eqn:E'; [|done]. intros [= <-].
  constructor; [by exists (w_hist w)|by eapply IH].
Qed.

Lemma signer_balances_shows (rows : list (string * signer_row)) bs :
  Forall2 (fun a b => exists h, env_BalanceAt h a = Ok b)
    (List.map si_Address (List.map (fun kv => MkSignerInfo (HexToAddress kv.1) (s_last_used_at kv.2)) rows)) bs ->
  Forall2 (fun kv s => shows_balance (HexToAddress kv.1) (bs_Address s) (bs_BalanceWei s)) rows
    (zip_with signer_balance
      (List.map (fun kv => MkSignerInfo (HexToAddress kv.1) (s_last_used_at kv.2)) rows) bs).
Proof.
  revert bs. induction rows as [|kv rows IH]; intros bs H; inversion H as [|? b ? bs' [h Hb] Hr]; subst;
    simpl; constructor; [|by apply IH]. by exists h, b.
Qed.

Lemma Accounts_shows app w acc w' :
  pg_uuid_in app = Some app -> run (Accounts app) w = Done (Ok acc) w' ->
  exists row rows, db_apps (w_db w) !! app = Some row /\ own_signers app (w_db w) rows /\
    acc = MkAppAccounts (HexToAddress (a_treasury_address row))
      (List.map (fun kv => MkSignerInfo (HexToAddress kv.1) (s_last_used_at kv.2)) rows).
Proof.
  intros Hc. unfold Accounts. rewrite run_bind, run_select.
  destruct (env_pg_fate (w_hist w)); [|done]. unfold treasury_of. rewrite Hc.
  destruct (db_apps (w_db w) !! app) as [row|]; [|done].
  rewrite run_bind, run_select. cbn [w_db log].
  destruct (env_pg_fate _); [|done]. destruct (signer_rows _ _ _) as [rows|] eqn:Er; [|done].
  apply signer_rows_own in Er; [|done]. intros [= <- _]. exists row, rows. done.
Qed.

Lemma getBalances_confined h id c w r w' :
  pg_uuid_in (id_AppID c) = Some (id_AppID c) -> run (getBalances h id c) w = Done r w' ->
  view w' = view w /\
  (forall n b, r = JSON n b -> id = id_AppID c /\ shows_balances (id_AppID c) (w_db w) b).
Proof.
  intros Hc H. split; [by eapply keeps_Done in H; [|apply getBalances_view]|].
  unfold getBalances in H. destruct (String.eqb_spec id (id_AppID c)) as [Eid|]; [|by injection H as <- <-].
  cbn [negb] in H. destruct (negb _); [by injection H as <- <-|].
  apply bind_Done in H as ([acc|e] & w1 & H1 & H); [|by injection H as <- <-].
  apply Accounts_shows in H1 as (row & rows & Hrow & Hown & ->); [|done].
  apply bind_Done in H as (rs & w2 & H2 & H).
  destruct (all_ok rs) as [[|b bs]|e] eqn:Eok; [done| |by injection H as <- <-].
  pose proof (fetch_balances_shows _ _ _ _ _ H2 Eok) as Hf. cbn [ac_Treasury ac_Signers] in *.
  inversion Hf as [|? ? ? ? [ht Hb] Hbs]; subst. injection H as <- <-. intros n b0 [= _ <-].
  split; [done|]. eexists row, rows, _. do 2 (split; [done|]). split; [reflexivity|]. cbn.
  split; [by exists ht, b|]. by apply signer_balances_shows.
Qed.

(** What the API relies on in the treasury service it was given. *)
Definition treasury_wired (svc : TreasuryService) : Prop :=
  @KeystoreFrame (ts_keystore svc) /\ loads_own (ts_keystore svc).

(** What it relies on in the relay service. *)
Definition relay_wired (s : Service) : Prop :=
  enqueuer_frame (svc_webhooks s) /\ @KeystoreFrame (sp_keystore (svc_pools s)) /\
  @ListerFrame (sp_lister (svc_pools s)).

Lemma sweepTreasury_confined h id rq c w r w' :
  (forall svc, h_Treasury h = Some svc -> treasury_wired svc) ->
  pg_uuid_in (id_AppID c) = Some (id_AppID c) ->
  run (sweepTreasury h id rq c) w = Done r w' ->
  w_db w' = w_db w /\ treasury_sent (id_AppID c) w w' /\
  (id <> id_AppID c -> w' = w /\ r = HTTPError 404 "not found").
Proof.
  intros Ht Hc H. unfold sweepTreasury in H.
  assert (Done r w' = Done r w -> w_db w' = w_db w /\ treasury_sent (id_AppID c) w w') as Hsame.
  { intros [= ->]. split; [done|by left]. }
  destruct (String.eqb_spec id (id_AppID c)) as [->|Hne]; cbn [negb] in H.
  2:{ injection H as <- <-. destruct (Hsame eq_refl). done. }
  assert (w_db w' = w_db w /\ treasury_sent (id_AppID c) w w') as [Hd Hs]; [|by split].
  destruct (h_Treasury h) as [svc|] eqn:Eh; [|injection H as <- <-; by apply Hsame].
  destruct (Bind_sweep rq) as [req|e]; [|injection H as <- <-; by apply Hsame].
  destruct (negb _); [injection H as <- <-; by apply Hsame|].
  destruct (sweep_value _) as [v|]; [|injection H as <- <-; by apply Hsame].
  apply bind_Done in H as (res & w1 & H1 & H). assert (w1 = w') as ->.
  { destruct res as [res|e]; [by injection H|]. destruct (errors_Is _ _); by injection H. }
  destruct (Ht svc eq_refl) as [Hf Hl]. apply Sweep_cases in H1 as [Hd Hp]; [|done..].
  split; [done|]. destruct res as [res|e].
  - destruct Hp as (stx & hh & _ & Hlog & _ & _ & _ & u & row & Hu & Hrow & Hfrom & _).
    rewrite Hc in Hu. injection Hu as <-. destruct (env_accepts hh stx); [right|by left].
    by exists (stx, true), row.
  - destruct Hp as [Hl'|(stx & x & hh & e' & _ & _ & _ & Hlog & u & row & Hu & Hrow & Hfrom & _)]; [by left|].
    rewrite Hc in Hu. injection Hu as <-. right. by exists (stx, false), row.
Qed.

Lemma getRelay_confined rid c w r w' :
  pg_uuid_in (id_AppID c) = Some (id_AppID c) -> run (getRelay rid c) w = Done r w' ->
  view w' = view w /\
  forall n b, r = JSON n b -> exists u row, pg_uuid_in rid = Some u /\
    db_requests (w_db w) !! u = Some row /\ r_app_id row = id_AppID c.
Proof.
  intros Hc (a & w1 & H1 & H)%bind_Done. apply Get_cases in H1 as [Hv Ha].
  destruct a as [st|e].
  - injection H as _ <-. split; [done|]. intros n b _.
    destruct Ha as (u & app & row & Hu & Happ & Hrow & E & _).
    exists u, row. split; [done|]. split; [done|]. congruence.
  - destruct (errors_Is e ErrNotFound); by injection H as <- <-.
Qed.

Lemma postRelay_confined s rq c w r w' :
  relay_wired s -> pg_uuid_in (id_AppID c) = Some (id_AppID c) ->
  run (postRelay s rq c) w = Done r w' -> requests_of (id_AppID c) w w'.
Proof.
  intros (Hf & Hk & Hl) Hc. unfold postRelay. destruct (relay_input (id_AppID c) rq) as [m|inp] eqn:Ei.
  { intros [= _ <-]. by apply requests_of_same. }
  assert (in_AppID inp = id_AppID c) as Happ.
  { unfold relay_input in Ei. destruct (Bind_relay rq); [|done]. destruct (negb _); [done|].
    destruct (decodeHexBytes _); [|done]. destruct (relay_value _); [|done].
    destruct (Nat.ltb _ _); [done|]. by injection Ei as <-. }
  intros (a & w1 & H1 & H)%bind_Done. assert (w1 = w') as ->.
  { destruct a as [res|e]; [by injection H|]. destruct (_ || _); by injection H. }
  eapply (Submit_requests (KSF := Hk) (LSF := Hl)); [done| |exact H1]. by rewrite Happ.
Qed.


(** The submission a well-formed request asks for: every field of it. *)
Record asks (appID : string) (req : relayRequest) (inp : SubmitInput) : Prop := {
  as_app : in_AppID inp = appID;
  as_chain : in_ChainID inp = rr_ChainID req;
  as_to : in_To inp = HexToAddress (rr_To req);
  as_data : decodeHexBytes (rr_Data req) = Ok (in_Data inp);
  as_value : exists v, in_Value inp = Some v /\ 0 <= v /\
    if String.eqb (rr_Value req) "" then v = 0 else SetString10 (rr_Value req) = Some v;
  as_gas : in_GasLimit inp = rr_GasLimit req;
  as_deadline : in_Deadline inp = rr_Deadline req;
  as_url : in_CallbackURL inp = TrimSpace (rr_CallbackURL req);
  as_meta : in_CallbackMetadata inp = rr_CallbackMetadata req;
}.

(** A body that is accepted: it decodes, the destination is an address, the data
    are hex digits, the value is empty or a non-negative decimal, and the
    metadata are at most 1024 bytes long. *)
Definition well_formed (req : relayRequest) : bool :=
  IsHexAddress (rr_To req) && is_ok (decodeHexBytes (rr_Data req)) &&
  (String.eqb (rr_Value req) "" ||
     match SetString10 (rr_Value req) with Some v => 0 <=? v | None => false end) &&
  Nat.leb (String.length (rr_CallbackMetadata req)) 1024.

Definition body_ok (rq : http_in) : bool :=
  match Bind_relay rq with Ok req => well_formed req | Err _ => false end.

Lemma relay_value_spec s :
  match relay_value s with
  | Some v => 0 <= v /\ if String.eqb s "" then v = 0 else SetString10 s = Some v
  | None => String.eqb s "" = false /\ match SetString10 s with Some v => v < 0 | None => True end
  end.
Proof.
  unfold relay_value. destruct (String.eqb s ""); [done|].
  destruct (SetString10 s) as [v|]; [|done]. destruct (Z.ltb_spec v 0); [done|]. by split.
Qed.

Lemma relay_input_spec appID rq :
  match relay_input appID rq with
  | inl _ => body_ok rq = false
  | inr inp => body_ok rq = true /\ exists req, Bind_relay rq = Ok req /\ asks appID req inp
  end.
Proof.
  unfold relay_input, body_ok. destruct (Bind_relay rq) as [req|]; [|done]. unfold well_formed.
  destruct (IsHexAddress (rr_To req)); [|done]. simpl negb. cbn iota.
  destruct (decodeHexBytes (rr_Data req)) as [data|] eqn:Ed; [|done].
  pose proof (relay_value_spec (rr_Value req)) as Hv.
  destruct (relay_value (rr_Value req)) as [v|].
  2:{ destruct Hv as [-> Hv]. destruct (SetString10 _); [|done]. by destruct (Z.leb_spec 0 z); [lia|]. }
  destruct Hv as [H0 Hv].
  assert (String.eqb (rr_Value req) "" || match SetString10 (rr_Value req) with
    | Some v => 0 <=? v | None => false end = true) as ->.
  { destruct (String.eqb (rr_Value req) ""); [done|]. rewrite Hv. by apply Z.leb_le. }
  unfold maxCallbackMetadataLen. simpl andb.
  destruct (Nat.ltb_spec 1024 (String.length (rr_CallbackMetadata req))); [apply Nat.leb_gt; lia|].
  split; [by apply Nat.leb_le|]. exists req. split; [done|]. split; try done. by exists v.
Qed.

(** C10 The contract of [POST /v1/relay] for an authenticated caller: a malformed
    body — one that does not decode, or whose destination, data, value or
    metadata are not acceptable — is answered 400 with nothing touched; a
    well-formed one is submitted for the caller's app with exactly the body's
    chain, destination, data, value, gas limit, deadline and callback fields, and
    a 202 answer means that the node took in one transaction with that
    destination, value and data and names its request row, hash and signer; any
    other answer is the error of the submission, as 400 for a wrong chain or a
    past deadline and 502 otherwise, and says whether anything was sent. *)
Theorem postRelay_contract `{NA : !NodeAccepts} s rq c w r w' :
  relay_wired s -> run (postRelay s rq c) w = Done r w' ->
  (body_ok rq = false -> (exists msg, r = HTTPError 400 msg) /\ w' = w) /\
  (body_ok rq = true -> exists req inp a, Bind_relay rq = Ok req /\ asks (id_AppID c) req inp /\
     run (Submit (KS := sp_keystore (svc_pools s)) (LS := sp_lister (svc_pools s)) s inp) w = Done a w' /\
     match a with
     | Ok res => submitted_post inp res w w' /\
         r = JSON 202 (BRelay (MkRelayResponse (out_RequestID res) (Hash_Hex (out_TxHash res))
                         (Address_Hex (out_Signer res))))
     | Err e => sent_by (Err e) w w' /\
         r = HTTPError (if errors_Is e ErrChainIDMismatch || errors_Is e ErrPastDeadline then 400 else 502)
               (error_text e)
     end).
Proof.
  intros (Hf & Hk & Hl). unfold postRelay. pose proof (relay_input_spec (id_AppID c) rq) as Hi.
  destruct (relay_input (id_AppID c) rq) as [m|inp].
  { intros [= <- <-]. rewrite Hi. split; [eauto|done]. }
  destruct Hi as [-> (req & Hb & Hasks)]. intros (a & w1 & H1 & H)%bind_Done. split; [done|]. intros _.
  exists req, inp, a. do 2 (split; [done|]). destruct a as [res|e].
  - injection H as <- <-. split; [done|]. split; [|done].
    by eapply (Submit_ok_lemma (KSF := Hk) (LSF := Hl)).
  - assert (w1 = w') as -> by (destruct (_ || _); by injection H). split; [done|].
    split; [by apply (Submit_sent (KSF := Hk) (LSF := Hl)) in H1|]. destruct (_ || _); by injection H.
Qed.
End properties.

(** ** Witnesses *)

Module ApiDemo.
Import RefEnv RelayDemo.

Definition demo_token : string := "tk_demo".

(** The demo app, with a token that is known. *)
Definition api_app_row : app_row :=
  {| a_name := "shop"; a_treasury_address := lowerHex demo_treasury;
     a_bearer_token_hash := Sum256 demo_token; a_pool_size := 2;
     a_default_callback_url := None; a_default_callback_secret := None; a_disabled := false;
     a_created_at := 0; a_signer_min_balance := Num 0; a_signer_refill_amount := Num 0;
     a_treasury_min_balance := Num 0 |}.

Definition api_world : world :=
  World (with_apps {[ demo_app := api_app_row ]} demo_db) empty_pool ∅ ∅ [].

(** A body is its destination address; it asks to send five wei. *)
#[local] Instance demoBinder : Binder := {
  Bind_createApp _ := Err (EText "no body");
  Bind_relay rq := Ok (MkRelayRequest 146 (hi_body rq) "0x0102" "5" 0 0 "" "");
  Bind_sweep _ := Err (EText "no body");
}.

Definition demoNoGen : KeystoreGenerator := {| ks_Generate := Ret (Err (EText "off")) |}.

Definition demo_handlers : Handlers :=
  MkHandlers (Some (NewAppSvc demoNoGen)) (Some demo_service) (Some (MkClient 146))
    (Some SweepDemo.demo_treasury_service).
Definition with_token (t : string) : http_in :=
  HttpIn ("Bearer " +:+ t) (lowerHex (addr 77)).

Definition api_run (ep : endpoint) (t : string) : outcome response :=
  run (serve demo_handlers ep (with_token t)) api_world.
Definition answer (o : outcome response) : response :=
  match o with Done r _ => r | _ => Unrouted end.
Definition after (o : outcome response) : world :=
  match o with Done _ w | Panicked _ w | Blocked w => w end.

Lemma demo_denied :
  api_run POST_relay "tk_other" = Done (HTTPError 401 "invalid token")
    (after (api_run POST_relay "tk_other")).
Proof. vm_compute. reflexivity. Qed.

Lemma demo_served :
  api_run POST_relay demo_token = Done (answer (api_run POST_relay demo_token))
    (after (api_run POST_relay demo_token)).
Proof. vm_compute. reflexivity. Qed.

Lemma serve_authenticated_witness :
  (exists app, caller_of api_world (with_token "tk_other") app) \/
  (view (after (api_run POST_relay "tk_other")) = view api_world /\
   rejected (HTTPError 401 "invalid token")).
Proof.
  exact (serve_authenticated demo_handlers POST_relay _ api_world _ _ eq_refl demo_denied).
Defined.

Lemma api_canonical : apps_canonical (w_db api_world).
Proof.
  intros k row H. simpl in H. apply lookup_singleton_Some in H as [<- _].
  vm_compute. reflexivity.
Qed.

Lemma demo_accepted :
  match answer (api_run POST_relay demo_token) with JSON 202 (BRelay _) => True | _ => False end.
Proof. vm_compute. exact I. Qed.

Lemma demo_wired : relay_wired demo_service.
Proof. split; [exact I|]. split; [exact refKsFrame|exact appListerFrame]. Qed.
Lemma demo_relay_wired s : h_Relay demo_handlers = Some s -> relay_wired s.
Proof. intros [= <-]. exact demo_wired. Qed.
Lemma demo_treasury_wired svc : h_Treasury demo_handlers = Some svc -> treasury_wired svc.
Proof. intros [= <-]. split; [exact refKsFrame|exact SweepDemo.demo_key]. Qed.


Definition demo_caller : Identity := MkIdentity demo_app 2 false.
Definition relay_run : outcome response :=
  run (postRelay demo_service (with_token demo_token) demo_caller) api_world.

Lemma demo_relay : relay_run = Done (answer relay_run) (after relay_run).
Proof. vm_compute. reflexivity. Qed.

Lemma postRelay_contract_witness :
  exists req inp res, asks demo_app req inp /\ rr_GasLimit req = 0 /\ in_GasLimit inp = 0 /\
    submitted_post inp res api_world (after relay_run).
Proof.
  destruct (postRelay_contract demo_service _ demo_caller api_world _ _ demo_wired demo_relay) as [_ H].
  destruct (H ltac:(vm_compute; reflexivity)) as (req & inp & a & Hb & Ha & _ & Hr).
  destruct a as [res|e].
  - exists req, inp, res. split; [exact Ha|]. injection Hb as <-. split; [reflexivity|].
    split; [exact (as_gas _ _ _ Ha)|exact (proj1 Hr)].
  - exfalso. destruct Hr as [_ Hr]. revert Hr.
    destruct (_ || _); vm_compute; discriminate.
Defined.
End ApiDemo.
