(* ===== verification/Config.v ===== *)
(** * The configuration ([internal/config])

    The settings are read from environment variables; an empty variable, and for
    the numbers one that is not a [uint64], gives the default. *)

From Stdlib Require Import ZArith Lia.
From S2P Require Import Prelude GoLib.

Local Open Scope Z_scope.

Record Config := MkConfig {
  cfg_APIListen : string;
  cfg_DBURL : string;
  cfg_KeystoreDir : string;
  cfg_KeystorePassword : string;
  cfg_RPCURL : string;
  cfg_ChainID : Z;
  cfg_WatcherIntervalMs : Z;
  cfg_WatcherBatchSize : Z;
  cfg_GasIntervalMs : Z;
  cfg_AlertWebhookURL : string;
  cfg_TelegramBotToken : string;
  cfg_TelegramChatID : string;
  cfg_AlertThrottleMs : Z;
}.

Section config.
(** [os.Getenv]: empty when the variable is not set *)
Context (os_Getenv : string -> string).

Definition getenv (key def : string) : string :=
  let v := os_Getenv key in if negb (String.eqb v "") then v else def.

Definition getenvUint64 (key : string) (def : Z) : Z :=
  let v := os_Getenv key in
  if String.eqb v "" then def
  else match ParseUint64 v with Some n => n | None => def end.

Definition Config_Load : Config :=
  {| cfg_APIListen := getenv "TXMILL_API_LISTEN" ":8080";
     cfg_DBURL := os_Getenv "TXMILL_DB_URL";
     cfg_KeystoreDir := getenv "TXMILL_KEYSTORE_DIR" "./data/keys";
     cfg_KeystorePassword := os_Getenv "TXMILL_KEYSTORE_PASSWORD";
     cfg_RPCURL := os_Getenv "TXMILL_RPC_URL";
     cfg_ChainID := getenvUint64 "TXMILL_CHAIN_ID" 146;
     cfg_WatcherIntervalMs := getenvUint64 "TXMILL_WATCHER_INTERVAL_MS" 1000;
     cfg_WatcherBatchSize := getenvUint64 "TXMILL_WATCHER_BATCH_SIZE" 50;
     cfg_GasIntervalMs := getenvUint64 "TXMILL_GAS_INTERVAL_MS" 30000;
     cfg_AlertWebhookURL := os_Getenv "TXMILL_ALERT_WEBHOOK_URL";
     cfg_TelegramBotToken := os_Getenv "TXMILL_TELEGRAM_BOT_TOKEN";
     cfg_TelegramChatID := os_Getenv "TXMILL_TELEGRAM_CHAT_ID";
     cfg_AlertThrottleMs := getenvUint64 "TXMILL_ALERT_THROTTLE_MS" (30 * 60 * 1000) |}.

(** A setting written in decimal is read back; whatever the variable holds, the
    result is a [uint64] when the default is. *)
Lemma getenvUint64_decimal key def n :
  in_u64 n -> os_Getenv key = bigint_String n -> getenvUint64 key def = n.
Proof.
  unfold in_u64. intros Hn E. unfold getenvUint64. rewrite E.
  pose proof (parse_digits_String n) as Hs.
  destruct (String.eqb_spec (bigint_String n) "") as [E0|_]; [rewrite E0 in Hs; discriminate (Hs (proj1 Hn))|].
  unfold ParseUint64. rewrite Hs by lia. unfold two64.
  by destruct (Z.ltb_spec n (2 ^ 64)); [|lia].
Qed.

Lemma getenvUint64_range key def : in_u64 def -> in_u64 (getenvUint64 key def).
Proof.
  intros Hd. unfold getenvUint64. destruct (String.eqb _ _); [done|].
  unfold ParseUint64. destruct (parse_digits _) as [z|] eqn:E; [|done].
  destruct (Z.ltb_spec z two64); [|done]. split; [|done]. by eapply parse_digits_nonneg.
Qed.
End config.
