(* ===== verification/Interleave.v ===== *)
(** * Interleavings of programs, and a logic for them

    Goroutines run [prog]s over one world, action by action, in any order; new
    ones start at any time, the outside may change the world, and the process
    may crash.  [okp] is an assertion logic for one goroutine: a global
    invariant over the world and the ghost states of all goroutines is kept by
    each of its actions, under any interference that keeps the invariant. *)

From Stdlib Require Import ZArith Lia.
From S2P Require Import Prelude Database World.

(** ** Systems *)

Section system.
Context (starts : prog unit -> Prop).
Context (outer : world -> world -> Prop).
Context (reboot : world -> world).

Definition config := (world * list (prog unit))%type.

(** One step of the system. *)
Inductive sys_step : config -> config -> Prop :=
| sys_act w ts1 p ts2 p' w' :
    step1 p w = Some (p', w') ->
    sys_step (w, ts1 ++ p :: ts2) (w', ts1 ++ p' :: ts2)
| sys_spawn w ts p :
    starts p -> sys_step (w, ts) (w, p :: ts)
| sys_outer w w' ts :
    outer w w' -> sys_step (w, ts) (w', ts)
| sys_crash w ts :
    sys_step (w, ts) (reboot w, []).

Definition reachable (w0 : world) (c : config) : Prop := rtc sys_step (w0, []) c.

(** Some actions of one goroutine among the others. *)
Fixpoint steps (n : nat) (p : prog unit) (w : world) : option (prog unit * world) :=
  match n with
  | O => Some (p, w)
  | S n' => match step1 p w with Some (p', w') => steps n' p' w' | None => None end
  end.

Lemma steps_reach n p w p' w' ts1 ts2 :
  steps n p w = Some (p', w') -> rtc sys_step (w, ts1 ++ p :: ts2) (w', ts1 ++ p' :: ts2).
Proof.
  revert p w. induction n as [|n IH]; intros p w; cbn [steps]; [intros [= -> ->]; apply rtc_refl|].
  destruct (step1 p w) as [[p1 w1]|] eqn:E; [|done]. intros H. eapply rtc_l; [by apply sys_act|]. by apply IH.
Qed.

Lemma run_steps p w w' : run p w = Done tt w' -> exists n, steps n p w = Some (Ret tt, w').
Proof.
  revert w. induction p as [[]|m|X f k IH]; intros w; simpl; [|done|].
  - intros [= ->]. by exists 0%nat.
  - destruct (f w) as [[x w1]|] eqn:E; [|done]. intros [n Hn]%IH. exists (S n). cbn. by rewrite E.
Qed.

(** A goroutine that is left alone runs to its end. *)
Lemma run_reaches p w w' ts :
  run p w = Done tt w' -> rtc sys_step (w, p :: ts) (w', Ret tt :: ts).
Proof. intros [n Hn]%run_steps. exact (steps_reach n _ _ _ _ [] ts Hn). Qed.

Lemma reachable_spawn w0 w ts p w' :
  reachable w0 (w, ts) -> starts p -> run p w = Done tt w' ->
  reachable w0 (w', Ret tt :: ts).
Proof.
  unfold reachable. intros Hr Hs H. etrans; [exact Hr|].
  eapply rtc_l; [by apply sys_spawn|]. by apply run_reaches.
Qed.
End system.

(** ** The logic *)

Section logic.
Context {L : Type} (Inv : world -> list L -> Prop).
Context (may_wait : world -> L -> Prop).

(** [okp may_panic fin l p]: from ghost state [l], every action of [p] keeps the
    invariant for some next ghost state, waits only where it may, panics only in
    a ghost state that has a cause, and [p] ends in a state that satisfies
    [fin]. *)
Section programs.
Context (may_panic : L -> Prop).

Fixpoint okp {A} (fin : L -> A -> Prop) (l : L) (p : prog A) : Prop :=
  match p with
  | Ret a => fin l a
  | Panic _ => may_panic l
  | Step f k =>
      forall w rest, Inv w (l :: rest) ->
        (f w = None -> may_wait w l) /\
        forall x w', f w = Some (x, w') ->
          exists l', Inv w' (l' :: rest) /\ okp fin l' (k x)
  end.

Lemma okp_bind {A B} (fin1 : L -> A -> Prop) (fin2 : L -> B -> Prop) l p (k : A -> prog B) :
  okp fin1 l p -> (forall l' a, fin1 l' a -> okp fin2 l' (k a)) -> okp fin2 l (bind p k).
Proof.
  intros Hp Hk. revert l Hp. induction p as [a|m|X f g IH]; intros l Hp; simpl in *.
  - by apply Hk.
  - done.
  - intros w rest Hinv. destruct (Hp w rest Hinv) as [Hw Hs]. split; [done|].
    intros x w' Hx. destruct (Hs x w' Hx) as (l' & Hinv' & Hok). eauto.
Qed.

Lemma okp_impl {A} (fin1 fin2 : L -> A -> Prop) l p :
  okp fin1 l p -> (forall l' a, fin1 l' a -> fin2 l' a) -> okp fin2 l p.
Proof.
  intros Hp Hf. revert l Hp. induction p as [a|m|X f g IH]; intros l Hp; simpl in *; auto.
  intros w rest Hinv. destruct (Hp w rest Hinv) as [Hw Hs]. split; [done|].
  intros x w' Hx. destruct (Hs x w' Hx) as (l' & Hinv' & Hok). eauto.
Qed.

(** A program may be started from a ghost state that claims more. *)
Lemma okp_weaken {A} (fin : L -> A -> Prop) l l2 p :
  (forall w rest, Inv w (l :: rest) -> Inv w (l2 :: rest)) ->
  (forall w, may_wait w l2 -> may_wait w l) -> (may_panic l2 -> may_panic l) ->
  (forall a, fin l2 a -> fin l a) -> okp fin l2 p -> okp fin l p.
Proof.
  intros Hi Hw Hm Hf. destruct p as [a|m|X f k]; simpl; [by auto|done|].
  intros H w rest Hinv. destruct (H w rest (Hi _ _ Hinv)) as [Hn Hs]. split; [by auto|done].
Qed.

(** A single total action. *)
Lemma okp_action {X} (fin : L -> X -> Prop) l (f : world -> X * world) :
  (forall w rest, Inv w (l :: rest) ->
     exists l', Inv (f w).2 (l' :: rest) /\ fin l' (f w).1) ->
  okp fin l (action f).
Proof.
  intros H w rest Hinv. split; [done|]. intros x w' [= Hx].
  destruct (H w rest Hinv) as (l' & Hi & Hf). rewrite Hx in Hi, Hf. exists l'. done.
Qed.

(** A program that the invariant does not see: it keeps a part [g] of the
    world that determines the invariant, and neither waits nor panics in worlds
    where the invariant holds. *)
Lemma okp_frame {A B} (g : world -> B) (Q : world -> Prop) (P : A -> Prop) l p :
  (forall w w' ls, g w' = g w -> Inv w ls -> Inv w' ls) -> (forall w ls, Inv w ls -> Q w) ->
  keeps g p -> total_on Q p -> rets P p -> okp (fun l' a => l' = l /\ P a) l p.
Proof.
  intros Hg HQ. induction p as [a|m|X f k IH]; simpl; [done..|].
  intros [Hf Hk] Ht Hr w rest Hinv. destruct (Ht w (HQ _ _ Hinv)) as [Hn Hs]. split.
  - intros E. by apply Hn in E.
  - intros x w' E. exists l. split; [|apply IH; [apply Hk|by eapply Hs|apply Hr]].
    eapply Hg; [|done]. by eapply Hf.
Qed.
End programs.

(** A program that never panics is fine where some panics are allowed for, also
    below a handler that recovers from them. *)
Lemma okp_safe {A} (may_panic : L -> Prop) (fin : L -> A -> Prop) l p :
  okp (fun _ => False) fin l p -> okp may_panic fin l p.
Proof.
  revert l. induction p as [a|m|X f g IH]; intros l Hp; simpl in *; [done..|].
  intros w rest Hinv. destruct (Hp w rest Hinv) as [Hw Hs]. split; [done|].
  intros x w' Hx. destruct (Hs x w' Hx) as (l' & Hinv' & Hok). eauto.
Qed.

Lemma okp_recovered {A} (fin : L -> A -> Prop) on_panic l p :
  okp (fun _ => False) fin l p -> okp (fun _ => False) fin l (recovered on_panic p).
Proof.
  revert l. induction p as [a|m|X f g IH]; intros l Hp; simpl in *; [done..|].
  intros w rest Hinv. destruct (Hp w rest Hinv) as [Hw Hs]. split; [done|].
  intros x w' Hx. destruct (Hs x w' Hx) as (l' & Hinv' & Hok). eauto.
Qed.

(** ** Soundness *)

Context (may_panic : L -> Prop).

Context (starts : prog unit -> Prop) (outer : world -> world -> Prop)
  (reboot : world -> world) (free : L) (idle : L -> Prop).

Definition finished (l : L) (_ : unit) : Prop := idle l.

Context (Inv_perm : forall w ls ls', ls ≡ₚ ls' -> Inv w ls -> Inv w ls').
Context (Inv_free : forall w ls, Inv w ls -> Inv w (free :: ls)).
Context (Inv_unfree : forall w l ls, idle l -> Inv w (l :: ls) -> Inv w ls).
Context (Inv_outer : forall w w' ls, outer w w' -> Inv w ls -> Inv w' ls).
Context (Inv_crash : forall w ls, Inv w ls -> Inv (reboot w) []).
Context (starts_ok : forall p, starts p -> okp may_panic finished free p).

Definition good (c : config) : Prop :=
  exists ls, Inv c.1 ls /\ Forall2 (fun l p => okp may_panic finished l p) ls c.2.

Lemma good_step c c' : sys_step starts outer reboot c c' -> good c -> good c'.
Proof.
  intros Hstep (ls & Hinv & Hall). destruct Hstep as [w ts1 p ts2 p' w' Hs|w ts p Hst|w w' ts Ho|w ts];
    simpl in *.
  - apply Forall2_app_inv_r in Hall as (ls1 & ls2 & H1 & H2 & ->).
    apply Forall2_cons_inv_r in H2 as (l & ls2' & Hp & H2 & ->).
    apply (Inv_perm _ _ (l :: ls1 ++ ls2')) in Hinv;
      [|by rewrite Permutation_middle].
    destruct p as [a|m|X f k]; [done..|]. simpl in Hs.
    destruct (f w) as [[x w1]|] eqn:Ef; [|done]. injection Hs as <- <-.
    destruct (Hp w _ Hinv) as [_ Hnext]. destruct (Hnext x w1 Ef) as (l' & Hinv' & Hok).
    exists (ls1 ++ l' :: ls2'). split.
    + eapply Inv_perm; [|exact Hinv']. by rewrite Permutation_middle.
    + apply Forall2_app; [done|]. by constructor.
  - exists (free :: ls). split; [by apply Inv_free|]. constructor; [by apply starts_ok|done].
  - exists ls. split; [by eapply Inv_outer|done].
  - exists []. split; [by eapply Inv_crash|constructor].
Qed.

Theorem good_reachable w0 c :
  Inv w0 [] -> reachable starts outer reboot w0 c -> good c.
Proof.
  intros H0 Hr.
  apply (rtc_ind_r good (w0, [])) in Hr; [done| |].
  - exists []. split; [done|constructor].
  - intros c1 c2 _ Hs Hg. by eapply good_step.
Qed.

(** A goroutine that panicked had a cause. *)
Lemma good_panic c m : good c -> Panic m ∈ c.2 -> exists l ls, Inv c.1 (l :: ls) /\ may_panic l.
Proof.
  intros (ls & Hinv & Hall) Hp. apply list_elem_of_lookup in Hp as [i Hi].
  destruct (Forall2_lookup_r _ _ _ _ _ Hall Hi) as (l & Hl & Hok).
  exists l, (delete i ls). split; [|done]. eapply Inv_perm; [|exact Hinv].
  by apply delete_Permutation.
Qed.

(** When every goroutine has returned, no ghost state is left. *)
Lemma good_quiescent c : good c -> Forall (fun p => p = Ret tt) c.2 -> Inv c.1 [].
Proof.
  intros (ls & Hinv & Hall) Hret. revert Hinv.
  induction Hall as [|l p ls ts Hp Hall IH]; [done|]. inversion Hret; subst.
  simpl in Hp. intros Hinv. apply IH; [done|]. by eapply Inv_unfree.
Qed.

(** In a state in which no goroutine has panicked and none can act, each has
    either returned or waits where it may. *)
Lemma good_stuck c :
  (forall w l, may_wait w l -> idle l) -> good c ->
  (forall p m, p ∈ c.2 -> p <> Panic m) -> (forall p, p ∈ c.2 -> step1 p c.1 = None) ->
  Inv c.1 [] /\ forall p, p ∈ c.2 -> p = Ret tt \/ exists l, may_wait c.1 l.
Proof.
  intros Hwait (ls & Hinv & Hall). destruct c as [w ts]; simpl in *. revert Hinv.
  induction Hall as [|l p ls ts Hp Hall IH].
  { intros Hinv _ _. split; [done|]. by intros p ?%not_elem_of_nil. }
  intros Hinv Hno Hstuck. pose proof (Hstuck p (list_elem_of_here _ _)) as Hme.
  assert (idle l /\ (p = Ret tt \/ exists l', may_wait w l')) as [Hid Hp'].
  { destruct p as [[]|m|X f k]; simpl in Hp;
      [by split; [|left]|by destruct (Hno (Panic m) m (list_elem_of_here _ _))|].
    assert (may_wait w l) by (apply (Hp w ls Hinv); simpl in Hme; by destruct (f w) as [[? ?]|]).
    split; eauto. }
  destruct IH as [IH1 IH2]; [by eapply Inv_unfree|intros q m Hq; apply Hno; by right|
    intros q Hq; apply Hstuck; by right|].
  split; [done|]. intros q [->|Hq]%elem_of_cons; auto.
Qed.
End logic.

(** ** Rely and guarantee on the tables *)

Section rely.
Context (I : database -> Prop) (R : database -> database -> Prop) `{!PreOrder R}.

(** [guar G Q d p]: where the tables have been [d], satisfy [I] and have since
    changed as [R] allows, every action of [p] keeps [I] and changes them as [G]
    allows; [p] ends in tables and with a value that satisfy [Q]. *)
Fixpoint guar {A} (G : database -> database -> Prop) (Q : database -> A -> Prop) (d : database)
    (p : prog A) : Prop :=
  match p with
  | Ret a => Q d a
  | Panic _ => True
  | Step f k =>
      forall w x w', I (w_db w) -> R d (w_db w) -> f w = Some (x, w') ->
        I (w_db w') /\ G (w_db w) (w_db w') /\ guar G Q (w_db w') (k x)
  end.

Lemma guar_recovered {A} G on_panic d (p : prog A) :
  guar G (fun _ _ => True) d p -> guar G (fun _ _ => True) d (recovered on_panic p).
Proof.
  revert d. induction p as [a|m|X f k IH]; intros d Hp; simpl in *; [done..|].
  intros w x w' Hi Hr E. destruct (Hp w x w' Hi Hr E) as (H1 & H2 & H3). eauto.
Qed.

Lemma guar_impl {A} (G G' : database -> database -> Prop) (Q Q' : database -> A -> Prop) d p :
  guar G Q d p -> (forall x y, G x y -> G' x y) -> (forall d' a, Q d' a -> Q' d' a) -> guar G' Q' d p.
Proof.
  intros Hp HG HQ. revert d Hp. induction p as [a|m|X f g IH]; intros d Hp; simpl in *; [by apply HQ|done|].
  intros w x w' Hi Hs E. destruct (Hp w x w' Hi Hs E) as (Hi' & Hs' & Hg). eauto.
Qed.

Section guarantee.
Context (G : database -> database -> Prop) (HG : forall x y, G x y -> R x y).

Lemma guar_bind {A B} (Q : database -> A -> Prop) (Q' : database -> B -> Prop) d p (k : A -> prog B) :
  guar G Q d p -> (forall d' a, R d d' -> Q d' a -> guar G Q' d' (k a)) -> guar G Q' d (bind p k).
Proof.
  revert d. induction p as [a|m|X f g IH]; intros d Hp Hk; simpl in *; [by apply Hk|done|].
  intros w x w' Hi Hs E. destruct (Hp w x w' Hi Hs E) as (Hi' & Hs' & Hg).
  do 2 (split; [done|]). apply IH; [done|]. intros d' a Hd. apply Hk.
  transitivity (w_db w); [done|]. transitivity (w_db w'); [by apply HG|done].
Qed.

Lemma guar_action {X} (Q : database -> X -> Prop) d (f : world -> X * world) :
  (forall w, I (w_db w) -> R d (w_db w) ->
     I (w_db (f w).2) /\ G (w_db w) (w_db (f w).2) /\ Q (w_db (f w).2) (f w).1) ->
  guar G Q d (action f).
Proof.
  intros H w x w' Hi Hs [= E]. specialize (H w Hi Hs). by rewrite E in H.
Qed.

(** Programs that do not change the tables. *)
Lemma guar_keeps `{!Reflexive G} {A} d (p : prog A) : keeps w_db p -> guar G (fun _ _ => True) d p.
Proof.
  revert d. induction p as [a|m|X f k IH]; intros d; simpl; [done..|].
  intros [Hf Hk] w x w' Hi _ E. rewrite (Hf _ _ _ E).
  split; [done|]. split; [reflexivity|]. apply IH, Hk.
Qed.
End guarantee.

(** The program started in some earlier state of the tables. *)
Definition guarded (db : database) (p : prog unit) : Prop :=
  exists d, R d db /\ guar R (fun _ _ => True) d p.

Context (starts : prog unit -> Prop) (outer : world -> world -> Prop) (reboot : world -> world).
Context (outer_R : forall w w', outer w w' -> I (w_db w) -> I (w_db w') /\ R (w_db w) (w_db w')).
Context (reboot_db : forall w, w_db (reboot w) = w_db w).
Context (starts_guar : forall p, starts p -> forall d, guar R (fun _ _ => True) d p).

Lemma guarded_grows db db' ts : R db db' -> Forall (guarded db) ts -> Forall (guarded db') ts.
Proof.
  intros Hs Hall. eapply Forall_impl; [exact Hall|]. intros p (d & Hd & Hp). exists d. split; [by transitivity db|done].
Qed.

Lemma guarded_step c c' :
  sys_step starts outer reboot c c' ->
  I (w_db c.1) -> Forall (guarded (w_db c.1)) c.2 ->
  I (w_db c'.1) /\ R (w_db c.1) (w_db c'.1) /\ Forall (guarded (w_db c'.1)) c'.2.
Proof.
  intros Hstep Hi Hall. destruct Hstep as [w ts1 p ts2 p' w' Hs|w ts p Hst|w w' ts Ho|w ts]; simpl in *.
  - apply Forall_app in Hall as [H1 H2]. apply Forall_cons in H2 as [(d & Hd & Hp) H2].
    destruct p as [a|m|X f k]; [done..|]. simpl in Hs, Hp.
    destruct (f w) as [[x w1]|] eqn:E; [|done]. injection Hs as <- <-.
    destruct (Hp w x w1 Hi Hd E) as (Hi' & Hs' & Hg). do 2 (split; [done|]).
    apply Forall_app. split; [by eapply guarded_grows|]. constructor; [|by eapply guarded_grows].
    exists (w_db w1). split; [reflexivity|done].
  - split; [done|]. split; [reflexivity|]. constructor; [|done].
    exists (w_db w). split; [reflexivity|]. by apply starts_guar.
  - destruct (outer_R w w' Ho Hi) as [Hi' Hs]. do 2 (split; [done|]). by eapply guarded_grows.
  - rewrite reboot_db. split; [done|]. split; [reflexivity|constructor].
Qed.

Lemma guarded_reachable w0 c :
  I (w_db w0) -> reachable starts outer reboot w0 c ->
  I (w_db c.1) /\ R (w_db w0) (w_db c.1) /\ Forall (guarded (w_db c.1)) c.2.
Proof.
  intros H0 Hr.
  apply (rtc_ind_r (fun c => I (w_db c.1) /\ R (w_db w0) (w_db c.1) /\ Forall (guarded (w_db c.1)) c.2)
    (w0, [])) in Hr; [done| |].
  - split; [done|]. split; [reflexivity|constructor].
  - intros c1 c2 _ Hs (Hi & HS & Hall). destruct (guarded_step c1 c2 Hs Hi Hall) as (Hi' & Hs' & Hall').
    split; [done|]. split; [by transitivity (w_db c1.1)|done].
Qed.

(** From a reachable state on, what is reachable later. *)
Lemma guarded_later w0 c c' :
  I (w_db w0) -> reachable starts outer reboot w0 c -> rtc (sys_step starts outer reboot) c c' ->
  R (w_db c.1) (w_db c'.1).
Proof.
  intros H0 Hr Hl. destruct (guarded_reachable w0 c H0 Hr) as (Hi & _ & Hall).
  clear Hr. revert Hi Hall. induction Hl as [c|c1 c2 c3 Hs _ IH]; [by intros; reflexivity|]. intros Hi Hall.
  destruct (guarded_step c1 c2 Hs Hi Hall) as (Hi' & Hs' & Hall').
  transitivity (w_db c2.1); [done|by apply IH].
Qed.
End rely.
