(* ===== verification/System.v ===== *)
(** * The relay under concurrency and crashes

    Any number of [Submit] calls run interleaved, action by action, with each
    other and with the rest of the process, which may also crash and restart at
    any point.  The invariant ties the signer pool, the nonce counters, the
    attempt table and the broadcasts the node took in together; the theorems
    read off what it means for the operator: every accepted transaction has its
    attempt row, no signer is lost, nothing that holds a signer ever waits, and,
    for an account none of whose broadcasts was taken in but answered with an
    error, nonces are used without gap or reuse. *)

From Stdlib Require Import ZArith Lia.
From S2P Require Import Prelude GoLib Eth Database World Chain SignerPool.
From S2P Require Import RelayService AppService Interleave.

Local Open Scope Z_scope.
Local Open Scope txmill_scope.

(** ** Ghost states of a [Submit] call *)

Inductive local :=
| LFree
  (** the app is loaded and a signer of it is waited for *)
| LWait (app : string)
  (** loading a pool: the addresses still to load and the objects made *)
| LLoad (app : string) (todo : list address) (ps : list ptr)
  (** the node answered [n] for the next address *)
| LNonce (app : string) (a : address) (n : Z) (todo : list address) (ps : list ptr)
  (** a signer is checked out *)
| LHeld (app : string) (p : ptr) (a : address)
  (** the nonce [n] is reserved and not sent *)
| LReserved (app : string) (p : ptr) (a : address) (n : Z)
  (** the attempt row for the hash is written, the transaction not accepted *)
| LLogged (app : string) (p : ptr) (a : address) (n : Z) (aid : string) (h : hash)
  (** the broadcast failed and the nonce was rewound *)
| LFailed (app : string) (p : ptr) (a : address) (aid : string) (h : hash).

(** The states in which no signer is held. *)
Definition idle (l : local) : Prop :=
  match l with LFree | LWait _ | LLoad _ _ _ | LNonce _ _ _ _ _ => True | _ => False end.

Definition lheld (app : string) (l : local) : list ptr :=
  match l with
  | LHeld app' p _ | LReserved app' p _ _ | LLogged app' p _ _ _ _ | LFailed app' p _ _ _ =>
      if decide (app' = app) then [p] else []
  | _ => []
  end.

Definition lload (l : local) : list ptr :=
  match l with LLoad _ _ ps | LNonce _ _ _ _ ps => ps | _ => [] end.

Definition laid (l : local) : list string :=
  match l with LLogged _ _ _ _ aid _ | LFailed _ _ _ aid _ => [aid] | _ => [] end.

Definition held_of (ls : list local) (app : string) : list ptr := ls ≫= lheld app.

(** ** The node's nonces *)

(** The pending nonce after the broadcasts [txs] the node took in, for an account
    that started at [base a]. *)
Definition nonce_after (base : address -> Z) (txs : list (signed_tx * bool)) (a : address) : Z :=
  base a + Z.of_nat (length (List.filter (fun e => bool_decide (stx_from e.1 = a)) txs)).

(** The node answers nonce queries of an account, whose broadcasts were all
    answered, by the transactions it took in. *)
Class NodeLaws `{Environment} (base : address -> Z) := {
  node_nonce h a n : answered (sent_log h) a ->
    env_PendingNonceAt h a = Ok n -> u64 n = u64 (nonce_after base (sent_log h) a);
}.

(** The keystore returns the key of the address asked for, or an error; it
    reads files only, and on files that are [ks_safe] it neither waits nor
    panics. *)
Class KeystoreSound `{GoEthereum} `{KeystoreLoader} := {
  ks_safe : gmap string string -> Prop;
  ks_Load_rets a :
    rets (fun r => match r with Ok k => PubkeyToAddress k = a | Err _ => True end) (ks_Load a);
  ks_Load_files a : keeps w_files (ks_Load a);
  ks_Load_total a : total_on (fun w => ks_safe (w_files w)) (ks_Load a);
}.

Section invariant.
Context `{Eth : GoEthereum} (base : address -> Z) (safe : gmap string string -> Prop).
Abbreviation nonce_after := (nonce_after base).

Definition registered (sg : gmap string signer_row) (app : string) (a : address) : Prop :=
  exists row, sg !! lowerHex a = Some row /\ s_app_id row = app.

Definition is_signer (sg : gmap string signer_row) (a : address) : Prop :=
  is_Some (sg !! lowerHex a).

Definition object (pl : pool) (p : ptr) (a : address) (n : Z) : Prop :=
  exists s, pl_heap pl !! p = Some s /\ sg_Address s = a /\ sg_nonce s = n.

(** The counter agrees with the node, unless an answer to a broadcast of the
    account was lost. *)
Definition synced (pl : pool) (txs : list (signed_tx * bool)) (p : ptr) (a : address) : Prop :=
  exists n, object pl p a n /\ (answered txs a -> n = u64 (nonce_after txs a)).

Definition reserved (pl : pool) (txs : list (signed_tx * bool)) (p : ptr) (a : address) (n : Z) : Prop :=
  (answered txs a -> n = u64 (nonce_after txs a)) /\ object pl p a (u64 (n + 1)).

Definition row_for (at_ : gmap string attempt_row) (aid : string) (h : hash) : Prop :=
  exists r, at_ !! aid = Some r /\ t_tx_hash r = lowerHash h /\ t_status r <> TFailed.

(** No broadcast with this hash was answered without an error. *)
Definition not_accepted (sg : gmap string signer_row) (txs : list (signed_tx * bool)) (h : hash) : Prop :=
  forall s, (s, true) ∈ txs -> is_signer sg (stx_from s) -> stx_hash s <> h.

Definition load_ok (pl : pool) (sg : gmap string signer_row) (txs : list (signed_tx * bool))
    (app : string) (todo : list address) (ps : list ptr) : Prop :=
  Forall (registered sg app) todo /\
  exists addrs, Forall2 (loaded_as pl app) ps addrs /\ Forall (registered sg app) addrs /\
    NoDup (addrs ++ todo) /\ addrs ++ todo <> [] /\
    (pl_apps pl !! app = None -> Forall2 (synced pl txs) ps addrs).

Definition local_ok (pl : pool) (sg : gmap string signer_row) (at_ : gmap string attempt_row)
    (txs : list (signed_tx * bool)) (l : local) : Prop :=
  match l with
  | LFree => True
  | LWait app => is_Some (pl_apps pl !! app)
  | LLoad app todo ps => load_ok pl sg txs app todo ps
  | LNonce app a n todo ps =>
      load_ok pl sg txs app (a :: todo) ps /\
      (pl_apps pl !! app = None -> answered txs a -> u64 n = u64 (nonce_after txs a))
  | LHeld app p a => registered sg app a /\ synced pl txs p a
  | LReserved app p a n => registered sg app a /\ reserved pl txs p a n
  | LLogged app p a n aid h =>
      registered sg app a /\ reserved pl txs p a n /\ row_for at_ aid h /\ not_accepted sg txs h
  | LFailed app p a aid h =>
      registered sg app a /\ synced pl txs p a /\ row_for at_ aid h /\ not_accepted sg txs h
  end.

(** A live signer: an object of a loaded pool. *)
Definition live (pl : pool) (app : string) (p : ptr) : Prop :=
  exists ap, pl_apps pl !! app = Some ap /\ p ∈ ap_signers ap.

(** What surrounds the relay: what holds of the key files, and whose accounts
    the apps' treasuries are. *)
Record around := Around {
  ar_files : Prop;
  ar_treasury : address -> Prop;
}.

Definition is_treasury (apps : gmap string app_row) (a : address) : Prop :=
  exists id row, apps !! id = Some row /\ a_treasury_address row = lowerHex a.

Record InvP (K : around) (pl : pool) (sg : gmap string signer_row) (at_ : gmap string attempt_row)
    (txs : list (signed_tx * bool)) (ls : list local) : Prop := {
  I_pool : pool_inv pl (held_of ls);
  I_keys p s : pl_heap pl !! p = Some s -> PubkeyToAddress (sg_Key s) = sg_Address s;
  I_live app p s : live pl app p -> pl_heap pl !! p = Some s ->
    registered sg app (sg_Address s);
  I_addr app p q s t : live pl app p -> live pl app q ->
    pl_heap pl !! p = Some s -> pl_heap pl !! q = Some t ->
    sg_Address s = sg_Address t -> p = q;
  I_idle app ap p s : pl_apps pl !! app = Some ap -> p ∈ ap_idle ap ->
    pl_heap pl !! p = Some s -> answered txs (sg_Address s) ->
    sg_nonce s = u64 (nonce_after txs (sg_Address s));
  I_local : Forall (local_ok pl sg at_ txs) ls;
  I_loads : NoDup (ls ≫= lload);
  I_unlive p : p ∈ ls ≫= lload -> forall app, ~ live pl app p;
  I_aids : NoDup (ls ≫= laid);
  I_rows k row : sg !! k = Some row -> exists a, k = lowerHex a;
  I_hash i j r r' : at_ !! i = Some r -> at_ !! j = Some r' ->
    t_tx_hash r = t_tx_hash r' -> i = j;
  I_ahead s b : (s, b) ∈ txs -> is_signer sg (stx_from s) ->
    exists i r, at_ !! i = Some r /\ t_tx_hash r = lowerHash (stx_hash s) /\
      (b = true -> t_status r <> TFailed);
  I_order l1 s b l2 : txs = l1 ++ (s, b) :: l2 -> is_signer sg (stx_from s) ->
    answered l2 (stx_from s) -> tx_nonce (stx_tx s) = u64 (nonce_after l2 (stx_from s));
  I_some app ap : pl_apps pl !! app = Some ap -> ap_signers ap <> [];
  I_files : ar_files K;
  (** only signers and treasuries send *)
  I_senders e : e ∈ txs -> is_signer sg (stx_from e.1) \/ ar_treasury K (stx_from e.1);
}.

Definition around_of (w : world) : around :=
  Around (safe (w_files w)) (is_treasury (db_apps (w_db w))).

Definition Inv (w : world) (ls : list local) : Prop :=
  InvP (around_of w) (w_pool w) (db_signers (w_db w)) (db_attempts (w_db w))
    (sent_log (w_hist w)) ls.

(** What the invariant looks at. *)
Definition seen (w : world) :=
  (w_pool w, db_signers (w_db w), db_attempts (w_db w), db_apps (w_db w), sent_log (w_hist w),
   w_files w).

Lemma Inv_seen w w' ls : seen w' = seen w -> Inv w ls -> Inv w' ls.
Proof. unfold Inv, around_of. by intros [= -> -> -> -> -> ->]. Qed.

Lemma keeps_core_seen {A} (p : prog A) : keeps core p -> keeps w_files p -> keeps seen p.
Proof.
  unfold keeps. induction p as [a|m|X f k IH]; simpl; [done..|].
  intros [Hc Hck] [Hf Hfk]. split; [|by auto]. intros w x w' E. unfold seen.
  apply Hf in E as Ef. apply Hc in E. unfold core in E. injection E as E1 E2 E3 E4 E5 E6. congruence.
Qed.

Lemma keeps_view_seen {A} (p : prog A) : keeps view p -> keeps w_files p -> keeps seen p.
Proof. intros Hp. by apply keeps_core_seen, keeps_view_core. Qed.

(** ** Structural lemmas *)

Lemma held_of_perm ls ls' app : ls ≡ₚ ls' -> held_of ls app ≡ₚ held_of ls' app.
Proof. intros H. unfold held_of. by rewrite H. Qed.

Lemma Inv_perm w ls ls' : ls ≡ₚ ls' -> Inv w ls -> Inv w ls'.
Proof.
  intros Hp [? ? ? ? ? Hl Hn Hu Ha ? ? ? ? ? ? ?]. split; try done.
  - eapply pool_inv_ext; [|done]. intros app. by apply held_of_perm.
  - by rewrite <- Hp.
  - by rewrite <- Hp.
  - intros p. rewrite <- Hp. apply Hu.
  - by rewrite <- Hp.
Qed.

Lemma Inv_free w ls : Inv w ls -> Inv w (LFree :: ls).
Proof.
  intros [? ? ? ? ? Hl Hn Hu Ha ? ? ? ? ? ? ?]. split; try done. by constructor.
Qed.

(** A goroutine that holds nothing may be forgotten. *)
Lemma Inv_unfree w l ls : idle l -> Inv w (l :: ls) -> Inv w ls.
Proof.
  intros Hid [Hp ? ? ? ? Hl Hn Hu Ha ? ? ? ? ? ? ?]. split; try done.
  - eapply pool_inv_ext; [|exact Hp]. intros app. unfold held_of. by destruct l.
  - by inversion Hl.
  - simpl in Hn. by apply NoDup_app in Hn as (_ & _ & ?).
  - intros p Hin. apply Hu. simpl. apply elem_of_app. by right.
  - simpl in Ha. by apply NoDup_app in Ha as (_ & _ & ?).
Qed.

(** A crash forgets the pool and every goroutine. *)
Definition reboot (w : world) : world := set_throttle ∅ (set_pool empty_pool w).

Lemma Inv_crash w ls : Inv w ls -> Inv (reboot w) [].
Proof.
  intros Hinv.
  assert (forall app p, ~ live empty_pool app p) as Hno by by intros app p (ap & ? & _).
  split; simpl; try apply Hinv; try apply NoDup_nil_2.
  - apply empty_pool_inv.
  - intros p s H. by rewrite lookup_empty in H.
  - intros app p s H. by apply Hno in H.
  - intros app p q s t H. by apply Hno in H.
  - intros app ap p s H. by rewrite lookup_empty in H.
  - constructor.
  - intros p _ app. apply Hno.
  - intros app ap H. by rewrite lookup_empty in H.
Qed.

(** ** Interference *)

Definition lptrs (l : local) : list ptr :=
  match l with
  | LFree | LWait _ => []
  | LLoad _ _ ps | LNonce _ _ _ _ ps => ps
  | LHeld _ p _ | LReserved _ p _ _ | LLogged _ p _ _ _ _ | LFailed _ p _ _ _ => [p]
  end.

Definition laddr (l : local) : option address :=
  match l with
  | LHeld _ _ a | LReserved _ _ a _ | LLogged _ _ a _ _ _ | LFailed _ _ a _ _ => Some a
  | _ => None
  end.

Definition lloadapp (l : local) : option string :=
  match l with LLoad app _ _ | LNonce app _ _ _ _ => Some app | _ => None end.

(** What the others may do while a goroutine is in state [l]: leave its
    objects alone, register more signers, load more apps, send no
    transaction of its signer (nor, while its app is not loaded, of any signer
    it is loading) other than one whose answer is lost, keep its attempt row. *)
Record stable (l : local) (pl : pool) (sg : gmap string signer_row)
    (at_ : gmap string attempt_row) (txs : list (signed_tx * bool))
    (pl' : pool) (sg' : gmap string signer_row) (at' : gmap string attempt_row)
    (txs' : list (signed_tx * bool)) : Prop := {
  sb_heap p : p ∈ lptrs l -> pl_heap pl' !! p = pl_heap pl !! p;
  sb_reg app a : registered sg app a -> registered sg' app a;
  sb_apps app : pl_apps pl' !! app = None -> pl_apps pl !! app = None;
  sb_loaded app : is_Some (pl_apps pl !! app) -> is_Some (pl_apps pl' !! app);
  sb_held a : laddr l = Some a -> answered txs' a ->
    answered txs a /\ nonce_after txs' a = nonce_after txs a;
  sb_load app a : lloadapp l = Some app -> registered sg app a ->
    pl_apps pl' !! app = None -> answered txs' a ->
    answered txs a /\ nonce_after txs' a = nonce_after txs a;
  sb_row aid h : aid ∈ laid l -> row_for at_ aid h -> row_for at' aid h;
  sb_acc aid h : aid ∈ laid l -> row_for at_ aid h ->
    not_accepted sg txs h -> not_accepted sg' txs' h;
}.

Lemma object_stable pl pl' p a n :
  pl_heap pl' !! p = pl_heap pl !! p -> object pl p a n -> object pl' p a n.
Proof. unfold object. by intros ->. Qed.

Lemma synced_stable pl pl' txs txs' p a :
  pl_heap pl' !! p = pl_heap pl !! p ->
  (answered txs' a -> answered txs a /\ nonce_after txs' a = nonce_after txs a) ->
  synced pl txs p a -> synced pl' txs' p a.
Proof.
  intros Hh Hn (n & Ho & E). exists n. split; [by eapply object_stable|].
  intros Ha. destruct (Hn Ha) as [H1 ->]. by apply E.
Qed.

Lemma reserved_stable pl pl' txs txs' p a n :
  pl_heap pl' !! p = pl_heap pl !! p ->
  (answered txs' a -> answered txs a /\ nonce_after txs' a = nonce_after txs a) ->
  reserved pl txs p a n -> reserved pl' txs' p a n.
Proof.
  intros Hh Hn [E Ho]. split; [|by eapply object_stable].
  intros Ha. destruct (Hn Ha) as [H1 ->]. by apply E.
Qed.

Lemma load_ok_stable l pl sg at_ txs pl' sg' at' txs' app todo :
  lloadapp l = Some app -> stable l pl sg at_ txs pl' sg' at' txs' ->
  load_ok pl sg txs app todo (lptrs l) -> load_ok pl' sg' txs' app todo (lptrs l).
Proof.
  intros Hl [Hh Hr Ha _ _ Hn _ _] (Ht & addrs & Hld & Hreg & Hnd & Hne & Hsy). split.
  { eapply Forall_impl; [exact Ht|]. eauto. }
  exists addrs. split; [|split; [|split; [done|split; [done|]]]].
  - clear Hsy Hnd Hne Hreg. revert Hh.
    induction Hld as [|q a ps addrs' (s & Hs & Happ & Had) Hrest IH]; intros Hh; constructor.
    + exists s. rewrite Hh by set_solver. done.
    + apply IH. set_solver.
  - eapply Forall_impl; [exact Hreg|]. eauto.
  - intros Hno. specialize (Hsy (Ha _ Hno)). clear Hld Hnd Hne. revert Hh Hreg.
    induction Hsy as [|q a ps addrs' Hq Hsy IH]; intros Hh Hreg; constructor.
    + apply Forall_cons in Hreg as [Hreg _]. eapply synced_stable; [|by eapply Hn|exact Hq].
      apply Hh. set_solver.
    + apply Forall_cons in Hreg as [_ Hreg]. apply IH; [set_solver|done].
Qed.

Lemma local_ok_stable l pl sg at_ txs pl' sg' at' txs' :
  stable l pl sg at_ txs pl' sg' at' txs' ->
  local_ok pl sg at_ txs l -> local_ok pl' sg' at' txs' l.
Proof.
  intros Hst. pose proof Hst as [Hh Hr Ha Hlo Hn Hld Hrow Hacc]. destruct l; simpl in *.
  - done.
  - apply Hlo.
  - exact (load_ok_stable (LLoad app todo ps) _ _ _ _ _ _ _ _ app todo eq_refl Hst).
  - intros [H1 H2]. pose proof H1 as (Ht & _). apply Forall_cons in Ht as [Hreg _].
    split; [exact (load_ok_stable (LNonce app a n todo ps) _ _ _ _ _ _ _ _ app (a :: todo) eq_refl Hst H1)|].
    intros Hno Ha'. destruct (Hld app a eq_refl Hreg Hno Ha') as [H3 ->]. auto.
  - intros [H1 H2]. split; [auto|]. eapply synced_stable; [|by apply Hn|exact H2]. apply Hh. by left.
  - intros [H1 H2]. split; [auto|]. eapply reserved_stable; [|by apply Hn|exact H2]. apply Hh. by left.
  - intros (H1 & H2 & H4 & H5). split; [auto|]. split; [|split].
    + eapply reserved_stable; [|by apply Hn|exact H2]. apply Hh. by left.
    + apply Hrow; [by left|done].
    + eapply Hacc; [|done..]. by left.
  - intros (H1 & H2 & H4 & H5). split; [auto|]. split; [|split].
    + eapply synced_stable; [|by apply Hn|exact H2]. apply Hh. by left.
    + apply Hrow; [by left|done].
    + eapply Hacc; [|done..]. by left.
Qed.

(** ** Ownership *)

Lemma held_live pl held app p : pool_inv pl held -> p ∈ held app -> live pl app p.
Proof.
  intros Hinv Hp. destruct (pl_apps pl !! app) as [ap|] eqn:E.
  - exists ap. split; [done|]. rewrite <- (pi_split _ _ Hinv _ _ E). set_solver.
  - rewrite (pi_unloaded _ _ Hinv _ E) in Hp. by apply not_elem_of_nil in Hp.
Qed.

Lemma live_owned pl held app p : pool_inv pl held -> live pl app p -> owned pl app p.
Proof.
  intros Hinv (ap & E & Hp). pose proof (pi_owned _ _ Hinv _ _ E) as Ho.
  rewrite Forall_forall in Ho. by apply Ho.
Qed.

Lemma lptrs_cases l p : p ∈ lptrs l -> p ∈ lload l \/ exists app, p ∈ lheld app l.
Proof.
  destruct l; simpl; auto; intros H; right; eexists; rewrite decide_True; done.
Qed.

Lemma held_of_elem ls l app p : l ∈ ls -> p ∈ lheld app l -> p ∈ held_of ls app.
Proof. intros Hl Hp. unfold held_of. apply list_elem_of_bind. eauto. Qed.

(** The object one goroutine holds is not among the objects of the others. *)
Lemma held_exclusive K pl sg at_ txs l rest app p :
  InvP K pl sg at_ txs (l :: rest) -> p ∈ lheld app l ->
  forall l', l' ∈ rest -> p ∉ lptrs l'.
Proof.
  intros Hinv Hp l' Hl' Hin.
  pose proof (I_pool _ _ _ _ _ _ Hinv) as Hpool.
  assert (p ∈ held_of (l :: rest) app) as Hh by (apply elem_of_app; by left).
  pose proof (held_live _ _ _ _ Hpool Hh) as Hlive.
  apply lptrs_cases in Hin as [Hload|[app' Hp']].
  - apply (I_unlive _ _ _ _ _ _ Hinv p) in Hlive; [done|].
    apply elem_of_app. right. apply list_elem_of_bind. eauto.
  - assert (p ∈ held_of rest app') as Hh' by by eapply held_of_elem.
    assert (app' = app) as ->.
    { eapply owned_app; [|by eapply live_owned].
      eapply held_owned; [exact Hpool|]. apply elem_of_app. by right. }
    destruct Hlive as (ap & E & _).
    pose proof (pi_nodup _ _ Hpool _ _ E) as Hnd.
    rewrite <- (pi_split _ _ Hpool _ _ E) in Hnd.
    apply NoDup_app in Hnd as (_ & _ & Hnd). unfold held_of in Hnd. simpl in Hnd.
    apply NoDup_app in Hnd as (_ & Hd & _). by eapply Hd.
Qed.

(** ** Changes of one goroutine's ghost state *)

Lemma laid_row pl sg at_ txs l aid :
  local_ok pl sg at_ txs l -> aid ∈ laid l -> exists h, row_for at_ aid h.
Proof.
  destruct l; simpl; try (intros _ H; by apply not_elem_of_nil in H);
    rewrite list_elem_of_singleton; intros (_ & _ & Hr & _) ->; eauto.
Qed.

(** A new ghost state over the same world. *)
Lemma InvP_local K pl sg at_ txs l l' rest :
  InvP K pl sg at_ txs (l :: rest) ->
  (forall app, lheld app l' = lheld app l) -> lload l' `sublist_of` lload l ->
  laid l' `sublist_of` laid l -> local_ok pl sg at_ txs l' ->
  InvP K pl sg at_ txs (l' :: rest).
Proof.
  intros [Hp Hk Hl Ha Hi Hloc Hld Hu Haid Hr Hh Hah Ho Hsm Hsafe Hsnd] Hheld Hload Hlaid Hok.
  apply Forall_cons in Hloc as [_ Hloc]. split; try done.
  - eapply pool_inv_ext; [|exact Hp]. intros app. unfold held_of. simpl. by rewrite Hheld.
  - by constructor.
  - eapply sublist_NoDup; [exact Hld|]. simpl. by apply sublist_app.
  - intros p Hin. apply Hu. simpl in *. apply elem_of_app in Hin as [Hin|Hin]; apply elem_of_app; [left|by right].
    by eapply elem_of_sublist.
  - eapply sublist_NoDup; [exact Haid|]. simpl. by apply sublist_app.
Qed.

(** The key files may change as long as they stay safe. *)
Lemma InvP_files K K' pl sg at_ txs ls :
  (ar_files K -> ar_files K') -> (forall a, ar_treasury K a -> ar_treasury K' a) ->
  InvP K pl sg at_ txs ls -> InvP K' pl sg at_ txs ls.
Proof.
  intros HK HT Hinv. split; try apply Hinv; [apply HK, Hinv|].
  intros s Hs. destruct (I_senders _ _ _ _ _ _ Hinv s Hs); auto.
Qed.

(** The others' ghost states survive a change that is stable for each. *)
Lemma others_stable pl sg at_ txs rest pl' sg' at' txs' :
  Forall (local_ok pl sg at_ txs) rest ->
  (forall l, l ∈ rest -> stable l pl sg at_ txs pl' sg' at' txs') ->
  Forall (local_ok pl' sg' at' txs') rest.
Proof.
  rewrite !Forall_forall. intros H Hs l Hl. eapply local_ok_stable; [by apply Hs|by apply H].
Qed.

(** ** The pool's queues *)

(** The idle queue of one app changes. *)
Lemma InvP_idle K pl sg at_ txs l l' rest app ap idle :
  InvP K pl sg at_ txs (l :: rest) -> pl_apps pl !! app = Some ap ->
  idle ++ lheld app l' ≡ₚ ap_idle ap ++ lheld app l ->
  (forall a, a <> app -> lheld a l' = lheld a l) ->
  lload l' = [] -> laid l' = [] ->
  (forall p s, p ∈ idle -> pl_heap pl !! p = Some s -> answered txs (sg_Address s) ->
     sg_nonce s = u64 (nonce_after txs (sg_Address s))) ->
  local_ok pl sg at_ txs l' ->
  InvP K (set_app app (AppPool (ap_signers ap) idle) pl) sg at_ txs (l' :: rest).
Proof.
  intros [Hp Hk Hl Ha Hi Hloc Hld Hu Haid Hr Hh Hah Ho Hsm Hsafe Hsnd] Hap Hperm Hheld Hl' Hd' Hidle Hok.
  set (pl' := set_app _ _ _).
  assert (forall a p, live pl' a p <-> live pl a p) as Hlive.
  { intros a p. unfold live, pl'. simpl. destruct (decide (a = app)) as [->|Hne].
    - rewrite lookup_insert_eq, Hap. split; intros (x & [= <-] & Hx); eauto.
    - by rewrite lookup_insert_ne. }
  assert (forall x, stable x pl sg at_ txs pl' sg at_ txs) as Hst.
  { intros x. split; try done; intros a; unfold pl'; simpl;
      (destruct (decide (a = app)) as [->|Hne]; [by rewrite lookup_insert_eq|by rewrite lookup_insert_ne]). }
  apply Forall_cons in Hloc as [_ Hloc]. split; try done.
  - eapply pool_inv_ext; [|apply (pool_inv_set_app _ _ app ap idle
      (held_of (l' :: rest) app) Hp Hap)].
    + intros a. unfold upd. case_decide as Hd; [by subst|]. unfold held_of. simpl. by rewrite Hheld.
    + unfold held_of. simpl. rewrite !app_assoc. by rewrite Hperm.
  - intros a p s Hlv. apply Hlive in Hlv. by apply Hl.
  - intros a p q s t Hp' Hq'. apply Hlive in Hp', Hq'. by eapply Ha.
  - intros a b p s. unfold pl'. simpl. destruct (decide (a = app)) as [->|Hne].
    + rewrite lookup_insert_eq. intros [= <-]. apply Hidle.
    + rewrite lookup_insert_ne by done. apply Hi.
  - constructor.
    + by apply (local_ok_stable l' pl sg at_ txs).
    + by eapply others_stable.
  - simpl. rewrite Hl'. simpl in Hld. by apply NoDup_app in Hld as (_ & _ & ?).
  - intros p Hin a Hlv. apply Hlive in Hlv. revert Hlv. apply Hu. simpl in *. rewrite Hl' in Hin.
    apply elem_of_app. by right.
  - simpl. rewrite Hd'. simpl in Haid. by apply NoDup_app in Haid as (_ & _ & ?).
  - intros a b. unfold pl'. simpl. destruct (decide (a = app)) as [->|Hne].
    + rewrite lookup_insert_eq. intros [= <-]. exact (Hsm _ _ Hap).
    + rewrite lookup_insert_ne by done. apply Hsm.
Qed.
End invariant.
