(* ===== verification/SystemSteps.v ===== *)
(** * Steps of the relay against the global invariant

    One lemma per kind of step a [Submit] call takes: a counter moves under the
    holder's hands, an attempt row is written or updated, the node accepts a
    transaction, a signer object is made or a pool installed; and one for what
    the rest of the process may do. *)

From Stdlib Require Import ZArith Lia.
From S2P Require Import Prelude GoLib Eth Database World Chain SignerPool.
From S2P Require Import RelayService AppService Interleave System.

Local Open Scope Z_scope.

Section steps.
Context `{Eth : GoEthereum} (base : address -> Z) (K : around).
Abbreviation nonce_after := (System.nonce_after base).
Abbreviation InvP := (System.InvP base K).
Abbreviation local_ok := (System.local_ok base).
Abbreviation stable := (System.stable base).

(** ** The counter of a held signer *)

Lemma held_not_idle pl sg at_ txs l rest app p app' ap :
  InvP pl sg at_ txs (l :: rest) -> p ∈ lheld app l ->
  pl_apps pl !! app' = Some ap -> p ∉ ap_idle ap.
Proof.
  intros Hinv Hp Hap Hin. pose proof (I_pool _ _ _ _ _ _ _ Hinv) as Hpool.
  assert (p ∈ held_of (l :: rest) app) as Hh by (apply elem_of_app; by left).
  assert (p ∈ ap_signers ap) as Hs.
  { rewrite <- (pi_split _ _ Hpool _ _ Hap). apply elem_of_app. by left. }
  assert (app' = app) as ->.
  { eapply owned_app; [|by eapply held_owned].
    pose proof (pi_owned _ _ Hpool _ _ Hap) as Ho. rewrite Forall_forall in Ho. by apply Ho. }
  pose proof (pi_nodup _ _ Hpool _ _ Hap) as Hnd.
  rewrite <- (pi_split _ _ Hpool _ _ Hap) in Hnd. apply NoDup_app in Hnd as (_ & Hd & _).
  by apply (Hd p).
Qed.

Lemma pool_inv_heap pl held p s s' :
  pool_inv pl held -> pl_heap pl !! p = Some s -> sg_AppID s' = sg_AppID s ->
  in_u64 (sg_nonce s') -> pool_inv (map_heap <[p := s']> pl) held.
Proof.
  intros Hinv Hs Happ Hn. split; try apply Hinv.
  - intros app ap Hap. pose proof (pi_owned _ _ Hinv app ap Hap) as Ho.
    eapply Forall_impl; [exact Ho|]. intros q (t & Ht & Hta). unfold owned. simpl.
    destruct (decide (q = p)) as [->|Hne].
    + exists s'. rewrite lookup_insert_eq. split; [done|]. congruence.
    + exists t. by rewrite lookup_insert_ne.
  - intros q. simpl. destruct (decide (q = p)) as [->|Hne].
    + intros _. apply (pi_next _ _ Hinv). eauto.
    + rewrite lookup_insert_ne by done. apply (pi_next _ _ Hinv).
  - intros q t. simpl. destruct (decide (q = p)) as [->|Hne].
    + rewrite lookup_insert_eq. by intros [= <-].
    + rewrite lookup_insert_ne by done. apply (pi_nonce _ _ Hinv).
Qed.

Lemma InvP_heap pl sg at_ txs l l' rest app p s n :
  InvP pl sg at_ txs (l :: rest) -> p ∈ lheld app l -> pl_heap pl !! p = Some s ->
  in_u64 n -> (forall a, lheld a l' = lheld a l) -> lload l' = [] -> laid l' = laid l ->
  local_ok (map_heap <[p := set_nonce n s]> pl) sg at_ txs l' ->
  InvP (map_heap <[p := set_nonce n s]> pl) sg at_ txs (l' :: rest).
Proof.
  intros Hinv Hp Hs Hn Hheld Hl' Hd' Hok. pose proof (held_exclusive _ _ _ _ _ _ _ _ _ _ Hinv Hp) as Hex.
  pose proof (fun app' ap => held_not_idle _ _ _ _ _ _ _ _ app' ap Hinv Hp) as Hni.
  destruct Hinv as [Hpool Hk Hl Ha Hi Hloc Hld Hu Haid Hr Hh Hah Ho Hsm Hsafe Hsnd].
  set (pl' := map_heap _ _) in *.
  assert (forall q t, pl_heap pl' !! q = Some t -> exists t0, pl_heap pl !! q = Some t0 /\
    sg_Address t = sg_Address t0 /\ sg_Key t = sg_Key t0) as Hold.
  { intros q t. unfold pl'. simpl. destruct (decide (q = p)) as [->|Hne].
    - rewrite lookup_insert_eq. intros [= <-]. eauto.
    - rewrite lookup_insert_ne by done. eauto. }
  apply Forall_cons in Hloc as [_ Hloc]. split; try done.
  - eapply pool_inv_ext; [|by eapply pool_inv_heap].
    intros a. unfold held_of. simpl. by rewrite Hheld.
  - intros q t (t0 & Ht & -> & ->)%Hold. by apply (Hk q).
  - intros a q t Hlv (t0 & Ht & -> & _)%Hold. by apply (Hl a q).
  - intros a q1 q2 t1 t2 H1 H2 (u1 & Hu1 & -> & _)%Hold (u2 & Hu2 & -> & _)%Hold. by eapply Ha.
  - intros a ap q t Hap Hq. unfold pl'. simpl. destruct (decide (q = p)) as [->|Hne].
    + exfalso. by apply (Hni a ap Hap).
    + rewrite lookup_insert_ne by done. by eapply Hi.
  - constructor; [done|]. eapply others_stable; [exact Hloc|]. intros x Hx. split; try done.
    intros q Hq. unfold pl'. simpl. rewrite lookup_insert_ne; [done|].
    intros <-. by apply (Hex x Hx).
  - simpl. rewrite Hl'. simpl in Hld. by apply NoDup_app in Hld as (_ & _ & ?).
  - intros q Hin. apply Hu. simpl in *. rewrite Hl' in Hin. apply elem_of_app. by right.
  - simpl. by rewrite Hd'.
Qed.

(** ** The attempt table *)

(** What a change of the attempt table by others keeps of it. *)
Record attempts_kept (at_ at' : gmap string attempt_row) : Prop := {
  ak_fwd i r : at_ !! i = Some r -> exists r', at' !! i = Some r' /\ t_tx_hash r' = t_tx_hash r /\
    (t_status r <> TFailed -> t_status r' <> TFailed);
  ak_bwd i r' : at' !! i = Some r' -> exists r, at_ !! i = Some r /\ t_tx_hash r' = t_tx_hash r;
}.

Lemma attempts_kept_refl at_ : attempts_kept at_ at_.
Proof. split; eauto. Qed.

Lemma row_for_kept at_ at' aid h : attempts_kept at_ at' -> row_for at_ aid h -> row_for at' aid h.
Proof.
  intros [Hf _] (r & Hr & Hh & Hst). destruct (Hf _ _ Hr) as (r' & Hr' & Hh' & Hst').
  exists r'. split; [done|]. split; [congruence|auto].
Qed.

Lemma attempts_kept_alter f aid at_ :
  (forall r, t_tx_hash (f r) = t_tx_hash r /\ t_status (f r) <> TFailed) ->
  attempts_kept at_ (alter f aid at_).
Proof.
  intros Hf. split; intros i r; destruct (decide (i = aid)) as [->|Hne].
  - rewrite lookup_alter_eq. intros ->. simpl. destruct (Hf r). eauto.
  - rewrite lookup_alter_ne by done. eauto.
  - rewrite lookup_alter_eq. destruct (at_ !! aid) as [r0|]; [|done]. intros [= <-].
    destruct (Hf r0). eauto.
  - rewrite lookup_alter_ne by done. eauto.
Qed.

Lemma InvP_attempts pl sg at_ txs ls at' :
  attempts_kept at_ at' -> InvP pl sg at_ txs ls -> InvP pl sg at' txs ls.
Proof.
  intros Hk [Hpool Hky Hl Ha Hi Hloc Hld Hu Haid Hr Hh Hah Ho Hsm Hsafe Hsnd]. split; try done.
  - eapply others_stable; [exact Hloc|]. intros x Hx. split; try done.
    intros aid h _. by apply row_for_kept.
  - intros i j r r' Hi' Hj' E. destruct (ak_bwd _ _ Hk _ _ Hi') as (r0 & Hr0 & E0).
    destruct (ak_bwd _ _ Hk _ _ Hj') as (r1 & Hr1 & E1). eapply Hh; [done..|]. congruence.
  - intros s b Hs Hsg. destruct (Hah s b Hs Hsg) as (i & r & Hir & E & Hst).
    destruct (ak_fwd _ _ Hk _ _ Hir) as (r' & Hr' & E' & Hst'). exists i, r'.
    split; [done|]. split; [congruence|auto].
Qed.

(** A new attempt row, its hash unused so far. *)
Lemma InvP_insert_attempt pl sg at_ txs l l' rest aid row :
  InvP pl sg at_ txs (l :: rest) -> at_ !! aid = None ->
  (forall i r, at_ !! i = Some r -> t_tx_hash r <> t_tx_hash row) ->
  (forall a, lheld a l' = lheld a l) -> lload l' = lload l -> laid l = [] ->
  laid l' = [] \/ laid l' = [aid] ->
  local_ok pl sg (<[aid := row]> at_) txs l' ->
  InvP pl sg (<[aid := row]> at_) txs (l' :: rest).
Proof.
  intros [Hpool Hky Hl Ha Hi Hloc Hld Hu Haid Hr Hh Hah Ho Hsm Hsafe Hsnd] Hfresh Hun Hheld Hl' Hd Hd' Hok.
  assert (forall i r, at_ !! i = Some r -> <[aid := row]> at_ !! i = Some r) as Hkeep.
  { intros i r Hir. rewrite lookup_insert_ne; [done|]. intros ->. congruence. }
  apply Forall_cons in Hloc as [_ Hloc].
  assert (aid ∉ rest ≫= laid) as Hnew.
  { intros Hin. apply list_elem_of_bind in Hin as (x & Hx & Hin). rewrite Forall_forall in Hloc.
    destruct (laid_row _ _ _ _ _ _ _ (Hloc x Hin) Hx) as (h & r & Hrow & _). congruence. }
  split; try done.
  - eapply pool_inv_ext; [|exact Hpool]. intros a. unfold held_of. simpl. by rewrite Hheld.
  - constructor; [done|]. eapply others_stable; [exact Hloc|]. intros x Hx. split; try done.
    intros i h _ (r & Hir & Hrest). exists r. split; [by apply Hkeep|done].
  - simpl. by rewrite Hl'.
  - simpl. by rewrite Hl'.
  - simpl in *. rewrite Hd in Haid. destruct Hd' as [-> | ->]; [done|]. by constructor.
  - intros i j r r'. destruct (decide (i = aid)) as [->|Hi1], (decide (j = aid)) as [->|Hj1];
      rewrite ?lookup_insert_eq, ?lookup_insert_ne by done; [done|..].
    + intros [= <-] Hj E. exfalso. by apply (Hun j r').
    + intros Hj [= <-] E. exfalso. by apply (Hun i r).
    + apply Hh.
  - intros s b Hs Hsg. destruct (Hah s b Hs Hsg) as (i & r & Hir & E & Hst). exists i, r.
    split; [by apply Hkeep|done].
Qed.

(** The own attempt, whose broadcast was not answered well, is marked failed. *)
Lemma InvP_mark_failed `{EL : !GoEthereumLaws} pl sg at_ txs rest app p a aid h :
  InvP pl sg at_ txs (LFailed app p a aid h :: rest) ->
  InvP pl sg (alter (set_attempt_status TFailed) aid at_) txs (LHeld app p a :: rest).
Proof.
  intros [Hpool Hky Hl Ha Hi Hloc Hld Hu Haid Hr Hh Hah Ho Hsm Hsafe Hsnd].
  apply Forall_cons in Hloc as [(Hreg & Hsy & (r0 & Hr0 & Hh0 & _) & Hna) Hloc].
  simpl in Haid. apply NoDup_cons in Haid as [Hnot Haid].
  assert (forall i, i <> aid -> alter (set_attempt_status TFailed) aid at_ !! i = at_ !! i) as Hne.
  { intros i Hi'. by rewrite lookup_alter_ne. }
  assert (forall i r, alter (set_attempt_status TFailed) aid at_ !! i = Some r ->
    exists r1, at_ !! i = Some r1 /\ t_tx_hash r = t_tx_hash r1) as Hback.
  { intros i r. destruct (decide (i = aid)) as [->|Hi'].
    - rewrite lookup_alter_eq, Hr0. intros [= <-]. eauto.
    - rewrite Hne by done. eauto. }
  split; try done.
  - constructor; [done|]. eapply others_stable; [exact Hloc|]. intros x Hx. split; try done.
    intros i h' Hin (r & Hir & Hrest). exists r. rewrite Hne; [done|].
    intros ->. apply Hnot, list_elem_of_bind. eauto.
  - intros i j r r' (r1 & H1 & ->)%Hback (r2 & H2 & ->)%Hback. by eapply Hh.
  - intros s b Hs Hsg. destruct (Hah s b Hs Hsg) as (i & r & Hir & E & Hst).
    destruct (decide (i = aid)) as [->|Hi']; [|exists i, r; by rewrite Hne].
    exists aid, (set_attempt_status TFailed r0). rewrite lookup_alter_eq, Hr0.
    rewrite Hr0 in Hir. injection Hir as <-. split; [done|]. split; [done|]. intros ->.
    exfalso. apply (Hna s Hs Hsg). apply lowerHash_inj. congruence.
Qed.

(** ** The node accepts a transaction *)

Lemma nonce_after_cons s b txs a :
  nonce_after ((s, b) :: txs) a = nonce_after txs a + (if decide (stx_from s = a) then 1 else 0).
Proof.
  unfold System.nonce_after. simpl. destruct (decide (stx_from s = a)) as [E|E].
  - rewrite bool_decide_eq_true_2 by done. simpl length. lia.
  - rewrite bool_decide_eq_false_2 by done. lia.
Qed.

Lemma nonce_after_other s b txs a :
  stx_from s <> a -> nonce_after ((s, b) :: txs) a = nonce_after txs a.
Proof. intros. rewrite nonce_after_cons, decide_False by done. lia. Qed.

Lemma nonce_after_own s b txs :
  nonce_after ((s, b) :: txs) (stx_from s) = nonce_after txs (stx_from s) + 1.
Proof. by rewrite nonce_after_cons, decide_True. Qed.

Lemma answered_cons e txs a : answered (e :: txs) a -> answered txs a.
Proof. intros H x Hx. apply H. by right. Qed.

(** A broadcast of another account changes nothing for [a]. *)
Lemma other_sent s b txs a :
  stx_from s <> a -> answered ((s, b) :: txs) a ->
  answered txs a /\ nonce_after ((s, b) :: txs) a = nonce_after txs a.
Proof. intros Hne Ha. split; [by eapply answered_cons|by apply nonce_after_other]. Qed.

(** A lost answer leaves nothing to claim of the account. *)
Lemma lost_sent s txs : ~ answered ((s, false) :: txs) (stx_from s).
Proof. intros H. by specialize (H (s, false) (list_elem_of_here _ _) eq_refl). Qed.

Lemma registered_app sg app app' a : registered sg app a -> registered sg app' a -> app = app'.
Proof. intros (r & Hr & <-) (r' & Hr' & <-). congruence. Qed.

Lemma lheld_in l app p : p ∈ lheld app l -> exists a, laddr l = Some a /\ lheld app l = [p] /\
  forall pl sg at_ txs, local_ok pl sg at_ txs l ->
    registered sg app a /\ exists n, object pl p a n.
Proof.
  destruct l; simpl; try (intros H; by apply not_elem_of_nil in H);
    (case_decide as E; [|intros H; by apply not_elem_of_nil in H]);
    rewrite list_elem_of_singleton; intros ->; subst; eexists; (split; [done|]); (split; [done|]);
    intros pl sg at_ txs; unfold synced, reserved; simpl; unfold synced, reserved; intros Hok;
    destruct_and? Hok; destruct_and? Hok; naive_solver.
Qed.

(** Two goroutines never hold signers of the same address. *)
Lemma held_addr_exclusive pl sg at_ txs l rest app p a :
  InvP pl sg at_ txs (l :: rest) -> p ∈ lheld app l -> registered sg app a ->
  (exists n, object pl p a n) ->
  (forall l', l' ∈ rest -> laddr l' <> Some a) /\
  (forall app' ap q s, pl_apps pl !! app' = Some ap -> q ∈ ap_idle ap ->
     pl_heap pl !! q = Some s -> sg_Address s <> a) /\
  is_Some (pl_apps pl !! app).
Proof.
  intros Hinv Hp Hreg (n & s0 & Hs0 & Ha0 & _).
  pose proof (held_exclusive _ _ _ _ _ _ _ _ _ _ Hinv Hp) as Hex.
  pose proof (fun app' ap => held_not_idle _ _ _ _ _ _ _ _ app' ap Hinv Hp) as Hni.
  destruct Hinv as [Hpool _ Hl Ha _ Hloc _ _ _ _ _ _ _].
  assert (live pl app p) as Hlive.
  { eapply held_live; [exact Hpool|]. apply elem_of_app. by left. }
  assert (forall app' q s, live pl app' q -> pl_heap pl !! q = Some s -> sg_Address s = a -> q = p) as Huniq.
  { intros app' q s Hq Hs E. pose proof (Hl _ _ _ Hq Hs) as Hr. rewrite E in Hr.
    pose proof (registered_app _ _ _ _ Hreg Hr) as <-. eapply Ha; [exact Hq|exact Hlive|done..|].
    congruence. }
  split; [|split].
  - intros l' Hl' Haddr. apply Forall_cons in Hloc as [_ Hloc]. rewrite Forall_forall in Hloc.
    pose proof (Hloc l' Hl') as Hok.
    assert (exists app' q, q ∈ lheld app' l') as (app' & q & Hq).
    { destruct l'; try done; eexists _, _; simpl; rewrite decide_True by done; by left. }
    destruct (lheld_in _ _ _ Hq) as (a' & Ha' & _ & Hok').
    destruct (Hok' _ _ _ _ Hok) as (_ & m & s & Hs & Has & _). assert (a' = a) as -> by congruence.
    assert (q = p) as ->.
    { eapply Huniq; [|exact Hs|done]. eapply held_live; [exact Hpool|].
      apply elem_of_app. right. by eapply held_of_elem. }
    apply (Hex l' Hl'). destruct l'; simpl in *; try done;
      (case_decide; [|by apply not_elem_of_nil in Hq]); done.
  - intros app' ap q s Hap Hq Hs E.
    assert (q = p) as ->.
    { eapply Huniq; [|exact Hs|done]. exists ap. split; [done|].
      rewrite <- (pi_split _ _ Hpool _ _ Hap). apply elem_of_app. by left. }
    by apply (Hni app' ap Hap).
  - destruct Hlive as (ap & Hap & _). eauto.
Qed.

Lemma InvP_accept `{EL : !GoEthereumLaws} pl sg at_ txs rest app p a n aid h stx :
  InvP pl sg at_ txs (LLogged app p a n aid h :: rest) ->
  stx_from stx = a -> tx_nonce (stx_tx stx) = n -> stx_hash stx = h ->
  InvP pl sg at_ ((stx, true) :: txs) (LHeld app p a :: rest).
Proof.
  intros Hinv Hfrom Hn Hh'.
  pose proof (I_local _ _ _ _ _ _ _ Hinv) as Hloc.
  apply Forall_cons in Hloc as [(Hreg & [Hnn Hobj] & (r0 & Hr0 & Hh0 & Hst0) & Hna) Hloc].
  assert (p ∈ lheld app (LLogged app p a n aid h)) as Hp.
  { simpl. rewrite decide_True by done. by left. }
  destruct (held_addr_exclusive _ _ _ _ _ _ _ _ a Hinv Hp Hreg) as (Hothers & Hidle & [ap0 Hap0]);
    [eauto|].
  destruct Hinv as [Hpool Hky Hl Ha Hi _ Hld Hu Haid Hr Hh Hah Ho Hsm Hsafe Hsnd].
  simpl in Haid. apply NoDup_cons in Haid as [Hnot Haid].
  assert (forall b, b <> a -> answered ((stx, true) :: txs) b ->
    answered txs b /\ nonce_after ((stx, true) :: txs) b = nonce_after txs b) as Hoth.
  { intros b Hb. apply other_sent. congruence. }
  split; try done.
  - intros app' ap q s Hap Hq Hs Hans. destruct (Hoth (sg_Address s)) as [Hans' ->]; [by eapply Hidle|done|].
    by eapply Hi.
  - constructor.
    + split; [done|]. destruct Hobj as (s & Hs & Has & Hns). exists (u64 (n + 1)). split; [by exists s|].
      intros Hans. apply answered_cons, Hnn in Hans. rewrite <- Hfrom at 1.
      rewrite nonce_after_own, Hfrom, Hans. apply u64_add_l.
    + eapply others_stable; [exact Hloc|]. intros x Hx. split; try done.
      * intros b Hb. apply Hoth. intros ->. by apply (Hothers x Hx).
      * intros app' b Hlx Hrb Hno. apply Hoth. intros ->.
        rewrite <- (registered_app _ _ _ _ Hreg Hrb), Hap0 in Hno. done.
      * intros i h' Hin (r1 & Hr1 & Hh1 & _) Hna' s [[= ->]|Hs]%elem_of_cons Hsg; [|by apply Hna'].
        rewrite Hh'. intros <-. apply Hnot.
        assert (i = aid) as <- by (eapply Hh; [done..|congruence]).
        apply list_elem_of_bind. eauto.
  - intros s b [[= -> ->]|Hs]%elem_of_cons Hsg; [|by apply Hah].
    exists aid, r0. split; [done|]. split; [congruence|done].
  - intros l1 s b l2 E Hsg Hans. destruct l1 as [|x l1]; simpl in E.
    + injection E as <- <- <-. rewrite Hfrom in *. rewrite Hn. by apply Hnn.
    + injection E as <- E. by eapply Ho.
  - intros e [->|Hs]%elem_of_cons; [|by apply Hsnd]. left. simpl. rewrite Hfrom.
    destruct Hreg as (row & Hrow & _). by exists row.
Qed.

(** The node takes the transaction in, and the answer is lost. *)
Lemma InvP_lost `{EL : !GoEthereumLaws} pl sg at_ txs rest app p a n aid h stx :
  InvP pl sg at_ txs (LLogged app p a n aid h :: rest) ->
  stx_from stx = a -> tx_nonce (stx_tx stx) = n -> stx_hash stx = h ->
  InvP pl sg at_ ((stx, false) :: txs) (LLogged app p a n aid h :: rest).
Proof.
  intros [Hpool Hky Hl Ha Hi Hloc Hld Hu Haid Hr Hh Hah Ho Hsm Hsafe Hsnd] Hfrom Hn Hh'.
  pose proof Hloc as Hloc'.
  apply Forall_cons in Hloc' as [(Hreg & [Hnn Hobj] & (r0 & Hr0 & Hh0 & Hst0) & Hna) _].
  assert (forall b, answered ((stx, false) :: txs) b ->
    answered txs b /\ nonce_after ((stx, false) :: txs) b = nonce_after txs b) as Hoth.
  { intros b Hb. apply other_sent; [|done]. intros <-. by apply lost_sent in Hb. }
  split; try done.
  - intros app' ap q s Hap Hq Hs Hans. destruct (Hoth _ Hans) as [Hans' ->]. by eapply Hi.
  - eapply others_stable; [exact Hloc|]. intros x Hx. split; try done.
    + intros b _. apply Hoth.
    + intros app' b _ _ _. apply Hoth.
    + intros i h' _ _ Hna' s [[=]|Hs]%elem_of_cons Hsg. by apply Hna'.
  - intros s b [[= -> ->]|Hs]%elem_of_cons Hsg; [|by apply Hah].
    exists aid, r0. split; [done|]. split; [congruence|done].
  - intros l1 s b l2 E Hsg Hans. destruct l1 as [|x l1]; simpl in E.
    + injection E as <- <- <-. rewrite Hfrom in *. rewrite Hn. by apply Hnn.
    + injection E as <- E. by eapply Ho.
  - intros e [->|Hs]%elem_of_cons; [|by apply Hsnd]. left. simpl. rewrite Hfrom.
    destruct Hreg as (row & Hrow & _). by exists row.
Qed.

(** ** Loading a pool *)

Lemma load_ok_heap pl sg txs app todo ps q :
  load_ok base pl sg txs app todo ps -> q ∈ ps -> is_Some (pl_heap pl !! q).
Proof.
  intros (_ & addrs & Hl & _) Hq. revert Hq.
  induction Hl as [|x a ps addrs (s & Hs & _) Hl IH]; [by intros ?%not_elem_of_nil|].
  intros [->|Hq]%elem_of_cons; [eauto|auto].
Qed.

Lemma lptrs_heap pl sg at_ txs l q :
  local_ok pl sg at_ txs l -> q ∈ lptrs l -> is_Some (pl_heap pl !! q).
Proof.
  destruct l; simpl.
  - intros _ H. by apply not_elem_of_nil in H.
  - intros _ H. by apply not_elem_of_nil in H.
  - apply load_ok_heap.
  - intros [H _]. by eapply load_ok_heap.
  - rewrite list_elem_of_singleton. intros (_ & n & (s & Hs & _) & _) ->. eauto.
  - rewrite list_elem_of_singleton. intros (_ & _ & s & Hs & _) ->. eauto.
  - rewrite list_elem_of_singleton. intros (_ & (_ & s & Hs & _) & _) ->. eauto.
  - rewrite list_elem_of_singleton. intros (_ & (n & (s & Hs & _) & _) & _) ->. eauto.
Qed.

Definition alloc_pool (s : signer) (pl : pool) : pool :=
  Pool (<[pl_next pl := s]> (pl_heap pl)) (S (pl_next pl)) (pl_apps pl).

Lemma pool_inv_alloc pl held s :
  pool_inv pl held -> in_u64 (sg_nonce s) -> pool_inv (alloc_pool s pl) held.
Proof.
  intros Hinv Hn.
  assert (pl_heap pl !! pl_next pl = None) as Hnone.
  { destruct (pl_heap pl !! pl_next pl) eqn:E; [|done].
    pose proof (pi_next _ _ Hinv (pl_next pl) (ex_intro _ _ E)). lia. }
  split; try apply Hinv.
  - intros app ap Hap. eapply Forall_impl; [exact (pi_owned _ _ Hinv _ _ Hap)|].
    intros q (t & Ht & Hta). exists t. split; [|done]. simpl. rewrite lookup_insert_ne; [done|congruence].
  - intros q. simpl. destruct (decide (q = pl_next pl)) as [->|Hne]; [lia|].
    rewrite lookup_insert_ne by done. intros Hq. pose proof (pi_next _ _ Hinv q Hq). lia.
  - intros q t. simpl. destruct (decide (q = pl_next pl)) as [->|Hne].
    + rewrite lookup_insert_eq. by intros [= <-].
    + rewrite lookup_insert_ne by done. apply (pi_nonce _ _ Hinv).
Qed.

(** The goroutine that made the signer object owns it with the others. *)
Lemma alloc_local_ok pl sg at_ txs app a n todo ps p s :
  local_ok pl sg at_ txs (LNonce app a n todo ps) -> pl_heap pl !! p = Some s ->
  sg_AppID s = app -> sg_Address s = a -> sg_nonce s = u64 n ->
  local_ok pl sg at_ txs (LLoad app todo (ps ++ [p])).
Proof.
  intros [(Ht & addrs & Hld & Hreg & Hnd & Hne & Hsy) Hn] Hs Happ Ha Hno.
  apply Forall_cons in Ht as [Hra Ht]. split; [done|]. exists (addrs ++ [a]).
  split; [apply Forall2_app; [done|]; constructor; [|constructor]; by exists s|].
  split; [apply Forall_app; split; [done|]; by constructor|].
  split; [by rewrite <- app_assoc|]. split; [by rewrite <- app_assoc|]. intros Hnone.
  apply Forall2_app; [by apply Hsy|]. constructor; [|constructor]. exists (u64 n).
  split; [by exists s|]. by apply Hn.
Qed.

Lemma InvP_alloc pl sg at_ txs rest app a n todo ps key :
  InvP pl sg at_ txs (LNonce app a n todo ps :: rest) -> PubkeyToAddress key = a ->
  InvP (alloc_pool (ResetNonce n (Signer app a key 0)) pl) sg at_ txs
    (LLoad app todo (ps ++ [pl_next pl]) :: rest).
Proof.
  intros [Hpool Hky Hl Ha Hi Hloc Hld Hu Haid Hr Hh Hah Ho Hsm Hsafe Hsnd] Hkey.
  set (s := ResetNonce n _). set (pl' := alloc_pool s pl).
  assert (pl_heap pl !! pl_next pl = None) as Hnone.
  { destruct (pl_heap pl !! pl_next pl) eqn:E; [|done].
    pose proof (pi_next _ _ Hpool (pl_next pl) (ex_intro _ _ E)). lia. }
  assert (forall q t, pl_heap pl !! q = Some t -> pl_heap pl' !! q = Some t) as Hkeep.
  { intros q t Hq. simpl. rewrite lookup_insert_ne; [done|congruence]. }
  assert (forall b q t, live pl b q -> pl_heap pl' !! q = Some t -> pl_heap pl !! q = Some t) as Hback.
  { intros b q t Hlv Ht. destruct (live_owned _ _ _ _ Hpool Hlv) as (t0 & Ht0 & _).
    rewrite (Hkeep _ _ Ht0) in Ht. congruence. }
  assert (forall l, l ∈ LNonce app a n todo ps :: rest -> pl_next pl ∉ lptrs l) as Hfresh.
  { intros l Hl' Hin. rewrite Forall_forall in Hloc.
    destruct (lptrs_heap _ _ _ _ _ _ (Hloc l Hl') Hin). congruence. }
  assert (forall l, l ∈ LNonce app a n todo ps :: rest -> stable l pl sg at_ txs pl' sg at_ txs) as Hst.
  { intros l Hl'. split; try done. intros q Hq. simpl. rewrite lookup_insert_ne; [done|].
    intros <-. by apply (Hfresh l Hl'). }
  apply Forall_cons in Hloc as [Hme Hloc]. split; try done.
  - apply pool_inv_alloc; [exact Hpool|apply u64_range].
  - intros q t. simpl. destruct (decide (q = pl_next pl)) as [->|Hne].
    + rewrite lookup_insert_eq. by intros [= <-].
    + rewrite lookup_insert_ne by done. apply Hky.
  - intros b q t Hlv Ht. eapply Hl; [exact Hlv|]. by eapply Hback.
  - intros b q1 q2 t1 t2 H1 H2 Ht1 Ht2. eapply Ha; [exact H1|exact H2|by eapply Hback..].
  - intros b ap q t Hap Hq Ht. eapply Hi; [exact Hap|exact Hq|]. eapply Hback; [|exact Ht].
    exists ap. split; [done|]. rewrite <- (pi_split _ _ Hpool _ _ Hap). apply elem_of_app. by left.
  - constructor.
    + apply (local_ok_stable base _ _ _ _ _ _ _ _ _ (Hst _ ltac:(by left))) in Hme.
      apply (alloc_local_ok _ _ _ _ _ _ _ _ _ _ s Hme); [apply lookup_insert_eq|done..].
    + eapply others_stable; [exact Hloc|]. intros x Hx. apply Hst. by right.
  - simpl in *. rewrite <- app_assoc. simpl. apply NoDup_app. apply NoDup_app in Hld as (N1 & N2 & N3).
    split; [done|]. split.
    + intros q Hq [->|Hq']%elem_of_cons; [|by apply (N2 q)].
      apply (Hfresh (LNonce app a n todo ps)); [by left|done].
    + constructor; [|done]. intros Hin. apply list_elem_of_bind in Hin as (x & Hx & Hin).
      apply (Hfresh x); [by right|]. destruct x; simpl in *; try done; by apply not_elem_of_nil in Hx.
  - intros q Hin b Hlv. simpl in Hin. rewrite <- app_assoc in Hin.
    apply elem_of_app in Hin as [Hin|[->|Hin]%elem_of_cons].
    + revert Hlv. apply Hu. simpl. apply elem_of_app. by left.
    + destruct (live_owned _ _ _ _ Hpool Hlv) as (t & Ht & _). congruence.
    + revert Hlv. apply Hu. simpl. apply elem_of_app. by right.
Qed.

Lemma Forall2_lookup_addr pl app ps addrs q s :
  Forall2 (loaded_as pl app) ps addrs -> q ∈ ps -> pl_heap pl !! q = Some s ->
  exists i, ps !! i = Some q /\ addrs !! i = Some (sg_Address s).
Proof.
  intros Hf Hq Hs. apply list_elem_of_lookup in Hq as [i Hi].
  destruct (Forall2_lookup_l _ _ _ _ _ Hf Hi) as (a & Ha & t & Ht & _ & <-).
  exists i. split; [done|]. congruence.
Qed.

Lemma live_installed pl app ps b q :
  live (set_app app (AppPool ps ps) pl) b q -> live pl b q \/ (b = app /\ q ∈ ps).
Proof.
  intros (ap & Hap & Hq). simpl in Hap. destruct (decide (b = app)) as [->|Hne].
  - rewrite lookup_insert_eq in Hap. injection Hap as <-. by right.
  - rewrite lookup_insert_ne in Hap by done. left. by exists ap.
Qed.

Lemma InvP_install pl sg at_ txs rest app ps :
  InvP pl sg at_ txs (LLoad app [] ps :: rest) -> pl_apps pl !! app = None ->
  InvP (set_app app (AppPool ps ps) pl) sg at_ txs (LFree :: rest).
Proof.
  intros [Hpool Hky Hl Ha Hi Hloc Hld Hu Haid Hr Hh Hah Ho Hsm Hsafe Hsnd] Hno.
  set (pl' := set_app _ _ _).
  apply Forall_cons in Hloc as [(_ & addrs & Hla & Hreg & Hnd & Hnil & Hsy) Hloc].
  specialize (Hsy Hno). rewrite app_nil_r in Hnd, Hnil.
  simpl in Hld. apply NoDup_app in Hld as (Hnps & Hdis & Hld).
  pose proof (live_installed pl app ps) as Hlive.
  assert (forall q, ~ live pl app q) as Hnl.
  { intros q (ap & Hap & _). congruence. }
  split; try done.
  - set (w := World empty_db pl ∅ ∅ []).
    eapply (install_inv app ps w (Ok tt) (set_pool pl' w)); [exact Hpool|done| |].
    + by eapply loaded_as_owned.
    + unfold install. rewrite run_pool_action. simpl. by rewrite Hno.
  - intros b q t [Hlv|[-> Hq]]%Hlive Ht; [by eapply Hl|].
    destruct (Forall2_lookup_addr _ _ _ _ _ _ Hla Hq Ht) as (i & _ & Hi').
    eapply (Forall_lookup_1 _ _ _ _ Hreg Hi').
  - intros b q1 q2 t1 t2 [H1|[-> H1]]%Hlive [H2|[E2 H2]]%Hlive Ht1 Ht2 E.
    + by eapply Ha.
    + subst b. by apply Hnl in H1.
    + by apply Hnl in H2.
    + destruct (Forall2_lookup_addr _ _ _ _ _ _ Hla H1 Ht1) as (i & Hi1 & Hi2).
      destruct (Forall2_lookup_addr _ _ _ _ _ _ Hla H2 Ht2) as (j & Hj1 & Hj2).
      rewrite E in Hi2. pose proof (NoDup_lookup _ _ _ _ Hnd Hi2 Hj2) as ->. congruence.
  - intros b ap q t. unfold pl'. simpl. destruct (decide (b = app)) as [->|Hne].
    + rewrite lookup_insert_eq. intros [= <-] Hq Ht. simpl in Hq.
      apply list_elem_of_lookup in Hq as [i Hq].
      destruct (Forall2_lookup_l _ _ _ _ _ Hsy Hq) as (x & _ & n & (t' & Ht' & Hx & Hn) & Hsync).
      rewrite Ht in Ht'. injection Ht' as <-. rewrite Hx, Hn. exact Hsync.
    + rewrite lookup_insert_ne by done. by eapply Hi.
  - constructor; [done|]. eapply others_stable; [exact Hloc|]. intros x Hx. split; try done.
    + intros b. unfold pl'. simpl. destruct (decide (b = app)) as [->|Hb]; [done|].
      by rewrite lookup_insert_ne.
    + intros b. unfold pl'. simpl. destruct (decide (b = app)) as [->|Hb];
        [by rewrite lookup_insert_eq|by rewrite lookup_insert_ne].
  - intros q Hin b [Hlv|[-> Hq]]%Hlive.
    + revert Hlv. apply Hu. simpl. apply elem_of_app. by right.
    + by apply (Hdis q).
  - intros b ap. unfold pl'. simpl. destruct (decide (b = app)) as [->|Hb].
    + rewrite lookup_insert_eq. intros [= <-]. simpl. intros ->. by inversion Hla; subst.
    + rewrite lookup_insert_ne by done. apply Hsm.
Qed.

(** ** What the rest of the process does *)

(** Outside [Submit]: the pool is left alone; signers are only added, with
    addresses no transaction was accepted from; attempt rows keep their hash and
    do not become failed; and only treasuries that are no signers send. *)
Record quiet (sg : gmap string signer_row) (at_ : gmap string attempt_row)
    (txs : list (signed_tx * bool)) (sg' : gmap string signer_row) (at' : gmap string attempt_row)
    (txs' : list (signed_tx * bool)) : Prop := {
  q_old k row : sg !! k = Some row -> sg' !! k = Some row;
  q_new k row : sg' !! k = Some row -> sg !! k = None ->
    exists a, k = lowerHex a /\ forall e, e ∈ txs' -> stx_from e.1 <> a;
  q_attempts : attempts_kept at_ at';
  q_txs : exists new, txs' = new ++ txs /\
    forall e, e ∈ new -> ~ is_signer sg' (stx_from e.1) /\ ar_treasury K (stx_from e.1);
}.

Lemma nonce_after_app new txs a :
  (forall e, e ∈ new -> stx_from e.1 <> a) -> nonce_after (new ++ txs) a = nonce_after txs a.
Proof.
  induction new as [|[s b] new IH]; intros H; [done|]. simpl.
  rewrite nonce_after_other by exact (H (s, b) (list_elem_of_here _ _)).
  apply IH. intros x Hx. apply H. by right.
Qed.

Lemma InvP_quiet `{EL : !GoEthereumLaws} pl sg at_ txs ls sg' at' txs' :
  quiet sg at_ txs sg' at' txs' -> InvP pl sg at_ txs ls -> InvP pl sg' at' txs' ls.
Proof.
  intros [Hold Hnew Hat (new & -> & Hnt)] Hinv.
  assert (forall e, e ∈ new -> ~ is_signer sg' (stx_from e.1)) as Hns by (intros s Hs; by apply Hnt).
  apply (InvP_attempts _ _ _ _ _ _ Hat) in Hinv.
  destruct Hinv as [Hpool Hky Hl Ha Hi Hloc Hld Hu Haid Hr Hh Hah Ho Hsm Hsafe Hsnd].
  assert (forall app a, registered sg app a -> registered sg' app a) as Hreg.
  { intros app a (row & Hrow & Happ). exists row. eauto. }
  assert (forall a, is_signer sg a -> is_signer sg' a) as Hsig.
  { intros a [row Hrow]. exists row. eauto. }
  assert (forall e, e ∈ new ++ txs -> is_signer sg' (stx_from e.1) ->
    e ∈ txs /\ is_signer sg (stx_from e.1)) as Hback.
  { intros s Hs Hsg. pose proof Hs as Hs0. apply elem_of_app in Hs as [Hs|Hs]; [by apply Hns in Hs|].
    split; [done|]. destruct Hsg as [row Hrow].
    destruct (sg !! lowerHex (stx_from s.1)) as [r|] eqn:E; [by exists r|].
    destruct (Hnew _ _ Hrow E) as (a & Ea & Hno). apply lowerHex_inj in Ea.
    exfalso. by apply (Hno s). }
  assert (forall a, is_signer sg a -> answered (new ++ txs) a ->
    answered txs a /\ nonce_after (new ++ txs) a = nonce_after txs a) as Hna.
  { intros a Hsg Hans. split.
    - intros e He. apply Hans, elem_of_app. by right.
    - apply nonce_after_app. intros s Hs E. apply (Hns s Hs). rewrite E. by apply Hsig. }
  assert (forall app a, registered sg app a -> is_signer sg a) as Hrs.
  { intros app a (row & Hrow & _). by exists row. }
  split; try done.
  - intros app p s Hlv Hs. by apply Hreg, (Hl _ p).
  - intros app ap p s Hap Hp Hs Hans. destruct (Hna (sg_Address s)) as [Hans' ->]; [|done|by eapply Hi].
    eapply Hrs, (Hl app p); [|done]. exists ap. split; [done|].
    rewrite <- (pi_split _ _ Hpool _ _ Hap). apply elem_of_app. by left.
  - rewrite Forall_forall in Hloc |- *. intros x Hx. pose proof (Hloc x Hx) as Hok.
    eapply local_ok_stable; [|exact Hok]. split; try done.
    + intros a Hxa. apply Hna. destruct x; try done; injection Hxa as ->; simpl in Hok;
        destruct Hok as [Hreg' _]; by eapply Hrs.
    + intros app a _ Hra _. apply Hna. by eapply Hrs.
    + intros aid h _ _ Hno s Hs Hsg. destruct (Hback (s, true) Hs Hsg) as [Hs' Hsg']. by apply Hno.
  - intros k row Hrow. destruct (sg !! k) as [r|] eqn:E; [by eapply Hr|].
    destruct (Hnew _ _ Hrow E) as (a & Ea & _). eauto.
  - intros s b Hs Hsg. destruct (Hback (s, b) Hs Hsg) as [Hs' Hsg']. by apply Hah.
  - intros l1 s b l2 E Hsg Hans.
    assert ((s, b) ∈ new ++ txs) as Hs by (rewrite E; apply elem_of_app; right; by left).
    destruct (Hback (s, b) Hs Hsg) as [_ Hsg'].
    apply app_eq_app in E as (l & [[-> E]|[-> E]]).
    + destruct l as [|x l]; simpl in E.
      * eapply (Ho [] s b); [by symmetry|done|done].
      * injection E as <- ->. exfalso. apply (Hns (s, b)); [|done]. apply elem_of_app. right. by left.
    + by eapply Ho.
  - intros s [Hs|Hs]%elem_of_app; [right; by apply Hnt|].
    destruct (Hsnd s Hs) as [H|H]; [left; by apply Hsig|by right].
Qed.
End steps.
