(* ===== verification/Concurrent.v ===== *)
(** * The relay's programs under any interference

    [Submit] calls and watcher ticks run interleaved, action by action, next to
    what else writes the tables, and the process may crash and restart between
    any two actions.  Each program is proved here against the global invariant in
    the logic of [okp]; [Wired] puts them together with the rest of the process. *)

From Stdlib Require Import ZArith Lia.
From S2P Require Import Prelude GoLib Eth Database World Chain SignerPool RefEnv.
From S2P Require Import AppService RelayService RelayStatus Watcher Webhook.
From S2P Require Import Interleave System SystemSteps.

Local Open Scope Z_scope.
Local Open Scope txmill_scope.
#[local] Arguments Nat.ltb : simpl never.

(** A statement, an open transaction, that keeps the signers and only settles
    attempts. *)
Definition safe_change (db db' : database) : Prop :=
  db_signers db' = db_signers db /\ db_apps db' = db_apps db /\
  attempts_kept (db_attempts db) (db_attempts db').
Definition safe_stmt {X} (s : stmt X) : Prop :=
  forall se db x db', s se db = Ok (x, db') -> safe_change db db'.
Definition safe_txn (t : txn) : Prop :=
  forall db db', txn_apply t db = Ok db' -> safe_change db db'.

Lemma safe_change_trans db1 db2 db3 :
  safe_change db1 db2 -> safe_change db2 db3 -> safe_change db1 db3.
Proof.
  intros (Hs1 & Ha1 & [F1 B1]) (Hs2 & Ha2 & [F2 B2]). split; [congruence|]. split; [congruence|]. split.
  - intros i r Hr. destruct (F1 _ _ Hr) as (r1 & Hr1 & E1 & S1).
    destruct (F2 _ _ Hr1) as (r2 & Hr2 & E2 & S2). exists r2. split; [done|]. split; [congruence|auto].
  - intros i r Hr. destruct (B2 _ _ Hr) as (r1 & Hr1 & E1).
    destruct (B1 _ _ Hr1) as (r2 & Hr2 & E2). exists r2. split; [done|congruence].
Qed.

Lemma update_request_safe `{Postgres} id st : safe_stmt (update_request id st).
Proof.
  intros se db x db'. unfold update_request. destruct (pg_uuid_in id); [|done].
  intros [= _ <-]. do 2 (split; [done|]). apply attempts_kept_refl.
Qed.

Lemma update_attempt_safe `{Postgres} id f :
  (forall r, t_tx_hash (f r) = t_tx_hash r /\ t_status (f r) <> TFailed) ->
  safe_stmt (update_attempt id f).
Proof.
  intros Hf se db x db'. unfold update_attempt. destruct (pg_uuid_in id); [|done].
  intros [= _ <-]. do 2 (split; [done|]). by apply attempts_kept_alter.
Qed.

Lemma update_receipt_safe `{Postgres} id rc n logs reason :
  safe_stmt (update_receipt id (outcome_of rc).1 rc n logs reason).
Proof.
  intros se db x db'. unfold update_receipt. destruct (pg_decimal_in _); [|done].
  destruct (pg_jsonb_in logs); [|done]. intros [_ Hu]%check_Ok. revert Hu. apply update_attempt_safe.
  intros r. split; [done|]. simpl. unfold outcome_of. by destruct (_ =? _).
Qed.

Section programs.
Context `{Env : Environment} `{Eth : GoEthereum} `{PG : Postgres} `{KS : !KeystoreLoader}.
Context `{EL : !GoEthereumLaws} `{KSF : !KeystoreFrame} `{KSS : !KeystoreSound}.
Context `{UUL : !UuidLaws} `{NA : !NodeAccepts} (base : address -> Z) `{NL : !NodeLaws base}.
(** what a panic of a program must be due to *)
Context (panics : Prop).

Abbreviation Inv := (System.Inv base ks_safe).

(** The one place where a goroutine waits: all signers of a loaded app are
    checked out. *)
Definition waits (w : world) (l : local) : Prop :=
  exists app ap, l = LWait app /\ pl_apps (w_pool w) !! app = Some ap /\ ap_idle ap = [].

Abbreviation okp := (Interleave.okp Inv waits (fun _ => panics)).

(** The ghost state is unchanged. *)
Definition stays {A} (l : local) (P : A -> Prop) : local -> A -> Prop :=
  fun l' a => l' = l /\ P a.

(** ** Programs the invariant does not see *)

Lemma okp_seen {A} (P : A -> Prop) l (p : prog A) :
  keeps seen p -> total_on (fun w => ks_safe (w_files w)) p -> rets P p -> okp (stays l P) l p.
Proof.
  intros. apply (okp_frame Inv waits _ seen (fun w => ks_safe (w_files w))); [| |done..].
  - apply Inv_seen.
  - intros w ls. apply I_files.
Qed.

Lemma okp_unseen {A} l (p : prog A) :
  keeps seen p -> total p -> okp (stays l (fun _ => True)) l p.
Proof. intros. apply okp_seen; [done|by apply total_total_on|apply rets_True]. Qed.

(** ** Statements and transactions *)

Lemma okp_pg {X} (fin : local -> result X -> Prop) l (s : stmt X) :
  (forall e, fin l (Err e)) ->
  (forall w rest x db', Inv w (l :: rest) -> s (env_stmt w) (w_db w) = Ok (x, db') ->
     (exists l', Inv (set_db db' w) (l' :: rest) /\ fin l' (Ok x)) /\
     forall e, exists l', Inv (set_db db' w) (l' :: rest) /\ fin l' (Err e)) ->
  okp fin l (pg s).
Proof.
  intros He Hs. apply okp_action. intros w rest Hinv. specialize (Hs w rest).
  destruct (env_pg_fate (w_hist w)) as [|[] e], (s (env_stmt w) (w_db w)) as [[x db']|e']; simpl;
    first [ exists l; split; [exact Hinv|apply He]
          | destruct (Hs x db' Hinv eq_refl) as [(l' & Hi & Hf) _]; exists l'; split; [exact Hi|exact Hf]
          | destruct (Hs x db' Hinv eq_refl) as [_ H]; destruct (H e) as (l' & Hi & Hf);
            exists l'; split; [exact Hi|exact Hf] ].
Qed.

Lemma Inv_safe w ls db' : safe_change (w_db w) db' -> Inv w ls -> Inv (set_db db' w) ls.
Proof.
  intros (Hs & Hap & Ha) Hinv. unfold System.Inv, around_of. simpl. rewrite Hs, Hap. by eapply InvP_attempts.
Qed.

Lemma okp_pg_safe {X} l (s : stmt X) : safe_stmt s -> okp (stays l (fun _ => True)) l (pg s).
Proof.
  intros Hs. apply okp_pg; [done|]. intros w rest x db' Hinv E. apply Hs in E.
  pose proof (Inv_safe _ _ _ E Hinv) as Hi. split; [|intros e]; exists l; split; done.
Qed.

Definition opened (r : result txn) : Prop := match r with Ok t => safe_txn t | Err _ => True end.

Lemma okp_pg_begin l : okp (stays l opened) l pg_begin.
Proof.
  apply okp_action. intros w rest Hinv. exists l. destruct (env_pg_fate _); simpl; split; try done.
  split; [done|]. intros db db' [= <-]. do 2 (split; [done|]). apply attempts_kept_refl.
Qed.

Lemma okp_pg_tx {X} l t (s : stmt X) :
  safe_txn t -> safe_stmt s ->
  okp (stays l (fun r => match r with Ok xt => safe_txn xt.2 | Err _ => True end)) l (pg_tx t s).
Proof.
  intros Ht Hs. apply okp_action. intros w rest Hinv. exists l. split; [exact Hinv|].
  split; [done|]. simpl. destruct (env_pg_fate _); [|done].
  destruct (txn_apply t (w_db w)); [|done]. destruct (s _ _) as [[x ?]|]; [|done]. simpl.
  intros db db' H. simpl in H. destruct (txn_apply t db) as [db1|] eqn:E1; [|done].
  destruct (s _ db1) as [[y db2]|] eqn:E2; [|done]. injection H as <-.
  eapply safe_change_trans; [by apply Ht|by eapply Hs].
Qed.

Lemma okp_pg_commit l t : safe_txn t -> okp (stays l (fun _ => True)) l (pg_commit t).
Proof.
  intros Ht. apply okp_action. intros w rest Hinv. exists l.
  destruct (env_pg_fate _) as [|[] e], (txn_apply t (w_db w)) as [db'|e'] eqn:E; simpl;
    (split; [|done]); first [exact Hinv | apply Ht in E; exact (Inv_safe _ _ _ E Hinv)].
Qed.

Lemma okp_txn2 {X Y} l (s1 : stmt X) (s2 : stmt Y) :
  safe_stmt s1 -> safe_stmt s2 ->
  okp (stays l (fun _ => True)) l
    (let? t := pg_begin in let? r1 := pg_tx t s1 in let? r2 := pg_tx r1.2 s2 in pg_commit r2.2).
Proof.
  intros H1 H2. eapply okp_bind; [apply okp_pg_begin|]. intros ? [t|e] [-> Ht]; [|done].
  eapply okp_bind; [by apply okp_pg_tx|]. intros ? [r1|e] [-> Hr1]; [|done].
  eapply okp_bind; [by apply okp_pg_tx|]. intros ? [r2|e] [-> Hr2]; [|done].
  by apply okp_pg_commit.
Qed.

(** ** The request row and the webhook *)

Definition enqueuer_ok (o : option WebhookEnqueuer) : Prop :=
  match o with None => True | Some e => forall rid, keeps core (e rid) /\ keeps w_files (e rid) /\ total (e rid) end.

Lemma okp_enqueue l e rid :
  enqueuer_ok (Some e) -> okp (stays l (fun _ => True)) l (e rid).
Proof. intros He. destruct (He rid) as (? & ? & ?). apply okp_unseen; [by apply keeps_core_seen|done]. Qed.

Lemma okp_fireWebhook l s rid :
  enqueuer_ok (svc_webhooks s) -> okp (stays l (fun _ => True)) l (fireWebhook s rid).
Proof.
  unfold fireWebhook. destruct (svc_webhooks s) as [e|]; [|done]. intros He.
  eapply okp_bind; [by apply okp_enqueue|]. by intros ? r [-> _].
Qed.

Lemma okp_insertRequest l inp v : okp (stays l (fun _ => True)) l (insertRequest inp v).
Proof.
  apply okp_pg_safe. intros se db x db'. destruct (request_row_of _ _ _); [|done].
  intros H. unfold insert_request in H. do 3 apply check_Ok in H as [_ H].
  injection H as _ <-. do 2 (split; [done|]). apply attempts_kept_refl.
Qed.

Lemma okp_markRequestStatus l s rid st :
  enqueuer_ok (svc_webhooks s) ->
  okp (stays l (fun _ => True)) l (markRequestStatus s rid st).
Proof.
  intros He. eapply okp_bind; [apply okp_pg_safe, update_request_safe|]. intros ? r [-> _].
  destruct (_ && _); [|done].
  eapply okp_bind; [by apply okp_fireWebhook|]. by intros ? [] [-> _].
Qed.

Lemma okp_rpc {X} l e (answer : history -> X) :
  (forall w, seen (log e w) = seen w) -> okp (stays l (fun _ => True)) l (rpc e answer).
Proof. intros H. apply okp_unseen; [by apply rpc_keeps|apply total_action]. Qed.

Lemma okp_gasLimitFor l inp v a : okp (stays l (fun _ => True)) l (gasLimitFor inp v a).
Proof.
  unfold gasLimitFor. destruct (_ =? 0); [|done].
  eapply okp_bind; [by apply okp_rpc|]. by intros ? [est|e] [-> _].
Qed.
(** ** Loading a pool *)

Lemma signer_rows_registered app se db rows :
  pg_uuid_in app = Some app ->
  (forall k row, db_signers db !! k = Some row -> exists a, k = lowerHex a) ->
  signer_rows app se db = Ok rows ->
  let addrs := List.map (fun kv => HexToAddress kv.1) rows in
  Forall (registered (db_signers db) app) addrs /\ NoDup addrs.
Proof.
  intros Happ Hrows. unfold signer_rows. rewrite Happ. intros [= <-]. simpl.
  set (f := fun (_ : string) (r : signer_row) => String.eqb (s_app_id r) app).
  set (l := sort_by _ _).
  assert (l ≡ₚ rows_where f (db_signers db)) as Hp by (unfold l; by rewrite !sort_by_perm).
  assert (forall kv, kv ∈ l -> db_signers db !! kv.1 = Some kv.2 /\ s_app_id kv.2 = app /\
    lowerHex (HexToAddress kv.1) = kv.1) as Hl.
  { intros [k row]. rewrite Hp, rows_where_elem. intros [Hk E%String.eqb_eq]. split; [done|].
    split; [done|]. destruct (Hrows _ _ Hk) as [a ->]. simpl. by rewrite HexToAddress_lowerHex. }
  assert (NoDup l.*1) as Hnd by (rewrite Hp; apply rows_where_keys_nodup).
  clear Hp. revert Hl Hnd. generalize l. clear l. intros l. induction l as [|kv l IH].
  { intros _ _. split; constructor. }
  intros Hl [Hn Hnd]%NoDup_cons. destruct IH as [IH1 IH2]; [intros x Hx; apply Hl; by right|done|].
  destruct (Hl kv (list_elem_of_here _ _)) as (Hk & Ha & E). split; constructor; try done.
  - exists kv.2. by rewrite E.
  - intros (x & E' & Hx)%list_elem_of_fmap. apply Hn, list_elem_of_fmap. exists x. split; [|done].
    destruct (Hl x) as (_ & _ & Ex); [by right|]. congruence.
Qed.

Definition listed (app : string) (l : local) (r : result (list address)) : Prop :=
  match r with Ok ((_ :: _) as addrs) => l = LLoad app addrs [] | _ => l = LFree end.

Lemma okp_ListSigners app :
  pg_uuid_in app = Some app -> okp (listed app) LFree (ListSigners app).
Proof.
  intros Happ. eapply (okp_bind _ _ _ (fun l r => match r with
    | Ok ((_ :: _) as rows) => l = LLoad app (List.map (fun kv => HexToAddress kv.1) rows) []
    | _ => l = LFree end)).
  2:{ by intros l [[|kv rows]|e]. }
  apply okp_pg; [done|]. intros w rest rows db' Hinv E. unfold select in E.
  destruct (signer_rows _ _ _) as [rows'|] eqn:Er; [|done]. injection E as -> <-.
  split; [|intros e; exists LFree; split; [exact Hinv|done]].
  destruct rows as [|kv rows]; [by exists LFree|]. eexists. split; [|reflexivity].
  destruct (signer_rows_registered _ _ _ _ Happ (I_rows _ _ _ _ _ _ _ Hinv) Er) as [Hreg Hnd].
  eapply InvP_local; [exact Hinv|done|done|done|].
  split; [exact Hreg|]. exists []. split; [constructor|]. split; [constructor|].
  split; [exact Hnd|]. split; [done|]. intros _. constructor.
Qed.

Lemma okp_PendingNonceAt app a todo ps :
  okp (fun l r => match r with
        | Ok n => l = LNonce app a n todo ps | Err _ => l = LLoad app (a :: todo) ps end)
    (LLoad app (a :: todo) ps) (PendingNonceAt a).
Proof.
  apply okp_action. intros w rest Hinv. simpl.
  destruct (env_PendingNonceAt (w_hist w) a) as [n|e] eqn:E; simpl; [|by eexists].
  eexists. split; [|reflexivity]. eapply InvP_local; [exact Hinv|done|done|done|].
  pose proof (I_local _ _ _ _ _ _ _ Hinv) as Hloc. apply Forall_cons in Hloc as [Hok _].
  split; [exact Hok|]. intros _ Hans. rewrite u64_u64. exact (node_nonce (w_hist w) _ _ Hans E).
Qed.

Lemma okp_alloc app a n key todo ps :
  PubkeyToAddress key = a ->
  okp (fun l p => l = LLoad app todo (ps ++ [p])) (LNonce app a n todo ps)
    (alloc (ResetNonce n (Signer app a key 0))).
Proof.
  intros Hkey. apply okp_action. intros w rest Hinv. eexists. split; [|reflexivity].
  by apply (InvP_alloc base _ (w_pool w)).
Qed.

Definition objects_made (app : string) (l : local) (r : result (list ptr)) : Prop :=
  match r with Ok ps => l = LLoad app [] ps | Err _ => idle l end.

Lemma okp_load_signers app addrs ps :
  okp (objects_made app) (LLoad app addrs ps) (load_signers app addrs ps).
Proof.
  revert ps. induction addrs as [|a addrs IH]; intros ps; [done|]. cbn [load_signers].
  eapply okp_bind.
  { apply okp_seen; [|apply ks_Load_total|apply ks_Load_rets].
    apply keeps_view_seen; [apply ks_Load_view|apply ks_Load_files]. }
  intros ? [key|e] [-> Hkey]; [|done].
  eapply okp_bind; [apply okp_PendingNonceAt|]. intros l [n|e] ->; [|done].
  eapply okp_bind; [by apply okp_alloc|]. intros ? p ->. apply IH.
Qed.

Lemma okp_install app ps : okp (fun l _ => idle l) (LLoad app [] ps) (install app ps).
Proof.
  apply okp_action. intros w rest Hinv.
  destruct (pl_apps (w_pool w) !! app) as [ap|] eqn:E; simpl.
  - by eexists.
  - exists LFree. split; [|done]. by apply (InvP_install base _ (w_pool w)).
Qed.

(** Reads of the pool. *)
Lemma okp_read {X} (P : X -> Prop) l (f : pool -> X) :
  (forall w rest, Inv w (l :: rest) -> P (f (w_pool w))) ->
  okp (stays l P) l (pool_action (fun pl => (f pl, pl))).
Proof. intros H. apply okp_action. intros w rest Hinv. exists l. split; [exact Hinv|]. split; eauto. Qed.

Lemma okp_Load app :
  pg_uuid_in app = Some app -> okp (fun l _ => idle l) LFree (Load app).
Proof.
  intros Happ. unfold Load. eapply okp_bind; [by apply (okp_read (fun _ => True))|].
  intros ? ok [-> _]. destruct ok; [done|].
  eapply okp_bind; [by apply okp_ListSigners|]. intros l [[|a addrs]|e]; simpl; intros ->; [done| |done].
  eapply okp_bind; [apply okp_load_signers|]. intros l [ps|e]; simpl; [|done].
  intros ->. apply okp_install.
Qed.

(** ** Checking a signer out and giving it back *)

Lemma okp_recv_idle app :
  okp (fun l r => match r with Ok p => exists a, l = LHeld app p a | Err _ => idle l end)
    (LWait app) (recv_idle app).
Proof.
  intros w rest Hinv.
  pose proof (I_local _ _ _ _ _ _ _ Hinv) as Hloc. apply Forall_cons in Hloc as [[ap Eap] _].
  rewrite Eap. split.
  { destruct (ap_idle ap) eqn:Ei; [intros _; by exists app, ap|]. by destruct (_ && _). }
  intros r w'.
  destruct (ap_idle ap) as [|p ps] eqn:Ei.
  { destruct (env_ctx_done _); [|done]. intros [= <- <-]. by eexists. }
  destruct (_ && _). { intros [= <- <-]. by eexists. }
  intros [= <- <-].
  pose proof (pi_split _ _ (I_pool _ _ _ _ _ _ _ Hinv) _ _ Eap) as Hsp.
  assert (p ∈ ap_signers ap) as Hp. { rewrite <- Hsp, Ei. by left. }
  assert (live (w_pool w) app p) as Hlive by by exists ap.
  destruct (live_owned _ _ _ _ (I_pool _ _ _ _ _ _ _ Hinv) Hlive) as (s & Hs & _).
  exists (LHeld app p (sg_Address s)). split; [|by eexists].
  apply (InvP_idle base _ (w_pool w) _ _ _ (LWait app)); simpl; try done.
  - by rewrite Ei, decide_True, app_nil_r, Permutation_app_comm.
  - intros b Hb. by rewrite decide_False.
  - intros q t Hq. apply (I_idle _ _ _ _ _ _ _ Hinv app ap q); [done|]. rewrite Ei. by right.
  - split; [exact (I_live _ _ _ _ _ _ _ Hinv app p s Hlive Hs)|]. exists (sg_nonce s).
    split; [by exists s|]. apply (I_idle _ _ _ _ _ _ _ Hinv app ap p); [done| |done]. rewrite Ei. by left.
Qed.

Lemma okp_Checkout app :
  okp (fun l r => match r with Ok p => exists a, l = LHeld app p a | Err _ => idle l end)
    LFree (Checkout app).
Proof.
  unfold Checkout.
  eapply (okp_bind _ _ _ (fun l (ok : bool) => l = if ok then LWait app else LFree)).
  2:{ intros ? [] ->; [apply okp_recv_idle|done]. }
  apply okp_action. intros w rest Hinv. eexists. split; [|reflexivity]. cbn [fst].
  case_bool_decide as Hl; [|exact Hinv]. eapply InvP_local; [exact Hinv|done|done|done|exact Hl].
Qed.

(** What a goroutine knows of the signer it holds. *)
Lemma held_signer w app p a rest :
  Inv w (LHeld app p a :: rest) ->
  exists s ap, pl_heap (w_pool w) !! p = Some s /\ sg_Address s = a /\
    PubkeyToAddress (sg_Key s) = a /\ sg_AppID s = app /\
    (answered (sent_log (w_hist w)) a -> sg_nonce s = u64 (nonce_after base (sent_log (w_hist w)) a)) /\
    pl_apps (w_pool w) !! app = Some ap /\
    (length (ap_idle ap) < length (ap_signers ap))%nat.
Proof.
  intros Hinv. pose proof (I_pool _ _ _ _ _ _ _ Hinv) as Hpool.
  pose proof (I_local _ _ _ _ _ _ _ Hinv) as Hloc.
  apply Forall_cons in Hloc as [(Hreg & n & (s & Hs & Ha & <-) & Hn) _].
  assert (held_of (LHeld app p a :: rest) app = p :: held_of rest app) as Hh.
  { unfold held_of. simpl. by rewrite decide_True. }
  assert (p ∈ held_of (LHeld app p a :: rest) app) as Hp by (rewrite Hh; by left).
  destruct (held_owned _ _ _ _ Hpool Hp) as (s' & Hs' & Happ).
  destruct (held_live _ _ _ _ Hpool Hp) as (ap & Hap & _).
  assert (s' = s) as -> by congruence.
  exists s, ap. split; [done|]. split; [done|].
  split; [rewrite <- Ha; by apply (I_keys _ _ _ _ _ _ _ Hinv p)|]. split; [done|]. split; [done|].
  split; [done|]. pose proof (pi_split _ _ Hpool _ _ Hap) as Hsp. rewrite Hh in Hsp.
  rewrite <- Hsp, length_app. simpl. lia.
Qed.

Lemma okp_deref app p a :
  okp (stays (LHeld app p a) (fun s => sg_Address s = a /\ PubkeyToAddress (sg_Key s) = a /\
    sg_AppID s = app)) (LHeld app p a) (deref p).
Proof.
  unfold deref. eapply okp_bind.
  { apply (okp_read (fun o => exists s, o = Some s /\ sg_Address s = a /\
      PubkeyToAddress (sg_Key s) = a /\ sg_AppID s = app)).
    intros w rest Hinv. destruct (held_signer _ _ _ _ _ Hinv) as (s & ap & ? & ? & ? & ? & _).
    exists s. done. }
  intros ? o [-> (s & -> & H)]. done.
Qed.

(** Giving a signer back never waits. *)
Lemma okp_send_idle app p a : okp (fun l _ => l = LFree) (LHeld app p a) (send_idle app p).
Proof.
  intros w rest Hinv.
  destruct (held_signer _ _ _ _ _ Hinv) as (s & ap & Hs & Ha & _ & _ & Hn & Hap & Hlt).
  rewrite Hap. apply Nat.ltb_lt in Hlt. rewrite Hlt. split; [done|].
  intros x w' [= <- <-]. exists LFree. split; [|done].
  apply (InvP_idle base _ (w_pool w) _ _ _ (LHeld app p a)); simpl; try done.
  - by rewrite decide_True, app_nil_r.
  - intros b Hb. by rewrite decide_False.
  - intros q t [Hq|Hq%list_elem_of_singleton]%elem_of_app Ht.
    + by apply (I_idle _ _ _ _ _ _ _ Hinv app ap q).
    + subst q. assert (t = s) as -> by congruence. by rewrite Ha.
Qed.

Lemma okp_Release app p a : okp (fun l _ => l = LFree) (LHeld app p a) (Release p).
Proof.
  unfold Release. eapply okp_bind; [apply okp_deref|]. intros ? s [-> (_ & _ & ->)].
  eapply okp_bind.
  { apply (okp_read (fun b => b = true)). intros w rest Hinv.
    destruct (held_signer _ _ _ _ _ Hinv) as (? & ap & _ & _ & _ & _ & _ & -> & _). done. }
  intros ? ok [-> ->]. apply okp_send_idle.
Qed.
(** ** From the nonce reservation to the broadcast *)

Lemma okp_use_nonce_at app p a :
  okp (fun l n => l = LReserved app p a n) (LHeld app p a) (use_nonce_at p).
Proof.
  apply okp_action. intros w rest Hinv.
  destruct (held_signer _ _ _ _ _ Hinv) as (s & ap & Hs & Ha & _ & _ & Hn & _). simpl.
  rewrite Hs. simpl. eexists. split; [|reflexivity].
  pose proof (pi_nonce _ _ (I_pool _ _ _ _ _ _ _ Hinv) _ _ Hs) as Hin.
  pose proof (UseNonce_result s Hin) as Hu. simpl in Hu. rewrite Hu.
  apply (InvP_heap base _ (w_pool w) _ _ _ (LHeld app p a) _ _ app); try done.
  - simpl. rewrite decide_True by done. by left.
  - apply u64_range.
  - pose proof (I_local _ _ _ _ _ _ _ Hinv) as Hloc. apply Forall_cons in Hloc as [[Hreg _] _].
    split; [exact Hreg|]. split; [exact Hn|]. eexists. split; [apply lookup_insert_eq|]. done.
Qed.

Lemma alter_at (p : ptr) (f : signer -> signer) (m : gmap ptr signer) s :
  m !! p = Some s -> alter f p m = <[p := f s]> m.
Proof.
  intros Hs. apply map_eq. intros q. destruct (decide (q = p)) as [->|Hne].
  - by rewrite lookup_alter_eq, lookup_insert_eq, Hs.
  - by rewrite lookup_alter_ne, lookup_insert_ne.
Qed.

(** The rewind of a reserved nonce brings the counter back to where it was. *)
Lemma rewind_reserved pl txs p a n :
  reserved base pl txs p a n ->
  exists s, pl_heap pl !! p = Some s /\
    synced base (map_heap <[p := RewindNonce s]> pl) txs p a.
Proof.
  intros (Hn & s & Hs & Ha & Hns). exists s. split; [done|]. exists (u64 n). split.
  - exists (RewindNonce s). split; [apply lookup_insert_eq|]. split; [done|].
    rewrite RewindNonce_nonce, Hns, u64_sub_l. f_equal. lia.
  - intros Hans. rewrite (Hn Hans). apply u64_u64.
Qed.

Lemma okp_rewind l l' app p a n :
  (forall b, lheld b l' = lheld b l) -> laid l' = laid l -> p ∈ lheld app l -> lload l' = [] ->
  (forall pl sg at_ txs, local_ok base pl sg at_ txs l -> reserved base pl txs p a n) ->
  (forall pl pl' sg at_ txs, local_ok base pl sg at_ txs l -> synced base pl' txs p a ->
     local_ok base pl' sg at_ txs l') ->
  okp (fun l1 _ => l1 = l') l (rewind_nonce_at p).
Proof.
  intros Hh Hd Hp Hl Hres Hok. apply okp_action. intros w rest Hinv. exists l'. split; [|done].
  pose proof (I_local _ _ _ _ _ _ _ Hinv) as Hloc. apply Forall_cons in Hloc as [Hme _].
  destruct (rewind_reserved _ _ _ _ _ (Hres _ _ _ _ Hme)) as (s & Hs & Hsy).
  assert (map_heap (alter RewindNonce p) (w_pool w) = map_heap <[p := RewindNonce s]> (w_pool w)) as E.
  { unfold map_heap. by rewrite (alter_at _ _ _ _ Hs). }
  unfold System.Inv. simpl. rewrite E.
  apply (InvP_heap base _ (w_pool w) _ _ _ l _ _ app); try done; [apply u64_range|].
  by eapply Hok.
Qed.

Lemma okp_rewind_reserved app p a n :
  okp (fun l _ => l = LHeld app p a) (LReserved app p a n) (rewind_nonce_at p).
Proof.
  apply (okp_rewind _ _ app p a n); try done.
  - simpl. rewrite decide_True by done. by left.
  - by intros pl sg at_ txs [_ H].
  - intros pl pl' sg at_ txs [Hreg _] Hs. by split.
Qed.

Lemma okp_rewind_logged app p a n aid h :
  okp (fun l _ => l = LFailed app p a aid h) (LLogged app p a n aid h) (rewind_nonce_at p).
Proof.
  apply (okp_rewind _ _ app p a n); try done.
  - simpl. rewrite decide_True by done. by left.
  - by intros pl sg at_ txs (_ & H & _).
  - intros pl pl' sg at_ txs (Hreg & _ & Hrest) Hs. by split.
Qed.

(** The attempt row is written before the transaction is sent. *)
Definition logged (app : string) (p : ptr) (a : address) (n : Z) (h : hash)
    (l : local) (r : result string) : Prop :=
  match r with
  | Ok aid => l = LLogged app p a n aid h /\ pg_uuid_in aid = Some aid
  | Err _ => l = LReserved app p a n
  end.

Lemma okp_insertAttempt app p a n h rid price :
  okp (logged app p a n h) (LReserved app p a n) (insertAttempt rid a n h price).
Proof.
  apply okp_pg; [done|]. intros w rest aid db' Hinv E.
  destruct (attempt_row_of _ _ _ _ _ _) as [row|] eqn:Er; [|done].
  unfold insert_attempt in E. do 2 apply check_Ok in E as [_ E]. apply check_Ok in E as [Hfresh E].
  apply check_Ok in E as [Hun E]. apply check_Ok in E as [_ [= <- <-]].
  apply bool_decide_eq_true in Hfresh. set (aid := env_uuid (w_hist w)) in *.
  assert (t_tx_hash row = lowerHash h /\ t_status row = TSubmitting) as [Hh Hst].
  { unfold attempt_row_of in Er. destruct (pg_uuid_in _); [|done].
    destruct (pg_decimal_in _); [|done]. by injection Er as <-. }
  assert (forall i r, db_attempts (w_db w) !! i = Some r -> t_tx_hash r <> t_tx_hash row) as Hne.
  { intros i r Hr E. pose proof (no_row_elim _ _ _ _ Hun Hr) as Hx. simpl in Hx.
    by apply String.eqb_neq in Hx. }
  pose proof (I_local _ _ _ _ _ _ _ Hinv) as Hloc. apply Forall_cons in Hloc as [[Hreg Hres] _].
  split; [exists (LLogged app p a n aid h)|intros e; exists (LReserved app p a n)]; split.
  - apply (InvP_insert_attempt base _ _ _ _ _ (LReserved app p a n)); simpl; eauto.
    split; [done|]. split; [done|]. split.
    + exists row. split; [apply lookup_insert_eq|]. split; [done|]. by rewrite Hst.
    + intros s Hs Hsg E. destruct (I_ahead _ _ _ _ _ _ _ Hinv s true Hs Hsg) as (i & r & Hr & Hrh & _).
      apply (Hne i r Hr). congruence.
  - split; [done|apply env_uuid_canonical].
  - apply (InvP_insert_attempt base _ _ _ _ _ (LReserved app p a n)); simpl; eauto.
  - done.
Qed.

Lemma okp_SendTransaction app p a n aid stx :
  stx_from stx = a -> tx_nonce (stx_tx stx) = n ->
  okp (fun l r => l = if is_ok r then LHeld app p a else LLogged app p a n aid (stx_hash stx))
    (LLogged app p a n aid (stx_hash stx)) (SendTransaction stx).
Proof.
  intros Hf Hn. apply okp_action. intros w rest Hinv. simpl.
  destruct (env_SendTransaction (w_hist w) stx) as [u|e] eqn:E; simpl; eexists; split; try reflexivity.
  - unfold System.Inv. simpl. rewrite (send_ok _ _ _ E). by eapply InvP_accept.
  - unfold System.Inv. simpl. destruct (env_accepts (w_hist w) stx); [by eapply InvP_lost|exact Hinv].
Qed.

(** The states in which a signer is held with its counter in step. *)
Definition holds (app : string) (p : ptr) (a : address) (l : local) : Prop :=
  l = LHeld app p a \/ exists aid h, l = LFailed app p a aid h.

Lemma okp_markFailed app p a aid h :
  pg_uuid_in aid = Some aid ->
  okp (fun l _ => holds app p a l) (LFailed app p a aid h) (markAttemptStatus aid TFailed).
Proof.
  intros Haid. apply okp_pg; [intros e; right; eauto|]. intros w rest x db' Hinv E.
  unfold update_attempt in E. rewrite Haid in E. injection E as _ <-.
  pose proof (InvP_mark_failed base _ _ _ _ _ _ _ _ _ _ _ Hinv) as Hi.
  split; [|intros e]; exists (LHeld app p a); (split; [exact Hi|by left]).
Qed.

Lemma okp_markSubmitted l rid aid : okp (stays l (fun _ => True)) l (markSubmitted rid aid).
Proof.
  apply (okp_txn2 l (update_attempt aid (set_attempt_status TSubmitted))
    (update_request rid RSubmitted)); [by apply update_attempt_safe|apply update_request_safe].
Qed.

Lemma okp_broadcast s inp v rid app p a sg gl gp :
  enqueuer_ok (svc_webhooks s) -> sg_Address sg = a -> PubkeyToAddress (sg_Key sg) = a ->
  okp (fun l _ => holds app p a l) (LHeld app p a) (broadcast s inp v rid p sg gl gp).
Proof.
  intros He Ha Hk. unfold broadcast. eapply okp_bind; [apply okp_use_nonce_at|]. intros ? n ->.
  destruct (SignTx _ _ _) as [stx|e] eqn:Hsign.
  2:{ eapply okp_bind; [apply okp_rewind_reserved|]. intros ? _ ->. by left. }
  apply SignTx_sound in Hsign as [Htx Hfrom]. rewrite Ha.
  eapply okp_bind; [apply (okp_insertAttempt app p a n (stx_hash stx))|].
  intros ? [aid|e]; unfold logged.
  2:{ intros ->. eapply okp_bind; [apply okp_rewind_reserved|]. intros ? _ ->. by left. }
  intros [-> Haid]. eapply okp_bind; [apply okp_SendTransaction; [congruence|by rewrite Htx]|].
  intros ? [u|e] ->; cbn [is_ok].
  - eapply okp_bind; [apply okp_markSubmitted|]. intros ? [[]|e] [-> _]; [|by left].
    eapply okp_bind; [by apply okp_fireWebhook|]. intros ? _ [-> _]. by left.
  - eapply okp_bind; [apply okp_rewind_logged|]. intros ? _ ->.
    eapply okp_bind; [by apply okp_markFailed|]. by intros ? ? H.
Qed.

Lemma okp_rejected {A} app p a s rid st (r : A) :
  enqueuer_ok (svc_webhooks s) ->
  okp (fun l _ => holds app p a l) (LHeld app p a) (do! markRequestStatus s rid st in Ret r).
Proof.
  intros He. eapply okp_bind; [by apply okp_markRequestStatus|]. intros ? _ [-> _]. by left.
Qed.

Lemma okp_submitWith s inp v rid app p a :
  enqueuer_ok (svc_webhooks s) ->
  okp (fun l _ => holds app p a l) (LHeld app p a) (submitWith s inp v rid p).
Proof.
  intros He. unfold submitWith. eapply okp_bind; [apply okp_deref|]. intros ? sg [-> (Ha & Hk & _)].
  eapply okp_bind; [apply okp_gasLimitFor|]. intros ? [gl|e] [-> _]; [|by apply okp_rejected].
  eapply okp_bind; [by apply okp_rpc|]. intros ? [gp|e] [-> _]; [|by apply okp_rejected].
  by apply okp_broadcast.
Qed.

Lemma okp_Release_holds l app p a :
  holds app p a l -> okp (fun l _ => l = LFree) l (Release p).
Proof.
  intros [->|(aid & h & ->)]; [apply okp_Release|].
  eapply okp_weaken; [| | | |apply (okp_Release app p a)]; [|by intros w (? & ? & ? & _)|done|done].
  intros w rest Hinv. eapply InvP_local; [exact Hinv|done|done|apply sublist_nil_l|].
  pose proof (I_local _ _ _ _ _ _ _ Hinv) as Hloc. apply Forall_cons in Hloc as [(Hr & Hs & _) _].
  by split.
Qed.

(** ** Whole programs *)

Lemma okp_idle {A} l (p : prog A) :
  idle l -> okp (fun l _ => idle l) LFree p -> okp (fun l _ => idle l) l p.
Proof.
  intros Hl. apply okp_weaken; [|by intros w (? & ? & ? & _)|done|done]. intros w rest Hinv. apply Inv_free. by eapply Inv_unfree.
Qed.

Lemma okp_Submit s inp :
  enqueuer_ok (svc_webhooks s) -> pg_uuid_in (in_AppID inp) = Some (in_AppID inp) ->
  okp (fun l _ => idle l) LFree (Submit s inp).
Proof.
  intros He Happ. unfold Submit. destruct (negb _); [done|].
  eapply okp_bind.
  { apply (okp_unseen _ (pastDeadline (in_Deadline inp))); unfold pastDeadline; destruct (0 <? _).
    - apply keeps_bind; [by apply time_Now_keeps|done].
    - done.
    - apply total_bind; [apply total_action|done].
    - done. }
  intros ? past [-> _]. destruct past; [done|].
  eapply okp_bind; [apply okp_insertRequest|]. intros ? [rid|e] [-> _]; [|done].
  assert (forall l e, idle l -> okp (fun l _ => idle l) l
    (do! markRequestStatus s rid RRejected in Ret (Err (A := SubmitResult) e))) as Hrej.
  { intros l e Hl. apply okp_idle; [done|].
    eapply okp_bind; [by apply okp_markRequestStatus|]. by intros ? _ [-> _]. }
  eapply okp_bind; [by apply okp_Load|]. intros l [u|e] Hl; [|by apply Hrej].
  apply okp_idle; [done|]. eapply okp_bind; [apply okp_Checkout|].
  intros ? [p|e]; [|intros Hi; by apply Hrej]. intros (a & ->).
  eapply okp_bind; [by apply okp_submitWith|]. intros l' r Hh.
  eapply okp_bind; [exact (okp_Release_holds _ _ _ _ Hh)|]. by intros ? _ ->.
Qed.

(** The node answered a receipt without a block number. *)
Definition unnumbered_receipt : Prop :=
  exists h hh rc, env_TransactionReceipt h hh = Ok rc /\ rcpt_block_number rc = None.

Context (unnumbered_panics : unnumbered_receipt -> panics).

Lemma okp_receipt l hh :
  okp (stays l (fun r => match r with Ok rc => rcpt_block_number rc = None -> panics | Err _ => True end)) l
    (TransactionReceipt hh).
Proof.
  apply okp_action. intros w rest Hinv. exists l. split; [exact Hinv|]. split; [done|]. cbn [fst].
  destruct (env_TransactionReceipt (w_hist w) hh) as [rc|] eqn:E; [|done]. intros Hn.
  apply unnumbered_panics. by exists (w_hist w), hh, rc.
Qed.

Lemma okp_process wt p :
  enqueuer_ok (wt_webhooks wt) -> okp (stays LFree (fun _ => True)) LFree (process wt p).
Proof.
  intros He. unfold process. eapply okp_bind; [apply okp_receipt|]. intros ? [rc|e] [-> Hnum].
  2:{ by destruct (errors_Is _ _). }
  destruct (rcpt_logs_json rc) as [logs|e]; [|done].
  eapply (okp_bind _ _ _ (stays LFree (fun _ => True))).
  { destruct (_ =? _); [|done]. unfold fetchRevertReason. destruct (rcpt_block_number rc) as [n|]; [|by apply Hnum].
    cbn [deref_big bind]. eapply okp_bind; [by apply okp_rpc|]. by intros ? [?|?] [-> _]. }
  intros ? reason [-> _]. eapply (okp_bind _ _ _ (stays LFree (fun _ => True))).
  { unfold record_outcome. destruct (rcpt_block_number rc) as [n|].
    - cbn [deref_big bind].
      apply (okp_txn2 LFree _ (update_request (pa_requestID p) (outcome_of rc).2));
        [apply update_receipt_safe|apply update_request_safe].
    - eapply okp_bind; [apply okp_pg_begin|]. intros ? [t|e] [-> _]; [by apply Hnum|done]. }
  intros ? [u|e] [-> _]; [|done]. destruct (wt_webhooks wt) as [e|]; [|done].
  eapply okp_bind; [by apply okp_enqueue|]. by intros ? _ [-> _].
Qed.

Lemma okp_tick wt : enqueuer_ok (wt_webhooks wt) -> okp (fun l _ => idle l) LFree (tick wt).
Proof.
  intros He. unfold tick. eapply okp_bind.
  { apply okp_unseen; [apply keeps_view_seen; [apply pg_select_view|by apply pg_keeps]|apply total_action]. }
  intros ? [ps|e] [-> _]; [|done].
  assert (forall n, okp (stays LFree (fun _ => True)) LFree (process_all wt ps n)) as H.
  { induction ps as [|p ps IH]; intros n; [done|]. cbn [process_all].
    eapply okp_bind; [by apply okp_process|]. intros ? [u|e] [-> _]; apply IH. }
  eapply okp_bind; [apply H|]. by intros ? n [-> _].
Qed.
(** ** What the invariant says *)

(** The broadcasts of one account the node took in, newest first. *)
Definition sent_from (a : address) (txs : list (signed_tx * bool)) : list signed_tx :=
  List.map fst (List.filter (fun e => bool_decide (stx_from e.1 = a)) txs).

Lemma sent_from_cons a e txs :
  sent_from a (e :: txs) = if bool_decide (stx_from e.1 = a) then e.1 :: sent_from a txs else sent_from a txs.
Proof. unfold sent_from. simpl. by destruct (bool_decide _). Qed.

Lemma consecutive sg txs a :
  (forall l1 s b l2, txs = l1 ++ (s, b) :: l2 -> is_signer sg (stx_from s) -> answered l2 (stx_from s) ->
     tx_nonce (stx_tx s) = u64 (nonce_after base l2 (stx_from s))) ->
  is_signer sg a -> forall l1 txs', txs = l1 ++ txs' -> answered (tail txs') a ->
  List.map (fun s => tx_nonce (stx_tx s)) (rev (sent_from a txs')) =
  List.map (fun i => u64 (base a + Z.of_nat i)) (List.seq 0 (length (sent_from a txs'))).
Proof.
  intros Ho Ha l1 txs'. revert l1. induction txs' as [|[s b] txs' IH]; intros l1 E Hans; [done|].
  specialize (IH (l1 ++ [(s, b)])). rewrite <- app_assoc in IH. specialize (IH E).
  simpl in Hans. rewrite sent_from_cons. cbn [fst].
  assert (answered (tail txs') a) as Hans'.
  { intros e He. apply Hans. destruct txs'; [done|]. by right. }
  destruct (decide (stx_from s = a)) as [Es|Es].
  2:{ rewrite bool_decide_eq_false_2 by done. by apply IH. }
  rewrite bool_decide_eq_true_2 by done. simpl length. rewrite seq_S, !List.map_app.
  cbn [rev]. rewrite List.map_app, IH by done. f_equal. simpl. f_equal.
  rewrite (Ho l1 s b txs' E) by by rewrite Es. rewrite Es. unfold nonce_after, sent_from.
  by rewrite length_map.
Qed.

(** When no goroutine is left, none waits and every signer is idle, with the
    node's nonce when no answer to it was lost. *)
Lemma all_returned_idle w :
  Inv w [] ->
  (forall l, ~ waits w l) /\
  forall app ap, pl_apps (w_pool w) !! app = Some ap ->
    ap_idle ap ≡ₚ ap_signers ap /\
    forall p s, p ∈ ap_signers ap -> pl_heap (w_pool w) !! p = Some s ->
      answered (sent_log (w_hist w)) (sg_Address s) ->
      sg_nonce s = u64 (nonce_after base (sent_log (w_hist w)) (sg_Address s)).
Proof.
  intros Hinv.
  assert (forall app ap, pl_apps (w_pool w) !! app = Some ap -> ap_idle ap ≡ₚ ap_signers ap) as Hidle.
  { intros app ap Hap. pose proof (pi_split _ _ (I_pool _ _ _ _ _ _ _ Hinv) _ _ Hap) as Hsp.
    unfold held_of in Hsp. simpl in Hsp. by rewrite app_nil_r in Hsp. }
  split.
  - intros l (app & ap & -> & Hap & Hnone). apply Hidle in Hap as Hperm.
    rewrite Hnone in Hperm. apply Permutation_nil in Hperm. by apply (I_some _ _ _ _ _ _ _ Hinv) in Hap.
  - intros app ap Hap. split; [by eapply Hidle|]. intros p s Hp.
    rewrite <- (Hidle _ _ Hap) in Hp. by apply (I_idle _ _ _ _ _ _ _ Hinv app ap p s).
Qed.

End programs.

(** The webhook service is an enqueuer the system can run with. *)
Lemma Enqueue_ok `{Environment} `{GoEthereum} `{Postgres} : enqueuer_ok (Some Enqueue).
Proof. intros rid. split; [apply Enqueue_frame|]. split; [apply Enqueue_files|apply Enqueue_total]. Qed.

(** ** Witnesses *)

Module ConcurrentDemo.
Import RefEnv RelayDemo.

Definition no_base (_ : address) : Z := 0.

Lemma count_nonce a h : count_from a (accepted_txs h) = nonce_after no_base (sent_log h) a.
Proof.
  unfold count_from, accepted_txs, nonce_after, no_base. rewrite Z.add_0_l. f_equal.
  induction (sent_log h) as [|[s b] l IH]; [done|]. simpl. destruct (bool_decide _); simpl; by rewrite IH.
Qed.

#[export] Instance refNode : NodeLaws no_base.
Proof. split. intros h a n _ [= <-]. by rewrite count_nonce. Qed.

#[export] Instance refKsSound : KeystoreSound.
Proof.
  exists (fun _ => True); [|done|done]. intros a. simpl. by apply word_mod_val.
Defined.

Definition final (o : outcome unit) : world :=
  match o with Done _ w | Panicked _ w | Blocked w => w end.
End ConcurrentDemo.
