(* ===== verification/Schema.v ===== *)
(** * Well-formed tables

    What the tables hold beyond their SQL types ([schema]): keys are canonical
    UUIDs or printed addresses, references resolve, unique columns are unique, an
    attempt that is settled carries its receipt, a request that is settled has
    such an attempt, and no request is ever marked failed.  And how they change
    ([grows]): rows are only added, and of a row only the columns that record
    progress change.  Every statement of the program is shown to keep both, on its
    own and inside a transaction. *)

From Stdlib Require Import ZArith Lia.
From S2P Require Import Prelude GoLib Eth Database World.
From S2P Require Import AppService RelayService RelayStatus Watcher Webhook Gas Interleave.

Local Open Scope Z_scope.
Local Open Scope txmill_scope.

(** ** Growing tables *)

Definition table_grows {V} (R : V -> V -> Prop) (m m' : gmap string V) : Prop :=
  forall k v, m !! k = Some v -> exists v', m' !! k = Some v' /\ R v v'.

Section tables.
Context {V : Type} (R : V -> V -> Prop) `{!PreOrder R}.

#[export] Instance table_grows_preorder : PreOrder (table_grows R).
Proof.
  split.
  - intros m k v H. exists v. split; [done|reflexivity].
  - intros m1 m2 m3 H1 H2 k v H. destruct (H1 k v H) as (v2 & E2 & HR).
    destruct (H2 k v2 E2) as (v3 & E3 & HR'). exists v3. split; [done|by transitivity v2].
Qed.
End tables.

Lemma table_grows_insert {V} (R : V -> V -> Prop) k v (m : gmap string V) :
  (forall u, R u u) -> m !! k = None -> table_grows R m (<[k := v]> m).
Proof.
  intros Hr Hk j u Hj. exists u. split; [|done]. rewrite lookup_insert_ne; [done|congruence].
Qed.

Lemma table_grows_alter {V} (R : V -> V -> Prop) f k (m : gmap string V) :
  (forall u, R u u) -> (forall v, R v (f v)) -> table_grows R m (alter f k m).
Proof.
  intros Hr Hf j v Hj. destruct (decide (j = k)) as [->|Hne].
  - exists (f v). rewrite lookup_alter_eq, Hj. done.
  - exists v. by rewrite lookup_alter_ne by done.
Qed.

Lemma table_grows_is_Some {V} (R : V -> V -> Prop) m m' k :
  table_grows R m m' -> is_Some (m !! k) -> is_Some (m' !! k).
Proof. intros Hg [v Hv]. destruct (Hg k v Hv) as (v' & -> & _). by eexists. Qed.

(** ** Rows over time *)

(** The receipt columns. *)
Definition receipted (t : attempt_row) : Prop :=
  is_Some (t_block_number t) /\ is_Some (t_gas_used t) /\
  is_Some (t_effective_gas_price t) /\ is_Some (t_logs t).

Definition same_request (r r' : request_row) : Prop :=
  r' = set_request_status (r_status r') (r_updated_at r') r.

Record same_attempt (t t' : attempt_row) : Prop := {
  sa_request : t_request_id t' = t_request_id t;
  sa_signer : t_signer_address t' = t_signer_address t;
  sa_nonce : t_nonce t' = t_nonce t;
  sa_hash : t_tx_hash t' = t_tx_hash t;
  sa_price : t_gas_price t' = t_gas_price t;
  sa_time : t_submitted_at t' = t_submitted_at t;
  sa_receipt : receipted t -> receipted t';
}.

Record same_delivery (d d' : delivery_row) : Prop := {
  sd_request : d_request_id d' = d_request_id d;
  sd_url : d_url d' = d_url d;
  sd_payload : d_payload d' = d_payload d;
  sd_signature : d_signature d' = d_signature d;
  sd_time : d_created_at d' = d_created_at d;
}.

#[export] Instance same_request_preorder : PreOrder same_request.
Proof.
  split.
  - intros []. done.
  - unfold same_request. intros r1 r2 r3 -> E. rewrite E. done.
Qed.

#[export] Instance same_attempt_preorder : PreOrder same_attempt.
Proof.
  split; [by intros t; split|].
  intros t1 t2 t3 [] []. split; [congruence..|auto].
Qed.

#[export] Instance same_delivery_preorder : PreOrder same_delivery.
Proof. split; [by intros d; split|]. intros d1 d2 d3 [] []. split; congruence. Qed.

(** Apps, signers and top-ups never change; requests, attempts and deliveries
    keep what identifies them, and an attempt its receipt. *)
Record grows (db db' : database) : Prop := {
  gr_apps : table_grows eq (db_apps db) (db_apps db');
  gr_signers : table_grows eq (db_signers db) (db_signers db');
  gr_requests : table_grows same_request (db_requests db) (db_requests db');
  gr_attempts : table_grows same_attempt (db_attempts db) (db_attempts db');
  gr_deliveries : table_grows same_delivery (db_deliveries db) (db_deliveries db');
  gr_gas : table_grows eq (db_gas db) (db_gas db');
}.

#[export] Instance grows_preorder : PreOrder grows.
Proof.
  split; [intros db; split; reflexivity|].
  intros d1 d2 d3 [] []. split; by etrans.
Qed.

(** Changes that leave the accounts alone. *)
Definition updates (db db' : database) : Prop :=
  grows db db' /\ db_apps db' = db_apps db /\ db_signers db' = db_signers db.

#[export] Instance updates_preorder : PreOrder updates.
Proof.
  split; [by intros db|]. intros d1 d2 d3 (H1 & E1 & E1') (H2 & E2 & E2').
  split; [by transitivity d2|]. split; congruence.
Qed.

Lemma updates_grows db db' : updates db db' -> grows db db'.
Proof. by intros [H _]. Qed.

(** ** Well-formed rows *)

Definition is_address `{GoEthereum} (s : string) : Prop := exists a, s = lowerHex a.
Definition is_hash `{GoEthereum} (s : string) : Prop := exists h, s = lowerHash h.
Definition canonical `{Postgres} (k : string) : Prop := pg_uuid_in k = Some k.

Definition unique {V} (f : V -> string) (m : gmap string V) : Prop :=
  forall i j v u, m !! i = Some v -> m !! j = Some u -> f v = f u -> i = j.

Section schema.
Context `{Eth : GoEthereum} `{PG : Postgres}.

Record app_ok (k : string) (r : app_row) : Prop := {
  ok_app_key : canonical k;
  ok_app_name : a_name r <> "";
  ok_app_treasury : is_address (a_treasury_address r);
  ok_app_pool : minPoolSize <= a_pool_size r <= maxPoolSize;
}.

Record signer_ok (db : database) (k : string) (r : signer_row) : Prop := {
  ok_signer_key : is_address k;
  ok_signer_app : is_Some (db_apps db !! s_app_id r);
}.

(** An attempt of the request that satisfies [P]. *)
Definition has_such_attempt (P : attempt_row -> Prop) (db : database) (rid : string) : Prop :=
  exists k t, db_attempts db !! k = Some t /\ t_request_id t = rid /\ P t.

Record request_ok (db : database) (k : string) (r : request_row) : Prop := {
  ok_request_key : canonical k;
  ok_request_to : is_address (r_to_address r);
  ok_request_app : is_Some (db_apps db !! r_app_id r);
  ok_request_chain : r_chain_id r <= max_int64;
  ok_request_status :
    match r_status r with
    | RPending | RRejected => True
    | RSubmitted => has_such_attempt (fun _ => True) db k
    | RConfirmed | RReverted => has_such_attempt receipted db k
    | RFailed => False
    end;
}.

Record attempt_ok (db : database) (k : string) (t : attempt_row) : Prop := {
  ok_attempt_key : canonical k;
  ok_attempt_signer : is_address (t_signer_address t);
  ok_attempt_hash : is_hash (t_tx_hash t);
  ok_attempt_request : is_Some (db_requests db !! t_request_id t);
  ok_attempt_nonce : - 2 ^ 63 <= t_nonce t <= max_int64;
  ok_attempt_status : t_status t = TConfirmed \/ t_status t = TReverted -> receipted t;
}.

Record delivery_row_ok (db : database) (k : string) (d : delivery_row) : Prop := {
  ok_delivery_key : canonical k;
  ok_delivery_request : is_Some (db_requests db !! d_request_id d);
  ok_delivery_attempt : 0 <= d_attempt d;
  ok_delivery_status : if decide (d_status d = DPending) then d_attempt d <= 4 else 1 <= d_attempt d;
}.

Record gas_ok (db : database) (k : string) (g : gas_row) : Prop := {
  ok_gas_key : canonical k;
  ok_gas_signer : is_address (g_signer_address g);
  ok_gas_hash : is_hash (g_tx_hash g);
  ok_gas_app : is_Some (db_apps db !! g_app_id g);
}.

Record schema (db : database) : Prop := {
  sc_apps k r : db_apps db !! k = Some r -> app_ok k r;
  sc_signers k r : db_signers db !! k = Some r -> signer_ok db k r;
  sc_requests k r : db_requests db !! k = Some r -> request_ok db k r;
  sc_attempts k t : db_attempts db !! k = Some t -> attempt_ok db k t;
  sc_deliveries k d : db_deliveries db !! k = Some d -> delivery_row_ok db k d;
  sc_gas k g : db_gas db !! k = Some g -> gas_ok db k g;
  sc_tokens : unique a_bearer_token_hash (db_apps db);
  sc_hashes : unique t_tx_hash (db_attempts db);
  sc_topups : unique g_tx_hash (db_gas db);
}.

Lemma schema_empty : schema empty_db.
Proof. by split. Qed.

(** ** References resolve in larger tables *)

Section mono.
Context (db db' : database) (Hg : grows db db').

Lemma app_ref_grows k : is_Some (db_apps db !! k) -> is_Some (db_apps db' !! k).
Proof. apply table_grows_is_Some with eq, Hg. Qed.
Lemma request_ref_grows k : is_Some (db_requests db !! k) -> is_Some (db_requests db' !! k).
Proof. apply table_grows_is_Some with same_request, Hg. Qed.

Lemma such_attempt_grows (P : attempt_row -> Prop) rid :
  (forall t t', same_attempt t t' -> P t -> P t') ->
  has_such_attempt P db rid -> has_such_attempt P db' rid.
Proof.
  intros HP (k & t & Ht & <- & Hp). destruct (gr_attempts _ _ Hg k t Ht) as (t' & Ht' & Hs).
  exists k, t'. split; [done|]. split; [apply Hs|by eapply HP].
Qed.

Lemma receipted_grows rid : has_such_attempt receipted db rid -> has_such_attempt receipted db' rid.
Proof. apply such_attempt_grows. intros t t' Hs. apply Hs. Qed.

Lemma signer_ok_grows k r : signer_ok db k r -> signer_ok db' k r.
Proof. intros []. split; [done|by apply app_ref_grows]. Qed.
Lemma request_ok_grows k r : request_ok db k r -> request_ok db' k r.
Proof.
  intros [? ? Ha ? Hst]. split; try done; [by apply app_ref_grows|].
  destruct (r_status r); try done; [by eapply such_attempt_grows|by apply receipted_grows..].
Qed.
Lemma attempt_ok_grows k t : attempt_ok db k t -> attempt_ok db' k t.
Proof. intros []. split; try done. by apply request_ref_grows. Qed.
Lemma delivery_ok_grows k d : delivery_row_ok db k d -> delivery_row_ok db' k d.
Proof. intros []. split; try done. by apply request_ref_grows. Qed.
Lemma gas_ok_grows k g : gas_ok db k g -> gas_ok db' k g.
Proof. intros []. split; try done. by apply app_ref_grows. Qed.
End mono.

(** Rows that are new or changed must be shown well-formed, in the new tables. *)
Lemma schema_grows db db' :
  schema db -> grows db db' ->
  (forall k r, db_apps db' !! k = Some r -> db_apps db !! k = Some r \/ app_ok k r) ->
  (forall k r, db_signers db' !! k = Some r -> db_signers db !! k = Some r \/ signer_ok db' k r) ->
  (forall k r, db_requests db' !! k = Some r -> db_requests db !! k = Some r \/ request_ok db' k r) ->
  (forall k t, db_attempts db' !! k = Some t -> db_attempts db !! k = Some t \/ attempt_ok db' k t) ->
  (forall k d, db_deliveries db' !! k = Some d ->
     db_deliveries db !! k = Some d \/ delivery_row_ok db' k d) ->
  (forall k g, db_gas db' !! k = Some g -> db_gas db !! k = Some g \/ gas_ok db' k g) ->
  unique a_bearer_token_hash (db_apps db') -> unique t_tx_hash (db_attempts db') ->
  unique g_tx_hash (db_gas db') -> schema db'.
Proof.
  intros Hsc Hg Ha Hs Hr Ht Hd Hga Hu1 Hu2 Hu3. split; try done; intros k r Hk.
  - destruct (Ha k r Hk) as [H|H]; [|done]. by apply Hsc.
  - destruct (Hs k r Hk) as [H|H]; [|done]. by apply (signer_ok_grows db), Hsc.
  - destruct (Hr k r Hk) as [H|H]; [|done]. by apply (request_ok_grows db), Hsc.
  - destruct (Ht k r Hk) as [H|H]; [|done]. by apply (attempt_ok_grows db), Hsc.
  - destruct (Hd k r Hk) as [H|H]; [|done]. by apply (delivery_ok_grows db), Hsc.
  - destruct (Hga k r Hk) as [H|H]; [|done]. by apply (gas_ok_grows db), Hsc.
Qed.

Lemma insert_row {V} (m : gmap string V) k v (P : string -> V -> Prop) :
  P k v -> forall j u, <[k := v]> m !! j = Some u -> m !! j = Some u \/ P j u.
Proof. intros HP j u [[<- <-]|[_ H]]%lookup_insert_Some; auto. Qed.

Lemma alter_row {V} (m : gmap string V) f k (P : string -> V -> Prop) :
  (forall v, m !! k = Some v -> P k (f v)) ->
  forall j u, alter f k m !! j = Some u -> m !! j = Some u \/ P j u.
Proof.
  intros HP j u. destruct (decide (j = k)) as [->|Hne]; [|rewrite lookup_alter_ne by done; auto].
  rewrite lookup_alter_eq. intros (v & Hv & ->)%fmap_Some. auto.
Qed.

Lemma unique_insert {V} (f : V -> string) (m : gmap string V) k v :
  no_row (fun r => String.eqb (f r) (f v)) m = true -> unique f m -> unique f (<[k := v]> m).
Proof.
  intros Hn Hu i j x y.
  assert (forall l u, m !! l = Some u -> f u <> f v) as Hne.
  { intros l u Hl E. apply (no_row_elim _ _ _ _ Hn) in Hl. by rewrite E, String.eqb_refl in Hl. }
  intros [[<- <-]|[_ Hi]]%lookup_insert_Some [[<- <-]|[_ Hj]]%lookup_insert_Some E; [done| | |eauto].
  - by apply Hne in Hj.
  - by apply Hne in Hi.
Qed.

Lemma unique_alter {V} (f : V -> string) (m : gmap string V) g k :
  (forall v, f (g v) = f v) -> unique f m -> unique f (alter g k m).
Proof.
  intros Hg Hu i j x y Hi Hj E.
  assert (forall l u, alter g k m !! l = Some u -> exists u0, m !! l = Some u0 /\ f u0 = f u) as Hback.
  { intros l u. destruct (decide (l = k)) as [->|Hne]; [|rewrite lookup_alter_ne by done; eauto].
    rewrite lookup_alter_eq. intros (v & Hv & ->)%fmap_Some. eauto. }
  destruct (Hback _ _ Hi) as (x0 & Hx & Ex), (Hback _ _ Hj) as (y0 & Hy & Ey).
  apply (Hu i j x0 y0 Hx Hy). congruence.
Qed.
(** A change of one table. *)
Ltac one_table :=
  intros Hsc Hg Hrow; intros;
  match goal with |- schema ?db' /\ _ ?db _ =>
    assert (grows db db') as Hgr by (split; first [exact Hg | reflexivity]);
    split; [|first [exact Hgr | by split]];
    eapply (schema_grows db db'); [exact Hsc|exact Hgr|..];
    first [exact Hrow | by intros; left | assumption | apply Hsc]
  end.

Lemma schema_apps db m :
  schema db -> table_grows eq (db_apps db) m ->
  (forall k r, m !! k = Some r -> db_apps db !! k = Some r \/ app_ok k r) ->
  unique a_bearer_token_hash m ->
  schema (with_apps m db) /\ grows db (with_apps m db).
Proof. one_table. Qed.

Lemma schema_signers db m :
  schema db -> table_grows eq (db_signers db) m ->
  (forall k r, m !! k = Some r -> db_signers db !! k = Some r \/ signer_ok (with_signers m db) k r) ->
  schema (with_signers m db) /\ grows db (with_signers m db).
Proof. one_table. Qed.

Lemma schema_requests db m :
  schema db -> table_grows same_request (db_requests db) m ->
  (forall k r, m !! k = Some r -> db_requests db !! k = Some r \/ request_ok (with_requests m db) k r) ->
  schema (with_requests m db) /\ updates db (with_requests m db).
Proof. one_table. Qed.

Lemma schema_attempts db m :
  schema db -> table_grows same_attempt (db_attempts db) m ->
  (forall k r, m !! k = Some r -> db_attempts db !! k = Some r \/ attempt_ok (with_attempts m db) k r) ->
  unique t_tx_hash m ->
  schema (with_attempts m db) /\ updates db (with_attempts m db).
Proof. one_table. Qed.

Lemma schema_deliveries db m :
  schema db -> table_grows same_delivery (db_deliveries db) m ->
  (forall k r, m !! k = Some r -> db_deliveries db !! k = Some r \/ delivery_row_ok (with_deliveries m db) k r) ->
  schema (with_deliveries m db) /\ updates db (with_deliveries m db).
Proof. one_table. Qed.

Lemma schema_gas db m :
  schema db -> table_grows eq (db_gas db) m ->
  (forall k r, m !! k = Some r -> db_gas db !! k = Some r \/ gas_ok (with_gas m db) k r) ->
  unique g_tx_hash m ->
  schema (with_gas m db) /\ updates db (with_gas m db).
Proof. one_table. Qed.

End schema.

(** ** Statements *)

Section statements.
Context `{Eth : GoEthereum} `{PG : Postgres}.

(** In tables that have grown from [d], the statement keeps them well-formed
    and changes them as [G] allows; its result satisfies [Q]. *)
Definition stmt_ok {X} (G : database -> database -> Prop) (Q : database -> X -> Prop) (d : database)
    (s : stmt X) : Prop :=
  forall se db x db', canonical (se_uuid se) -> schema db -> grows d db ->
    s se db = Ok (x, db') -> (schema db' /\ G db db') /\ Q db' x.

Definition any {X} (_ : database) (_ : X) : Prop := True.

Lemma stmt_ok_select {X} (Q : database -> X -> Prop) d (q : stmt_env -> database -> result X) :
  (forall se db x, schema db -> q se db = Ok x -> Q db x) -> stmt_ok updates Q d (select q).
Proof.
  intros HQ se db x db' _ Hsc _. unfold select. destruct (q se db) as [y|e] eqn:E; [|done].
  intros [= <- <-]. split; [split; [done|reflexivity]|by eapply HQ].
Qed.

(** *** INSERT *)

Ltac checks H :=
  repeat (let Hc := fresh "Hc" in apply check_Ok in H as [Hc H]);
  repeat match goal with
  | Hc : fresh _ _ = true |- _ => apply bool_decide_eq_true in Hc
  | Hc : present _ _ = true |- _ => apply bool_decide_eq_true in Hc
  end.

Lemma stmt_ok_insert_app d name n url secret tr th m r t :
  name <> "" -> minPoolSize <= n <= maxPoolSize ->
  stmt_ok grows any d (insert_app_stmt name n url secret tr th m r t).
Proof.
  intros Hname Hn se db x db' Hu Hsc _ H. unfold insert_app_stmt in H.
  destruct (pg_numeric_in m), (pg_numeric_in r), (pg_numeric_in t); try done.
  apply check_Ok in H as [_ H]. unfold insert_app in H. checks H. injection H as <- <-.
  split; [|done]. apply schema_apps; [done|by apply table_grows_insert| |].
  - apply insert_row. split; [done..|by eexists|done].
  - apply unique_insert; [done|apply Hsc].
Qed.

Lemma stmt_ok_insert_signer d a app : stmt_ok grows any d (insert_signer (lowerHex a) app).
Proof.
  intros se db x db' Hu Hsc _ H. unfold insert_signer in H. checks H. injection H as <- <-.
  split; [|done]. apply schema_signers; [done|by apply table_grows_insert|].
  apply insert_row. split; [by eexists|done].
Qed.

Lemma stmt_ok_copy_signers d addrs app : stmt_ok grows any d (copy_signers addrs app).
Proof.
  intros se db x db' Hu. revert db. induction addrs as [|a addrs IH]; intros db Hsc Hd H; simpl in H.
  { injection H as <- <-. split; [split; [done|reflexivity]|done]. }
  destruct (insert_signer _ _ se db) as [[u db1]|e] eqn:E; [|done].
  apply (stmt_ok_insert_signer d) in E as [[Hsc1 Hg1] _]; [|done..].
  destruct (IH db1) as [[Hsc2 Hg2] _]; [done|by transitivity db|done|].
  split; [split; [done|by transitivity db1]|done].
Qed.

Lemma stmt_ok_insert_request d inp v :
  stmt_ok updates (fun _ rid => canonical rid) d (fun se db =>
    match request_row_of inp v (se_now se) with
    | Err e => Err e
    | Ok row => insert_request row se db
    end).
Proof.
  intros se db x db' Hu Hsc _ H. destruct (request_row_of inp v (se_now se)) as [row|] eqn:E; [|done].
  unfold request_row_of in E. destruct (pg_uuid_in _); [|done]. destruct (pg_decimal_in _); [|done]. checks E.
  injection E as <-. unfold insert_request in H. checks H. injection H as <- <-. split; [|done].
  apply schema_requests; [done|by apply table_grows_insert|].
  apply insert_row. split; [done|by eexists|done|by apply Z.leb_le|done].
Qed.

(** The attempt is there, under the request. *)
Definition attempt_of (rid : string) (db : database) (aid : string) : Prop :=
  canonical aid /\ exists t, db_attempts db !! aid = Some t /\ pg_uuid_in rid = Some (t_request_id t).

Lemma attempt_of_grows rid db db' aid : grows db db' -> attempt_of rid db aid -> attempt_of rid db' aid.
Proof.
  intros Hg (Hc & t & Ht & Hr). split; [done|]. destruct (gr_attempts _ _ Hg aid t Ht) as (t' & Ht' & Hs).
  exists t'. split; [done|]. by rewrite (sa_request _ _ Hs).
Qed.

Lemma int64_of_range z : - 2 ^ 63 <= int64_of z <= max_int64.
Proof. unfold int64_of, max_int64. pose proof (Z.mod_pos_bound (z + 2 ^ 63) (2 ^ 64)). lia. Qed.

Lemma stmt_ok_insert_attempt d rid a n h gp :
  stmt_ok updates (attempt_of rid) d (fun se db =>
    match attempt_row_of rid a n h gp (se_now se) with
    | Err e => Err e
    | Ok row => insert_attempt row se db
    end).
Proof.
  intros se db x db' Hu Hsc _ H. destruct (attempt_row_of _ _ _ _ _ _) as [row|] eqn:E; [|done].
  unfold attempt_row_of in E. destruct (pg_uuid_in rid) eqn:Er; [|done]. destruct (pg_decimal_in _); [|done].
  injection E as <-. unfold insert_attempt in H. checks H. injection H as <- <-. split.
  - apply schema_attempts; [done|by apply table_grows_insert| |].
    + apply insert_row. split; [done|by eexists|by eexists|done|apply int64_of_range|by intros []].
    + apply unique_insert; [done|apply Hsc].
  - split; [done|]. eexists. cbn. rewrite lookup_insert_eq. split; [done|]. by rewrite Er.
Qed.

Lemma stmt_ok_insert_delivery d rid url payload sig :
  stmt_ok updates any d (insert_delivery_stmt rid url payload sig).
Proof.
  intros se db x db' Hu Hsc _ H. unfold insert_delivery_stmt, delivery_row_of in H.
  destruct (pg_uuid_in rid); [|done]. destruct (pg_text_ok url); [|done]. cbn [check] in H.
  unfold insert_delivery in H. checks H. injection H as <- <-. split; [|done].
  apply schema_deliveries; [done|by apply table_grows_insert|].
  apply insert_row. by split.
Qed.

Lemma stmt_ok_insert_gas d app to n h amt gp :
  stmt_ok updates any d (insert_gas_stmt app to n h amt gp).
Proof.
  intros se db x db' Hu Hsc _ H. unfold insert_gas_stmt, gas_row_of in H.
  destruct (pg_uuid_in app), (pg_decimal_in (bigptr_String amt)), (pg_decimal_in (bigint_String gp)); try done.
  unfold insert_gas in H. checks H. injection H as <- <-. split; [|done].
  apply schema_gas; [done|by apply table_grows_insert| |].
  - apply insert_row. split; [done|by eexists..|done].
  - apply unique_insert; [done|apply Hsc].
Qed.

(** *** UPDATE *)

(** The request may take the status: what it claims of its attempts holds. *)
Definition status_claim (st : request_status) (db : database) (rid : string) : Prop :=
  match st with
  | RPending | RRejected => True
  | RSubmitted => has_such_attempt (fun _ => True) db rid
  | RConfirmed | RReverted => has_such_attempt receipted db rid
  | RFailed => False
  end.

Lemma stmt_ok_update_request d rid st :
  (forall db u, grows d db -> schema db -> pg_uuid_in rid = Some u -> status_claim st db u) ->
  stmt_ok updates any d (update_request rid st).
Proof.
  intros Hst se db x db' _ Hsc Hd H. unfold update_request in H.
  destruct (pg_uuid_in rid) as [u|]; [|done]. injection H as _ <-. split; [|done].
  apply schema_requests; [done|by apply table_grows_alter|]. apply alter_row. intros r Hr.
  destruct (sc_requests _ Hsc u r Hr). specialize (Hst db u Hd Hsc eq_refl). by split.
Qed.

Lemma stmt_ok_update_attempt Q d aid f :
  (forall t, same_attempt t (f t)) ->
  (forall db k t, schema db -> attempt_ok db k t ->
     t_status (f t) = TConfirmed \/ t_status (f t) = TReverted -> receipted (f t)) ->
  (forall db u, grows d db -> pg_uuid_in aid = Some u ->
     Q (with_attempts (alter f u (db_attempts db)) db) tt) ->
  stmt_ok updates Q d (update_attempt aid f).
Proof.
  intros Hs Hok HQ se db x db' _ Hsc Hd H. unfold update_attempt in H.
  destruct (pg_uuid_in aid) as [u|]; [|done]. destruct x. injection H as <-. split; [|by apply HQ].
  apply schema_attempts; [done|by apply table_grows_alter| |].
  - apply alter_row. intros t Ht. apply (sc_attempts _ Hsc) in Ht as Ha. specialize (Hok db u t Hsc Ha).
    destruct Ha, (Hs t) as [E1 E2 E3 E4 _ _ _]. split; rewrite ?E1, ?E2, ?E3, ?E4; done.
  - apply unique_alter; [intros t; by rewrite (sa_hash _ _ (Hs t))|apply Hsc].
Qed.

Lemma stmt_ok_attempt_status d aid st :
  st = TSubmitted \/ st = TFailed -> stmt_ok updates any d (update_attempt aid (set_attempt_status st)).
Proof. intros Hst. apply stmt_ok_update_attempt; [by split| |done]. simpl. intuition congruence. Qed.

(** The attempt carries its receipt, under the request. *)
Definition receipted_at (aid rid : string) (db : database) : Prop :=
  exists t, db_attempts db !! aid = Some t /\ t_request_id t = rid /\ receipted t.

Lemma receipted_at_has aid rid db : receipted_at aid rid db -> has_such_attempt receipted db rid.
Proof. intros (t & ?). exists aid, t. done. Qed.

Lemma stmt_ok_update_receipt d aid rid st rc number logs reason :
  attempt_of rid d aid -> canonical rid ->
  stmt_ok updates (fun db _ => receipted_at aid rid db) d (update_receipt aid st rc number logs reason).
Proof.
  intros Ha Hr se db x db' Hu Hsc Hd H. unfold update_receipt in H.
  destruct (pg_decimal_in _) as [price|]; [|done]. destruct (pg_jsonb_in logs) as [lg|]; [|done].
  apply check_Ok in H as [_ H]. revert se db x db' Hu Hsc Hd H.
  match goal with |- forall se db x db', _ -> _ -> _ -> ?s se db = _ -> _ =>
    change (stmt_ok updates (fun db _ => receipted_at aid rid db) d s) end.
  apply stmt_ok_update_attempt.
  - intros t. by split.
  - intros ? ? t _ _ _. repeat split; by eexists.
  - intros db1 u Hd1 Hu1. destruct (attempt_of_grows _ _ _ _ Hd1 Ha) as (Hc & t & Ht & Ht').
    rewrite Hc in Hu1. injection Hu1 as <-. eexists. cbn. rewrite lookup_alter_eq, Ht. split; [done|].
    rewrite Hr in Ht'. injection Ht' as ->. split; [done|]. repeat split; by eexists.
Qed.

Lemma stmt_ok_update_delivery d id f :
  (forall v, same_delivery v (f v)) ->
  (forall db k v, delivery_row_ok db k v -> 0 <= d_attempt (f v) /\
     if decide (d_status (f v) = DPending) then d_attempt (f v) <= 4 else 1 <= d_attempt (f v)) ->
  stmt_ok updates any d (update_delivery id f).
Proof.
  intros Hs Hok se db x db' _ Hsc Hd H. unfold update_delivery in H.
  destruct (pg_uuid_in id) as [u|]; [|done]. injection H as _ <-. split; [|done].
  apply schema_deliveries; [done|by apply table_grows_alter|]. apply alter_row. intros v Hv.
  apply (sc_deliveries _ Hsc) in Hv. destruct (Hok db u v Hv). destruct Hv.
  split; [done|by rewrite (sd_request _ _ (Hs v))|done..].
Qed.

Lemma stmt_ok_delivered d id code : stmt_ok updates any d (update_delivery id (set_delivered code)).
Proof. apply stmt_ok_update_delivery; [by split|]. intros db k v []. simpl. lia. Qed.

Lemma stmt_ok_failure d id msg f :
  stmt_ok updates any d (update_delivery id f) -> stmt_ok updates any d (update_failure id msg f).
Proof. intros Hf se db x db' Hu Hsc Hd [_ H]%check_Ok. by eapply Hf. Qed.

Lemma stmt_ok_dead d id code msg n :
  1 <= n -> stmt_ok updates any d (update_failure id msg (set_dead code msg n)).
Proof. intros Hn. apply stmt_ok_failure, stmt_ok_update_delivery; [by split|]. simpl. lia. Qed.

Lemma stmt_ok_retry d id code msg n next :
  1 <= n <= 4 -> stmt_ok updates any d (update_failure id msg (set_retry code msg n next)).
Proof.
  intros Hn. apply stmt_ok_failure, stmt_ok_update_delivery; [by split|].
  intros db k v _. simpl. destruct (decide _); lia.
Qed.
End statements.
