(* ===== verification/Main.v ===== *)
(** * The process ([cmd/txmill], [internal/store], [cmd/alert-test])

    Startup as [main] performs it, the wiring of the components, the three
    worker loops, and the key store as the keystore of the concurrent system. *)

From Stdlib Require Import ZArith Lia.
From S2P Require Import Prelude GoLib Json Eth Database World Chain.
From S2P Require Import FileSystem Keystore KeystoreSafety.
From S2P Require Import SignerPool RefEnv AppService RelayService RelayStatus Watcher Webhook Alert.
From S2P Require Import Gas Treasury Api Config Interleave System SystemSteps Concurrent.

Local Open Scope Z_scope.
Local Open Scope txmill_scope.

(** ** Worker loops *)

(** [time.Duration(ms) * time.Millisecond] for a [uint64] *)
Definition ms_duration (ms : Z) : Z := int64_of (int64_of ms * 10 ^ 6).

Section loops.
Context `{Env : Environment} `{Eth : GoEthereum} `{PG : Postgres}.

(** [select { case <-ctx.Done(): ... case <-t.C: ... }]: whether the loop
    stops; when both are ready either may be taken. *)
Definition select_stop : prog bool := action (fun w =>
  (env_ctx_done (w_hist w) && env_select (w_hist w), log EvTick w)).

(** The first [rounds] rounds of the loop; the result of a tick is only
    logged. *)
Fixpoint ticker_loop {A} (tick : prog A) (rounds : nat) : prog unit :=
  match rounds with
  | O => Ret tt
  | S n =>
      let! stop := select_stop in
      if stop then Ret tt else do! tick in ticker_loop tick n
  end.

(** [time.NewTicker] panics on a duration that is not positive. *)
Definition ticker_Run {A} (interval : Z) (tick : prog A) (rounds : nat) : prog unit :=
  if interval <=? 0 then Panic "non-positive interval for NewTicker" else ticker_loop tick rounds.

Definition Watcher_Run (wt : Watcher) : nat -> prog unit :=
  ticker_Run (wt_interval wt) (tick wt).
Definition WebhookWorker_Run (ww : WebhookWorker) : nat -> prog unit :=
  ticker_Run (ww_interval ww) (webhook_tick (ww_batchSize ww)).
Definition GasWorker_Run (wk : Worker) : nat -> prog unit :=
  ticker_Run (gw_interval wk) (gas_tick wk).

(** What holds of every tick holds of the loop. *)
Lemma ticker_loop_ok {A} (P : world -> Prop) (tick : prog A) :
  (forall w e, P w -> P (log e w)) ->
  (forall w, P w -> exists r w', run tick w = Done r w' /\ P w') ->
  forall n w, P w -> exists w', run (ticker_loop tick n) w = Done tt w' /\ P w'.
Proof.
  intros Hl Ht. induction n as [|n IH]; intros w Hw; cbn [ticker_loop]; [by exists w|].
  rewrite run_bind. unfold select_stop. rewrite run_action. cbn [fst snd].
  destruct (_ && _); [eexists; split; [done|]; by apply Hl|].
  rewrite run_bind. destruct (Ht (log EvTick w)) as (r & w1 & -> & H1); [by apply Hl|]. by apply IH.
Qed.
End loops.

(** ** Notifiers *)

Definition buildNotifier `{Environment} (cfg : Config) : Notifier :=
  let transports :=
    (if negb (String.eqb (cfg_AlertWebhookURL cfg) "") then [WebhookNotify (cfg_AlertWebhookURL cfg)]
     else []) ++
    (if negb (String.eqb (cfg_TelegramBotToken cfg) "") && negb (String.eqb (cfg_TelegramChatID cfg) "")
     then [TelegramNotify (NewTelegram (cfg_TelegramBotToken cfg) (cfg_TelegramChatID cfg))] else []) in
  match transports with
  | [] => Discard
  | _ => Throttled (Multi transports) (ms_duration (cfg_AlertThrottleMs cfg))
  end.

(** ** Startup *)

(** [pgxpool.New] rejects a malformed URL; connections are made later. *)
Class PgxPool := { pgxpool_New : string -> option error }.

(** What [main] wires together. *)
Record system := MkSystem {
  sys_relay : Service;
  sys_watcher : Watcher;
  sys_webhook : WebhookWorker;
  sys_gas : Worker;
  sys_handlers : Handlers;
}.

Inductive startup :=
| Exit (code : Z)
| Started (s : system).

(** What [cmd/migrate] uses from outside: [sql.Open], and goose's dialect check
    and its commands, each an action on the world. *)
Class Goose := {
  sql_Open : string -> string -> option error;
  goose_SetDialect : string -> option error;
  goose_Run : string -> list string -> prog (result unit);
}.

(** [cmd/migrate]: [os.Args] starts with the program's name. *)
Definition migrate `{Goose} (os_Args : list string) (cfg : Config) : prog Z :=
  match os_Args with
  | _ :: command :: args =>
      if String.eqb (cfg_DBURL cfg) "" then Ret 2
      else
        match sql_Open "pgx" (cfg_DBURL cfg) with
        | Some _ => Ret 1
        | None =>
            match goose_SetDialect "postgres" with
            | Some _ => Ret 1
            | None =>
                let! r := goose_Run command args in
                match r with Err _ => Ret 1 | Ok _ => Ret 0 end
            end
        end
  | _ => Ret 2
  end.

Section main.
Context `{Env : Environment} `{HO : Host} `{Eth : GoEthereum} `{PG : Postgres} `{PX : PgxPool}.

(** [store.NewPool]: [Ping] is a statement that reads nothing. *)
Definition NewPool (url : string) : prog (result unit) :=
  match pgxpool_New url with
  | Some e => Ret (Err (EWrap "pgxpool new" e))
  | None =>
      let? _u := pg (select (fun _ _ => Ok tt)) or "pgxpool ping" in
      Ret (Ok tt)
  end.

(** [main] from the app service to the handlers: every component with the one
    client, the one key store and the one webhook service. *)
Definition wire (cfg : Config) (ks : Keystore) (cl : Client) : system :=
  let appSvc := NewAppSvc (generator_of ks) in
  let signerPool := SignerPool.NewPool (loader_of ks) cl appLister in
  let relaySvc := SetWebhooks Enqueue (RelayService.NewService cl signerPool) in
  let watcher := Watcher_SetWebhooks Enqueue
    (NewWatcher cl (ms_duration (cfg_WatcherIntervalMs cfg)) (int64_of (cfg_WatcherBatchSize cfg))) in
  let webhookWorker :=
    NewWebhookWorker (ms_duration (cfg_WatcherIntervalMs cfg)) (int64_of (cfg_WatcherBatchSize cfg)) in
  let gasWorker :=
    NewWorker cl (loader_of ks) (Some (buildNotifier cfg)) (ms_duration (cfg_GasIntervalMs cfg)) in
  let treasurySvc := Treasury.NewService cl (loader_of ks) in
  MkSystem relaySvc watcher webhookWorker gasWorker
    (MkHandlers (Some appSvc) (Some relaySvc) (Some cl) (Some treasurySvc)).

(** The report of [Recover] is only logged. *)
Definition main_start (cfg : Config) : prog startup :=
  if String.eqb (cfg_DBURL cfg) "" then Ret (Exit 2)
  else if String.eqb (cfg_RPCURL cfg) "" then Ret (Exit 2)
  else
    let! pool := NewPool (cfg_DBURL cfg) in
    match pool with
    | Err _ => Ret (Exit 1)
    | Ok _ =>
        let! k := Keystore.New (cfg_KeystoreDir cfg) (cfg_KeystorePassword cfg) in
        match k with
        | Err _ => Ret (Exit 1)
        | Ok ks =>
            let! c := Dial (cfg_RPCURL cfg) (cfg_ChainID cfg) in
            match c with
            | Err _ => Ret (Exit 1)
            | Ok cl => do! Recover in Ret (Started (wire cfg ks cl))
            end
        end
    end.

(** [cmd/alert-test]: one alert to every configured transport. *)
Definition alert_test (cfg : Config) : prog Z :=
  let transports :=
    (if negb (String.eqb (cfg_AlertWebhookURL cfg) "") then [WebhookNotify (cfg_AlertWebhookURL cfg)]
     else []) ++
    (if negb (String.eqb (cfg_TelegramBotToken cfg) "") && negb (String.eqb (cfg_TelegramChatID cfg) "")
     then [TelegramNotify (NewTelegram (cfg_TelegramBotToken cfg) (cfg_TelegramChatID cfg))] else []) in
  match transports with
  | [] => Ret 2
  | _ =>
      let! now := time_Now in
      let secs := now / 10 ^ 9 * 10 ^ 6 in
      let! r := Multi transports (MkAlert "alert_test" LevelInfo "txmill alert test"
        ("Test alert dispatched at " +:+ rfc3339 secs (env_zone secs))
        [("source", "alert-test")]) in
      match r with Err _ => Ret 1 | Ok _ => Ret 0 end
  end.
End main.

(** ** The key store as the system's keystore *)

Section store.
Context `{HO : Host} `{Eth : GoEthereum}.

Lemma Load_total_on k a : total_on (fun w => safe_files k (w_files w)) (Keystore.Load k a).
Proof.
  intros w Hs. split; [done|]. intros x w' [= <- _]. cbn.
  destruct (env_fs (w_hist w)) as [|n e]; [|done].
  destruct (w_files w !! path k a) as [data|] eqn:Ed; cbn; [|done].
  apply Hs in Ed. by destruct (open_file _ data a).
Qed.

#[export] Instance store_sound k : @KeystoreSound Eth (loader_of k).
Proof.
  exists (safe_files k).
  - exact (Load_rets k).
  - exact (Load_files k).
  - exact (Load_total_on k).
Defined.
End store.

(** ** Properties *)

(** Configured intervals are exact exactly up to 9223372036854 milliseconds
    (292 years); above that the conversion to [time.Duration] wraps. *)
Theorem ms_duration_exact ms :
  in_u64 ms -> (ms_duration ms = ms * 10 ^ 6 <-> ms <= 9223372036854).
Proof.
  unfold in_u64, ms_duration, int64_of. intros H.
  pose proof (Z.mod_pos_bound (((ms + 2 ^ 63) mod 2 ^ 64 - 2 ^ 63) * 10 ^ 6 + 2 ^ 63) (2 ^ 64)).
  split; [lia|]. intros Hm. rewrite (Z.mod_small (ms + 2 ^ 63)) by lia.
  rewrite Z.mod_small; lia.
Qed.

Lemma ms_duration_pos ms : 1 <= ms <= 9223372036854 -> 0 < ms_duration ms.
Proof.
  intros H. unfold ms_duration. rewrite (int64_of_small ms) by (unfold max_int64; lia).
  rewrite int64_of_small; unfold max_int64; lia.
Qed.

Section startup.
Context `{Env : Environment} `{HO : Host} `{Eth : GoEthereum} `{PG : Postgres} `{PX : PgxPool}.

Lemma Recover_view : keeps view Recover.
Proof. unfold Recover. solve_keeps. Qed.

(** How a started system is put together, field by field. *)
Record wired_to (cfg : Config) (ks : Keystore) (cl : Client) (s : system) : Prop := {
  wr_apps : exists apps, h_Apps (sys_handlers s) = Some apps /\ as_keystore apps = generator_of ks;
  wr_relay : h_Relay (sys_handlers s) = Some (sys_relay s);
  wr_balances : h_Chain (sys_handlers s) = Some cl;
  wr_treasury : exists svc, h_Treasury (sys_handlers s) = Some svc /\
    ts_chain svc = cl /\ ts_keystore svc = loader_of ks;
  wr_relay_chain : svc_chain (sys_relay s) = cl;
  wr_relay_pool : let pools := svc_pools (sys_relay s) in
    sp_keystore pools = loader_of ks /\ sp_chain pools = cl /\ sp_lister pools = appLister;
  wr_relay_webhooks : svc_webhooks (sys_relay s) = Some Enqueue;
  wr_watcher : wt_chain (sys_watcher s) = cl /\ wt_webhooks (sys_watcher s) = Some Enqueue /\
    wt_interval (sys_watcher s) = ms_duration (cfg_WatcherIntervalMs cfg) /\
    wt_batchSize (sys_watcher s) = int64_of (cfg_WatcherBatchSize cfg);
  wr_delivery : ww_interval (sys_webhook s) = ms_duration (cfg_WatcherIntervalMs cfg) /\
    ww_batchSize (sys_webhook s) = int64_of (cfg_WatcherBatchSize cfg);
  wr_gas : gw_chain (sys_gas s) = cl /\ gw_keystore (sys_gas s) = loader_of ks /\
    gw_notifier (sys_gas s) = buildNotifier cfg /\
    gw_interval (sys_gas s) = ms_duration (cfg_GasIntervalMs cfg);
}.

Lemma wire_wired cfg ks cl : wired_to cfg ks cl (wire cfg ks cl).
Proof. split; try done; by eexists. Qed.

Lemma main_start_run cfg w :
  exists r w', run (main_start cfg) w = Done r w' /\ view w' = view w /\
    match r with
    | Exit code => code = 1 \/ code = 2
    | Started s =>
        cfg_DBURL cfg <> "" /\ cfg_RPCURL cfg <> "" /\ cfg_KeystorePassword cfg <> "" /\
        s = wire cfg (MkKeystore (cfg_KeystoreDir cfg) (cfg_KeystorePassword cfg)) (MkClient (cfg_ChainID cfg)) /\
        exists h, env_ChainID h = Ok (cfg_ChainID cfg)
    end.
Proof.
  unfold main_start.
  destruct (String.eqb_spec (cfg_DBURL cfg) "") as [|Hdb]; [do 2 eexists; by auto|].
  destruct (String.eqb_spec (cfg_RPCURL cfg) "") as [|Hrpc]; [do 2 eexists; by auto|].
  rewrite run_bind. destruct (total_run (NewPool (cfg_DBURL cfg)) w) as (p & w1 & E1).
  { unfold NewPool. destruct (pgxpool_New _); solve_total. }
  assert (view w1 = view w) as V1.
  { eapply (keeps_Done view); [|exact E1]. unfold NewPool. destruct (pgxpool_New _); solve_keeps. }
  rewrite E1. destruct p as [u|e]; [|do 2 eexists; by auto].
  rewrite run_bind. unfold Keystore.New.
  destruct (String.eqb_spec (cfg_KeystorePassword cfg) "") as [|Hpw]; [do 2 eexists; by auto|].
  rewrite run_bind. unfold os_MkdirAll. rewrite run_action. cbn [fst snd].
  destruct (env_fs (w_hist w1)) as [|n e]; [|do 2 eexists; by auto]. cbn [run].
  rewrite run_bind. destruct (Dial_spec (cfg_RPCURL cfg) (cfg_ChainID cfg) (log EvFs w1))
    as (c & w2 & -> & V2 & Hc).
  destruct c as [cl|e]; [|do 2 eexists; split; [done|split; [rewrite V2; exact V1|by left]]].
  destruct Hc as [-> Hh]. rewrite run_bind.
  destruct (total_run Recover w2) as (rep & w3 & E3); [unfold Recover; solve_total|].
  rewrite E3. cbn [run]. do 2 eexists. split; [done|]. split; [|eauto 10].
  apply (keeps_Done view) in E3; [|apply Recover_view]. rewrite E3, V2. exact V1.
Qed.
(** C37 [main] serves only a complete configuration and the right chain: it
    starts the system only if both URLs and the keystore password are set and the
    node's chain id is the configured one, and startup changes neither the tables
    nor the pool and sends nothing; otherwise it exits with code 1 or 2.  The
    started system is wired as configured: the relay service, its signer pool, the
    watcher, the gas worker, the treasury service and the handlers hold the one
    client of the configured chain; the app service, the signer pool, the gas
    worker and the treasury service hold the one key store at the configured
    directory; relay service and watcher enqueue to the webhook service; the
    workers have the configured intervals and batch sizes. *)
Theorem main_start_spec cfg w :
  exists r w', run (main_start cfg) w = Done r w' /\ view w' = view w /\
    match r with
    | Exit code => code = 1 \/ code = 2
    | Started s =>
        cfg_DBURL cfg <> "" /\ cfg_RPCURL cfg <> "" /\ cfg_KeystorePassword cfg <> "" /\
        wired_to cfg (MkKeystore (cfg_KeystoreDir cfg) (cfg_KeystorePassword cfg))
          (MkClient (cfg_ChainID cfg)) s /\
        exists h, env_ChainID h = Ok (cfg_ChainID cfg)
    end.
Proof.
  destruct (main_start_run cfg w) as (r & w' & E & Hv & Hr). exists r, w'. do 2 (split; [done|]).
  destruct r as [code|s]; [done|]. destruct Hr as (? & ? & ? & -> & ?). eauto 10 using wire_wired.
Qed.
End startup.

(** ** The workers of a started system *)

Section workers.
Context `{Env : Environment} `{HO : Host} `{Eth : GoEthereum} `{PG : Postgres}.

Lemma buildNotifier_total cfg a : total (buildNotifier cfg a).
Proof.
  unfold buildNotifier. destruct (negb (String.eqb (cfg_AlertWebhookURL cfg) "")), (_ && _); cbn [app];
    try apply Throttled_total, Multi_total; repeat apply Forall_cons_2;
    first [apply Forall_nil_2 | apply WebhookNotify_total | apply TelegramNotify_total | done].
Qed.

Lemma buildNotifier_keeps {B} (g : world -> B) cfg a : alert_blind g -> keeps g (buildNotifier cfg a).
Proof.
  intros Hg. unfold buildNotifier.
  destruct (negb (String.eqb (cfg_AlertWebhookURL cfg) "")), (_ && _); cbn [app];
    try (apply Throttled_keeps; [done|]; apply Multi_keeps); repeat apply Forall_cons_2;
    first [apply Forall_nil_2 | by apply WebhookNotify_keeps | by apply TelegramNotify_keeps | done].
Qed.

Lemma webhook_loop_ok batch n w :
  deliveries_ok (w_db w) ->
  (forall k, is_Some (db_deliveries (w_db w) !! k) -> pg_uuid_in k = Some k) ->
  exists w', run (ticker_loop (webhook_tick batch) n) w = Done tt w' /\ deliveries_ok (w_db w').
Proof.
  intros H1 H2. destruct (ticker_loop_ok (fun w => deliveries_ok (w_db w) /\
    (forall k, is_Some (db_deliveries (w_db w) !! k) -> pg_uuid_in k = Some k))
    (webhook_tick batch)) with (n := n) (w := w) as (w' & E & Hok & _); [done| |done|eauto].
  intros w0 [Hok Hcan]. destruct (webhook_tick_ok batch w0 Hok Hcan) as (r & w' & E & Hok' & _ & Hd).
  exists r, w'. split; [done|]. split; [done|]. intros k Hk. apply Hcan.
  apply elem_of_dom. rewrite <- Hd. by apply elem_of_dom.
Qed.

(** The watcher and the delivery worker of a started system keep running: with
    an interval between one millisecond and 292 years and receipts that carry
    their block number, for any number of rounds and whatever the node, the
    database and the receivers of the webhooks answer, the two loops never panic or
    get stuck, and the delivery worker keeps the deliveries' life cycle. *)
Theorem workers_keep_running cfg ks cl n w :
  let s := wire cfg ks cl in
  1 <= cfg_WatcherIntervalMs cfg <= 9223372036854 -> receipts_numbered ->
  deliveries_ok (w_db w) ->
  (forall k, is_Some (db_deliveries (w_db w) !! k) -> pg_uuid_in k = Some k) ->
  (exists w', run (Watcher_Run (sys_watcher s) n) w = Done tt w') /\
  (exists w', run (WebhookWorker_Run (sys_webhook s) n) w = Done tt w' /\
     deliveries_ok (w_db w')).
Proof.
  intros s Hw%ms_duration_pos Hnum Hd Hc.
  unfold Watcher_Run, WebhookWorker_Run, ticker_Run, s.
  cbn [wire sys_watcher sys_webhook Watcher_SetWebhooks NewWatcher NewWebhookWorker wt_interval ww_interval].
  destruct (Z.leb_spec (ms_duration (cfg_WatcherIntervalMs cfg)) 0); [lia|]. split.
  - destruct (ticker_loop_ok (fun _ => True) (tick (sys_watcher (wire cfg ks cl)))) with (n := n) (w := w) as (w' & E & _);
      [done| |done|eauto]. intros w0 _.
    destruct (tick_counts (sys_watcher (wire cfg ks cl)) w0 Hnum)
      as (r & w1 & E & _); [|eauto]. intros e rid [= <-]. apply Enqueue_total.
  - by apply webhook_loop_ok.
Qed.

(** C34 A tick of the started gas worker returns, whatever the node, the
    database, the alert receivers and the file system answer, when the amounts of
    the policies in the apps table are numbers and every key file of the store
    that can be read has the format the store writes: one app's failure never
    stops the tick for the others, and the key files are left as they were. *)
Theorem gas_tick_returns cfg ks cl w :
  numeric_policies (w_db w) -> safe_files ks (w_files w) ->
  exists r w', run (gas_tick (sys_gas (wire cfg ks cl))) w = Done r w' /\ w_files w' = w_files w.
Proof.
  intros Hn Hs. apply (gas_tick_safe (safe_files ks)); try done.
  - intros a. apply total_total_on, buildNotifier_total.
  - intros a. by apply buildNotifier_keeps.
  - apply Load_total_on.
  - apply Load_files.
Qed.

(** C40 An interval of zero is accepted by the configuration and stops the process:
    with [TXMILL_WATCHER_INTERVAL_MS=0] the watcher's and the delivery worker's
    goroutines panic when they start, whatever else is configured. *)
Theorem zero_interval_panics (getenv : string -> string) ks cl n w :
  getenv "TXMILL_WATCHER_INTERVAL_MS" = "0" ->
  let s := wire (Config_Load getenv) ks cl in
  run (Watcher_Run (sys_watcher s) n) w
    = Panicked "non-positive interval for NewTicker" w /\
  run (WebhookWorker_Run (sys_webhook s) n) w
    = Panicked "non-positive interval for NewTicker" w.
Proof.
  intros E s. assert (cfg_WatcherIntervalMs (Config_Load getenv) = 0) as E0.
  { cbn. unfold getenvUint64. by rewrite E. }
  unfold Watcher_Run, WebhookWorker_Run, ticker_Run, s.
  cbn [wire sys_watcher sys_webhook Watcher_SetWebhooks NewWatcher NewWebhookWorker wt_interval ww_interval].
  by rewrite E0.
Qed.
End workers.

(** [cmd/migrate] reports success exactly when goose ran the command on the
    configured database and succeeded; a run that exits with 2 has done
    nothing. *)
Theorem migrate_exit `{Goose} args cfg w code w' :
  run (migrate args cfg) w = Done code w' ->
  (code = 0 <-> exists name command rest, args = name :: command :: rest /\ cfg_DBURL cfg <> "" /\
     sql_Open "pgx" (cfg_DBURL cfg) = None /\ goose_SetDialect "postgres" = None /\
     exists u, run (goose_Run command rest) w = Done (Ok u) w') /\
  (code = 2 -> w' = w) /\ (code = 0 \/ code = 1 \/ code = 2).
Proof.
  unfold migrate. intros E. destruct args as [|name [|command rest]];
    [injection E as <- <-; split; [split; [done|by intros (?&?&?&?&_)]|by auto]..|].
  destruct (String.eqb_spec (cfg_DBURL cfg) "") as [Hu|Hu];
    [injection E as <- <-; split; [split; [done|by intros (?&?&?&_&?&_)]|by auto]|].
  destruct (sql_Open _ _) as [e|] eqn:Eo;
    [injection E as <- <-; split; [split; [done|by intros (?&?&?&_&_&?&_)]|by auto]|].
  destruct (goose_SetDialect _) as [e|] eqn:Ed;
    [injection E as <- <-; split; [split; [done|by intros (?&?&?&_&_&_&?&_)]|by auto]|].
  apply bind_Done in E as ([u|e] & w1 & E & E2); injection E2 as <- <-; (split; [|by split; auto]); split; try done.
  - intros _. exists name, command, rest. eauto 10.
  - intros (? & ? & ? & [= <- <- <-] & _ & _ & _ & u & Hr). congruence.
Qed.

(** ** Witnesses *)

Module MainDemo.
Import RefEnv KeystoreDemo.

(** A driver that takes any URL with the right scheme. *)
#[local] Instance demoPgx : PgxPool := {
  pgxpool_New url := if HasPrefix url "postgres://" then None else Some (EText "cannot parse");
}.

Definition demo_getenv (key : string) : string :=
  if String.eqb key "TXMILL_DB_URL" then "postgres://db/txmill"
  else if String.eqb key "TXMILL_RPC_URL" then "https://rpc.example"
  else if String.eqb key "TXMILL_KEYSTORE_PASSWORD" then "correct horse"
  else "".

Definition demo_cfg : Config := Config_Load demo_getenv.

Lemma ms_duration_exact_witness :
  ms_duration 9223372036854 = 9223372036854000000 /\ ms_duration 9223372036855 <> 9223372036855000000.
Proof.
  split.
  - apply (proj2 (ms_duration_exact 9223372036854 ltac:(unfold in_u64; lia))). lia.
  - intros H. apply (proj1 (ms_duration_exact 9223372036855 ltac:(unfold in_u64; lia))) in H. lia.
Defined.

(** A complete configuration starts; another chain is refused. *)
Definition exit_code (o : outcome startup) : option Z :=
  match o with Done (Exit c) _ => Some c | _ => None end.

Example demo_start : exit_code (run (main_start demo_cfg) demo_world) = None.
Proof. vm_compute. reflexivity. Qed.

Example demo_wrong_chain :
  exit_code (run (main_start (Config_Load (fun k =>
    if String.eqb k "TXMILL_CHAIN_ID" then "1" else demo_getenv k))) demo_world) = Some 1.
Proof. vm_compute. reflexivity. Qed.

(** A world with a key file, from which the workers run. *)
Lemma demo_safe : safe_files demo_ks (w_files demo_after).
Proof.
  pose proof (Generate_safe demo_ks demo_world) as H. rewrite demo_generate in H. apply H.
  intros a data. change (w_files demo_world) with (∅ : gmap string string). by rewrite lookup_empty.
Qed.

Lemma demo_policies : numeric_policies (w_db demo_after).
Proof.
  assert (all_rows (fun _ r => match a_signer_min_balance r, a_treasury_min_balance r with
    | Num _, Num _ => true | _, _ => false end) (db_apps (w_db demo_after)) = true) as H
    by (vm_compute; reflexivity).
  intros id row Hrow _. pose proof (all_rows_elim _ _ _ _ H Hrow) as Hn. simpl in Hn. unfold policy_numbers.
  clear H Hrow. destruct (a_signer_min_balance row), (a_treasury_min_balance row);
    first [discriminate Hn | split; discriminate].
Qed.

Lemma gas_tick_returns_witness :
  exists r w', run (gas_tick (sys_gas (wire demo_cfg demo_ks (MkClient 146)))) demo_after = Done r w' /\
    w_files w' = w_files demo_after.
Proof. exact (gas_tick_returns demo_cfg demo_ks (MkClient 146) demo_after demo_policies demo_safe). Defined.

Definition zero_getenv (key : string) : string :=
  if String.eqb key "TXMILL_WATCHER_INTERVAL_MS" then "0" else demo_getenv key.

Lemma zero_interval_panics_witness :
  let s := wire (Config_Load zero_getenv) demo_ks (MkClient 146) in
  run (Watcher_Run (sys_watcher s) 1) demo_world
    = Panicked "non-positive interval for NewTicker" demo_world.
Proof.
  exact (proj1 (zero_interval_panics zero_getenv demo_ks (MkClient 146) 1 demo_world eq_refl)).
Defined.
End MainDemo.
