(* ===== verification/TestDb.v ===== *)
(** * The test database ([internal/store/dbtest])

    [New] gives an integration test a pool on an empty, migrated database: the
    migrations run once per test binary, under an advisory lock that serialises
    the binaries, and every table is truncated.  The package's variables
    ([migrateOnce], [migrateErr]) are passed as a state; closing the pool, on a
    failure or when the test ends, changes no table and is left out. *)

From Stdlib Require Import ZArith Lia.
From S2P Require Import Prelude GoLib Json Eth Database World Chain RefEnv Config Schema Main.

Local Open Scope Z_scope.
Local Open Scope txmill_scope.

(** [migrateOnce] and [migrateErr] *)
Record migrate_state := MkMigrateState {
  migrateOnce : bool;
  migrateErr : option error;
}.

Definition fresh_binary : migrate_state := MkMigrateState false None.

(** How [New] ends: the test is skipped or failed, or gets the pool. *)
Inductive test_pool :=
| Skip (msg : string)
| Fatal (msg : string)
| Ready.

(** What the package uses of [database/sql], PostgreSQL's advisory locks and
    goose; [sql_Open] and [goose_SetDialect] are those of [cmd/migrate]. *)
Class TestHarness := {
  db_Conn : prog (result unit);
  advisory_lock : Z -> prog (result unit);
  advisory_unlock : Z -> prog unit;
  conn_Close : prog unit;
  db_Close : prog unit;
  goose_Up : prog (result unit);
}.

(** [defer d()] around the rest of a function. *)
Definition deferring {A} (d : prog unit) (p : prog A) : prog A :=
  let! r := p in do! d in Ret r.

Section dbtest.
Context `{Env : Environment} `{PX : PgxPool} `{GO : Goose} `{TH : TestHarness}.

Definition applyMigrations (url : string) : prog (result unit) :=
  match sql_Open "pgx" url with
  | Some e => Ret (Err e)
  | None =>
      deferring db_Close (
        let? _c := db_Conn in
        deferring conn_Close (
          let? _l := advisory_lock 8675309 in
          deferring (advisory_unlock 8675309) (
            match goose_SetDialect "postgres" with
            | Some e => Ret (Err e)
            | None => goose_Up
            end)))
  end.

(** One block: all tables of the schema but goose's own are emptied. *)
Definition truncate_stmt : stmt unit := fun _ _ => Ok (tt, empty_db).
Definition truncateAll : prog (result unit) := pg truncate_stmt.

(** [migrateOnce.Do(...)] *)
Definition migrate_once (url : string) (st : migrate_state) : prog migrate_state :=
  if migrateOnce st then Ret st
  else
    let! r := applyMigrations url in
    Ret (MkMigrateState true (match r with Err e => Some e | Ok _ => None end)).

Definition New (url : string) (st : migrate_state) : prog (migrate_state * test_pool) :=
  if String.eqb url "" then Ret (st, Skip "TXMILL_TEST_DB_URL not set; skipping integration test")
  else
    let! st := migrate_once url st in
    match migrateErr st with
    | Some e => Ret (st, Fatal ("apply migrations: " +:+ error_text e))
    | None =>
        match pgxpool_New url with
        | Some e => Ret (st, Fatal ("pgxpool new: " +:+ error_text e))
        | None =>
            let! p := pg (select (fun _ _ => Ok tt)) in
            match p with
            | Err e => Ret (st, Fatal ("pgxpool ping: " +:+ error_text e))
            | Ok _ =>
                let! t := truncateAll in
                match t with
                | Err e => Ret (st, Fatal ("truncate: " +:+ error_text e))
                | Ok _ => Ret (st, Ready)
                end
            end
        end
    end.

(** ** Properties *)

(** A test that gets a pool starts from empty tables, whatever the tests before
    it left and whatever the migrations did. *)
Theorem New_empty url st w st' w' :
  run (New url st) w = Done (st', Ready) w' -> w_db w' = empty_db /\ migrateErr st' = None.
Proof.
  unfold New. destruct (String.eqb url ""); [done|]. intros (s1 & w1 & _ & H)%bind_Done.
  destruct (migrateErr s1) eqn:Em; [done|]. destruct (pgxpool_New url); [done|].
  apply bind_Done in H as ([[]|e] & w2 & _ & H); [|done].
  apply bind_Done in H as ([[]|e] & w3 & H3 & H); [|done]. injection H as <- <-.
  apply pg_ok in H3 as (db' & [= <-] & ->). done.
Qed.

(** The migrations run once: a call that is not skipped leaves the outcome of
    the first run behind, later calls keep it, and when the first run failed every
    later test fails at once, without touching the database. *)
Theorem New_migrates_once url st w st' r w' :
  url <> "" -> run (New url st) w = Done (st', r) w' ->
  migrateOnce st' = true /\ (migrateOnce st = true -> st' = st) /\
  (forall e, migrateOnce st = true -> migrateErr st = Some e ->
     w' = w /\ r = Fatal ("apply migrations: " +:+ error_text e)).
Proof.
  intros Hu. unfold New. destruct (String.eqb_spec url "") as [|_]; [done|].
  intros (s1 & w1 & H1 & H)%bind_Done.
  assert (migrateOnce s1 = true /\ (migrateOnce st = true -> s1 = st /\ w1 = w)) as [Hd Hk].
  { unfold migrate_once in H1. destruct (migrateOnce st) eqn:Ed; [by injection H1 as <- <-|].
    apply bind_Done in H1 as (x & w2 & _ & [= <- _]). done. }
  assert (st' = s1) as ->.
  { destruct (migrateErr s1); [by injection H as <- _ _|]. destruct (pgxpool_New url); [by injection H as <- _ _|].
    apply bind_Done in H as ([[]|e] & w2 & _ & H); [|by injection H as <- _ _].
    apply bind_Done in H as ([[]|e] & w3 & _ & H); by injection H as <- _ _. }
  split; [done|]. split; [intros E; by apply Hk|]. intros e E Ee.
  destruct (Hk E) as [-> ->]. rewrite Ee in H. by injection H as <- <-.
Qed.

(** What PostgreSQL documents of session advisory locks: the lock is held from a
    granted request until it is released; nothing else the package calls takes or
    releases it. *)
Class AdvisoryLaws (held : world -> bool) := {
  lock_granted k w w' : run (advisory_lock k) w = Done (Ok tt) w' -> held w' = true;
  lock_refused k w e w' : run (advisory_lock k) w = Done (Err e) w' -> held w' = held w;
  unlocked k w w' : run (advisory_unlock k) w = Done tt w' -> held w' = false;
  db_Conn_lock : keeps held db_Conn;
  conn_Close_lock : keeps held conn_Close;
  db_Close_lock : keeps held db_Close;
}.

Lemma deferring_Done {A} d (p : prog A) w r w' :
  run (deferring d p) w = Done r w' ->
  exists w1, run p w = Done r w1 /\ run d w1 = Done tt w'.
Proof.
  intros (x & w1 & H1 & H)%bind_Done. apply bind_Done in H as ([] & w2 & H2 & [= <- <-]). eauto.
Qed.

(** The migrations run under the lock and leave it free on every path: success
    means that goose succeeded while the lock was held. *)
Theorem applyMigrations_locked held `{!AdvisoryLaws held} url w r w' :
  held w = false -> run (applyMigrations url) w = Done r w' ->
  held w' = false /\
  (r = Ok tt -> exists w1 w2, held w1 = true /\ run goose_Up w1 = Done (Ok tt) w2).
Proof.
  intros Hw H. unfold applyMigrations in H. destruct (sql_Open "pgx" url); [by injection H as <- <-|].
  apply deferring_Done in H as (w1 & H & Hc1). apply (keeps_Done held) in Hc1; [|apply db_Close_lock].
  apply bind_Done in H as ([[]|e] & w2 & H2 & H);
    (apply (keeps_Done held) in H2; [|apply db_Conn_lock]); [|injection H as <- <-; split; [congruence|done]].
  apply deferring_Done in H as (w3 & H & Hc2). apply (keeps_Done held) in Hc2; [|apply conn_Close_lock].
  apply bind_Done in H as ([[]|e] & w4 & H4 & H).
  - apply lock_granted in H4. apply deferring_Done in H as (w5 & H & Hu%unlocked). split; [congruence|].
    intros ->. destruct (goose_SetDialect "postgres"); [done|]. eauto.
  - apply lock_refused in H4. injection H as <- <-. split; [congruence|done].
Qed.
End dbtest.

(** ** Witnesses *)

Module TestDbDemo.
Import RefEnv.

#[local] Instance testPgx : PgxPool := { pgxpool_New _ := None }.
#[local] Instance testGoose : Goose := {
  sql_Open _ _ := None; goose_SetDialect _ := None; goose_Run _ _ := Ret (Ok tt);
}.

(** The server's lock table, kept beside the files. *)
Definition set_lock (b : bool) (w : world) : world :=
  set_files (if b then <["lock" := ""]> (w_files w) else delete "lock" (w_files w)) w.
Definition lock_held (w : world) : bool := bool_decide (is_Some (w_files w !! "lock")).

#[local] Instance testHarness : TestHarness := {
  db_Conn := Ret (Ok tt);
  advisory_lock _ := waiting (fun w => if lock_held w then None else Some (Ok tt, set_lock true w));
  advisory_unlock _ := action (fun w => (tt, set_lock false w));
  conn_Close := Ret tt;
  db_Close := Ret tt;
  goose_Up := Ret (Ok tt);
}.

#[local] Instance testLocks : AdvisoryLaws lock_held.
Proof.
  split; try done.
  - intros k w w'. cbn. destruct (lock_held w); [done|]. intros [= <-].
    unfold lock_held, set_lock. cbn. by rewrite lookup_insert_eq.
  - intros k w e w'. cbn. by destruct (lock_held w).
  - intros k w w' [= <-]. unfold lock_held, set_lock. cbn. by rewrite lookup_delete_eq.
Qed.

Lemma demo_new : exists w', run (New "postgres://test" fresh_binary) demo_world =
  Done (MkMigrateState true None, Ready) w'.
Proof. eexists. vm_compute. reflexivity. Qed.

Lemma New_empty_witness : exists w',
  run (New "postgres://test" fresh_binary) demo_world = Done (MkMigrateState true None, Ready) w' /\
  w_db w' = empty_db.
Proof.
  destruct demo_new as [w' E]. exists w'. split; [exact E|].
  exact (proj1 (New_empty _ _ _ _ _ E)).
Defined.

Lemma New_migrates_once_witness :
  let st := MkMigrateState true (Some (EText "dirty")) in
  exists w', run (New "postgres://test" st) demo_world =
    Done (st, Fatal "apply migrations: dirty") w' /\ w' = demo_world.
Proof.
  intros st. exists demo_world. split; [reflexivity|].
  destruct (New_migrates_once "postgres://test" st demo_world st (Fatal "apply migrations: dirty")
    demo_world ltac:(discriminate) eq_refl) as (_ & _ & H).
  exact (proj1 (H (EText "dirty") eq_refl eq_refl)).
Defined.

Lemma applyMigrations_locked_witness : exists w',
  run (applyMigrations "postgres://test") demo_world = Done (Ok tt) w' /\ lock_held w' = false.
Proof.
  eexists. split; [vm_compute; reflexivity|].
  apply (applyMigrations_locked lock_held "postgres://test" demo_world (Ok tt)); vm_compute; reflexivity.
Defined.
End TestDbDemo.
