(* ===== verification/Process.v ===== *)
(** * The whole process

    Every goroutine of the wired program — the API's handlers and the loops of
    the three workers — over one database, in any interleaving, with crashes and
    restarts: each keeps the tables well-formed and growing ([Schema]). *)

From Stdlib Require Import ZArith Lia.
From S2P Require Import Prelude GoLib Json Eth Database World Chain.
From S2P Require Import FileSystem Keystore KeystoreSafety.
From S2P Require Import SignerPool RefEnv AppService RelayService RelayStatus Watcher Webhook Alert.
From S2P Require Import Gas Treasury Api Config Interleave System Concurrent Schema Main.

Local Open Scope Z_scope.
Local Open Scope txmill_scope.

(** ** Statements and transactions of a goroutine *)

(** What a goroutine may guarantee: a kind of growth. *)
Class Guarantee (G : database -> database -> Prop) := {
  guarantee_preorder :: PreOrder G;
  guarantee_grows db db' : G db db' -> grows db db';
}.
#[export] Instance grows_guarantee : Guarantee grows.
Proof. split; [apply _|done]. Qed.
#[export] Instance updates_guarantee : Guarantee updates.
Proof. split; [apply _|apply updates_grows]. Qed.

Section statements.
Context `{Env : Environment} `{Eth : GoEthereum} `{PG : Postgres} `{UUL : !UuidLaws}.
Context {G : database -> database -> Prop} `{!Guarantee G}.
Abbreviation guar := (guar schema grows G).

Definition on_ok {X} (Q : database -> X -> Prop) (db : database) (r : result X) : Prop :=
  match r with Ok x => Q db x | Err _ => True end.

Lemma guar_then {A C} (Q : database -> A -> Prop) (R : database -> C -> Prop) d p (k : A -> prog C) :
  guar Q d p -> (forall d' a, grows d d' -> Q d' a -> guar R d' (k a)) -> guar R d (bind p k).
Proof. apply guar_bind; [apply _|apply guarantee_grows]. Qed.

Lemma guar_db {A} d (p : prog A) : keeps w_db p -> guar any d p.
Proof. apply guar_keeps, _. Qed.

Lemma guar_outside {A} d (p : prog A) : keeps outside p -> guar any d p.
Proof. intros Hp. apply guar_db. exact (keeps_compose fst outside p Hp). Qed.

Lemma guar_view {A} d (p : prog A) : keeps view p -> guar any d p.
Proof. intros Hp. by apply guar_db, keeps_view_db. Qed.

Lemma guar_pg {X} Q d (s : stmt X) : stmt_ok G Q d s -> guar (on_ok Q) d (pg s).
Proof.
  intros Hs. apply guar_action. intros w Hsc Hg.
  assert (forall x db', s (env_stmt w) (w_db w) = Ok (x, db') ->
    (schema db' /\ G (w_db w) db') /\ Q db' x) as Hok.
  { intros x db'. apply Hs; [apply env_uuid_canonical|done..]. }
  destruct (env_pg_fate _) as [|[] e], (s (env_stmt w) (w_db w)) as [[x db']|e'] eqn:E; cbn [fst snd];
    try (split; [done|split; [reflexivity|done]]); by destruct (Hok x db') as [[? ?] ?].
Qed.

Lemma guar_select {X} d (q : stmt_env -> database -> result X) : guar any d (pg (select q)).
Proof. apply guar_db, pg_select_keeps. Qed.

(** What the statements of a transaction do together, ending in tables that
    satisfy [P]. *)
Definition txn_ok (P : database -> Prop) (d : database) (t : txn) : Prop :=
  forall db db', schema db -> grows d db -> txn_apply t db = Ok db' ->
    (schema db' /\ G db db') /\ P db'.

(** A statement that follows others in a transaction. *)
Definition stmt_after {X} (P : database -> Prop) (d : database) (s : stmt X) : Prop :=
  forall se db x db', canonical (se_uuid se) -> schema db -> grows d db -> P db ->
    s se db = Ok (x, db') -> schema db' /\ G db db'.

Lemma stmt_ok_after {X} P d (s : stmt X) : stmt_ok G any d s -> stmt_after P d s.
Proof. intros Hs se db x db' Hu Hsc Hg _ E. by destruct (Hs se db x db') as [? _]. Qed.

Lemma guar_begin d : guar (on_ok (fun d' t => grows d d' /\ txn_ok (fun _ => True) d t)) d pg_begin.
Proof.
  apply guar_action. intros w Hsc Hg. destruct (env_pg_fate _); cbn [fst snd on_ok];
    (split; [done|]); (split; [reflexivity|]); [|done].
  split; [done|]. intros db db' Hdb _ [= <-]. split; [split; [done|reflexivity]|done].
Qed.

Lemma guar_tx {X} (P P' : database -> Prop) d0 d t (s : stmt X) :
  txn_ok P d0 t ->
  (forall se db x db', canonical (se_uuid se) -> schema db -> grows d0 db -> P db ->
     s se db = Ok (x, db') -> (schema db' /\ G db db') /\ P' db') ->
  guar (on_ok (fun _ r => txn_ok P' d0 r.2)) d (pg_tx t s).
Proof.
  intros Ht Hs. apply guar_action. intros w Hsc Hg. cbn [fst snd].
  split; [done|]. split; [reflexivity|]. destruct (env_pg_fate _); [|done].
  destruct (txn_apply t (w_db w)) as [db1|]; [|done]. destruct (s _ db1) as [[x db2]|]; [|done].
  intros db db' Hdb Hd E. cbn in E. destruct (txn_apply t db) as [db3|] eqn:E3; [|done].
  destruct (s _ db3) as [[y db4]|] eqn:E4; [|done]. injection E as <-.
  destruct (Ht db db3 Hdb Hd E3) as [[Hsc3 Hg3] HP].
  apply Hs in E4 as [[Hsc4 Hg4] HP'];
    [|apply env_uuid_canonical|done|transitivity db; [done|by apply guarantee_grows]|done].
  split; [split; [done|by transitivity db3]|done].
Qed.

Lemma guar_commit P d0 d t : grows d0 d -> txn_ok P d0 t -> guar any d (pg_commit t).
Proof.
  intros H0 Ht. apply guar_action. intros w Hsc Hg.
  assert (forall db', txn_apply t (w_db w) = Ok db' -> schema db' /\ G (w_db w) db') as Hok.
  { intros db' E. apply Ht in E as [? _]; [done|done|by transitivity d]. }
  destruct (env_pg_fate _) as [|[] e], (txn_apply t (w_db w)) as [db'|e'] eqn:E; cbn [fst snd];
    try (split; [done|split; [reflexivity|done]]); by destruct (Hok db').
Qed.

(** A transaction of two statements; the second relies on what the first
    achieved. *)
Lemma guar_txn2 {X Y R} (P : database -> Prop) (Q : database -> result R -> Prop) d
    (s1 : stmt X) (s2 : X -> stmt Y) (k : X -> result unit -> prog (result R)) :
  stmt_ok G (fun db _ => P db) d s1 -> (forall x, stmt_after P d (s2 x)) ->
  (forall x c d', grows d d' -> guar Q d' (k x c)) -> (forall d' e, Q d' (Err e)) ->
  guar Q d (let? t := pg_begin in
            let? r1 := pg_tx t s1 in
            let? r2 := pg_tx r1.2 (s2 r1.1) in
            bind (pg_commit r2.2) (k r1.1)).
Proof.
  intros H1 H2 Hk HQ. eapply guar_then; [apply guar_begin|].
  intros d1 [t|e] Hd1; [intros [_ Ht]|intros _; apply HQ].
  eapply guar_then; [apply (guar_tx (fun _ => True) P d d1); [exact Ht|]|].
  { intros se db x db' Hu Hsc Hg _ E. by apply (H1 se db x db'). }
  intros d2 [r1|e] Hd2; [intros Ht1|intros _; apply HQ].
  eapply guar_then; [apply (guar_tx P (fun _ => True) d d2); [exact Ht1|]|].
  { intros se db x db' Hu Hsc Hg HP E. split; [by eapply H2|done]. }
  intros d3 [r2|e] Hd3; [intros Ht2|intros _; apply HQ].
  assert (grows d d3) as Hd by (transitivity d1; [done|by transitivity d2]).
  eapply guar_then; [by eapply guar_commit|]. intros d4 c Hd4 _. apply Hk. by transitivity d3.
Qed.

Lemma guar_any {A} Q d (p : prog A) : guar Q d p -> guar any d p.
Proof. intros Hp. by apply (guar_impl _ _ G _ Q). Qed.

Lemma guar_pg_any {X} Q d (s : stmt X) : stmt_ok G Q d s -> guar any d (pg s).
Proof. intros Hs. by apply (guar_any (on_ok Q)), guar_pg. Qed.

Lemma guar_for_each {A} (l : list A) body :
  (forall d x, guar any d (body x)) -> forall d, guar any d (for_each l body).
Proof.
  intros Hb. induction l as [|x l IH]; intros d; [done|]. cbn [for_each].
  eapply guar_then; [apply Hb|]. intros d1 [] _ _. apply IH.
Qed.

Lemma guar_ticker_loop {A} (tk : prog A) :
  (forall d, guar any d tk) -> forall n d, guar any d (ticker_loop tk n).
Proof.
  intros Ht. induction n as [|n IH]; intros d; [done|]. cbn [ticker_loop].
  eapply guar_then; [by apply guar_db, keeps_action|]. intros d1 [|] _ _; [done|].
  eapply guar_then; [apply Ht|]. intros d2 r _ _. apply IH.
Qed.

Lemma guar_Run {A} i (tk : prog A) n d :
  (forall d, guar any d tk) -> guar any d (ticker_Run i tk n).
Proof. intros Ht. unfold ticker_Run. destruct (i <=? 0); [done|]. by apply guar_ticker_loop. Qed.
End statements.

(** A goroutine that leaves the accounts alone. *)
Lemma guar_updates `{GoEthereum} `{Postgres} {A} Q d (p : prog A) :
  guar schema grows updates Q d p -> guar schema grows grows Q d p.
Proof. intros Hp. eapply guar_impl; [exact Hp|apply updates_grows|done]. Qed.


Lemma deref_big_keeps {B} (g : world -> B) o : keeps g (deref_big o).
Proof. by destruct o. Qed.

(** ** The goroutines *)

(** The services of the handlers work on the key store. *)
Record handlers_on `{Environment} `{Host} `{GoEthereum} `{Postgres} (ks : Keystore) (h : Handlers) : Prop := {
  ho_apps apps : h_Apps h = Some apps -> as_keystore apps = generator_of ks;
  ho_relay s : h_Relay h = Some s -> svc_webhooks s = Some Enqueue /\
    sp_keystore (svc_pools s) = loader_of ks /\ sp_lister (svc_pools s) = appLister;
  ho_treasury svc : h_Treasury h = Some svc -> ts_keystore svc = loader_of ks;
}.

Lemma wire_handlers_on `{Environment} `{Host} `{GoEthereum} `{Postgres} cfg ks cl :
  handlers_on ks (sys_handlers (wire cfg ks cl)).
Proof. by split; intros ? [= <-]. Qed.

Section goroutines.
Context `{Env : Environment} `{HO : Host} `{Eth : GoEthereum} `{PG : Postgres} `{UUL : !UuidLaws}.
Context (ks : Keystore).
Context `{B : Binder}.
Abbreviation guar := (guar schema grows updates).

Lemma guar_Enqueue d rid : guar any d (Enqueue rid).
Proof.
  unfold Enqueue. eapply guar_then; [apply guar_view, GetRaw_view|].
  intros d1 [[[payload url] secret]|e] _ _; [|done]. destruct (_ || _); [done|].
  eapply guar_then; [eapply guar_pg_any, stmt_ok_insert_delivery|]. by intros ? [].
Qed.

(** *** Submit *)

Section submit.
Context (s : Service) (Hs : svc_webhooks s = Some Enqueue).

Lemma guar_fireWebhook d rid : guar any d (fireWebhook s rid).
Proof.
  unfold fireWebhook. rewrite Hs. eapply guar_then; [apply guar_Enqueue|done].
Qed.

Lemma guar_reject d rid : guar any d (markRequestStatus s rid RRejected).
Proof.
  unfold markRequestStatus. eapply guar_then; [by eapply guar_pg_any, stmt_ok_update_request|].
  intros d1 r _ _. destruct (_ && _); [|done].
  eapply guar_then; [apply guar_fireWebhook|done].
Qed.

Lemma guar_markSubmitted d rid aid : attempt_of rid d aid -> guar any d (markSubmitted rid aid).
Proof.
  intros Ha. unfold markSubmitted.
  apply (guar_txn2 (fun _ => True) any d _ (fun _ => update_request rid RSubmitted) (fun _ c => Ret c));
    [| |done..].
  - intros se db x db' Hu Hsc Hg E.
    by apply (stmt_ok_attempt_status d aid TSubmitted (or_introl eq_refl)) in E as [? _].
  - intros _. apply stmt_ok_after, stmt_ok_update_request. intros db u Hg Hsc Hu.
    destruct (attempt_of_grows _ _ _ _ Hg Ha) as (_ & t & Ht & Hr). rewrite Hu in Hr.
    injection Hr as ->. by exists aid, t.
Qed.

Lemma guar_rewind d p : guar any d (rewind_nonce_at p).
Proof. apply guar_outside, pool_action_outside. Qed.

Lemma guar_broadcast d inp v rid p sg gl gp : guar any d (broadcast s inp v rid p sg gl gp).
Proof.
  unfold broadcast. eapply guar_then; [apply guar_outside, pool_action_outside|].
  intros d1 nonce _ _. cbv zeta. destruct (SignTx _ _ _) as [stx|e].
  2:{ eapply guar_then; [apply guar_rewind|done]. }
  eapply guar_then; [apply guar_pg, stmt_ok_insert_attempt|].
  intros d2 [aid|e] _ Ha.
  2:{ eapply guar_then; [apply guar_rewind|done]. }
  eapply guar_then; [by apply guar_db, SendTransaction_keeps|].
  intros d3 [u|e] Hd3 _.
  - eapply guar_then; [apply guar_markSubmitted; by eapply attempt_of_grows|].
    intros d4 [u'|e] _ _; [|done].
    eapply guar_then; [apply guar_fireWebhook|done].
  - eapply guar_then; [apply guar_rewind|]. intros d4 [] _ _.
    eapply guar_then; [eapply guar_pg_any, stmt_ok_attempt_status; by right|done].
Qed.

Lemma guar_submitWith d inp v rid p : guar any d (submitWith s inp v rid p).
Proof.
  unfold submitWith. eapply guar_then; [apply guar_outside, deref_outside|]. intros d1 sg _ _.
  eapply guar_then; [apply guar_outside, gasLimitFor_outside|]. intros d2 [gl|e] _ _.
  2:{ eapply guar_then; [apply guar_reject|done]. }
  eapply guar_then; [by apply guar_db, rpc_keeps|]. intros d3 [gp|e] _ _.
  2:{ eapply guar_then; [apply guar_reject|done]. }
  apply guar_broadcast.
Qed.

Lemma guar_Submit `{KSF : KeystoreFrame} `{LSF : ListerFrame} d inp : guar any d (Submit s inp).
Proof.
  unfold Submit. destruct (negb _); [done|].
  eapply guar_then; [apply guar_outside, pastDeadline_outside|]. intros d1 [|] _ _; [done|].
  eapply guar_then; [apply guar_pg_any with (Q := fun _ rid => canonical rid)|].
  { apply stmt_ok_insert_request. }
  intros d2 [rid|e] _ _; [|done].
  eapply guar_then; [apply guar_outside, Load_outside|]. intros d3 [u|e] _ _.
  2:{ eapply guar_then; [apply guar_reject|done]. }
  eapply guar_then; [apply guar_outside, Checkout_outside|]. intros d4 [p|e] _ _.
  2:{ eapply guar_then; [apply guar_reject|done]. }
  eapply guar_then; [apply guar_submitWith|]. intros d5 r _ _.
  eapply guar_then; [apply guar_outside, Release_outside|done].
Qed.
End submit.

(** *** The watcher *)

Definition pending_ok (d : database) (p : pendingAttempt) : Prop :=
  attempt_of (pa_requestID p) d (pa_attemptID p) /\ canonical (pa_requestID p).

Lemma pending_ok_grows d d' p : grows d d' -> pending_ok d p -> pending_ok d' p.
Proof. intros Hg [Ha Hc]. split; [by eapply attempt_of_grows|done]. Qed.

Lemma pending_query_ok batch se db ps :
  schema db -> pending_query batch se db = Ok ps -> Forall (pending_ok db) ps.
Proof.
  intros Hsc. unfold pending_query. destruct (_ <? _); [done|]. intros [= <-].
  apply Forall_forall. intros p ([k t] & Hp & Hin)%list_elem_of_omap.
  apply elem_of_take in Hp as (i & Hi & _). apply list_elem_of_lookup_2 in Hi.
  unfold inflight_attempts in Hi. rewrite sort_by_elem in Hi. apply rows_where_elem in Hi as [Ht _].
  unfold join_request in Hin. destruct (db_requests db !! t_request_id t) as [r|] eqn:Er; [|done].
  injection Hin as <-. pose proof (sc_attempts _ Hsc k t Ht) as Ha.
  pose proof (ok_request_key _ _ _ (sc_requests _ Hsc _ _ Er)) as Hc. split; [|done].
  split; [apply Ha|]. exists t. by split.
Qed.

Lemma guar_record_outcome d p rc logs reason :
  pending_ok d p -> guar any d (record_outcome p rc logs reason).
Proof.
  intros [Ha Hc]. unfold record_outcome. destruct (rcpt_block_number rc) as [number|].
  2:{ eapply guar_then; [apply guar_begin|]. by intros d1 [t|e]. }
  cbn [deref_big bind]. apply (guar_txn2 (receipted_at (pa_attemptID p) (pa_requestID p)) any d _
    (fun _ => update_request (pa_requestID p) (outcome_of rc).2) (fun _ c => Ret c)); [| |done..].
  - by apply stmt_ok_update_receipt.
  - intros _ se db x db' Hu Hsc Hg HP E.
    apply (stmt_ok_update_request db) in E as [H _]; [done| |done|done|reflexivity].
    intros db1 u Hg1 _ Hu1. rewrite Hc in Hu1. injection Hu1 as <-.
    assert (has_such_attempt receipted db1 (pa_requestID p)) as Hr
      by (apply (receipted_grows db db1 Hg1); by eapply receipted_at_has).
    unfold outcome_of. by destruct (_ =? _).
Qed.

Lemma guar_process wt d p :
  wt_webhooks wt = Some Enqueue -> pending_ok d p -> guar any d (process wt p).
Proof.
  intros Hwt Hp. unfold process. eapply guar_then; [by apply guar_db, rpc_keeps|].
  intros d1 [rc|e] Hd1 _; [|by destruct (errors_Is _ _)].
  destruct (rcpt_logs_json rc) as [logs|e]; [|done].
  eapply guar_then; [apply guar_view|].
  { destruct (_ =? _); [apply fetchRevertReason_view|done]. }
  intros d2 reason Hd2 _. eapply guar_then; [apply guar_record_outcome|].
  { apply (pending_ok_grows d); [by transitivity d1|done]. }
  intros d3 [u|e] _ _; [|done]. rewrite Hwt.
  eapply guar_then; [apply guar_Enqueue|done].
Qed.

Lemma guar_process_all wt ps :
  wt_webhooks wt = Some Enqueue ->
  forall d n, Forall (pending_ok d) ps -> guar any d (process_all wt ps n).
Proof.
  intros Hwt. induction ps as [|p ps IH]; intros d n Hps; [done|].
  apply Forall_cons in Hps as [Hp Hps]. cbn [process_all].
  eapply guar_then; [by apply guar_process|]. intros d1 r Hd1 _.
  assert (Forall (pending_ok d1) ps).
  { eapply Forall_impl; [exact Hps|]. intros q. by apply pending_ok_grows. }
  destruct r; by apply IH.
Qed.

Lemma guar_tick wt d : wt_webhooks wt = Some Enqueue -> guar any d (tick wt).
Proof.
  intros Hwt. unfold tick.
  eapply guar_then; [apply guar_pg, (stmt_ok_select (fun db => Forall (pending_ok db)))|].
  { intros se db ps. apply pending_query_ok. }
  intros d1 [ps|e] _ Hps; [|done].
  eapply guar_then; [by apply guar_process_all|done].
Qed.

(** *** The delivery worker *)

Definition due_ok (d : pendingDelivery) : Prop := 0 <= pd_attempt d <= 4.

Lemma due_query_ok batch se db ds :
  schema db -> due_query batch se db = Ok ds -> Forall due_ok ds.
Proof.
  intros Hsc. unfold due_query. destruct (_ <? _); [done|]. intros [= <-].
  apply Forall_forall. intros d Hd. apply list_elem_of_In, in_map_iff in Hd as ([k r] & <- & Hin).
  apply list_elem_of_In, elem_of_take in Hin as (i & Hi & _). apply list_elem_of_lookup_2 in Hi.
  apply due_deliveries_elem in Hi as (Hk & Hst & _). apply (sc_deliveries _ Hsc) in Hk as [_ _ H0 H4].
  unfold due_ok. cbn. destruct (decide _); [lia|done].
Qed.

Lemma guar_recordFailure d dl code msg : due_ok dl -> guar any d (recordFailure dl code msg).
Proof.
  unfold due_ok, recordFailure. intros Hd. cbv zeta.
  destruct (Z.leb_spec (Z.of_nat (length BackoffSchedule) + 1) (pd_attempt dl + 1)) as [Hle|Hlt];
    change (Z.of_nat (length BackoffSchedule)) with 4 in *.
  { apply (guar_pg_any any), stmt_ok_dead. lia. }
  eapply guar_then; [by apply guar_db, time_Now_keeps|]. intros d1 now _ _.
  case_match; [|done]. apply (guar_pg_any any), stmt_ok_retry. lia.
Qed.

Lemma guar_deliver d dl : due_ok dl -> guar any d (deliver dl).
Proof.
  intros Hd. unfold deliver. destruct (http_NewRequest _ _ _ _); [|by apply guar_recordFailure].
  eapply guar_then; [by apply guar_db, http_Do_keeps|].
  intros d1 [resp|e] _ _; [|by apply guar_recordFailure].
  destruct (_ && _); [|by apply guar_recordFailure]. apply (guar_pg_any any), stmt_ok_delivered.
Qed.

Lemma guar_deliver_all ds : Forall due_ok ds -> forall d n, guar any d (deliver_all ds n).
Proof.
  induction 1 as [|dl ds Hd Hds IH]; intros d n; [done|]. cbn [deliver_all].
  eapply guar_then; [by apply guar_deliver|]. intros d1 r _ _. apply IH.
Qed.

Lemma guar_webhook_tick d batch : guar any d (webhook_tick batch).
Proof.
  unfold webhook_tick.
  eapply guar_then; [apply guar_pg, (stmt_ok_select (fun _ => Forall due_ok))|].
  { intros se db ds. apply due_query_ok. }
  intros d1 [ds|e] _ Hds; [|done].
  eapply guar_then; [by apply guar_deliver_all|done].
Qed.

(** *** The gas worker *)

Lemma guar_refill_all wk p key gp signers : forall d n, guar any d (refill_all wk p key gp signers n).
Proof.
  induction signers as [|s signers IH]; intros d n; [done|]. cbn [refill_all].
  eapply guar_then; [apply guar_select|]. intros d1 [[|]|e] _ _; [apply IH| |apply IH].
  eapply guar_then; [by apply guar_db, rpc_keeps|]. intros d2 [bal|e] _ _; [|apply IH].
  eapply guar_then; [apply guar_db, deref_big_keeps|]. intros d3 min _ _.
  destruct (_ <=? _); [apply IH|]. eapply guar_then; [apply (guar_any any)|].
  { unfold refill. cbv zeta. destruct (SignTx _ _ _) as [stx|e]; [|done].
    eapply guar_then; [by apply guar_db, SendTransaction_keeps|]. intros d4 [u|e] _ _; [|done].
    eapply guar_then; [apply (guar_pg_any any), stmt_ok_insert_gas|done]. }
  intros d4 [u|e] _ _; apply IH.
Qed.

Lemma guar_processApp wk p d :
  @KeystoreFrame (gw_keystore wk) -> (forall a, keeps w_db (gw_notifier wk a)) -> guar any d (processApp wk p).
Proof.
  intros Hk Hn. unfold processApp.
  eapply guar_then; [by apply guar_db, rpc_keeps|]. intros d1 [tb|e] _ _; [|done].
  eapply guar_then; [apply guar_db, deref_big_keeps|]. intros d2 tm _ _.
  eapply guar_then; [apply guar_db; by destruct (_ && _)|]. intros d3 r _ _.
  eapply guar_then; [apply guar_view|].
  { apply keeps_bind; [apply pg_select_view|]. by intros [rows|e]. }
  intros d4 [[|s ss]|e] _ _; [done| |done].
  eapply guar_then; [apply guar_view, ks_Load_view|]. intros d5 [k|e] _ _; [|done].
  eapply guar_then; [by apply guar_db, rpc_keeps|]. intros d6 [n|e] _ _; [|done].
  eapply guar_then; [by apply guar_db, rpc_keeps|]. intros d7 [gp|e] _ _; [|done].
  eapply guar_then; [apply guar_refill_all|done].
Qed.

Lemma guar_gas_tick wk d :
  @KeystoreFrame (gw_keystore wk) -> (forall a, keeps w_db (gw_notifier wk a)) -> guar any d (gas_tick wk).
Proof.
  intros Hk Hn. unfold gas_tick. eapply guar_then; [apply guar_select|].
  intros d1 [apps|e] _ _; [|done]. eapply guar_then; [apply guar_for_each|done].
  intros d2 p. eapply guar_then; [by apply guar_processApp|done].
Qed.

(** *** Create *)

Lemma guar_Create `{KGF : GeneratorFrame} d inp : Interleave.guar schema grows grows any d (Create inp).
Proof.
  unfold Create. cbv zeta. destruct (String.eqb_spec (TrimSpace (ci_Name inp)) "") as [|Hn]; [done|].
  destruct (Z.ltb_spec (ci_PoolSize inp) minPoolSize), (Z.ltb_spec maxPoolSize (ci_PoolSize inp));
    cbn [orb]; try done.
  destruct (validateGasPolicy _ _); [|done].
  eapply guar_then; [apply guar_view, ks_Generate_view|]. intros d1 [tr|e] _ _; [|done].
  eapply guar_then; [apply guar_view, generate_signers_view|]. intros d2 [sg|e] _ _; [|done].
  eapply guar_then; [apply guar_view, newBearerToken_view|]. intros d3 [th|e] _ _; [|done].
  eapply guar_then; [apply guar_view, callback_secret_view|]. intros d4 [sec|e] _ _; [|done].
  eapply guar_then; [ |by intros ? []].
  unfold insert. apply (guar_txn2 (fun _ => True) any d4 _ (copy_signers sg)
    (fun app c => match c with Ok _ => Ret (Ok app) | Err e => Ret (Err e) end)).
  - intros se db x db' Hu Hsc Hg E. by apply (stmt_ok_insert_app d4) in E as [? _].
  - intros app. apply stmt_ok_after, stmt_ok_copy_signers.
  - by intros app [] d' _.
  - done.
Qed.

(** *** The API *)

Lemma guar_bearerAuth d next rq :
  (forall d' id, guar any d' (next id)) -> guar any d (bearerAuth next rq).
Proof.
  intros Hn. unfold bearerAuth. destruct (extractBearerToken _) as [tok|e]; [|done].
  eapply guar_then; [apply guar_view|].
  { unfold Authenticate. destruct (String.eqb _ _); [done|].
    apply keeps_bind; [apply pg_select_view|]. intros [?|e]; [done|]. by destruct (errors_Is _ _). }
  intros d1 [id|e] _ _; [|by destruct (errors_Is _ _)]. destruct (id_Disabled id); [done|]. apply Hn.
Qed.

Lemma guar_createApp apps d rq :
  @GeneratorFrame (as_keystore apps) -> Interleave.guar schema grows grows any d (createApp apps rq).
Proof.
  intros Hg. unfold createApp. destruct (Bind_createApp rq) as [req|e]; [|done].
  eapply (guar_then (G := grows)); [apply guar_Create|]. by intros ? [].
Qed.

Lemma sweepTreasury_db h id rq c : handlers_on ks h -> keeps w_db (sweepTreasury h id rq c).
Proof.
  intros Hh. unfold sweepTreasury. destruct (negb _); [done|].
  destruct (h_Treasury h) as [svc|] eqn:Et; [|done]. pose proof (ho_treasury _ _ Hh _ Et) as Hk.
  destruct (Bind_sweep rq) as [req|e]; [|done]. destruct (negb _); [done|].
  destruct (sweep_value _) as [v|]; [|done]. apply keeps_bind; [|intros [?|e]; [done|by destruct (errors_Is _ _)]].
  unfold Sweep. rewrite Hk. apply keeps_bind; [apply pg_select_keeps|]. intros [t|e]; [|by destruct (errors_Is _ _)].
  cbv zeta. apply keeps_bind; [apply keeps_view_db, Load_view|]. intros [k|e]; [|done].
  apply keeps_bind; [by apply rpc_keeps|]. intros [n|e]; [|done].
  apply keeps_bind; [by apply rpc_keeps|]. intros [gp|e]; [|done].
  apply keeps_bind; [apply keeps_view_db, sweep_amount_view|]. intros [am|e]; [|done].
  destruct (SignTx _ _ _); [|done]. apply keeps_bind; [by apply SendTransaction_keeps|]. by intros [?|?].
Qed.

(** Every other endpoint leaves the accounts alone. *)
Lemma guar_serve_updates h ep rq d :
  handlers_on ks h -> ep <> POST_apps -> guar any d (serve h ep rq).
Proof.
  intros Hh Hep. destruct ep as [| |id|id|id| |rid]; cbn [serve]; try done; destruct (h_Apps h); try done.
  - apply guar_bearerAuth. intros d' c. apply guar_view, listSigners_view.
  - apply guar_bearerAuth. intros d' c. apply guar_view, getBalances_view.
  - destruct (h_Treasury h) as [cl|]; [|done]. apply guar_bearerAuth. intros d1 caller.
    by apply guar_db, sweepTreasury_db.
  - destruct (h_Relay h) as [s|] eqn:Er; [|done]. apply guar_bearerAuth. intros d' c.
    destruct (ho_relay _ _ Hh _ Er) as (Hw & Hk & Hl).
    unfold postRelay. rewrite Hk, Hl. destruct (relay_input _ _) as [msg|inp]; [done|].
    eapply guar_then; [by apply (guar_Submit _ Hw (KSF := loader_frame ks) (LSF := appListerFrame))|].
    intros ? [res|e] _ _; [done|]. by destruct (_ || _).
  - destruct (h_Relay h) as [s|]; [|done]. apply guar_bearerAuth. intros d' c. apply guar_db.
    unfold getRelay, Get. solve_keeps.
Qed.

Lemma guar_serve h ep rq d :
  handlers_on ks h -> Interleave.guar schema grows grows any d (serve h ep rq).
Proof.
  intros Hh. assert (ep = POST_apps \/ ep <> POST_apps) as [->|Hep] by (destruct ep; auto).
  - cbn [serve]. destruct (h_Apps h) as [apps|] eqn:E; [|done]. apply guar_createApp.
    rewrite (ho_apps _ _ Hh _ E). apply generator_frame.
  - by apply guar_updates, guar_serve_updates.
Qed.
End goroutines.

(** ** The system *)

(** The goroutines of a started system: one per request, and the three
    workers. *)
Inductive process_starts `{Environment} `{GoEthereum} `{Postgres} `{Binder} (s : system) : prog unit -> Prop :=
| starts_request ep rq : process_starts s (do! NewRouter (sys_handlers s) ep rq in Ret tt)
| starts_watcher n : process_starts s (Watcher_Run (sys_watcher s) n)
| starts_deliveries n : process_starts s (WebhookWorker_Run (sys_webhook s) n)
| starts_gas n : process_starts s (GasWorker_Run (sys_gas s) n).

(** Nobody else writes to the database; the chain, the clock and the disk go
    on. *)
Definition same_db (w w' : world) : Prop := w_db w' = w_db w.

Section process.
Context `{Env : Environment} `{HO : Host} `{Eth : GoEthereum} `{PG : Postgres} `{UUL : !UuidLaws}.
Context `{B : Binder} (cfg : Config) (ks : Keystore) (cl : Client).
Abbreviation sys := (wire cfg ks cl).

Definition process_reachable : world -> config -> Prop := reachable (process_starts sys) same_db reboot.

Lemma process_guar p : process_starts sys p -> forall d, guar schema grows grows (fun _ _ => True) d p.
Proof.
  intros [ep rq|n|n|n] d; [|apply guar_updates..].
  - eapply (guar_then (G := grows)); [apply guar_recovered, (guar_serve ks), wire_handlers_on|done].
  - apply guar_Run. intros d'. by apply guar_tick.
  - apply guar_Run. intros d'. apply guar_webhook_tick.
  - apply guar_Run. intros d'. apply guar_gas_tick; [apply loader_frame|].
    intros a. by apply buildNotifier_keeps.
Qed.

Lemma process_step w w' : same_db w w' -> schema (w_db w) -> schema (w_db w') /\ grows (w_db w) (w_db w').
Proof. unfold same_db. intros -> Hsc. split; [done|reflexivity]. Qed.

(** C5 The tables are well-formed in every state the process can reach, whatever
    its goroutines interleave, the outside answers, and wherever it crashes and
    restarts: references resolve, keys are canonical, stored addresses and hashes
    are printed ones, unique columns are unique, pools have between 1 and 1024
    signers, a settled attempt carries its receipt, a confirmed or reverted request
    has an attempt with a receipt and a submitted one an attempt, a pending delivery
    has at most four attempts, and no request is ever marked failed. *)
Theorem tables_well_formed w0 c :
  schema (w_db w0) -> process_reachable w0 c -> schema (w_db c.1).
Proof.
  intros H0 Hr.
  apply (guarded_reachable schema grows (process_starts sys) same_db reboot process_step
    (fun _ => eq_refl) process_guar w0 c H0 Hr).
Qed.

(** C6 The record is append-only: between any two states of a run, with crashes,
    no row of any table is lost; apps, signers and top-ups are never altered; a
    request changes only in its status and [updated_at]; an attempt keeps its
    request, signer, nonce, hash, price and time, and once recorded its receipt is
    never dropped; a delivery keeps its request, URL, payload and signature. *)
Theorem records_append_only w0 c c' :
  schema (w_db w0) -> process_reachable w0 c -> rtc (sys_step (process_starts sys) same_db reboot) c c' ->
  grows (w_db c.1) (w_db c'.1).
Proof.
  apply (guarded_later schema grows (process_starts sys) same_db reboot process_step
    (fun _ => eq_refl) process_guar).
Qed.
End process.

(** ** Witnesses *)

Module ProcessDemo.
Import RefEnv KeystoreDemo MainDemo.

(** Request bodies that are already decoded. *)
#[local] Instance demoBinder : Binder := {
  Bind_createApp _ := Ok (MkCreateAppRequest "shop" 2 "" "" "" "");
  Bind_relay _ := Err (EText "not used");
  Bind_sweep _ := Err (EText "not used");
}.
Abbreviation demo_cl := (MkClient 146).

Definition demo_request : prog unit :=
  let s := wire demo_cfg demo_ks demo_cl in
  do! NewRouter (sys_handlers s) POST_apps (HttpIn "" "{}") in Ret tt.

Definition demo_created : world :=
  match run demo_request empty_world with Done _ w | Panicked _ w | Blocked w => w end.

Lemma demo_created_run : run demo_request empty_world = Done tt demo_created.
Proof. vm_compute. reflexivity. Qed.

Example demo_created_rows :
  (size (db_apps (w_db demo_created)), size (db_signers (w_db demo_created)),
   size (w_files demo_created)) = (1, 2, 3)%nat.
Proof. vm_compute. reflexivity. Qed.

Lemma demo_reaches : process_reachable demo_cfg demo_ks demo_cl empty_world (demo_created, [Ret tt]).
Proof.
  eapply reachable_spawn; [apply rtc_refl|apply (starts_request _ POST_apps (HttpIn "" "{}"))|].
  exact demo_created_run.
Qed.

Lemma tables_well_formed_witness : schema (w_db demo_created).
Proof.
  exact (tables_well_formed demo_cfg demo_ks demo_cl empty_world (demo_created, [Ret tt])
    schema_empty demo_reaches).
Defined.

Lemma records_append_only_witness : grows empty_db (w_db demo_created).
Proof.
  exact (records_append_only demo_cfg demo_ks demo_cl empty_world (empty_world, []) (demo_created, [Ret tt])
    schema_empty (rtc_refl _ _) demo_reaches).
Defined.
End ProcessDemo.
