(* ===== verification/Accounts.v ===== *)
(** * The accounts of the process

    Who holds which key.  The invariant of the relay ([System]) is joined with the
    well-formedness of the tables ([Schema]) and with what connects key files,
    tables and chain: every account that is registered has its key on disk, a
    treasury is no signer, a key that is being made belongs to one goroutine, and
    only registered accounts have sent transactions.  The ghost state of a
    goroutine is extended accordingly, and lemmas lift what was proved in the two
    program logics to the joint invariant. *)

From Stdlib Require Import ZArith Lia.
From S2P Require Import Prelude GoLib Json Eth Database World Chain.
From S2P Require Import FileSystem Keystore KeystoreSafety.
From S2P Require Import SignerPool RefEnv AppService RelayService RelayStatus Watcher Webhook Alert.
From S2P Require Import Gas Treasury Api Config Interleave System SystemSteps Concurrent Schema Main Process.

Local Open Scope Z_scope.
Local Open Scope txmill_scope.

(** ** Generated keys *)

(** The addresses of the keys generated so far. *)
Fixpoint made_keys `{Host} `{GoEthereum} (h : history) : list address :=
  match h with
  | [] => []
  | EvGenerateKey :: h' =>
      match env_GenerateKey h' with
      | Ok k => PubkeyToAddress k :: made_keys h'
      | Err _ => made_keys h'
      end
  | _ :: h' => made_keys h'
  end.

(** A generated key is new: its address is neither that of a key generated
    before nor one of those that were there from the start. *)
Class FreshKeys `{Host} `{GoEthereum} (old : list address) := {
  fresh_key h k : env_GenerateKey h = Ok k -> PubkeyToAddress k ∉ old ++ made_keys h;
}.

(** ** Ghost states *)

(** The key a goroutine is making: generated, or written to its temporary
    file. *)
Inductive making :=
| MNone
| MKey (a : address)
| MFile (a : address) (data : string).

Definition making_key (m : making) : list address :=
  match m with MNone => [] | MKey a | MFile a _ => [a] end.

(** What a goroutine of the process knows: its state in the relay, the keys it
    has saved and not yet registered, the one it is making, and an earlier state
    of the tables. *)
Record ghost := Ghost {
  gh_local : local;
  gh_saved : list address;
  gh_making : making;
  gh_seen : database;
}.

Definition owned_keys (g : ghost) : list address := gh_saved g ++ making_key (gh_making g).
Definition at_local (l : local) (g : ghost) : ghost := Ghost l (gh_saved g) (gh_making g) (gh_seen g).
Definition at_seen (d : database) (g : ghost) : ghost := Ghost (gh_local g) (gh_saved g) (gh_making g) d.
Definition fresh_ghost : ghost := Ghost LFree [] MNone empty_db.

Section accounts.
Context `{HO : Host} `{Eth : GoEthereum} `{PG : Postgres} (base : address -> Z).
Context (ks : Keystore) (old : list address).

Definition account (db : database) (a : address) : Prop :=
  is_signer (db_signers db) a \/ is_treasury (db_apps db) a.

Definition known (w : world) (a : address) : Prop := a ∈ old ++ made_keys (w_hist w).

Definition saved (files : gmap string string) (a : address) : Prop :=
  exists priv, holds_key ks files a priv.

Definition making_ok (files : gmap string string) (m : making) : Prop :=
  match m with
  | MNone | MKey _ => True
  | MFile a data =>
      files !! (path ks a +:+ ".tmp") = Some data /\
      exists priv, open_file (ks_password ks) data a = Some (Ok priv)
  end.

(** Keys, files and tables. *)
Record keys_inv (w : world) (gs : list ghost) : Prop := {
  k_known a : account (w_db w) a -> known w a;
  k_apart a : is_treasury (db_apps (w_db w)) a -> ~ is_signer (db_signers (w_db w)) a;
  k_files a : account (w_db w) a -> saved (w_files w) a;
  k_owned : NoDup (gs ≫= owned_keys);
  k_new a : a ∈ gs ≫= owned_keys -> known w a /\ ~ account (w_db w) a;
  k_saved a : a ∈ gs ≫= gh_saved -> saved (w_files w) a;
  k_making : Forall (fun g => making_ok (w_files w) (gh_making g)) gs;
}.

Record process_inv (w : world) (gs : list ghost) : Prop := {
  p_relay : Inv base (safe_files ks) w (gh_local <$> gs);
  p_schema : schema (w_db w);
  p_keys : keys_inv w gs;
  p_seen : Forall (fun g => grows (gh_seen g) (w_db w)) gs;
}.

Definition process_waits (w : world) (g : ghost) : Prop := waits w (gh_local g).
Definition process_idle (g : ghost) : Prop := idle (gh_local g).

(** ** Structure *)

Lemma grows_empty db : grows empty_db db.
Proof. split; intros k v H; cbn in H; by rewrite lookup_empty in H. Qed.

Lemma process_perm w gs gs' : gs ≡ₚ gs' -> process_inv w gs -> process_inv w gs'.
Proof.
  intros Hp [Hr Hs [K1 K2 K3 K4 K5 K6 K7] Hd]. split; [|done| |by rewrite <- Hp].
  - eapply Inv_perm; [|exact Hr]. by rewrite Hp.
  - split; try done; [by rewrite <- Hp| | |by rewrite <- Hp].
    + intros a. rewrite <- Hp. apply K5.
    + intros a. rewrite <- Hp. apply K6.
Qed.

Lemma process_free w gs : process_inv w gs -> process_inv w (fresh_ghost :: gs).
Proof.
  intros [Hr Hs [] Hd]. split; [by apply Inv_free|done| |constructor; [apply grows_empty|done]].
  split; try done. by constructor.
Qed.

Lemma process_unfree w g gs : process_idle g -> process_inv w (g :: gs) -> process_inv w gs.
Proof.
  intros Hi [Hr Hs [K1 K2 K3 K4 K5 K6 K7] Hd]. split; [by eapply Inv_unfree|done| |by inversion Hd].
  simpl in *. split; try done.
  - by apply NoDup_app in K4 as (_ & _ & ?).
  - intros a Ha. apply K5, elem_of_app. by right.
  - intros a Ha. apply K6, elem_of_app. by right.
  - by inversion K7.
Qed.

Lemma process_crash w gs : process_inv w gs -> process_inv (reboot w) [].
Proof.
  intros [Hr Hs [] Hd]. split; [by eapply Inv_crash|done| |constructor].
  split; try done; try apply NoDup_nil_2; by intros a ?%not_elem_of_nil.
Qed.

(** A goroutine that holds no signer may start over. *)
Lemma process_renew w g gs : process_idle g -> process_inv w (g :: gs) -> process_inv w (fresh_ghost :: gs).
Proof. intros Hi Hinv. by eapply process_free, process_unfree. Qed.

(** ** One step of a goroutine *)

(** What the accounts and their keys depend on. *)
Definition store (w : world) : gmap string string * list address := (w_files w, made_keys (w_hist w)).

Definition same_work (g g' : ghost) : Prop := gh_saved g' = gh_saved g /\ gh_making g' = gh_making g.

Lemma keys_same w w' g g' gs :
  store w' = store w -> db_apps (w_db w') = db_apps (w_db w) ->
  db_signers (w_db w') = db_signers (w_db w) -> same_work g g' ->
  keys_inv w (g :: gs) -> keys_inv w' (g' :: gs).
Proof.
  intros [= Ef Em] Ea Es. destruct g as [l sv m d], g' as [l' sv' m' d']. intros [H1 H2] [K1 K2 K3 K4 K5 K6 K7].
  cbn in H1, H2. subst sv' m'.
  split; unfold account, known, saved; rewrite ?Ef, ?Em, ?Ea, ?Es; try done.
  by inversion K7; constructor.
Qed.

Lemma seen_grows w w' gs :
  grows (w_db w) (w_db w') -> Forall (fun g => grows (gh_seen g) (w_db w)) gs ->
  Forall (fun g => grows (gh_seen g) (w_db w')) gs.
Proof. intros Hg H. eapply Forall_impl; [exact H|]. intros g Hd. by transitivity (w_db w). Qed.
End accounts.

(** ** Programs of a goroutine *)

Section programs.
Context `{Env : Environment} `{HO : Host} `{Eth : GoEthereum} `{PG : Postgres}.
Context `{HL : !HostLaws} `{EL : !GoEthereumLaws} `{UUL : !UuidLaws} `{NA : !NodeAccepts}.
Context (base : address -> Z) (ks : Keystore) (old : list address) `{FK : !FreshKeys old}.
(** what a panic of a goroutine must be due to, in the tables it has seen *)
Context (panics : ghost -> Prop).

Abbreviation Relay := (System.Inv base (safe_files ks)).
Abbreviation process_inv := (process_inv base ks old).
Abbreviation okp := (Interleave.okp process_inv process_waits panics).
Abbreviation guar := (guar schema grows updates).

(** Tables that have grown; the rest of the ghost state as before. *)
Definition later (g g' : ghost) : Prop :=
  gh_local g' = gh_local g /\ same_work g g' /\ grows (gh_seen g) (gh_seen g').

#[local] Instance later_preorder : PreOrder later.
Proof.
  split; [by intros g|]. intros g1 g2 g3 (L1 & [S1 M1] & G1) (L2 & [S2 M2] & G2).
  split; [congruence|]. split; [split; congruence|by transitivity (gh_seen g2)].
Qed.

(** A step that leaves accounts and keys alone. *)
Lemma process_updates w w' g gs l :
  process_inv w (g :: gs) -> Relay w' (l :: (gh_local <$> gs)) -> schema (w_db w') ->
  updates (w_db w) (w_db w') -> store w' = store w ->
  process_inv w' (Ghost l (gh_saved g) (gh_making g) (w_db w') :: gs).
Proof.
  intros [Hr Hs Hk Hd] Hr' Hs' (Hg & Ea & Es) Est. split; [done|done| |].
  - eapply keys_same; [exact Est|exact Ea|exact Es| |exact Hk]. by split.
  - apply Forall_cons in Hd as [_ Hd]. constructor; [reflexivity|by eapply seen_grows].
Qed.

(** What was proved of a program in the logic of the relay and on the tables
    holds in the process. *)
Lemma okp_lift {A} (P : Prop) (fin : local -> A -> Prop) (Q : database -> A -> Prop) g (p : prog A) :
  (forall g', P -> panics g') ->
  Interleave.okp Relay waits (fun _ => P) fin (gh_local g) p -> guar Q (gh_seen g) p -> keeps store p ->
  okp (fun g' a => fin (gh_local g') a /\ Q (gh_seen g') a /\ same_work g g') g p.
Proof.
  intros HP. revert g. induction p as [a|m|X f k IH]; intros g Hp Hq Hk; cbn in *; [done|by apply HP|].
  intros w rest Hinv. destruct Hk as [Hf Hk].
  destruct (Hp w _ (p_relay _ _ _ _ _ Hinv)) as [Hwait Hnext]. split; [done|].
  intros x w' E. destruct (Hnext x w' E) as (l & Hr & Hok).
  pose proof (p_seen _ _ _ _ _ Hinv) as Hd. apply Forall_cons in Hd as [Hd _].
  destruct (Hq w x w' (p_schema _ _ _ _ _ Hinv) Hd E) as (Hs & Hu & Hg).
  eexists. split; [eapply process_updates; [exact Hinv|exact Hr|exact Hs|exact Hu|by eapply Hf]|].
  apply (IH x (Ghost l (gh_saved g) (gh_making g) (w_db w'))); [exact Hok|exact Hg|apply Hk].
Qed.

(** What a goroutine may rely on in every world it acts in. *)
Definition sane (w : world) : Prop := schema (w_db w) /\ safe_files ks (w_files w).

(** Programs the relay does not see. *)
Lemma okp_calm {A} (P : A -> Prop) (Q : database -> A -> Prop) g (p : prog A) :
  keeps seen p -> keeps store p -> total_on sane p -> rets P p -> guar Q (gh_seen g) p ->
  okp (fun g' a => later g g' /\ P a /\ Q (gh_seen g') a) g p.
Proof.
  intros Hsee Hst. revert g. induction p as [a|m|X f k IH]; intros g Ht Hr Hq; cbn in *; [done..|].
  destruct Hsee as [Hse Hsee], Hst as [Hst Hsto]. intros w rest Hinv.
  pose proof (p_seen _ _ _ _ _ Hinv) as Hd. apply Forall_cons in Hd as [Hd _].
  pose proof (p_schema _ _ _ _ _ Hinv) as Hsc. pose proof (p_relay _ _ _ _ _ Hinv) as Hre.
  destruct (Ht w (conj Hsc (I_files _ _ _ _ _ _ _ Hre))) as [Hn Hs]. split.
  { intros E. by apply Hn in E. }
  intros x w' E. destruct (Hq w x w' Hsc Hd E) as (Hs' & Hu & Hg).
  eexists. split.
  { eapply process_updates; [exact Hinv|eapply Inv_seen; [by eapply Hse|exact Hre]|done|done|by eapply Hst]. }
  eapply okp_impl; [apply (IH x); [apply Hsee|apply Hsto|by eapply Hs|apply Hr|exact Hg]|].
  intros g' a ((L & [S M] & G) & H). split; [|done]. split; [done|]. split; [done|]. cbn in *.
  transitivity (w_db w); [done|]. transitivity (w_db w'); [by apply updates_grows|done].
Qed.

(** ** Making a key *)

Definition set_making (m : making) (g : ghost) : ghost := Ghost (gh_local g) (gh_saved g) m (gh_seen g).
Definition save (a : address) (g : ghost) : ghost :=
  Ghost (gh_local g) (gh_saved g ++ [a]) MNone (gh_seen g).

Abbreviation tmp a := (path ks a +:+ ".tmp").

Lemma process_log e w gs :
  sent_log (e :: w_hist w) = sent_log (w_hist w) ->
  made_keys (e :: w_hist w) = made_keys (w_hist w) -> process_inv w gs -> process_inv (log e w) gs.
Proof.
  intros Ha Hm [Hr Hs [K1 K2 K3 K4 K5 K6 K7] Hd]. split; try done.
  - eapply Inv_seen; [|exact Hr]. unfold seen. cbn [log w_pool w_db w_hist w_files]. by rewrite Ha.
  - split; try done; unfold known in *; cbn [log w_db w_hist]; by rewrite Hm.
Qed.

(** The files change at the key that is being made. *)
Lemma keys_files w files g g' gs a :
  keys_inv ks old w (g :: gs) -> making_key (gh_making g) = [a] ->
  (forall p, p <> tmp a -> p <> path ks a -> files !! p = w_files w !! p) ->
  (files !! path ks a = w_files w !! path ks a \/ saved ks files a) ->
  owned_keys g' `sublist_of` owned_keys g ->
  (forall b, b ∈ gh_saved g' -> b ∈ gh_saved g \/ (b = a /\ saved ks files a)) ->
  making_ok ks files (gh_making g') ->
  keys_inv ks old (set_files files w) (g' :: gs).
Proof.
  intros [K1 K2 K3 K4 K5 K6 K7] Hm Hsame Ha Hsub Hsv Hmk.
  assert (forall b, saved ks (w_files w) b -> saved ks files b) as Hkeep.
  { intros b (priv & data & Hd & Ho). destruct (decide (b = a)) as [->|Hne].
    - destruct Ha as [E|H]; [|done]. exists priv, data. by rewrite E.
    - exists priv, data. rewrite Hsame; [done| |].
      + intros E. by apply (tmp_not_path ks a b).
      + intros E. by apply path_inj in E. }
  assert (owned_keys g' ++ (gs ≫= owned_keys) `sublist_of` owned_keys g ++ (gs ≫= owned_keys)) as Hs2
    by by apply sublist_app.
  split; cbn in *; try done.
  - intros b Hb. by apply Hkeep, K3.
  - by eapply sublist_NoDup.
  - intros b Hb. apply K5. by eapply elem_of_sublist.
  - intros b [Hb|Hb]%elem_of_app.
    + destruct (Hsv b Hb) as [H|[-> H]]; [|done]. apply Hkeep, K6, elem_of_app. by left.
    + apply Hkeep, K6, elem_of_app. by right.
  - apply Forall_cons in K7 as [_ K7]. constructor; [done|].
    rewrite Forall_forall in K7 |- *. intros x Hx. specialize (K7 x Hx).
    destruct (gh_making x) as [|b|b data] eqn:Ex; try done. destruct K7 as [Hd Ho]. split; [|done].
    assert (b <> a) as Hne.
    { intros ->. apply NoDup_app in K4 as (_ & Hdis & _). apply (Hdis a).
      - unfold owned_keys. rewrite Hm. apply elem_of_app. right. by left.
      - apply list_elem_of_bind. exists x. split; [|done]. unfold owned_keys. rewrite Ex. apply elem_of_app. right. by left. }
    rewrite Hsame; [done| |].
    + intros E. apply sapp_inj_r, path_inj in E; done.
    + by apply tmp_not_path.
Qed.

Lemma process_files w files g g' gs a :
  process_inv w (g :: gs) -> making_key (gh_making g) = [a] ->
  (forall p, p <> tmp a -> p <> path ks a -> files !! p = w_files w !! p) ->
  (files !! path ks a = w_files w !! path ks a \/ saved ks files a) ->
  owned_keys g' `sublist_of` owned_keys g ->
  (forall b, b ∈ gh_saved g' -> b ∈ gh_saved g \/ (b = a /\ saved ks files a)) ->
  making_ok ks files (gh_making g') -> gh_local g' = gh_local g -> gh_seen g' = gh_seen g ->
  process_inv (set_files files w) (g' :: gs).
Proof.
  intros [Hr Hs Hk Hd] Hm Hsame Ha Hsub Hsv Hmk El Ed. split; [|done|by eapply keys_files|].
  - cbn in *. rewrite El. apply (InvP_files base (around_of (safe_files ks) w)); [|done|exact Hr]. cbn. apply safe_files_kept.
    intros b. destruct (decide (b = a)) as [->|Hne]; [destruct Ha as [H|H]; [by left|by right]|].
    left. apply Hsame; [|intros E; by apply path_inj in E].
    intros E. by apply (tmp_not_path ks a b).
  - apply Forall_cons in Hd as [Hd Hd2]. constructor; [|done]. by rewrite Ed.
Qed.

Lemma okp_GenerateKey g :
  gh_making g = MNone ->
  okp (fun g' r => match r with
        | Ok k => ToECDSA (FromECDSA k) = Ok k /\ g' = set_making (MKey (PubkeyToAddress k)) g
        | Err _ => g' = g
        end) g crypto_GenerateKey.
Proof.
  intros Hm. apply okp_action. intros w rest Hinv. cbn [fst snd].
  destruct (env_GenerateKey (w_hist w)) as [k|e] eqn:E.
  2:{ exists g. split; [|done]. apply process_log; [done|cbn; by rewrite E|done]. }
  eexists. split; [|split; [by eapply GenerateKey_exports|done]].
  destruct Hinv as [Hr Hs [K1 K2 K3 K4 K5 K6 K7] Hd].
  assert (made_keys (w_hist (log EvGenerateKey w)) = PubkeyToAddress k :: made_keys (w_hist w)) as Em
    by (cbn; by rewrite E).
  assert (forall a, known old w a -> known old (log EvGenerateKey w) a) as Hkn.
  { intros a. unfold known. rewrite Em, !elem_of_app, elem_of_cons. tauto. }
  assert (forall a, known old w a -> a <> PubkeyToAddress k) as Hne.
  { intros a Ha ->. by apply (fresh_key _ _ E). }
  assert (owned_keys g = gh_saved g) as Eo by (unfold owned_keys; by rewrite Hm, app_nil_r).
  simpl in K4, K5. rewrite Eo in K4, K5.
  assert (PubkeyToAddress k ∉ gh_saved g ++ (rest ≫= owned_keys)) as Hfresh.
  { intros Hin. destruct (K5 _ Hin) as [Hk _]. by apply (Hne _ Hk). }
  split; [done|done| |by inversion Hd; constructor].
  split; try done; [by auto| | |by inversion K7; constructor]; simpl;
    change (owned_keys _) with (gh_saved g ++ [PubkeyToAddress k]); rewrite <- app_assoc; simpl.
  - by rewrite <- Permutation_middle, NoDup_cons.
  - intros a. rewrite <- Permutation_middle. intros [->|Ha]%elem_of_cons.
    + split; [unfold known; rewrite Em, elem_of_app, elem_of_cons; tauto|]. intros Hac. by apply (Hne _ (K1 _ Hac)).
    + destruct (K5 a Ha). auto.
Qed.

(** An action that is only recorded. *)
Lemma okp_log {X} (P : X -> Prop) g (f : history -> X) e :
  (forall h, sent_log (e :: h) = sent_log h) -> (forall h, made_keys (e :: h) = made_keys h) ->
  (forall h, P (f h)) -> okp (fun g' r => g' = g /\ P r) g (action (fun w => (f (w_hist w), log e w))).
Proof.
  intros Ha Hm Hp. apply okp_action. intros w rest Hinv. exists g. split; [by apply process_log|]. split; [done|apply Hp].
Qed.

Lemma okp_rand g n :
  okp (fun g' r => g' = g /\ match r with Ok s => String.length s = n | Err _ => True end) g (rand_Read n).
Proof.
  apply (okp_log (fun r => match r with Ok s => String.length s = n | Err _ => True end)
    g (fun h => env_rand h n)); [done..|].
  intros h. destruct (env_rand h n) eqn:E; [by eapply rand_length|done].
Qed.

Lemma okp_WriteFile g a data priv :
  gh_making g = MKey a -> open_file (ks_password ks) data a = Some (Ok priv) ->
  okp (fun g' r => g' = if is_ok r then set_making (MFile a data) g else g) g (os_WriteFile (tmp a) data).
Proof.
  intros Hm Ho. apply okp_action. intros w rest Hinv. eexists. split; [|reflexivity].
  apply (process_log EvFs) in Hinv; [|done..].
  assert (forall x, process_inv (set_files (<[tmp a := x]> (w_files w)) (log EvFs w)) (g :: rest)) as Hany.
  { intros x. eapply process_files; [exact Hinv|by rewrite Hm| |left|done|by auto|by rewrite Hm|done..].
    - intros p Hp _. cbn. by rewrite lookup_insert_ne.
    - cbn. rewrite lookup_insert_ne; [done|]. apply tmp_not_path. }
  destruct (env_fs (w_hist w)) as [|[n|] e]; cbn [fst snd is_ok]; [|by apply Hany|done].
  eapply process_files; [exact Hinv|by rewrite Hm| |left|unfold owned_keys; by rewrite Hm|by auto| |done..].
  - intros p Hp _. cbn. by rewrite lookup_insert_ne.
  - cbn. rewrite lookup_insert_ne; [done|]. apply tmp_not_path.
  - split; [by rewrite lookup_insert_eq|by exists priv].
Qed.

Lemma okp_Rename g a data :
  gh_making g = MFile a data ->
  okp (fun g' r => g' = if is_ok r then save a g else set_making (MKey a) g) g
    (os_Rename (tmp a) (path ks a)).
Proof.
  intros Hm. apply okp_action. intros w rest Hinv.
  pose proof (k_making _ _ _ _ (p_keys _ _ _ _ _ Hinv)) as Hmk. apply Forall_cons in Hmk as [Hmk _].
  rewrite Hm in Hmk. destruct Hmk as (Hd & priv & Ho).
  apply (process_log EvFs) in Hinv; [|done..].
  set (files := <[path ks a := data]> (delete (tmp a) (w_files w))).
  assert (forall p, p <> tmp a -> p <> path ks a -> files !! p = w_files w !! p) as Hsame.
  { intros p H1 H2. unfold files. by rewrite lookup_insert_ne, lookup_delete_ne. }
  assert (saved ks files a) as Hsv.
  { exists priv, data. unfold files. by rewrite lookup_insert_eq. }
  eexists. split; [|reflexivity]. rewrite Hd.
  destruct (env_fs (w_hist w)) as [|[n|] e]; cbn [fst snd is_ok].
  - eapply process_files; [exact Hinv|by rewrite Hm|exact Hsame|by right| | |done..].
    + unfold owned_keys, save. cbn. by rewrite app_nil_r, Hm.
    + intros b [Hb|Hb%list_elem_of_singleton]%elem_of_app; auto.
  - eapply process_files; [exact Hinv|by rewrite Hm|exact Hsame|by right| |by auto|done..].
    unfold owned_keys. by rewrite Hm.
  - apply (process_files (log EvFs w) (w_files w) g _ _ a); [exact Hinv|by rewrite Hm|done|by left| |by auto|done..].
    unfold owned_keys. by rewrite Hm.
Qed.

Lemma okp_Remove g a : gh_making g = MKey a -> okp (fun g' _ => g' = g) g (os_Remove (tmp a)).
Proof.
  intros Hm. apply okp_action. intros w rest Hinv. exists g. split; [|done].
  apply (process_log EvFs) in Hinv; [|done..].
  assert (process_inv (set_files (delete (tmp a) (w_files w)) (log EvFs w)) (g :: rest)) as Hdel.
  { eapply process_files; [exact Hinv|by rewrite Hm| |left|done|by auto|by rewrite Hm|done..].
    - intros p Hp _. cbn. by rewrite lookup_delete_ne.
    - cbn. rewrite lookup_delete_ne; [done|]. apply tmp_not_path. }
  by destruct (env_fs (w_hist w)) as [|[n|] e].
Qed.

(** The key is saved, or the goroutine has lost it. *)
Definition generated (g : ghost) (g' : ghost) (r : result address) : Prop :=
  match r with Ok a => g' = save a g | Err _ => gh_local g' = gh_local g end.

Lemma okp_install_key g a data priv :
  gh_making g = MKey a -> open_file (ks_password ks) data a = Some (Ok priv) ->
  okp (fun g' r => if is_ok r then g' = save a g else gh_local g' = gh_local g) g (KeystoreSafety.install ks a data).
Proof.
  intros Hm Ho. unfold KeystoreSafety.install. eapply okp_bind; [by eapply okp_WriteFile|].
  intros ? [u|e] ->; [|done]. cbn [is_ok].
  eapply okp_bind; [by eapply (okp_Rename (set_making (MFile a data) g))|].
  intros ? [u'|e] ->; [done|]. cbn [is_ok].
  eapply okp_bind; [by apply okp_Remove|]. by intros ? r ->.
Qed.

Lemma okp_Generate g : gh_making g = MNone -> okp (generated g) g (Generate ks).
Proof.
  intros Hm. unfold Generate. eapply okp_bind; [by apply okp_GenerateKey|].
  intros ? [priv|e]; [intros [Hx ->]|by intros ->].
  set (g1 := set_making _ g).
  eapply (okp_bind _ _ _ (fun g' r => if is_ok r then g' = save (PubkeyToAddress priv) g1
    else gh_local g' = gh_local g1)); [|by intros g' [u|e] H].
  unfold write. eapply okp_bind; [apply okp_rand|]. intros ? [salt|e] [-> _]; [|done].
  destruct (derive_key (ks_password ks) salt) as (dk & Hdk & Hg).
  change (argon2_IDKey _ _ _ _ _ _) with (derive (ks_password ks) salt). rewrite Hdk, Hg.
  eapply okp_bind; [apply okp_rand|]. intros ? [nonce|e] [-> Hn]; [|done].
  exact (okp_install_key g1 _ (sealed dk salt nonce priv) priv eq_refl (open_sealed _ _ _ _ _ Hdk Hg Hn Hx)).
Qed.

#[local] Instance accounts_generator : KeystoreGenerator := generator_of ks.
#[local] Instance accounts_loader : KeystoreLoader := loader_of ks.

(** The keys of the app are saved in the order they were made. *)
Definition saved_all (g : ghost) (addrs : list address) : Prop :=
  gh_saved g = addrs /\ gh_making g = MNone.

Lemma okp_generate_signers n : forall g i t acc,
  saved_all g (t :: acc) ->
  okp (fun g' r => gh_local g' = gh_local g /\
    match r with Ok signers => saved_all g' (t :: signers) | Err _ => True end) g (generate_signers n i acc).
Proof.
  induction n as [|n IH]; intros g i t acc Hsv; cbn [generate_signers]; [by split|].
  eapply okp_bind; [apply okp_Generate, Hsv|]. intros g' [a|e]; [intros ->|by intros H].
  apply (IH (save a g)). destruct Hsv as [Hs _]. split; [|done]. cbn. by rewrite Hs.
Qed.

(** ** Registering an app *)

(** What the transaction of [Create] adds to the tables. *)
Record registers (t : address) (signers : list address) (db db' : database) : Prop := {
  rg_schema : schema db';
  rg_grows : grows db db';
  rg_treasury a : is_treasury (db_apps db') a <-> is_treasury (db_apps db) a \/ a = t;
  rg_signer k row : db_signers db' !! k = Some row ->
    db_signers db !! k = Some row \/ exists a, k = lowerHex a /\ a ∈ signers;
  rg_attempts : db_attempts db' = db_attempts db;
}.

Lemma create_registers name n url secret t h smin srefill tmin signers se1 se2 db id db1 u db' :
  name <> "" -> minPoolSize <= n <= maxPoolSize -> canonical (se_uuid se1) -> canonical (se_uuid se2) ->
  schema db ->
  insert_app_stmt name n url secret t h smin srefill tmin se1 db = Ok (id, db1) ->
  copy_signers signers id se2 db1 = Ok (u, db') -> registers t signers db db'.
Proof.
  intros Hn Hp Hu1 Hu2 Hsc H1 H2.
  destruct (stmt_ok_insert_app db name n url secret t h smin srefill tmin Hn Hp se1 db id db1 Hu1 Hsc
    (reflexivity db) H1) as [[Hsc1 Hg1] _].
  destruct (stmt_ok_copy_signers db signers id se2 db1 u db' Hu2 Hsc1 Hg1 H2) as [[Hsc2 Hg2] _].
  apply insert_app_stmt_ok in H1 as (row & _ & -> & Hnew & _ & _ & _ & Ht & _).
  apply copy_signers_ok in H2 as (-> & _ & _). split; [done|by etrans| | |done]; cbn.
  - intros a. unfold is_treasury. split.
    + intros (k & r & [[<- <-]|[_ Hr]]%lookup_insert_Some & Ha); [right|left; eauto].
      apply lowerHex_inj. congruence.
    + intros [(k & r & Hr & Ha)| ->]; [|exists id, row; by rewrite lookup_insert_eq].
      exists k, r. rewrite lookup_insert_ne; [done|congruence].
  - intros k r Hk. destruct (decide (k ∈ List.map lowerHex signers)) as [Hin|Hin].
    + right. apply list_elem_of_In, in_map_iff in Hin as (a & <- & Ha). exists a. by rewrite list_elem_of_In.
    + left. rewrite add_signers_ne in Hk; [done|]. intros a Ha <-. apply Hin.
      apply list_elem_of_In, in_map_iff. exists a. by rewrite <- list_elem_of_In.
Qed.

(** A key that is owned and not registered has sent nothing. *)
Lemma owned_unsent w gs a e :
  process_inv w gs -> a ∈ gs ≫= owned_keys -> e ∈ sent_log (w_hist w) -> stx_from e.1 <> a.
Proof.
  intros Hinv Ha Hs <-. destruct (k_new _ _ _ _ (p_keys _ _ _ _ _ Hinv) _ Ha) as [_ Hno].
  apply Hno. exact (I_senders _ _ _ _ _ _ _ (p_relay _ _ _ _ _ Hinv) e Hs).
Qed.

Lemma process_registers w g gs db' t signers :
  process_inv w (g :: gs) -> saved_all g (t :: signers) -> registers t signers (w_db w) db' ->
  process_inv (set_db db' w) (Ghost (gh_local g) [] MNone (gh_seen g) :: gs).
Proof.
  intros Hinv [Hsv Hmk] [Hsc Hg Htr Hsg Hat]. pose proof Hinv as [Hr Hs [K1 K2 K3 K4 K5 K6 K7] Hd].
  assert (owned_keys g = t :: signers) as Eo by (unfold owned_keys; by rewrite Hsv, Hmk, app_nil_r).
  assert (forall a, a ∈ t :: signers -> a ∈ (g :: gs) ≫= owned_keys) as Hown.
  { intros a Ha. simpl. rewrite Eo. apply elem_of_app. by left. }
  assert (forall a, is_signer (db_signers db') a -> is_signer (db_signers (w_db w)) a \/ a ∈ signers) as Hsig.
  { intros a [row Hrow]. destruct (Hsg _ _ Hrow) as [H|(b & E & Hb)]; [left; by exists row|].
    apply lowerHex_inj in E as ->. by right. }
  assert (forall a, account db' a -> account (w_db w) a \/ a ∈ t :: signers) as Hacc.
  { intros a [Ha|Ha]; [apply Hsig in Ha as [Ha|Ha]|apply Htr in Ha as [Ha| ->]].
    - by left; left.
    - right. by right.
    - by left; right.
    - right. by left. }
  simpl in K4. rewrite Eo in K4. apply NoDup_app in K4 as (Ht%NoDup_cons & Hdis & K4).
  split; [|done| |].
  - unfold System.Inv. simpl. eapply (InvP_quiet _ _ _ _ (db_attempts (w_db w))).
    2:{ eapply (InvP_files base (around_of (safe_files ks) w)); [done| |exact Hr]. intros a Ha. cbn. apply Htr. by left. }
    rewrite Hat. split.
    + intros k row Hk. destruct (gr_signers _ _ Hg k row Hk) as (? & ? & <-). done.
    + intros k row Hk Hno. destruct (Hsg k row Hk) as [H|(a & -> & Ha)]; [congruence|]. exists a. split; [done|].
      intros s Hs'. eapply owned_unsent; [exact Hinv|apply Hown; by right|done].
    + apply attempts_kept_refl.
    + exists []. split; [done|]. by intros s ?%not_elem_of_nil.
  - split; simpl.
    + intros a [Ha|Ha]%Hacc; [by apply K1|]. by apply K5, Hown.
    + intros a [Ha| ->]%Htr [Hb|Hb]%Hsig.
      * by apply (K2 a).
      * destruct (K5 a (Hown a ltac:(by right))) as [_ Hno]. apply Hno. by right.
      * destruct (K5 t (Hown t ltac:(by left))) as [_ Hno]. apply Hno. by left.
      * by apply Ht.
    + intros a [Ha|Ha]%Hacc; [by apply K3|]. apply K6. simpl. rewrite Hsv. apply elem_of_app. by left.
    + done.
    + intros a Ha. destruct (K5 a) as [Hk Hno]; [simpl; apply elem_of_app; by right|]. split; [done|].
      intros [H|H]%Hacc; [done|]. by apply (Hdis a).
    + intros a Ha. apply K6. simpl. apply elem_of_app. by right.
    + inversion K7. by constructor.
  - apply Forall_cons in Hd as [Hd Hds]. constructor; [by transitivity (w_db w)|].
    by apply (seen_grows w).
Qed.

(** The statements of a transaction are only recorded. *)
Lemma okp_begin g :
  okp (fun g' r => g' = g /\ match r with Ok t => txn_apply t = Ok | Err _ => True end) g pg_begin.
Proof.
  apply okp_action. intros w rest Hinv. exists g. apply (process_log EvDb) in Hinv; [|done..].
  by destruct (env_pg_fate (w_hist w)).
Qed.

Definition stmt_result {X} (t : txn) (s : stmt X) (r : result (X * txn)) : Prop :=
  match r with
  | Ok rt => exists se db db', canonical (se_uuid se) /\ s se db = Ok (rt.1, db') /\ rt.2 = txn_then t se s
  | Err _ => True
  end.

Lemma okp_tx {X} g t (s : stmt X) : okp (fun g' r => g' = g /\ stmt_result t s r) g (pg_tx t s).
Proof.
  apply okp_action. intros w rest Hinv. exists g. apply (process_log EvDb) in Hinv; [|done..].
  split; [done|]. split; [done|]. cbn [fst]. destruct (env_pg_fate _); [|done].
  destruct (txn_apply t (w_db w)) as [db1|]; [|done]. destruct (s _ db1) as [[x db2]|] eqn:E; [|done].
  eexists (StmtEnv _ _), _, _. split; [|split; [exact E|done]]. apply env_uuid_canonical.
Qed.

Lemma okp_commit g t tr signers :
  saved_all g (tr :: signers) ->
  (forall db db', schema db -> txn_apply t db = Ok db' -> registers tr signers db db') ->
  okp (fun g' _ => gh_local g' = gh_local g) g (pg_commit t).
Proof.
  intros Hsv Ht. apply okp_action. intros w rest Hinv.
  specialize (Ht (w_db w)). pose proof (p_schema _ _ _ _ _ Hinv) as Hsc.
  apply (process_log EvDb) in Hinv; [|done..].
  destruct (env_pg_fate _) as [|[] e], (txn_apply t (w_db w)) as [db'|e'] eqn:E; cbn [fst snd];
    first [ exists g; split; [exact Hinv|done]
          | eexists; split; [eapply process_registers; [exact Hinv|exact Hsv|exact (Ht db' Hsc eq_refl)]|done] ].
Qed.

Lemma okp_insert g name n url secret tr signers th smin srefill tmin :
  saved_all g (tr :: signers) -> name <> "" -> minPoolSize <= n <= maxPoolSize ->
  okp (fun g' _ => gh_local g' = gh_local g) g
    (AppService.insert name n url secret tr signers th smin srefill tmin).
Proof.
  intros Hsv Hname Hn. unfold AppService.insert. eapply okp_bind; [apply okp_begin|].
  intros ? [t|e] [-> Ht]; [|done]. eapply okp_bind; [apply okp_tx|].
  intros ? [r1|e] [-> H1]; [|done]. destruct H1 as (se1 & d1 & d1' & Hu1 & E1 & Hr1).
  eapply okp_bind; [apply okp_tx|].
  intros ? [r2|e] [-> H2]; [|done]. destruct H2 as (se2 & d2 & d2' & Hu2 & _ & Hr2).
  eapply (okp_bind _ _ _ (fun g' _ => gh_local g' = gh_local g)); [|by intros g' [[]|e] H]. eapply okp_commit; [exact Hsv|].
  intros db db' Hsc E. rewrite Hr2 in E. cbn in E. rewrite Hr1 in E. cbn in E. rewrite Ht in E.
  destruct (insert_app_stmt _ _ _ _ _ _ _ _ _ se1 db) as [[id db1]|] eqn:Ea; [|done].
  destruct (copy_signers _ _ se2 db1) as [[u db2]|] eqn:Ec; [|done]. injection E as <-.
  apply insert_app_stmt_ok in E1 as (_ & E1 & _). pose proof Ea as Ea'.
  apply insert_app_stmt_ok in Ea' as (_ & Ei & _). rewrite E1, <- Ei in Ec.
  eapply create_registers; [exact Hname|exact Hn|exact Hu1|exact Hu2|exact Hsc|exact Ea|exact Ec].
Qed.

Lemma okp_Create inp : okp (fun g' _ => gh_local g' = LFree) fresh_ghost (Create inp).
Proof.
  unfold Create. cbv zeta. destruct (String.eqb_spec (TrimSpace (ci_Name inp)) "") as [|Hn]; [done|].
  destruct (Z.ltb_spec (ci_PoolSize inp) minPoolSize), (Z.ltb_spec maxPoolSize (ci_PoolSize inp));
    cbn [orb]; try done.
  destruct (validateGasPolicy _ _); [|done].
  eapply okp_bind; [by apply okp_Generate|]. intros g1 [tr|e]; [intros ->|by intros Hl].
  eapply okp_bind; [by apply (okp_generate_signers _ _ 0 tr [])|].
  intros g2 [signers|e] [Hl2 Hsv]; [|done]. unfold newBearerToken.
  assert (forall n, okp (fun g' _ => g' = g2) g2 (rand_Read n)) as Hrand.
  { intros n. eapply okp_impl; [apply okp_rand|]. by intros g' x [-> _]. }
  eapply (okp_bind _ _ _ (fun g' _ => g' = g2)).
  { eapply okp_bind; [apply Hrand|]. by intros ? [raw|e] ->. }
  intros ? [th|e] ->; [|done].
  eapply (okp_bind _ _ _ (fun g' _ => g' = g2)).
  { unfold callback_secret_for. destruct (String.eqb _ _); [done|]. unfold newCallbackSecret.
    eapply okp_bind; [apply Hrand|]. by intros ? [raw|e] ->. }
  intros ? [secret|e] ->; [|done].
  eapply okp_bind; [by apply okp_insert|]. intros g3 [app|e] H3; cbn; by rewrite H3.
Qed.
End programs.
