(* ===== verification/Wired.v ===== *)
(** * The wired process: every goroutine, over one world

    Each goroutine of the program — the API's handlers, creating apps and sweeping
    treasuries among them, and the loops of the three workers — keeps the joint
    invariant of [Accounts] under any interference of the others.  So the
    guarantees of the relay hold for the process as a whole, and every account it
    has ever registered can be signed for. *)

From Stdlib Require Import ZArith Lia.
From S2P Require Import Prelude GoLib Crypto Json Eth Database World Chain.
From S2P Require Import FileSystem Keystore KeystoreSafety.
From S2P Require Import SignerPool RefEnv AppService RelayService RelayStatus Watcher Webhook Alert.
From S2P Require Import Gas Treasury Api Config Interleave System SystemSteps Concurrent Schema Main Process.
From S2P Require Import Accounts.

Local Open Scope Z_scope.
Local Open Scope txmill_scope.

Section wired.
Context `{Env : Environment} `{HO : Host} `{Eth : GoEthereum} `{PG : Postgres} `{B : Binder}.
Context `{HL : !HostLaws} `{EL : !GoEthereumLaws} `{UUL : !UuidLaws} `{NA : !NodeAccepts}.
Context (base : address -> Z) `{NL : !NodeLaws base}.
Context (ks : Keystore) (old : list address) `{FK : !FreshKeys old}.

#[local] Instance wired_loader : KeystoreLoader := loader_of ks.

(** What a panic must be due to, in the tables a goroutine has seen. *)
Context (cause : database -> Prop) (cause_grows : forall d d', grows d d' -> cause d -> cause d').

Abbreviation process_inv := (process_inv base ks old).
Abbreviation okp := (Interleave.okp process_inv process_waits (fun g => cause (gh_seen g))).
Abbreviation guar := (guar schema grows updates).
#[local] Existing Instance later_preorder.

(** ** Actions *)

Lemma Load_store a : keeps store (ks_Load a).
Proof. apply keeps_bind; [by apply keeps_action|]. intros [d|e]; [|done]. by destruct (open_file _ _ _). Qed.

Lemma store_files {A} (p : prog A) : keeps store p -> keeps w_files p.
Proof. apply (keeps_compose fst store). Qed.

(** Programs that change nothing of the tables, the pool or the accounts. *)
Lemma okp_view {A} (P : A -> Prop) g (p : prog A) :
  keeps view p -> keeps store p -> total_on (sane ks) p -> rets P p ->
  okp (fun g' a => later g g' /\ P a) g p.
Proof.
  intros Hv Hs Ht Hr. eapply okp_impl; [apply (okp_calm _ _ _ _ P any)|by intros g' a (H1 & H2 & _)].
  - by apply keeps_view_seen, store_files.
  - done.
  - done.
  - done.
  - by apply guar_view.
Qed.

Lemma okp_total_view {A} g (p : prog A) :
  keeps view p -> keeps store p -> total p -> okp (fun g' _ => later g g') g p.
Proof.
  intros Hv Hs Ht. eapply okp_impl; [apply (okp_view (fun _ => True))|by intros g' a [H _]];
    [done|done|by apply total_total_on|apply rets_True].
Qed.

Lemma okp_select {X} (Q : database -> X -> Prop) g (q : stmt_env -> database -> result X) :
  (forall se db x, schema db -> q se db = Ok x -> Q db x) ->
  okp (fun g' r => later g g' /\ on_ok Q (gh_seen g') r) g (pg (select q)).
Proof.
  intros HQ. eapply okp_impl; [apply (okp_calm _ _ _ _ (fun _ => True) (on_ok Q))|by intros g' a (H1 & _ & H2)].
  - apply keeps_view_seen; [apply pg_select_view|by apply pg_keeps].
  - by apply pg_keeps.
  - apply total_on_action.
  - apply rets_True.
  - by apply guar_pg, stmt_ok_select.
Qed.

Lemma okp_call {X} g e (f : history -> X) :
  (forall h, sent_log (e :: h) = sent_log h) -> (forall h, made_keys (e :: h) = made_keys h) ->
  okp (fun g' _ => g' = g) g (rpc e f).
Proof. intros Ha Hm. eapply okp_impl; [by apply (okp_log _ _ _ _ (fun _ => True))|by intros g' a [-> _]]. Qed.

Lemma okp_load_key g a :
  okp (fun g' r => later g g' /\ match r with Ok k => PubkeyToAddress k = a | Err _ => True end) g (ks_Load a).
Proof.
  apply okp_view; [apply Load_view|apply Load_store| |apply Load_rets].
  apply (total_on_impl (fun w => safe_files ks (w_files w))); [by intros w [_ H]|]. apply Load_total_on.
Qed.

(** A statement on the tables the relay does not look at. *)
Lemma okp_pg_calm {X} g (s : stmt X) :
  stmt_ok updates any (gh_seen g) s ->
  (forall se db x db', s se db = Ok (x, db') -> db_attempts db' = db_attempts db) ->
  okp (fun g' _ => later g g') g (pg s).
Proof.
  intros Hs Ha. apply okp_action. intros w rest Hinv.
  pose proof (p_seen _ _ _ _ _ Hinv) as Hd. apply Forall_cons in Hd as [Hd _].
  assert (forall x db', s (env_stmt w) (w_db w) = Ok (x, db') ->
    exists g', process_inv (set_db db' (log EvDb w)) (g' :: rest) /\ later g g') as Hok.
  { intros x db' E. pose proof (p_schema _ _ _ _ _ Hinv) as Hsc.
    destruct (Hs (env_stmt w) _ _ _ (env_uuid_canonical _) Hsc Hd E) as [[Hsc' Hu] _].
    eexists. split; [eapply (process_updates _ _ _ w); [exact Hinv| |exact Hsc'|exact Hu|done]|].
    - destruct Hu as (_ & Eap & Esg). apply Ha in E.
      eapply Inv_seen; [|exact (p_relay _ _ _ _ _ Hinv)]. unfold seen. cbn. congruence.
    - split; [done|]. split; [done|]. cbn. transitivity (w_db w); [done|by apply updates_grows]. }
  apply (process_log _ _ _ EvDb) in Hinv; [|done..].
  destruct (env_pg_fate _) as [|[] e], (s (env_stmt w) (w_db w)) as [[x db']|e'] eqn:E; cbn [fst snd];
    first [by apply (Hok x) | exists g; split; [exact Hinv|reflexivity]].
Qed.

(** Treasuries send outside the pool. *)
Lemma okp_send g stx :
  is_treasury (db_apps (gh_seen g)) (stx_from stx) -> okp (fun g' _ => g' = g) g (SendTransaction stx).
Proof.
  intros Ht. apply okp_action. intros w rest Hinv. exists g. split; [|done]. cbn [snd].
  destruct (env_accepts (w_hist w) stx); [|by apply process_log].
  destruct Hinv as [Hr Hs [K1 K2 K3 K4 K5 K6 K7] Hd]. split; [|done|by split|done].
  pose proof Hd as Hd'. apply Forall_cons in Hd' as [Hg _].
  assert (is_treasury (db_apps (w_db w)) (stx_from stx)) as Ht'.
  { destruct Ht as (id & row & Hrow & E). destruct (gr_apps _ _ Hg id row Hrow) as (? & ? & <-). by exists id, row. }
  unfold System.Inv. cbn. eapply (InvP_quiet _ _ _ _ (db_attempts (w_db w))); [|exact Hr]. split.
  - done.
  - congruence.
  - apply attempts_kept_refl.
  - eexists [_]. split; [done|]. intros s ->%list_elem_of_singleton. split; [by apply K2|exact Ht'].
Qed.

(** ** Programs that only let the tables grow *)

Definition calmly {A} (g : ghost) (p : prog A) : Prop := okp (fun g' _ => later g g') g p.

Lemma calmly_bind {A C} (P : ghost -> A -> Prop) g (p : prog A) (k : A -> prog C) :
  okp (fun g' a => later g g' /\ P g' a) g p ->
  (forall g' a, later g g' -> P g' a -> calmly g' (k a)) -> calmly g (bind p k).
Proof.
  intros Hp Hk. eapply okp_bind; [exact Hp|]. intros g' a [Hl Ha].
  eapply okp_impl; [by apply Hk|]. intros g2 b Hl2. by transitivity g'.
Qed.

Lemma calmly_then {A C} g (p : prog A) (k : A -> prog C) :
  calmly g p -> (forall g' a, later g g' -> calmly g' (k a)) -> calmly g (bind p k).
Proof.
  intros Hp Hk. apply (calmly_bind (fun _ _ => True)); [|auto].
  eapply okp_impl; [exact Hp|]. by intros g' a H.
Qed.

Lemma calmly_ret {A} g (a : A) : calmly g (Ret a).
Proof. unfold calmly. cbn. reflexivity. Qed.

Lemma calmly_panic {A} g m : cause (gh_seen g) -> calmly g (Panic (A := A) m).
Proof. done. Qed.

Lemma cause_later g g' : later g g' -> cause (gh_seen g) -> cause (gh_seen g').
Proof. intros (_ & _ & H). by apply cause_grows. Qed.

Lemma calmly_rpc {X} g e (f : history -> X) :
  (forall h, sent_log (e :: h) = sent_log h) -> (forall h, made_keys (e :: h) = made_keys h) ->
  calmly g (rpc e f).
Proof. intros Ha Hm. eapply okp_impl; [by apply okp_call|]. intros g' a ->. reflexivity. Qed.

Lemma calmly_select {X} g (q : stmt_env -> database -> result X) : calmly g (pg (select q)).
Proof.
  eapply okp_impl; [by apply (okp_select any)|]. by intros g' a [H _].
Qed.

Lemma calmly_send g stx :
  is_treasury (db_apps (gh_seen g)) (stx_from stx) -> calmly g (SendTransaction stx).
Proof. intros Ht. eapply okp_impl; [by apply okp_send|]. intros g' a ->. reflexivity. Qed.

Lemma calmly_for_each {A} (P : ghost -> A -> Prop) (l : list A) body :
  (forall g g' x, later g g' -> P g x -> P g' x) -> (forall g x, P g x -> calmly g (body x)) ->
  forall g, Forall (P g) l -> calmly g (for_each l body).
Proof.
  intros HP Hb. induction l as [|x l IH]; intros g Hl; [apply calmly_ret|]. cbn [for_each].
  apply Forall_cons in Hl as [Hx Hl]. apply calmly_then; [by apply Hb|]. intros g' [] Hg'.
  apply IH. eapply Forall_impl; [exact Hl|]. intros y. by apply HP.
Qed.

Lemma treasury_later g g' a :
  later g g' -> is_treasury (db_apps (gh_seen g)) a -> is_treasury (db_apps (gh_seen g')) a.
Proof.
  intros (_ & _ & Hg) (id & row & Hrow & E). destruct (gr_apps _ _ Hg id row Hrow) as (? & ? & <-).
  by exists id, row.
Qed.

(** ** The gas worker *)

(** An app the worker visits has an amount that is no number. *)
Definition nan_policy (db : database) : Prop :=
  exists id row, db_apps db !! id = Some row /\ has_policy row = true /\ ~ policy_numbers row.

Context (nan_causes : forall db, nan_policy db -> cause db).

Definition amounts_ok (db : database) (p : appPolicy) : Prop :=
  (is_Some (po_signerMinBalance p) /\ is_Some (po_treasuryMinBalance p)) \/ cause db.

Definition policy_ok (db : database) (p : appPolicy) : Prop :=
  is_treasury (db_apps db) (po_treasuryAddress p) /\ amounts_ok db p.

Lemma app_treasury db id row :
  schema db -> db_apps db !! id = Some row -> is_treasury (db_apps db) (HexToAddress (a_treasury_address row)).
Proof.
  intros Hsc Hrow. destruct (ok_app_treasury _ _ (sc_apps _ Hsc id row Hrow)) as [a Ea].
  exists id, row. split; [done|]. by rewrite Ea, HexToAddress_lowerHex.
Qed.

Lemma policies_ok se db ps :
  schema db -> policies_query se db = Ok ps -> Forall (policy_ok db) ps.
Proof.
  intros Hsc [= <-]. apply Forall_forall.
  intros p Hp. apply list_elem_of_In, in_map_iff in Hp as ([id row] & <- & Hin).
  apply list_elem_of_In, rows_where_elem in Hin as [Hrow Hpol]. split; [by eapply app_treasury|].
  assert (policy_numbers row \/ ~ policy_numbers row) as [[H1 H2]|Hn].
  { unfold policy_numbers. destruct (a_signer_min_balance row), (a_treasury_min_balance row);
      first [by left | right; by intros []]. }
  - left. cbn. by split; apply policy_parse.
  - right. apply nan_causes. by exists id, row.
Qed.

Lemma calmly_refill wk p key nonce gp to g :
  is_treasury (db_apps (gh_seen g)) (PubkeyToAddress key) -> calmly g (refill wk p key nonce gp to).
Proof.
  intros Ht. unfold refill. cbv zeta. destruct (SignTx _ _ _) as [stx|e] eqn:E; [|apply calmly_ret].
  apply SignTx_sound in E as [_ Hf].
  apply calmly_then; [apply calmly_send; by rewrite Hf|]. intros g1 [u|e] H1; [|apply calmly_ret].
  apply calmly_then; [|intros; apply calmly_ret].
  apply okp_pg_calm; [apply stmt_ok_insert_gas|]. intros se db x db'.
  unfold insert_gas_stmt. destruct (gas_row_of _ _ _ _ _ _ _) as [row|]; [|done]. unfold insert_gas.
  intros H. do 5 apply check_Ok in H as [_ H]. by injection H as _ <-.
Qed.

Lemma calmly_refill_all wk p key gp signers : forall g nonce,
  amounts_ok (gh_seen g) p ->
  is_treasury (db_apps (gh_seen g)) (PubkeyToAddress key) -> calmly g (refill_all wk p key gp signers nonce).
Proof.
  induction signers as [|s l IH]; intros g nonce Hm Ht; [apply calmly_ret|]. cbn [refill_all].
  assert (forall g', later g g' -> amounts_ok (gh_seen g') p) as Hm'.
  { intros g' Hl. destruct Hm as [Hm|Hc]; [by left|right; by eapply cause_later]. }
  apply calmly_then; [apply calmly_select|].
  intros g1 [[|]|e] H1; try (apply IH; [by apply Hm'|by eapply treasury_later]).
  apply calmly_then; [by apply calmly_rpc|]. intros g2 r H2. assert (later g g2) as H02 by by transitivity g1.
  apply (treasury_later _ _ _ H02) in Ht. specialize (Hm' _ H02) as Hm2.
  destruct r as [bal|e]; [|by apply IH].
  destruct (po_signerMinBalance p) as [m|] eqn:Em; cbn [deref_big bind].
  2:{ apply calmly_panic. destruct Hm2 as [[[? ?] _]|Hc]; [congruence|done]. }
  destruct (m <=? bal); [by apply IH|].
  apply calmly_then; [by apply calmly_refill|].
  intros g3 [u|e] H3; (apply IH; [apply Hm'; by transitivity g2|by eapply treasury_later]).
Qed.

Lemma amounts_later g g' p : later g g' -> amounts_ok (gh_seen g) p -> amounts_ok (gh_seen g') p.
Proof. intros Hl [H|H]; [by left|right; by eapply cause_later]. Qed.

Lemma calmly_processApp wk p g :
  gw_keystore wk = loader_of ks ->
  (forall a, keeps view (gw_notifier wk a) /\ keeps store (gw_notifier wk a) /\ total (gw_notifier wk a)) ->
  policy_ok (gh_seen g) p -> calmly g (processApp wk p).
Proof.
  intros Hks Hn (Ht & Hm). unfold processApp. rewrite Hks.
  apply calmly_then; [by apply calmly_rpc|]. intros g1 [tb|e] H1; [|apply calmly_ret].
  destruct (po_treasuryMinBalance p) as [t|] eqn:Et; cbn [deref_big bind].
  2:{ apply calmly_panic. apply (amounts_later _ _ _ H1) in Hm. destruct Hm as [[_ [? ?]]|Hc]; [congruence|done]. }
  apply calmly_then.
  { destruct (_ && _); [|apply calmly_ret]. destruct (Hn (treasury_alert p tb t)) as (? & ? & ?).
    by apply okp_total_view. }
  intros g2 _ H2. apply calmly_then.
  { unfold Gas.listSigners. apply calmly_then; [apply calmly_select|]. intros g' [?|?] _; apply calmly_ret. }
  intros g3 [[|s ss]|e] H3; try apply calmly_ret.
  apply (calmly_bind (fun _ r => match r with Ok k => PubkeyToAddress k = po_treasuryAddress p | Err _ => True end));
    [apply okp_load_key|].
  intros g4 [key|e] H4 Hk; [|apply calmly_ret].
  apply calmly_then; [by apply calmly_rpc|]. intros g5 [n|e] H5; [|apply calmly_ret].
  apply calmly_then; [by apply calmly_rpc|]. intros g6 [gp|e] H6; [|apply calmly_ret].
  assert (later g g6) as H by (do 5 (etrans; [eassumption|]); done).
  apply calmly_then; [|intros; apply calmly_ret].
  apply calmly_refill_all; [by eapply amounts_later|]. rewrite Hk. by eapply treasury_later.
Qed.

Lemma calmly_gas_tick wk g :
  gw_keystore wk = loader_of ks ->
  (forall a, keeps view (gw_notifier wk a) /\ keeps store (gw_notifier wk a) /\ total (gw_notifier wk a)) ->
  calmly g (gas_tick wk).
Proof.
  intros Hks Hn. unfold gas_tick.
  apply (calmly_bind (fun g' r => on_ok (fun db => Forall (policy_ok db)) (gh_seen g') r)).
  { apply okp_select. intros se db ps. apply policies_ok. }
  intros g1 [ps|e] _ Hps; [|apply calmly_ret].
  apply calmly_then; [|intros; apply calmly_ret].
  apply (calmly_for_each (fun g => policy_ok (gh_seen g))); [| |exact Hps].
  - intros g2 g3 p Hl (Ht & Hp). split; [by eapply treasury_later|by eapply amounts_later].
  - intros g2 p Hp. apply calmly_then; [by apply calmly_processApp|intros; apply calmly_ret].
Qed.

(** ** The delivery worker *)

Lemma calmly_failure g id msg f :
  stmt_ok updates any (gh_seen g) (update_failure id msg f) -> calmly g (pg (update_failure id msg f)).
Proof.
  intros Hs. apply okp_pg_calm; [done|]. intros se db x db' [_ H]%check_Ok. revert H.
  unfold update_delivery. destruct (pg_uuid_in id); [|done]. by intros [= _ <-].
Qed.

Lemma calmly_recordFailure g d code msg : due_ok d -> calmly g (recordFailure d code msg).
Proof.
  unfold due_ok, recordFailure. intros Hd. cbv zeta.
  destruct (Z.leb_spec (Z.of_nat (length BackoffSchedule) + 1) (pd_attempt d + 1)) as [Hle|Hlt];
    change (Z.of_nat (length BackoffSchedule)) with 4 in *.
  { apply calmly_failure, stmt_ok_dead. lia. }
  apply calmly_then; [by apply okp_total_view; [apply time_Now_keeps|apply time_Now_keeps|apply total_action]|].
  intros g1 now _. destruct (Z.ltb_spec (pd_attempt d) 0); [lia|].
  destruct (BackoffSchedule !! Z.to_nat (pd_attempt d)) as [b|] eqn:E; [apply calmly_failure, stmt_ok_retry; lia|].
  apply lookup_ge_None in E. cbn in E. lia.
Qed.

Lemma calmly_deliver g d : due_ok d -> calmly g (deliver d).
Proof.
  intros Hd. unfold deliver. destruct (http_NewRequest _ _ _ _) as [rq|e]; [|by apply calmly_recordFailure].
  apply calmly_then; [by apply okp_total_view; [apply http_Do_keeps|apply http_Do_keeps|apply total_action]|].
  intros g1 [resp|e] _; [|by apply calmly_recordFailure].
  destruct (_ && _); [|by apply calmly_recordFailure].
  apply okp_pg_calm; [apply stmt_ok_delivered|]. intros se db x db'.
  unfold update_delivery. destruct (pg_uuid_in _); [|done]. by intros [= _ <-].
Qed.

Lemma calmly_deliver_all ds : Forall due_ok ds -> forall g n, calmly g (deliver_all ds n).
Proof.
  induction 1 as [|d ds Hd Hds IH]; intros g n; [apply calmly_ret|]. cbn [deliver_all].
  apply calmly_then; [by apply calmly_deliver|]. intros g1 r _. apply IH.
Qed.

Lemma calmly_webhook_tick g batch : calmly g (webhook_tick batch).
Proof.
  unfold webhook_tick. apply (calmly_bind (fun g' r => on_ok (fun _ => Forall due_ok) (gh_seen g') r)).
  { apply okp_select. intros se db ds. apply due_query_ok. }
  intros g1 [ds|e] _ Hds; [|apply calmly_ret].
  apply calmly_then; [by apply calmly_deliver_all|intros; apply calmly_ret].
Qed.

(** ** The relay *)

(** The relay generates no key and writes no file: along its structure. *)
Ltac solve_store :=
  repeat first
    [ progress intros
    | done
    | apply Load_store
    | apply keeps_bind
    | match goal with
      | |- keeps _ (match ?x with _ => _ end) => destruct x
      | |- keeps _ (if ?x then _ else _) => destruct x
      end
    | by apply pg_keeps
    | by apply pg_begin_keeps
    | by apply pg_tx_keeps
    | by apply pg_commit_keeps
    | by apply SendTransaction_keeps
    | by apply keeps_action ].

Lemma load_signers_store app addrs : forall ps, keeps store (load_signers app addrs ps).
Proof. induction addrs as [|a addrs IH]; intros ps; [done|]. cbn [load_signers]. solve_store. Qed.

Lemma Pool_Load_store app : keeps store (SignerPool.Load app).
Proof. unfold SignerPool.Load, ListSigners. solve_store; apply load_signers_store. Qed.

Lemma Checkout_store app : keeps store (Checkout app).
Proof.
  unfold Checkout. solve_store. split; [|done]. intros w x w'.
  destruct (pl_apps _ !! app) as [ap|]; [|done]. destruct (ap_idle ap); repeat case_match; by intros [= _ <-].
Qed.

Lemma Release_store p : keeps store (Release p).
Proof.
  unfold Release, deref. solve_store. split; [|done]. intros w x w'.
  destruct (pl_apps _ !! _) as [ap|]; [|done]. case_match; by intros [= _ <-].
Qed.

Lemma Enqueue_store rid : keeps store (Enqueue rid).
Proof. unfold Enqueue, fetch_GetRaw, relayFetcher, GetRaw. solve_store. Qed.

Lemma Submit_store s inp : svc_webhooks s = Some Enqueue -> keeps store (Submit s inp).
Proof.
  intros Hs.
  assert (forall rid, keeps store (fireWebhook s rid)) as Hf.
  { intros rid. unfold fireWebhook. rewrite Hs. apply keeps_bind; [apply Enqueue_store|done]. }
  assert (forall rid st, keeps store (markRequestStatus s rid st)) as Hm.
  { intros rid st. unfold markRequestStatus. apply keeps_bind; [by apply pg_keeps|]. intros r.
    destruct (_ && _); [|done]. apply keeps_bind; [apply Hf|done]. }
  unfold Submit. destruct (negb _); [done|].
  apply keeps_bind; [unfold pastDeadline; solve_store|]. intros [|]; [done|].
  apply keeps_bind; [by apply pg_keeps|]. intros [rid|e]; [|done].
  apply keeps_bind; [apply Pool_Load_store|]. intros [u|e]; [|apply keeps_bind; [apply Hm|done]].
  apply keeps_bind; [apply Checkout_store|]. intros [p|e]; [|apply keeps_bind; [apply Hm|done]].
  apply keeps_bind; [|intros r; apply keeps_bind; [apply Release_store|done]].
  unfold submitWith. apply keeps_bind; [unfold deref; solve_store|]. intros sg.
  apply keeps_bind; [unfold gasLimitFor; solve_store|].
  intros [gl|e]; [|apply keeps_bind; [apply Hm|done]].
  apply keeps_bind; [by apply rpc_keeps|]. intros [gp|e]; [|apply keeps_bind; [apply Hm|done]].
  unfold broadcast, markSubmitted. solve_store; apply Hf.
Qed.

Lemma tick_store wt : wt_webhooks wt = Some Enqueue -> keeps store (tick wt).
Proof.
  intros Hw. unfold tick. apply keeps_bind; [by apply pg_keeps|]. intros [ps|e]; [|done].
  apply keeps_bind; [|done]. generalize 0. induction ps as [|p ps IH]; intros n; [done|]. cbn [process_all].
  apply keeps_bind; [|intros [?|?]; apply IH]. unfold process, record_outcome, fetchRevertReason. rewrite Hw.
  solve_store; first [apply Enqueue_store | apply deref_big_keeps].
Qed.

(** From the logic of the relay. *)
Lemma okp_relay {A} (P : Prop) (p : prog A) :
  (forall db, P -> cause db) ->
  Interleave.okp (Inv base (safe_files ks)) waits (fun _ => P) (fun l _ => idle l) LFree p ->
  (forall d, guar any d p) -> keeps store p -> okp (fun g' _ => process_idle g') fresh_ghost p.
Proof.
  intros HP Hp Hg Hs. eapply okp_impl; [eapply (okp_lift _ _ _ _ P (fun l _ => idle l) any); [by intros g'; apply HP|exact Hp|apply Hg|exact Hs]|].
  by intros g' a (H & _).
Qed.

Lemma okp_wired_Submit s inp :
  svc_webhooks s = Some Enqueue -> canonical (in_AppID inp) ->
  okp (fun g' _ => process_idle g') fresh_ghost (Submit s inp).
Proof.
  intros Hs Hc.
  apply (okp_relay False); [done| |intros d; exact (guar_Submit s Hs (KSF := loader_frame ks) (LSF := appListerFrame) d inp)|by apply Submit_store].
  apply (okp_Submit (KSS := store_sound ks) base); [|exact Hc]. rewrite Hs. apply Enqueue_ok.
Qed.

Context (unnumbered_causes : forall db, unnumbered_receipt -> cause db).

Lemma okp_wired_tick wt :
  wt_webhooks wt = Some Enqueue -> okp (fun g' _ => process_idle g') fresh_ghost (tick wt).
Proof.
  intros Hw. apply (okp_relay unnumbered_receipt); [done| |intros d; by apply guar_tick|by apply tick_store].
  apply (okp_tick (KSS := store_sound ks) base); [done|]. rewrite Hw. apply Enqueue_ok.
Qed.

(** ** The API *)

Abbreviation finishes g p := (okp (fun g' _ => process_idle g') g p).

Lemma calmly_finishes {A} g (p : prog A) : process_idle g -> calmly g p -> finishes g p.
Proof.
  intros Hi Hp. eapply okp_impl; [exact Hp|]. intros g' a (El & _). unfold process_idle. by rewrite El.
Qed.

Lemma finishes_renew {A} g (p : prog A) : process_idle g -> finishes fresh_ghost p -> finishes g p.
Proof.
  intros Hi. apply okp_weaken; [|by intros w (? & ? & ? & _)|apply cause_grows, grows_empty|done].
  intros w rest. by apply process_renew.
Qed.

Lemma finishes_then {A C} g (p : prog A) (k : A -> prog C) :
  finishes g p -> (forall a, finishes fresh_ghost (k a)) -> finishes g (bind p k).
Proof.
  intros Hp Hk. eapply okp_bind; [exact Hp|]. intros g' a Hi. by apply finishes_renew.
Qed.

Lemma calmly_Sweep svc app to v g : ts_keystore svc = loader_of ks -> calmly g (Sweep svc app to v).
Proof.
  intros Hks. unfold Sweep. rewrite Hks. apply (calmly_bind (fun g' r => on_ok (fun db s =>
    is_treasury (db_apps db) (HexToAddress s)) (gh_seen g') r)).
  { apply okp_select. intros se db s Hsc. unfold treasury_of. destruct (pg_uuid_in app) as [u|]; [|done].
    destruct (db_apps db !! u) as [row|] eqn:E; [|done]. intros [= <-]. by eapply app_treasury. }
  intros g1 [s|e] _ Ht; [|destruct (errors_Is _ _); apply calmly_ret]. cbn in Ht.
  apply (calmly_bind (fun _ r => match r with Ok k => PubkeyToAddress k = HexToAddress s | Err _ => True end));
    [apply okp_load_key|].
  intros g2 [key|e] H2 Hk; [|apply calmly_ret].
  apply calmly_then; [by apply calmly_rpc|]. intros g3 [n|e] H3; [|apply calmly_ret].
  apply calmly_then; [by apply calmly_rpc|]. intros g4 [gp|e] H4; [|apply calmly_ret].
  apply calmly_then.
  { unfold sweep_amount. destruct v; [apply calmly_ret|].
    apply calmly_then; [by apply calmly_rpc|]. intros g' [bal|e] _; [|apply calmly_ret].
    destruct (_ <=? 0); apply calmly_ret. }
  intros g5 [send|e] H5; [|apply calmly_ret].
  destruct (SignTx _ _ _) as [stx|e] eqn:E; [|apply calmly_ret]. apply SignTx_sound in E as [_ Hf].
  apply calmly_then; [|intros g6 [u|e] _; apply calmly_ret]. apply calmly_send. rewrite Hf, Hk.
  eapply treasury_later; [|exact Ht]. do 3 (etrans; [eassumption|]). done.
Qed.

Lemma fetch_balances_rets addrs : rets (fun rs => length rs = length addrs) (fetch_balances addrs).
Proof.
  induction addrs as [|a addrs IH]; [done|]. cbn [fetch_balances].
  apply rets_bind with (P := fun _ => True); [apply rets_True|]. intros b _.
  eapply rets_bind; [exact IH|]. intros bs Hbs. cbn. by rewrite Hbs.
Qed.

Lemma all_ok_length rs l : all_ok rs = Ok l -> length l = length rs.
Proof.
  revert l. induction rs as [|[b|e] rs IH]; intros l; cbn; [by intros [= <-]| |done].
  destruct (all_ok rs) as [bs|]; [|done]. intros [= <-]. cbn. by rewrite (IH bs).
Qed.

Lemma calmly_getBalances h id c g : calmly g (getBalances h id c).
Proof.
  unfold getBalances. destruct (negb (String.eqb _ _)); [apply calmly_ret|].
  destruct (negb _); [apply calmly_ret|]. apply calmly_then.
  { unfold Accounts. apply calmly_then; [apply calmly_select|]. intros g1 [t|e] _; [|apply calmly_ret].
    apply calmly_then; [apply calmly_select|]. intros g2 [rows|e] _; apply calmly_ret. }
  intros g1 [ac|e] _; [|apply calmly_ret].
  apply (calmly_bind (fun _ rs => length rs = S (length (ac_Signers ac)))).
  { apply okp_view; [apply fetch_balances_view| |apply total_total_on|].
    - generalize (ac_Treasury ac :: List.map si_Address (ac_Signers ac)). intros l.
      induction l as [|a l IH]; [done|]. cbn [fetch_balances]. solve_store.
    - generalize (ac_Treasury ac :: List.map si_Address (ac_Signers ac)). intros l.
      induction l as [|a l IH]; [done|]. cbn [fetch_balances].
      apply total_bind; [apply total_action|]. intros b. by apply total_bind.
    - pose proof (fetch_balances_rets (ac_Treasury ac :: List.map si_Address (ac_Signers ac))) as H.
      cbn [length] in H. rewrite length_map in H. exact H. }
  intros g2 rs _ Hl. destruct (all_ok rs) as [[|b bs]|e] eqn:E; [|apply calmly_ret..].
  apply all_ok_length in E. rewrite Hl in E. done.
Qed.

(** An authenticated caller is an app. *)
Lemma finishes_bearerAuth next rq :
  (forall g id, process_idle g -> canonical (id_AppID id) -> finishes g (next id)) ->
  finishes fresh_ghost (bearerAuth next rq).
Proof.
  intros Hn. unfold bearerAuth. destruct (extractBearerToken _) as [tok|e]; [|done].
  eapply (okp_bind _ _ _ (fun g r => process_idle g /\
    match r with Ok id => canonical (id_AppID id) | Err _ => True end)).
  { unfold Authenticate. destruct (String.eqb _ _); [done|]. eapply okp_bind.
    { apply (okp_select (fun _ id => canonical (id_AppID id))). intros se db id Hsc. unfold app_by_hash.
      destruct (rows_where _ _) as [|[k r] l] eqn:E; [done|]. intros [= <-]. cbn.
      assert ((k, r) ∈ rows_where (fun _ r => String.eqb (a_bearer_token_hash r) (Sum256 tok)) (db_apps db)) as Hin
        by (rewrite E; by left).
      apply rows_where_elem in Hin as [Hrow _]. by apply (sc_apps _ Hsc k r). }
    intros g [id|e] [(El & _) Hc]; [|destruct (errors_Is _ _)]; cbn; unfold process_idle; rewrite El; done. }
  intros g [id|e] [Hi Hc]; [|by destruct (errors_Is _ _)]. destruct (id_Disabled id); [done|]. by apply Hn.
Qed.

Lemma finishes_createApp apps rq :
  as_keystore apps = generator_of ks -> finishes fresh_ghost (createApp apps rq).
Proof.
  intros Hks. unfold createApp. rewrite Hks. destruct (Bind_createApp rq) as [req|e]; [|done].
  eapply okp_bind; [by apply okp_Create|]. intros g [res|e] Hl; cbn; unfold process_idle; by rewrite Hl.
Qed.

Lemma relay_input_app app rq inp : relay_input app rq = inr inp -> in_AppID inp = app.
Proof. unfold relay_input. intros H. repeat (case_match; try done). by injection H as <-. Qed.

Lemma finishes_serve h ep rq : handlers_on ks h -> finishes fresh_ghost (serve h ep rq).
Proof.
  intros Hh. destruct ep as [| |id|id|id| |rid]; cbn [serve]; try done;
    destruct (h_Apps h) as [apps|] eqn:Eapps; try done.
  - by apply finishes_createApp, (ho_apps _ _ Hh).
  - apply finishes_bearerAuth. intros g c Hi _. apply calmly_finishes; [done|].
    unfold Api.listSigners. destruct (negb _); [apply calmly_ret|]. apply calmly_then.
    { unfold ListSigners. apply calmly_then; [apply calmly_select|]. intros g' [?|?] _; apply calmly_ret. }
    intros g' [?|?] _; apply calmly_ret.
  - apply finishes_bearerAuth. intros g c Hi _. apply calmly_finishes; [done|apply calmly_getBalances].
  - destruct (h_Treasury h) as [cl|] eqn:Et; [|done]. apply finishes_bearerAuth. intros g c Hi _.
    apply calmly_finishes; [done|]. unfold sweepTreasury. rewrite Et. destruct (negb _); [apply calmly_ret|].
    destruct (Bind_sweep rq) as [req|e]; [|apply calmly_ret]. destruct (negb _); [apply calmly_ret|].
    destruct (sweep_value _) as [v|]; [|apply calmly_ret].
    apply calmly_then; [by apply calmly_Sweep, (ho_treasury _ _ Hh)|]. intros g' [res|e] _; [apply calmly_ret|].
    destruct (errors_Is _ _); apply calmly_ret.
  - destruct (h_Relay h) as [s|] eqn:Er; [|done]. apply finishes_bearerAuth. intros g c Hi Hc.
    destruct (ho_relay _ _ Hh _ Er) as (Hw & Hks & Hls).
    apply finishes_renew; [done|]. unfold postRelay. rewrite Hks, Hls. destruct (relay_input _ _) as [msg|inp] eqn:Ein; [done|].
    apply relay_input_app in Ein as Ea. apply finishes_then.
    + apply okp_wired_Submit; [done|by rewrite Ea].
    + intros [res|e]; [done|]. by destruct (_ || _).
  - destruct (h_Relay h) as [s|]; [|done]. apply finishes_bearerAuth. intros g c Hi _.
    apply calmly_finishes; [done|]. unfold getRelay. apply calmly_then.
    { apply okp_total_view; unfold Get; [solve_keeps|solve_store|solve_total]. }
    intros g' [st|e] _; [apply calmly_ret|]. destruct (errors_Is _ _); apply calmly_ret.
Qed.

(** ** The loops *)

Lemma finishes_Run {A} i (tk : prog A) n :
  (forall db, i <= 0 -> cause db) -> finishes fresh_ghost tk -> finishes fresh_ghost (ticker_Run i tk n).
Proof.
  intros Hi Ht. unfold ticker_Run. destruct (Z.leb_spec i 0); [by apply Hi|].
  induction n as [|n IH]; [done|]. cbn [ticker_loop].
  apply finishes_then.
  - apply calmly_finishes; [done|]. by apply okp_total_view; [apply keeps_action|apply keeps_action|apply total_action].
  - intros [|]; [done|]. apply finishes_then; [exact Ht|]. intros _. exact IH.
Qed.
End wired.

(** ** The system *)

Section system.
Context `{Env : Environment} `{HO : Host} `{Eth : GoEthereum} `{PG : Postgres} `{B : Binder}.
Context `{HL : !HostLaws} `{EL : !GoEthereumLaws} `{UUL : !UuidLaws} `{NA : !NodeAccepts}.
Context (base : address -> Z) `{NL : !NodeLaws base}.
Context (cfg : Config) (ks : Keystore) (cl : Client) (old : list address) `{FK : !FreshKeys old}.

Abbreviation sys := (wire cfg ks cl).
Abbreviation process_inv := (process_inv base ks old).

(** Nobody else writes the tables or the key files, makes keys of the process
    or sends transactions of its accounts; clocks, receipts, balances and
    everything else the outside answers is free. *)
Definition undisturbed (w w' : world) : Prop := view w' = view w /\ store w' = store w.

Definition system_reachable : world -> config -> Prop :=
  reachable (process_starts sys) undisturbed reboot.

(** The first start: nothing sent, no attempt, well-formed tables; the key files
    that are there have the format the store writes, the accounts of the tables
    have key files and are among the keys that were there before, and no treasury
    is a signer. *)
Record clean_start (w : world) : Prop := {
  cs_pool : w_pool w = empty_pool;
  cs_txs : sent_log (w_hist w) = [];
  cs_attempts : db_attempts (w_db w) = ∅;
  cs_schema : schema (w_db w);
  cs_files : safe_files ks (w_files w);
  cs_known a : account (w_db w) a -> known old w a /\ saved ks (w_files w) a;
  cs_apart a : is_treasury (db_apps (w_db w)) a -> ~ is_signer (db_signers (w_db w)) a;
}.

(** What makes a goroutine of the process panic: a worker with an interval that
    is not positive, a receipt without its block number, an app with a top-up
    policy one of whose amounts is not a number. *)
Definition panic_cause (s : system) (db : database) : Prop :=
  (wt_interval (sys_watcher s) <= 0 \/ ww_interval (sys_webhook s) <= 0 \/ gw_interval (sys_gas s) <= 0) \/
  unnumbered_receipt \/ nan_policy db.

Lemma panic_cause_grows s d d' : grows d d' -> panic_cause s d -> panic_cause s d'.
Proof.
  intros Hg [H|[H|(id & row & Hrow & H)]]; [by left|by right; left|].
  right. right. destruct (gr_apps _ _ Hg id row Hrow) as (? & ? & <-). by exists id, row.
Qed.

Lemma clean_start_inv w : clean_start w -> process_inv w [].
Proof.
  intros [Hp Ht Ha Hs Hf Hk Hap]. split; [|done| |constructor].
  - unfold Inv. rewrite Hp, Ha, Ht.
    assert (forall app p, ~ live empty_pool app p) as Hno by by intros app p (ap & ? & _).
    split; try done; try apply NoDup_nil_2.
    + apply empty_pool_inv.
    + intros k row Hrow. apply (ok_signer_key _ _ _ (sc_signers _ Hs k row Hrow)).
    + by intros s b ?%not_elem_of_nil.
    + by intros l1 s b l2 E%app_cons_not_nil.
    + by intros s ?%not_elem_of_nil.
  - split; try done; try apply NoDup_nil_2; try (by intros a ?%not_elem_of_nil); intros a Ha'; by apply Hk.
Qed.

Lemma process_undisturbed w w' gs : undisturbed w w' -> process_inv w gs -> process_inv w' gs.
Proof.
  intros [[= Hd Hp Ht] [= Hf Hm]] [Hr Hs [K1 K2 K3 K4 K5 K6 K7] Hg]. split; try by rewrite Hd.
  - eapply Inv_seen; [|exact Hr]. unfold seen. congruence.
  - split; unfold known; rewrite ?Hd, ?Hf, ?Hm; done.
Qed.

Abbreviation panics := (fun g => panic_cause sys (gh_seen g)).

Lemma starts_finish p :
  process_starts sys p -> okp process_inv process_waits panics (finished process_idle) fresh_ghost p.
Proof.
  pose proof (panic_cause_grows sys) as Hgr. intros [ep rq|n|n|n].
  - apply okp_safe. eapply (okp_bind _ _ _ (fun g' _ => process_idle g')); [|by intros g a H]. apply okp_recovered.
    apply (finishes_serve base ks old (fun _ => False)); [done|apply wire_handlers_on].
  - apply (finishes_Run base ks old (panic_cause sys) Hgr); [intros db H; by left; left|].
    apply (okp_wired_tick base ks old (panic_cause sys)); [|done]. intros db H. by right; left.
  - apply (finishes_Run base ks old (panic_cause sys) Hgr); [intros db H; by left; right; left|].
    apply (calmly_finishes base ks old (panic_cause sys)); [done|]. apply calmly_webhook_tick.
  - apply (finishes_Run base ks old (panic_cause sys) Hgr); [intros db H; by left; right; right|].
    apply (calmly_finishes base ks old (panic_cause sys)); [done|].
    apply (calmly_gas_tick base ks old (panic_cause sys) Hgr); [intros db H; by right; right|done|]. intros a.
    split; [by apply buildNotifier_keeps|]. split; [by apply buildNotifier_keeps|apply buildNotifier_total].
Qed.

Lemma system_good w0 c :
  clean_start w0 -> system_reachable w0 c -> good process_inv process_waits panics process_idle c.
Proof.
  intros H0.
  apply (good_reachable process_inv process_waits panics (process_starts sys) undisturbed reboot
    fresh_ghost process_idle).
  - intros w gs gs'. apply process_perm.
  - intros w gs. apply process_free.
  - intros w w' gs. apply process_undisturbed.
  - intros w gs. apply process_crash.
  - apply starts_finish.
  - by apply clean_start_inv.
Qed.

Lemma system_inv w0 c : clean_start w0 -> system_reachable w0 c -> exists gs, process_inv c.1 gs.
Proof. intros H0 Hr. destruct (system_good _ _ H0 Hr) as (gs & H & _). eauto. Qed.

(** A goroutine that has panicked has a cause in the tables. *)
Lemma system_panics w0 c m :
  clean_start w0 -> system_reachable w0 c -> Panic m ∈ c.2 -> panic_cause sys (w_db c.1).
Proof.
  intros H0 Hr Hm.
  destruct (good_panic _ _ _ _ (process_perm _ _ _) _ _ (system_good _ _ H0 Hr) Hm) as (g & gs & Hinv & Hc).
  pose proof (p_seen _ _ _ _ _ Hinv) as Hd. apply Forall_cons in Hd as [Hd _]. by eapply panic_cause_grows.
Qed.


(** C1 Nonces of the whole process: in every state it can reach from a clean first
    start — any number of relay requests interleaved with app creations, sweeps,
    balance and status queries and the three workers, with failures and restarts at
    any point — the transactions the node took in from a signer carry, in the order
    in which it took them in, consecutive nonces from the account's first one on,
    none skipped and none used twice, up to and including the first one whose
    broadcast was answered with an error although the node took it in; without such
    a lost answer, all of them.  [earlier] is any initial part of the log of
    broadcasts, in which only the newest may have lost its answer. *)
Theorem process_nonces_consecutive w0 c a newer earlier :
  clean_start w0 -> system_reachable w0 c -> is_signer (db_signers (w_db c.1)) a ->
  sent_log (w_hist c.1) = newer ++ earlier -> answered (tail earlier) a ->
  let sent := sent_from a earlier in
  List.map (fun s => tx_nonce (stx_tx s)) (rev sent) =
  List.map (fun i => u64 (base a + Z.of_nat i)) (List.seq 0 (length sent)).
Proof.
  intros H0 Hr Ha E Hans. destruct (system_inv _ _ H0 Hr) as [gs Hinv].
  exact (consecutive _ _ _ _ (I_order _ _ _ _ _ _ _ (p_relay _ _ _ _ _ Hinv)) Ha _ _ E Hans).
Qed.

(** C2 Every transaction is accounted for: in every state the process can reach
    from a clean first start, also after a crash at any point, each transaction the
    node took in comes from a treasury that is no signer, or from a signer and then
    has exactly one attempt row with its hash; that row is not marked failed when
    the node had answered the broadcast without error. *)
Theorem process_write_ahead w0 c s ok :
  clean_start w0 -> system_reachable w0 c -> (s, ok) ∈ sent_log (w_hist c.1) ->
  (is_treasury (db_apps (w_db c.1)) (stx_from s) /\ ~ is_signer (db_signers (w_db c.1)) (stx_from s)) \/
  (is_signer (db_signers (w_db c.1)) (stx_from s) /\
   exists i r, db_attempts (w_db c.1) !! i = Some r /\
     t_tx_hash r = lowerHash (stx_hash s) /\ (ok = true -> t_status r <> TFailed) /\
     forall j r', db_attempts (w_db c.1) !! j = Some r' ->
       t_tx_hash r' = lowerHash (stx_hash s) -> j = i).
Proof.
  intros H0 Hr Hs. destruct (system_inv _ _ H0 Hr) as [gs Hinv].
  pose proof (p_relay _ _ _ _ _ Hinv) as Hre.
  destruct (I_senders _ _ _ _ _ _ _ Hre (s, ok) Hs) as [Hsg|Ht].
  - right. split; [done|]. destruct (I_ahead _ _ _ _ _ _ _ Hre s ok Hs Hsg) as (i & r & Hi' & Hh & Hst).
    exists i, r. do 3 (split; [done|]). intros j r' Hj Hh'.
    eapply (I_hash _ _ _ _ _ _ _ Hre); [done..|congruence].
  - left. split; [done|]. by apply (k_apart _ _ _ _ (p_keys _ _ _ _ _ Hinv)).
Qed.

(** C3 Panics and deadlocks of the process, from a clean first start: a goroutine
    that has panicked has a cause — a worker's interval that is not positive, a
    receipt the node answers without its block number, or, in the tables of that
    state, an app with a top-up policy one of whose amounts is [NaN] — and in a
    reachable state in which none has panicked and none can act any more all have
    returned, every signer of every loaded pool is idle again, and its nonce counter
    equals the node's pending nonce unless an answer to one of its broadcasts was
    lost. *)
Theorem process_no_signer_lost w0 c :
  clean_start w0 -> system_reachable w0 c ->
  (forall m, Panic m ∈ c.2 -> panic_cause sys (w_db c.1)) /\
  ((forall p m, p ∈ c.2 -> p <> Panic m) -> (forall p, p ∈ c.2 -> step1 p c.1 = None) ->
   (forall p, p ∈ c.2 -> p = Ret tt) /\
   forall app ap, pl_apps (w_pool c.1) !! app = Some ap ->
     ap_idle ap ≡ₚ ap_signers ap /\
     forall p s, p ∈ ap_signers ap -> pl_heap (w_pool c.1) !! p = Some s ->
       answered (sent_log (w_hist c.1)) (sg_Address s) ->
       sg_nonce s = u64 (nonce_after base (sent_log (w_hist c.1)) (sg_Address s))).
Proof.
  intros H0 Hr. pose proof (system_good _ _ H0 Hr) as Hg. split.
  { intros m. by apply (system_panics w0). }
  intros Hno Hstuck.
  assert (process_inv c.1 [] /\ forall p, p ∈ c.2 -> p = Ret tt \/ exists g, process_waits c.1 g)
    as [Hinv Hw].
  { eapply good_stuck; [| |exact Hg|exact Hno|exact Hstuck].
    - intros w g gs. apply process_unfree.
    - intros w g (app & ap & E & _). unfold process_idle. by rewrite E. }
  destruct (all_returned_idle (KSS := store_sound ks) base _ (p_relay _ _ _ _ _ Hinv)) as [Hwait Hidle].
  split; [|exact Hidle].
  intros p Hp. destruct (Hw p Hp) as [->|(g & Hg')]; [done|]. by apply Hwait in Hg'.
Qed.
End system.

(** ** Witnesses *)

Module WiredDemo.
Import RefEnv ConcurrentDemo KeystoreDemo MainDemo.

(** Every generated key is another number. *)
Lemma demo_made_keys h a :
  a ∈ made_keys h -> exists z, a = addr z /\ 0 <= z < 4097 + Z.of_nat (length h) /\ z < 2 ^ 160.
Proof.
  induction h as [|e h IH]; [by intros ?%not_elem_of_nil|].
  assert (a ∈ made_keys h -> exists z, a = addr z /\ 0 <= z < 4097 + Z.of_nat (length (e :: h)) /\ z < 2 ^ 160)
    as Hold.
  { intros (z & E & Hz & Hb)%IH. exists z. cbn [length]. split; [done|]. lia. }
  destruct e; try exact Hold. cbn [made_keys env_GenerateKey demoHost]. cbv zeta.
  destruct (Z.ltb_spec (4097 + Z.of_nat (length h)) (2 ^ 160)); [|exact Hold].
  intros [->|Ha]%elem_of_cons; [|by apply Hold]. exists (4097 + Z.of_nat (length h)). cbn [length].
  split; [done|]. lia.
Qed.

#[export] Instance demoFresh : FreshKeys [].
Proof.
  split. intros h k. cbn [env_GenerateKey demoHost]. cbv zeta.
  destruct (Z.ltb_spec (4097 + Z.of_nat (length h)) (2 ^ 160)) as [Hlt|]; [|done]. intros [= <-].
  cbn [app]. intros (z & E & Hz & Hb)%demo_made_keys. apply (f_equal word_val) in E.
  cbn in E. unfold addr, word_mod in E. cbn [word_val] in E. rewrite !Z.mod_small in E; lia.
Qed.

(** Bodies as a client sends them: an app with one signer, and a transfer. *)
#[local] Instance demoBodies : Binder := {
  Bind_createApp _ := Ok (MkCreateAppRequest "shop" 1 "" "" "" "");
  Bind_relay _ := Ok (MkRelayRequest 146 "0x00000000000000000000000000000000000000aa" "" "0" 0 0 "" "");
  Bind_sweep _ := Ok (MkSweepRequest "0x00000000000000000000000000000000000000aa" "3");
}.
Abbreviation demo_cl := (MkClient 146).
Definition demo_sys : system := wire demo_cfg demo_ks demo_cl.

(** The token [Create] made from the bytes of the random source. *)
Definition demo_bearer : string := "Bearer tk_" +:+ RawURLEncode (String.concat "" (repeat "r" 32)).

Definition request (ep : endpoint) : prog unit :=
  do! NewRouter (sys_handlers demo_sys) ep (HttpIn demo_bearer "{}") in Ret tt.

Definition demo_id : string := uuid_of 12.
Definition demo_signer : address := addr 4102.

(** An app is created, two transfers are relayed, the treasury is swept. *)
Definition step_to (ep : endpoint) (w : world) : world := final (run (request ep) w).
Definition demo_w1 : world := Eval vm_compute in step_to POST_apps empty_world.
Definition demo_w2 : world := Eval vm_compute in step_to POST_relay demo_w1.
Definition demo_w3 : world := Eval vm_compute in step_to POST_relay demo_w2.
Definition demo_w4 : world := Eval vm_compute in step_to (POST_sweep demo_id) demo_w3.

Lemma demo_run1 : run (request POST_apps) empty_world = Done tt demo_w1.
Proof. vm_compute. reflexivity. Qed.
Lemma demo_run2 : run (request POST_relay) demo_w1 = Done tt demo_w2.
Proof. vm_compute. reflexivity. Qed.
Lemma demo_run3 : run (request POST_relay) demo_w2 = Done tt demo_w3.
Proof. vm_compute. reflexivity. Qed.
Lemma demo_run4 : run (request (POST_sweep demo_id)) demo_w3 = Done tt demo_w4.
Proof. vm_compute. reflexivity. Qed.

Definition demo_end : config := (demo_w4, [Ret tt; Ret tt; Ret tt; Ret tt]).

Lemma demo_starts ep : process_starts demo_sys (request ep).
Proof. apply (starts_request demo_sys ep (HttpIn demo_bearer "{}")). Qed.

Lemma demo_system : system_reachable demo_cfg demo_ks demo_cl empty_world demo_end.
Proof.
  eapply reachable_spawn; [|apply demo_starts|exact demo_run4].
  eapply reachable_spawn; [|apply demo_starts|exact demo_run3].
  eapply reachable_spawn; [|apply demo_starts|exact demo_run2].
  eapply reachable_spawn; [apply rtc_refl|apply demo_starts|exact demo_run1].
Qed.

Lemma demo_clean : clean_start demo_ks [] empty_world.
Proof.
  assert (forall a, ~ account (w_db empty_world) a) as Hno.
  { intros a [[row H]|(id & row & H & _)].
    - change (db_signers (w_db empty_world)) with (∅ : gmap string signer_row) in H. by rewrite lookup_empty in H.
    - change (db_apps (w_db empty_world)) with (∅ : gmap string app_row) in H. by rewrite lookup_empty in H. }
  split; [done|done|done|apply schema_empty|..].
  - intros a data H. change (w_files empty_world) with (∅ : gmap string string) in H.
    by rewrite lookup_empty in H.
  - intros a Ha. destruct (Hno a Ha).
  - intros a Ha _. apply (Hno a). by right.
Qed.

Lemma demo_signer_row : is_signer (db_signers (w_db demo_w4)) demo_signer.
Proof. apply (bool_decide_eq_true_1 (is_Some _)). vm_compute. reflexivity. Qed.


(** The log of the run: the sweep, and before it the two relayed transfers. *)
Definition demo_log : list (signed_tx * bool) := Eval vm_compute in sent_log (w_hist demo_w4).

Lemma demo_log_ok : sent_log (w_hist demo_end.1) = demo_log.
Proof. vm_compute. reflexivity. Qed.

Lemma demo_answered : answered (tail demo_log) demo_signer.
Proof.
  assert (forallb snd demo_log = true) as H by (vm_compute; reflexivity).
  rewrite forallb_forall in H. intros e He _. apply H, list_elem_of_In.
  destruct demo_log; [done|]. by right.
Qed.

Lemma process_nonces_consecutive_witness :
  List.map (fun s => tx_nonce (stx_tx s)) (rev (sent_from demo_signer demo_log)) = [0; 1].
Proof.
  exact (process_nonces_consecutive no_base demo_cfg demo_ks demo_cl [] empty_world demo_end demo_signer
    [] demo_log demo_clean demo_system demo_signer_row demo_log_ok demo_answered).
Defined.

(** The relayed transfer that the node took in last. *)
Lemma demo_relayed : exists s, demo_log !! 1%nat = Some (s, true) /\ stx_from s = demo_signer.
Proof.
  assert (match demo_log !! 1%nat with Some (s, ok) => ok && bool_decide (stx_from s = demo_signer)
    | None => false end = true) as H by (vm_compute; reflexivity).
  destruct (demo_log !! 1%nat) as [[s ok]|]; [|discriminate H].
  apply andb_prop in H as [H1 H2]. exists s. split; [by rewrite H1|exact (bool_decide_eq_true_1 _ H2)].
Qed.

Lemma process_write_ahead_witness :
  exists s, demo_log !! 1%nat = Some (s, true) /\ stx_from s = demo_signer /\
    exists i r, db_attempts (w_db demo_w4) !! i = Some r /\
      t_tx_hash r = lowerHash (stx_hash s) /\ t_status r <> TFailed.
Proof.
  destruct demo_relayed as (s & Hs & Hf). exists s. split; [exact Hs|]. split; [exact Hf|].
  assert ((s, true) ∈ sent_log (w_hist demo_end.1)) as Hin.
  { rewrite demo_log_ok. exact (list_elem_of_lookup_2 _ _ _ Hs). }
  destruct (process_write_ahead no_base demo_cfg demo_ks demo_cl [] empty_world demo_end s true
    demo_clean demo_system Hin) as [[_ Hno]|[_ (i & r & Hr & Hh & Hst & _)]].
  - destruct (Hno (eq_rect_r (fun a => is_signer (db_signers (w_db demo_w4)) a) demo_signer_row Hf)).
  - exists i, r. exact (conj Hr (conj Hh (Hst eq_refl))).
Defined.

Lemma demo_returned p : p ∈ demo_end.2 -> step1 p demo_end.1 = None.
Proof.
  unfold demo_end. cbn [fst snd]. rewrite !elem_of_cons.
  intros [->|[->|[->|[->|[]%not_elem_of_nil]]]]; reflexivity.
Qed.

Lemma demo_unpanicked p m : p ∈ demo_end.2 -> p <> Panic m.
Proof.
  unfold demo_end. cbn [fst snd]. rewrite !elem_of_cons.
  intros [->|[->|[->|[->|[]%not_elem_of_nil]]]]; discriminate.
Qed.

Lemma demo_loaded : is_Some (pl_apps (w_pool demo_w4) !! demo_id).
Proof. apply (bool_decide_eq_true_1 (is_Some _)). vm_compute. reflexivity. Qed.

Lemma process_no_signer_lost_witness :
  exists ap, pl_apps (w_pool demo_w4) !! demo_id = Some ap /\ ap_idle ap ≡ₚ ap_signers ap.
Proof.
  destruct demo_loaded as [ap Hap]. exists ap. split; [exact Hap|].
  destruct (process_no_signer_lost no_base demo_cfg demo_ks demo_cl [] empty_world demo_end
    demo_clean demo_system) as [_ H].
  exact (proj1 (proj2 (H demo_unpanicked demo_returned) demo_id ap Hap)).
Defined.

(** The accounts of treasuries have no pool: nothing keeps two transfers of a
    treasury apart.  A sweep that has read the nonce is overtaken by another one. *)
Definition sweep_race : option world :=
  match steps 4 (request (POST_sweep demo_id)) demo_w1 with
  | Some (p, w) =>
      match run (request (POST_sweep demo_id)) w with
      | Done _ w2 => match run p w2 with Done _ w3 => Some w3 | _ => None end
      | _ => None
      end
  | None => None
  end.

Lemma sweep_race_reachable w :
  sweep_race = Some w -> exists ts, system_reachable demo_cfg demo_ks demo_cl empty_world (w, ts).
Proof.
  unfold sweep_race. destruct (steps _ _ demo_w1) as [[p w1]|] eqn:E1; [|done].
  destruct (run (request (POST_sweep demo_id)) w1) as [[] w2| |] eqn:E2; [|done..].
  destruct (run p w2) as [[] w3| |] eqn:E3; [|done..]. intros [= <-].
  apply run_steps in E2 as [n2 E2], E3 as [n3 E3]. exists [Ret tt; Ret tt; Ret tt]. unfold system_reachable, reachable.
  etrans; [eapply reachable_spawn; [apply rtc_refl|apply (demo_starts POST_apps)|exact demo_run1]|].
  eapply rtc_l; [apply sys_spawn, (demo_starts (POST_sweep demo_id))|].
  etrans; [exact (steps_reach _ _ _ _ _ _ _ _ [] [Ret tt] E1)|].
  eapply rtc_l; [apply sys_spawn, (demo_starts (POST_sweep demo_id))|].
  etrans; [exact (steps_reach _ _ _ _ _ _ _ _ [] _ E2)|].
  exact (steps_reach _ _ _ _ _ _ _ _ [Ret tt] _ E3).
Qed.

Example sweep_race_nonces :
  option_map (fun w => List.map (fun s => (tx_nonce (stx_tx s), word_val (stx_from s)))
    (accepted_txs (w_hist w))) sweep_race = Some [(0, 4097); (0, 4097)].
Proof. vm_compute. reflexivity. Qed.
End WiredDemo.
