(* ===== verification/Quiet.v ===== *)
(** * What the goroutines leave to [main]

    The handlers and the workers, action by action, add only ordinary
    interactions to the history: none of them receives a signal, cancels the
    workers' context, shuts the server down, closes the pool or exits.  These
    are [main]'s and the server goroutine's ([Lifecycle]). *)

From Stdlib Require Import ZArith Lia.
From S2P Require Import Prelude GoLib Json Eth Database World Chain.
From S2P Require Import FileSystem Keystore.
From S2P Require Import SignerPool RefEnv AppService RelayService RelayStatus Watcher Webhook Alert.
From S2P Require Import Gas Treasury Api Config Main Process.

Local Open Scope Z_scope.
Local Open Scope txmill_scope.

Definition ordinary (e : event) : Prop := match e with EvLife _ => False | _ => True end.

(** Only ordinary interactions were added. *)
Definition ordinary_since (w w' : world) : Prop :=
  exists l, w_hist w' = l ++ w_hist w /\ Forall ordinary l.

#[export] Instance ordinary_since_preorder : PreOrder ordinary_since.
Proof.
  split.
  - intros w. by exists [].
  - intros w1 w2 w3 (l1 & E1 & H1) (l2 & E2 & H2). exists (l2 ++ l1).
    rewrite E2, E1, app_assoc. split; [done|]. by apply Forall_app.
Qed.

Lemma ordinary_same w w' : w_hist w' = w_hist w -> ordinary_since w w'.
Proof. intros E. exists []. by rewrite E. Qed.

Lemma ordinary_one e w w' : w_hist w' = e :: w_hist w -> ordinary e -> ordinary_since w w'.
Proof. intros E He. exists [e]. rewrite E. by repeat constructor. Qed.

Definition quiet {A} (p : prog A) : Prop := all_steps ordinary_since p.

Lemma quiet_action {X} (f : world -> X * world) :
  (forall w, ordinary_since w (f w).2) -> quiet (action f).
Proof. apply all_steps_action. Qed.

Lemma quiet_waiting {X} (f : world -> option (X * world)) :
  (forall w x w', f w = Some (x, w') -> ordinary_since w w') -> quiet (waiting f).
Proof. intros H. by split. Qed.

Lemma quiet_bind {A B} (p : prog A) (k : A -> prog B) :
  quiet p -> (forall a, quiet (k a)) -> quiet (bind p k).
Proof. apply all_steps_bind. Qed.

Lemma quiet_for_each {A} (l : list A) body : (forall x, quiet (body x)) -> quiet (for_each l body).
Proof. apply all_steps_for_each. Qed.

Create HintDb quiet.

(** One action: look at every answer, and at the event it logs. *)
Ltac quiet_step :=
  intros; cbv zeta; cbn [fst snd];
  repeat match goal with |- context [match ?x with _ => _ end] => destruct x end;
  first [by apply ordinary_same | by eapply ordinary_one].

Ltac solve_quiet :=
  repeat first
    [ progress intros
    | exact I
    | solve [eauto 2 with quiet]
    | apply quiet_bind
    | apply quiet_for_each
    | match goal with
      | |- quiet (match ?x with _ => _ end) => destruct x
      end ].

(** ** The actions *)

Section actions.
Context `{Env : Environment}.

Lemma quiet_pg {X} (s : stmt X) : quiet (pg s).
Proof. apply quiet_action. quiet_step. Qed.
Lemma quiet_pg_begin : quiet pg_begin.
Proof. apply quiet_action. quiet_step. Qed.
Lemma quiet_pg_tx {X} t (s : stmt X) : quiet (pg_tx t s).
Proof. apply quiet_action. quiet_step. Qed.
Lemma quiet_pg_commit t : quiet (pg_commit t).
Proof. apply quiet_action. quiet_step. Qed.
Lemma quiet_time_Now : quiet time_Now.
Proof. apply quiet_action. quiet_step. Qed.
Lemma quiet_rand_Read n : quiet (rand_Read n).
Proof. apply quiet_action. quiet_step. Qed.
Lemma quiet_http_Do r : quiet (http_Do r).
Proof. apply quiet_action. quiet_step. Qed.
Lemma quiet_pool_action {X} (f : pool -> X * pool) : quiet (pool_action f).
Proof. apply quiet_action. quiet_step. Qed.
End actions.
#[export] Hint Resolve quiet_pg quiet_pg_begin quiet_pg_tx quiet_pg_commit quiet_time_Now
  quiet_rand_Read quiet_http_Do quiet_pool_action : quiet.

Lemma quiet_rpc {X} e (answer : history -> X) : ordinary e -> quiet (rpc e answer).
Proof. intros He. apply quiet_action. intros w. by apply (ordinary_one e). Qed.
#[export] Hint Extern 1 (quiet (rpc _ _)) => apply quiet_rpc; exact I : quiet.
#[export] Hint Extern 1 (quiet rpc_ChainID) => apply quiet_rpc; exact I : quiet.
#[export] Hint Extern 1 (quiet rpc_Close) => apply quiet_rpc; exact I : quiet.
#[export] Hint Extern 1 (quiet (rpc_DialContext _)) => apply quiet_rpc; exact I : quiet.
#[export] Hint Extern 1 (quiet (BalanceAt _)) => apply quiet_rpc; exact I : quiet.
#[export] Hint Extern 1 (quiet (PendingNonceAt _)) => apply quiet_rpc; exact I : quiet.
#[export] Hint Extern 1 (quiet SuggestGasPrice) => apply quiet_rpc; exact I : quiet.
#[export] Hint Extern 1 (quiet (EstimateGas _)) => apply quiet_rpc; exact I : quiet.
#[export] Hint Extern 1 (quiet (TransactionReceipt _)) => apply quiet_rpc; exact I : quiet.
#[export] Hint Extern 1 (quiet (CallContract _ _)) => apply quiet_rpc; exact I : quiet.

(** ** The key store, the pool and the services *)

Section services.
Context `{Env : Environment} `{HO : Host} `{Eth : GoEthereum} `{PG : Postgres} (ks : Keystore).

#[local] Instance quiet_loader : KeystoreLoader := loader_of ks.
#[local] Instance quiet_generator : KeystoreGenerator := generator_of ks.

Lemma quiet_SendTransaction s : quiet (SendTransaction s).
Proof. apply quiet_action. quiet_step. Qed.

Lemma quiet_ReadFile f : quiet (os_ReadFile f).
Proof. apply quiet_action. quiet_step. Qed.
Lemma quiet_WriteFile f d : quiet (os_WriteFile f d).
Proof. apply quiet_action. quiet_step. Qed.
Lemma quiet_Rename f f' : quiet (os_Rename f f').
Proof. apply quiet_action. quiet_step. Qed.
Lemma quiet_Remove f : quiet (os_Remove f).
Proof. apply quiet_action. quiet_step. Qed.
Lemma quiet_MkdirAll f : quiet (os_MkdirAll f).
Proof. apply quiet_action. quiet_step. Qed.
Lemma quiet_GenerateKey : quiet crypto_GenerateKey.
Proof. apply quiet_action. quiet_step. Qed.
#[local] Hint Resolve quiet_SendTransaction quiet_ReadFile quiet_WriteFile quiet_Rename quiet_Remove
  quiet_MkdirAll quiet_GenerateKey : quiet.

Lemma quiet_Load a : quiet (ks_Load a).
Proof. cbn [ks_Load quiet_loader loader_of]. unfold Keystore.Load. solve_quiet. Qed.
Lemma quiet_Generate : quiet ks_Generate.
Proof.
  cbn [ks_Generate quiet_generator generator_of]. unfold Keystore.Generate, write. solve_quiet.
Qed.
#[local] Hint Resolve quiet_Load quiet_Generate : quiet.

Lemma quiet_generate_signers n i acc : quiet (generate_signers n i acc).
Proof. revert i acc. induction n as [|n IH]; intros i acc; cbn [generate_signers]; solve_quiet. Qed.
#[local] Hint Resolve quiet_generate_signers : quiet.

Lemma quiet_Create inp : quiet (Create inp).
Proof.
  unfold Create, newBearerToken, callback_secret_for, newCallbackSecret, insert. solve_quiet.
Qed.

Lemma quiet_ListSigners app : quiet (ListSigners app).
Proof. unfold ListSigners. solve_quiet. Qed.
#[local] Hint Resolve quiet_Create quiet_ListSigners : quiet.

Lemma quiet_load_signers app addrs ps : quiet (load_signers app addrs ps).
Proof.
  revert ps. induction addrs as [|a addrs IH]; intros ps; cbn [load_signers]; [done|].
  unfold alloc. solve_quiet.
Qed.
#[local] Hint Resolve quiet_load_signers : quiet.

Lemma quiet_pool_Load app : quiet (SignerPool.Load app).
Proof.
  unfold SignerPool.Load, app_loaded, SignerPool.install. cbn [lister_ListSigners]. solve_quiet.
Qed.

Lemma quiet_recv_idle app : quiet (recv_idle app).
Proof. apply quiet_waiting. intros w x w' E. repeat case_match; simplify_eq; by apply ordinary_same. Qed.
Lemma quiet_send_idle app p : quiet (send_idle app p).
Proof. apply quiet_waiting. intros w x w' E. repeat case_match; simplify_eq; by apply ordinary_same. Qed.
#[local] Hint Resolve quiet_pool_Load quiet_recv_idle quiet_send_idle : quiet.

Lemma quiet_deref p : quiet (deref p).
Proof. unfold deref. solve_quiet. Qed.
#[local] Hint Resolve quiet_deref : quiet.

Lemma quiet_Checkout app : quiet (Checkout app).
Proof. unfold Checkout, app_loaded. solve_quiet. Qed.
Lemma quiet_Release p : quiet (Release p).
Proof. unfold Release, app_loaded. solve_quiet. Qed.
#[local] Hint Resolve quiet_Checkout quiet_Release : quiet.

(** The relay service. *)

Lemma quiet_GetRaw rid : quiet (GetRaw rid).
Proof. unfold GetRaw. solve_quiet. Qed.
#[local] Hint Resolve quiet_GetRaw : quiet.

Lemma quiet_Enqueue rid : quiet (Enqueue rid).
Proof. unfold Enqueue. cbn [fetch_GetRaw relayFetcher]. solve_quiet. Qed.

Definition quiet_enqueuer (o : option WebhookEnqueuer) : Prop :=
  forall e rid, o = Some e -> quiet (e rid).

Lemma quiet_fireWebhook s rid : quiet_enqueuer (svc_webhooks s) -> quiet (fireWebhook s rid).
Proof. intros He. unfold fireWebhook. destruct (svc_webhooks s) as [e|]; solve_quiet. Qed.
#[local] Hint Resolve quiet_fireWebhook : quiet.

Lemma quiet_markRequestStatus s rid st :
  quiet_enqueuer (svc_webhooks s) -> quiet (markRequestStatus s rid st).
Proof. intros He. unfold markRequestStatus. solve_quiet. Qed.
#[local] Hint Resolve quiet_markRequestStatus : quiet.

Lemma quiet_gasLimitFor inp v a : quiet (gasLimitFor inp v a).
Proof. unfold gasLimitFor. solve_quiet. Qed.
#[local] Hint Resolve quiet_gasLimitFor : quiet.

Lemma quiet_broadcast s inp v rid p sg gl gp :
  quiet_enqueuer (svc_webhooks s) -> quiet (broadcast s inp v rid p sg gl gp).
Proof.
  intros He. unfold broadcast, use_nonce_at, rewind_nonce_at, insertAttempt, markAttemptStatus, markSubmitted.
  solve_quiet.
Qed.
#[local] Hint Resolve quiet_broadcast : quiet.

Lemma quiet_Submit s inp : quiet_enqueuer (svc_webhooks s) -> quiet (Submit s inp).
Proof. intros He. unfold Submit, pastDeadline, insertRequest, submitWith. solve_quiet. Qed.

(** The workers. *)

Lemma quiet_deref_big o : quiet (deref_big o).
Proof. by destruct o. Qed.
#[local] Hint Resolve quiet_deref_big : quiet.

Lemma quiet_process wt p : quiet_enqueuer (wt_webhooks wt) -> quiet (process wt p).
Proof. intros He. unfold process, fetchRevertReason, record_outcome. solve_quiet. Qed.

Lemma quiet_tick wt : quiet_enqueuer (wt_webhooks wt) -> quiet (tick wt).
Proof.
  intros He. unfold tick. apply quiet_bind; [apply quiet_pg|]. intros [ps|e]; [|exact I].
  apply quiet_bind; [|intros n; exact I]. generalize 0 as n. induction ps as [|p ps IH]; intros n;
    cbn [process_all]; [exact I|]. apply quiet_bind; [by apply quiet_process|]. intros r. solve_quiet.
Qed.

Lemma quiet_recordFailure d code msg : quiet (recordFailure d code msg).
Proof. unfold recordFailure. solve_quiet. Qed.
#[local] Hint Resolve quiet_recordFailure : quiet.

Lemma quiet_webhook_tick batch : quiet (webhook_tick batch).
Proof.
  unfold webhook_tick. apply quiet_bind; [apply quiet_pg|]. intros [ds|e]; [|exact I].
  apply quiet_bind; [|intros n; exact I]. generalize 0 as n. induction ds as [|d ds IH]; intros n;
    cbn [deliver_all]; [exact I|]. unfold deliver. solve_quiet.
Qed.

Lemma quiet_refill_all wk p key gp signers nonce : quiet (refill_all wk p key gp signers nonce).
Proof.
  revert nonce. induction signers as [|a signers IH]; intros nonce; cbn [refill_all]; [exact I|].
  unfold hasRecentTopup, refill. cbv zeta. solve_quiet.
Qed.
#[local] Hint Resolve quiet_refill_all : quiet.

Lemma quiet_gas_tick wk :
  gw_keystore wk = loader_of ks -> (forall a, quiet (gw_notifier wk a)) -> quiet (gas_tick wk).
Proof. intros Hk Hn. unfold gas_tick, processApp, Gas.listSigners. rewrite Hk. solve_quiet. Qed.

Lemma quiet_Multi ns a : Forall (fun n => forall a, quiet (n a)) ns -> quiet (Multi ns a).
Proof.
  intros Hn. unfold Multi. apply quiet_bind; [|intros errs; solve_quiet]. generalize ([] : list error) as acc.
  induction Hn as [|n ns Hn Hns IH]; intros acc; cbn [notify_all]; solve_quiet.
Qed.

Lemma quiet_buildNotifier cfg a : quiet (buildNotifier cfg a).
Proof.
  assert (forall u b, quiet (WebhookNotify u b)) as Hw by (intros u b; unfold WebhookNotify; solve_quiet).
  assert (forall t b, quiet (TelegramNotify t b)) as Ht by (intros t b; unfold TelegramNotify; solve_quiet).
  assert (forall ns i, Forall (fun n => forall a, quiet (n a)) ns -> quiet (Throttled (Multi ns) i a)) as Hth.
  { intros ns i Hns. apply quiet_bind; [apply quiet_action; quiet_step|].
    intros []; [by apply quiet_Multi|exact I]. }
  unfold buildNotifier. destruct (negb (String.eqb (cfg_AlertWebhookURL cfg) "")), (_ && _); cbn [app];
    [apply Hth; repeat (apply Forall_cons_2; [by auto|]); apply Forall_nil_2..|exact I].
Qed.

Lemma quiet_ticker_Run {A} interval (t : prog A) n : quiet t -> quiet (ticker_Run interval t n).
Proof.
  intros Ht. unfold ticker_Run. destruct (_ <=? _); [exact I|]. induction n as [|n IH]; cbn [ticker_loop]; [exact I|].
  apply quiet_bind; [apply quiet_action; quiet_step|]. intros []; [exact I|]. by apply quiet_bind.
Qed.

(** ** The API *)

Lemma quiet_Sweep svc app to v : ts_keystore svc = loader_of ks -> quiet (Sweep svc app to v).
Proof. intros Hk. unfold Sweep, sweep_amount. rewrite Hk. cbv zeta. solve_quiet. Qed.

Lemma quiet_getBalances h id c : quiet (getBalances h id c).
Proof.
  assert (forall addrs, quiet (fetch_balances addrs)) as Hf.
  { induction addrs as [|a addrs IH]; cbn [fetch_balances]; solve_quiet. }
  unfold getBalances, AppService.Accounts. solve_quiet.
Qed.
#[local] Hint Resolve quiet_Submit quiet_Sweep quiet_getBalances : quiet.

Context `{B : Binder}.

Lemma quiet_bearerAuth next rq : (forall id, quiet (next id)) -> quiet (bearerAuth next rq).
Proof. intros Hn. unfold bearerAuth, Authenticate. solve_quiet. Qed.

Lemma quiet_serve h ep rq : handlers_on ks h -> quiet (serve h ep rq).
Proof.
  intros [Ha Hs Ht]. unfold serve.
  destruct ep, (h_Apps h) as [apps|]; try exact I;
    try (destruct (h_Treasury h) as [svc|] eqn:Et; [specialize (Ht svc eq_refl)|exact I]);
    try (destruct (h_Relay h) as [s|] eqn:Er; [destruct (Hs s eq_refl) as (He & Hk & Hl)|exact I]);
    try apply quiet_bearerAuth; intros;
    unfold createApp, Api.listSigners, sweepTreasury, postRelay, getRelay, Get;
    rewrite ?Et, ?(Ha _ eq_refl), ?Hk, ?Hl; solve_quiet.
  apply quiet_Submit. rewrite He. intros e rid [= <-]. apply quiet_Enqueue.
Qed.
End services.

(** ** The process *)

Section process.
Context `{Env : Environment} `{HO : Host} `{Eth : GoEthereum} `{PG : Postgres} `{PX : PgxPool} `{B : Binder}.
Context (cfg : Config) (ks : Keystore) (cl : Client).

Lemma quiet_starts p : process_starts (wire cfg ks cl) p -> quiet p.
Proof.
  assert (quiet_enqueuer (Some Enqueue)) as He by (intros e rid [= <-]; apply quiet_Enqueue).
  intros [ep rq|n|n|n]; [|apply quiet_ticker_Run..].
  - apply quiet_bind; [|by intros]. apply all_steps_recovered, (quiet_serve ks), wire_handlers_on.
  - by apply quiet_tick.
  - apply quiet_webhook_tick.
  - apply (quiet_gas_tick ks); [done|]. intros a. apply quiet_buildNotifier.
Qed.

Lemma quiet_main_start : quiet (main_start cfg).
Proof.
  unfold main_start, Main.NewPool, Keystore.New, Dial, Recover. solve_quiet; by apply quiet_MkdirAll.
Qed.
End process.
