(* ===== verification/Lifecycle.v ===== *)
(** * The life of the process ([cmd/txmill], [main])

    [main] starts up, launches the workers and the HTTP server, waits for a
    signal, cancels the workers' context, shuts the server down, runs its deferred
    calls and returns; the server's goroutine ends the process when the listener
    fails, and the Go runtime ends it, with status 2, when a goroutine panics and
    nothing recovers.  The life of the service — launches, refused startups,
    graceful stops, failures of the listener, panics, crashes at any point — is a
    step relation around the goroutines ([Process]) of the system that [main]
    started; its states are among those of [Wired], so what is proved there holds
    throughout, and what ends the process is read off its exit status. *)

From Stdlib Require Import ZArith Lia.
From S2P Require Import Prelude GoLib Json Eth Database World Chain.
From S2P Require Import FileSystem Keystore KeystoreSafety.
From S2P Require Import SignerPool RefEnv AppService RelayService RelayStatus Watcher Webhook Alert.
From S2P Require Import Gas Treasury Api Config Interleave System SystemSteps Concurrent Schema Main Process.
From S2P Require Import Accounts Wired Quiet.

Local Open Scope Z_scope.
Local Open Scope txmill_scope.

(** ** The latest launch *)

(** What happened to the process since it was last launched, newest first. *)
Fixpoint lifetime (h : history) : option (list life_event) :=
  match h with
  | [] => None
  | EvLife Launched :: _ => Some []
  | EvLife e :: h' => option_map (cons e) (lifetime h')
  | _ :: h' => lifetime h'
  end.

Definition exited_with (h : history) : option Z :=
  match lifetime h with Some (Exited code :: _) => Some code | _ => None end.

Definition running (h : history) : bool :=
  match lifetime h with
  | None | Some (Exited _ :: _) => false
  | Some _ => true
  end.

Lemma lifetime_ordinary l h : Forall ordinary l -> lifetime (l ++ h) = lifetime h.
Proof. induction 1 as [|e l He Hl IH]; [done|]. by destruct e. Qed.

Lemma lifetime_since w w' : ordinary_since w w' -> lifetime (w_hist w') = lifetime (w_hist w).
Proof. intros (l & -> & Hl). by apply lifetime_ordinary. Qed.

(** ** Outside the program *)

(** The web framework's [Start] (still serving, or what it returned), the
    arrival of SIGINT or SIGTERM, and whether all connections of the database
    pool are back ([pool.Close] waits for them). *)
Class HttpServer := {
  env_Start : string -> history -> option (option error);
  env_signal : history -> bool;
  env_pool_idle : history -> bool;
}.

(** [net/http]: after a call to [Shutdown] the server's error is
    [ErrServerClosed]. *)
Class HttpServerLaws `{HttpServer} := {
  env_Start_closed addr h l e :
    lifetime h = Some l -> ServerShutdown ∈ l -> env_Start addr h = Some (Some e) ->
    errors_Is e ErrServerClosed = true;
}.

(** ** [main] after the startup *)

Definition life (e : life_event) : prog unit := action (fun w => (tt, log (EvLife e) w)).

Definition os_Exit (code : Z) : prog unit := life (Exited code).
Definition cancelBg : prog unit := life Cancelled.

(** [cancel] of the shutdown's context. *)
Definition cancel : prog unit := life ShutdownCancelled.

(** [chainClient.Close] closes the connection to the node. *)
Definition chainClient_Close : prog unit := action (fun w =>
  (tt, log (EvLife ClientClosed) (log EvRpcClose w))).

Section main.
Context `{Env : Environment} `{SV : HttpServer}.

(** [e.Start(addr)] returns when the listener ends. *)
Definition e_Start (addr : string) : prog (option error) := waiting (fun w =>
  match env_Start addr (w_hist w) with Some r => Some (r, w) | None => None end).

(** The error of [Shutdown], which waits five seconds at most, is ignored. *)
Definition e_Shutdown : prog unit := life ServerShutdown.

Definition recv_stop : prog unit := waiting (fun w =>
  if env_signal (w_hist w) then Some (tt, log (EvLife Signalled) w) else None).

Definition pool_Close : prog unit := waiting (fun w =>
  if env_pool_idle (w_hist w) then Some (tt, log (EvLife PoolClosed) w) else None).

(** The goroutine of the HTTP server. *)
Definition listen_and_serve (addr : string) : prog unit :=
  let! r := e_Start addr in
  match r with
  | Some e => if negb (errors_Is e ErrServerClosed) then os_Exit 1 else Ret tt
  | None => Ret tt
  end.

(** [main] returns: the deferred calls, the last deferred first, and the end of
    the process. *)
Definition main_return : prog unit :=
  do! cancel in
  do! cancelBg in
  do! chainClient_Close in
  do! pool_Close in
  os_Exit 0.

Definition wait_for_stop : prog unit :=
  do! recv_stop in
  do! cancelBg in
  do! e_Shutdown in
  main_return.
End main.

(** ** The service *)

(** The machine and the process on it: the system [main] started, [main], the
    server's goroutine, and the goroutines of the requests and the workers. *)
Record proc := Proc {
  pr_world : world;
  pr_system : option system;
  pr_main : prog unit;
  pr_server : prog unit;
  pr_tasks : list (prog unit);
}.

Definition stopped (w : world) : proc := Proc w None (Ret tt) (Ret tt) [].

(** A new process: the memory of an earlier one is gone. *)
Definition launch (w : world) : world := log (EvLife Launched) (reboot w).

(** The status the Go runtime exits with after a panic. *)
Definition panic_status : Z := 2.

Section service.
Context `{Env : Environment} `{HO : Host} `{Eth : GoEthereum} `{PG : Postgres} `{PX : PgxPool}.
Context `{B : Binder} `{SV : HttpServer}.
Context (cfg : Config).

Let ks : Keystore := MkKeystore (cfg_KeystoreDir cfg) (cfg_KeystorePassword cfg).
Let cl : Client := MkClient (cfg_ChainID cfg).

(** A step of the service.  The startup runs before the process has any other
    goroutine; a launch at any point covers a crash there.  The goroutines are
    those of the system the startup returned. *)
Inductive proc_step : proc -> proc -> Prop :=
| step_launch c sys w' :
    run (main_start cfg) (launch (pr_world c)) = Done (Started sys) w' ->
    proc_step c (Proc w' (Some sys) wait_for_stop (listen_and_serve (cfg_APIListen cfg)) [])
| step_refused c code w' :
    run (main_start cfg) (launch (pr_world c)) = Done (Exit code) w' ->
    proc_step c (stopped (log (EvLife (Exited code)) w'))
| step_main w sys m s ts m' w' :
    running (w_hist w) = true -> step1 m w = Some (m', w') ->
    proc_step (Proc w sys m s ts) (Proc w' sys m' s ts)
| step_server w sys m s ts s' w' :
    running (w_hist w) = true -> step1 s w = Some (s', w') ->
    proc_step (Proc w sys m s ts) (Proc w' sys m s' ts)
| step_task w sys m s ts1 p ts2 p' w' :
    running (w_hist w) = true -> step1 p w = Some (p', w') ->
    proc_step (Proc w sys m s (ts1 ++ p :: ts2)) (Proc w' sys m s (ts1 ++ p' :: ts2))
| step_spawn w sys m s ts p :
    running (w_hist w) = true -> process_starts sys p ->
    proc_step (Proc w (Some sys) m s ts) (Proc w (Some sys) m s (p :: ts))
| step_panicked w sys m s ts msg :
    running (w_hist w) = true -> Panic msg ∈ ts ->
    proc_step (Proc w sys m s ts) (stopped (log (EvLife (Exited panic_status)) (reboot w)))
| step_outer w w' sys m s ts :
    undisturbed w w' -> ordinary_since w w' ->
    proc_step (Proc w sys m s ts) (Proc w' sys m s ts).

Definition service_reachable (w0 : world) : proc -> Prop := rtc proc_step (stopped w0).

(** ** Refinement *)

Lemma undisturbed_trans w1 w2 w3 : undisturbed w1 w2 -> undisturbed w2 w3 -> undisturbed w1 w3.
Proof. intros [? ?] [? ?]. split; congruence. Qed.

Lemma undisturbed_life e : all_steps undisturbed (life e).
Proof. by apply all_steps_action. Qed.

Lemma undisturbed_main : all_steps undisturbed wait_for_stop.
Proof.
  repeat (apply all_steps_bind; [|intros []]); try apply undisturbed_life.
  - split; [|done]. intros w x w'. by destruct (env_signal _); intros [= _ <-].
  - by apply all_steps_action.
  - split; [|done]. intros w x w'. by destruct (env_pool_idle _); intros [= _ <-].
Qed.

Lemma undisturbed_server addr : all_steps undisturbed (listen_and_serve addr).
Proof.
  apply all_steps_bind.
  - split; [|done]. intros w x w'. by destruct (env_Start _ _); intros [= _ <-].
  - intros [e|]; [|done]. destruct (negb _); [apply undisturbed_life|done].
Qed.

Lemma all_steps_step1 {A} R (p p' : prog A) w w' :
  all_steps R p -> step1 p w = Some (p', w') -> R w w' /\ all_steps R p'.
Proof.
  destruct p as [a|m|X f k]; [done..|]. cbn. intros [Hf Hk].
  destruct (f w) as [[x w1]|] eqn:E; [|done]. intros [= <- <-]. split; [by eapply Hf|apply Hk].
Qed.

Lemma main_start_store : keeps store (main_start cfg).
Proof.
  unfold main_start, Main.NewPool, Keystore.New, Dial, Recover.
  solve_keeps; by apply keeps_action.
Qed.

Lemma main_start_undisturbed w r w' :
  run (main_start cfg) w = Done r w' -> undisturbed w w'.
Proof.
  intros E. split.
  - destruct (main_start_run cfg w) as (r' & w1 & E' & Hv & _). congruence.
  - eapply (keeps_Done store); [apply main_start_store|exact E].
Qed.

Lemma main_start_system w sys w' :
  run (main_start cfg) w = Done (Started sys) w' -> sys = wire cfg ks cl.
Proof.
  intros E. destruct (main_start_run cfg w) as (r & w1 & E' & _ & Hr). rewrite E in E'.
  injection E' as <- <-. by destruct Hr as (_ & _ & _ & -> & _).
Qed.

(** The service refines the system: its world and its tasks are a state the
    system of [Wired] can reach. *)
Definition tasks_of (c : proc) : config := (pr_world c, pr_tasks c).

Abbreviation sys_steps := (rtc (sys_step (process_starts (wire cfg ks cl)) undisturbed reboot)).

Lemma launch_reaches c w' r :
  run (main_start cfg) (launch (pr_world c)) = Done r w' -> sys_steps (tasks_of c) (w', []).
Proof.
  intros E. eapply rtc_l; [apply sys_crash|]. apply rtc_once, sys_outer.
  apply (undisturbed_trans _ (launch (pr_world c))); [by split|]. by eapply main_start_undisturbed.
Qed.

(** The system is the one [main] wired; [main] and the server's goroutine leave
    tables, key files and transactions alone. *)
Record wired_proc (c : proc) : Prop := {
  wp_system sys : pr_system c = Some sys -> sys = wire cfg ks cl;
  wp_main : all_steps undisturbed (pr_main c);
  wp_server : all_steps undisturbed (pr_server c);
}.

Lemma step_refines c c' :
  proc_step c c' -> wired_proc c -> wired_proc c' /\ sys_steps (tasks_of c) (tasks_of c').
Proof.
  intros [c0 sys w' E|c0 code w' E|w sys m s ts m' w' _ E|w sys m s ts s' w' _ E
    |w sys m s ts1 p ts2 p' w' _ E|w sys m s ts p _ Hp|w sys m s ts msg _ _|w w' sys m s ts Hu _] [Hsys Hm Hs];
    cbn [pr_system pr_main pr_server stopped] in *.
  - split; [|by eapply launch_reaches]. split; [|apply undisturbed_main|apply undisturbed_server].
    intros ? [= <-]. by eapply main_start_system.
  - split; [done|]. eapply rtc_r; [by eapply launch_reaches|]. by apply sys_outer.
  - apply (all_steps_step1 undisturbed) in E as [Hu Hm']; [|done]. split; [done|]. by apply rtc_once, sys_outer.
  - apply (all_steps_step1 undisturbed) in E as [Hu Hs']; [|done]. split; [done|]. by apply rtc_once, sys_outer.
  - split; [done|]. by apply rtc_once, sys_act.
  - split; [done|]. rewrite (Hsys _ eq_refl) in Hp. by apply rtc_once, sys_spawn.
  - split; [done|]. eapply rtc_l; [apply sys_crash|]. by apply rtc_once, sys_outer.
  - split; [done|]. by apply rtc_once, sys_outer.
Qed.

Lemma service_wired w0 c :
  service_reachable w0 c -> wired_proc c /\ system_reachable cfg ks cl w0 (tasks_of c).
Proof.
  revert c. apply rtc_ind_r.
  - split; [done|]. apply rtc_refl.
  - intros c c' _ Hs [Hq Hr]. destruct (step_refines _ _ Hs Hq) as [Hq' Hr']. split; [done|].
    unfold system_reachable, reachable. by transitivity (tasks_of c).
Qed.

(** ** How the process ends *)

(** The events of a graceful stop, newest first. *)
Definition graceful : list life_event :=
  [Exited 0; PoolClosed; ClientClosed; Cancelled; ShutdownCancelled;
   ServerShutdown; Cancelled; Signalled].

(** Where [main] is, with what has happened so far. *)
Inductive main_at : prog unit -> list life_event -> Prop :=
| at_wait : main_at wait_for_stop []
| at_signalled : main_at (do! cancelBg in do! e_Shutdown in main_return) [Signalled]
| at_cancelled : main_at (do! e_Shutdown in main_return) [Cancelled; Signalled]
| at_shutdown : main_at main_return [ServerShutdown; Cancelled; Signalled]
| at_deferred :
    main_at (do! cancelBg in do! chainClient_Close in do! pool_Close in os_Exit 0)
      [ShutdownCancelled; ServerShutdown; Cancelled; Signalled]
| at_closing_client :
    main_at (do! chainClient_Close in do! pool_Close in os_Exit 0)
      [Cancelled; ShutdownCancelled; ServerShutdown; Cancelled; Signalled]
| at_closing :
    main_at (do! pool_Close in os_Exit 0)
      [ClientClosed; Cancelled; ShutdownCancelled; ServerShutdown; Cancelled; Signalled]
| at_closed :
    main_at (os_Exit 0)
      [PoolClosed; ClientClosed; Cancelled; ShutdownCancelled; ServerShutdown; Cancelled; Signalled].

(** Time passed within one launch. *)
Definition same_launch (h h' : history) : Prop :=
  exists newer, h' = newer ++ h /\ ~ EvLife Launched ∈ newer.

(** Since the launch, and before the server was shut down, the listener ended
    with an error. *)
Definition listener_failed (addr : string) (h : history) : Prop :=
  exists h0 l e, same_launch h0 h /\ lifetime h0 = Some l /\ ~ ServerShutdown ∈ l /\
    env_Start addr h0 = Some (Some e) /\ errors_Is e ErrServerClosed = false.

(** Since the launch a goroutine of the running process has panicked. *)
Definition goroutine_panicked (w0 : world) (h : history) : Prop :=
  exists c m, service_reachable w0 c /\ running (w_hist (pr_world c)) = true /\
    Panic m ∈ pr_tasks c /\ same_launch (w_hist (pr_world c)) h.

Lemma same_launch_trans h1 h2 h3 : same_launch h1 h2 -> same_launch h2 h3 -> same_launch h1 h3.
Proof.
  intros (l1 & -> & H1) (l2 & -> & H2). exists (l2 ++ l1). rewrite app_assoc. split; [done|].
  by intros [?|?]%elem_of_app.
Qed.

Lemma same_launch_cons e h : e <> EvLife Launched -> same_launch h (e :: h).
Proof. intros He. exists [e]. split; [done|]. intros H%list_elem_of_singleton. by symmetry in H. Qed.

Lemma same_launch_ordinary w w' : ordinary_since w w' -> same_launch (w_hist w) (w_hist w').
Proof.
  intros (l & E & Hl). exists l. split; [done|]. intros Hin. rewrite Forall_forall in Hl.
  exact (Hl _ Hin).
Qed.

Lemma listener_failed_later addr h h' :
  same_launch h h' -> listener_failed addr h -> listener_failed addr h'.
Proof.
  intros Hs (h0 & l & e & H0 & H). exists h0, l, e. split; [by eapply same_launch_trans|done].
Qed.

Lemma goroutine_panicked_later w0 h h' :
  same_launch h h' -> goroutine_panicked w0 h -> goroutine_panicked w0 h'.
Proof.
  intros Hs (c & m & Hc & Hr & Hm & H). exists c, m. do 3 (split; [done|]). by eapply same_launch_trans.
Qed.

(** [main] follows its steps, and only its last one ends the process. *)
Lemma main_at_step m l w m' w' :
  main_at m l -> lifetime (w_hist w) = Some l -> step1 m w = Some (m', w') ->
  same_launch (w_hist w) (w_hist w') /\
  exists l', lifetime (w_hist w') = Some l' /\ (main_at m' l' \/ (m' = Ret tt /\ l' = graceful)).
Proof.
  intros [] Hl E; cbn in E; repeat case_match; simplify_eq; cbn;
    (split; [first [by apply same_launch_cons|
      by eapply same_launch_trans; [|apply same_launch_cons]; [apply same_launch_cons|]]|]); rewrite Hl; eexists; (split; [done|]);
    first [by right | left; by constructor].
Qed.

Abbreviation addr := (cfg_APIListen cfg).

Definition server_at (s : prog unit) (h : history) : Prop :=
  s = listen_and_serve addr \/ s = Ret tt \/ (s = os_Exit 1 /\ listener_failed addr h).

(** Why a process that has ended did. *)
Inductive ended (w0 : world) (h : history) : list life_event -> Prop :=
| ended_refused code w w' :
    run (main_start cfg) (launch w) = Done (Exit code) w' -> ended w0 h [Exited code]
| ended_gracefully : ended w0 h graceful
| ended_failed l : listener_failed addr h -> ended w0 h (Exited 1 :: l)
| ended_panicked l : goroutine_panicked w0 h -> ended w0 h (Exited panic_status :: l).

Definition life_inv (w0 : world) (c : proc) : Prop :=
  Forall quiet (pr_tasks c) /\
  forall l, lifetime (w_hist (pr_world c)) = Some l ->
    ended w0 (w_hist (pr_world c)) l \/
    (main_at (pr_main c) l /\ server_at (pr_server c) (w_hist (pr_world c))).

Lemma server_at_later s h h' : same_launch h h' -> server_at s h -> server_at s h'.
Proof.
  intros Hs [->|[->|[-> H]]]; [by left|by right; left|right; right]. split; [done|].
  by eapply listener_failed_later.
Qed.

Lemma ended_later w0 h h' l : same_launch h h' -> ended w0 h l -> ended w0 h' l.
Proof.
  intros Hs [code w w' E| |l' H|l' H]; [by eapply ended_refused|constructor|..].
  - apply ended_failed. by eapply listener_failed_later.
  - apply ended_panicked. by eapply goroutine_panicked_later.
Qed.

Lemma ended_not_running w0 h l : lifetime h = Some l -> ended w0 h l -> running h = false.
Proof. unfold running. intros -> H. by destruct H. Qed.

(** While the process runs, its goroutines are at their places. *)
Lemma life_inv_running w0 c l :
  life_inv w0 c -> running (w_hist (pr_world c)) = true -> lifetime (w_hist (pr_world c)) = Some l ->
  main_at (pr_main c) l /\ server_at (pr_server c) (w_hist (pr_world c)).
Proof.
  intros [_ H] Hr Hl. destruct (H l Hl) as [He|Hm]; [|done].
  by rewrite (ended_not_running _ _ _ Hl He) in Hr.
Qed.

Lemma running_lifetime h : running h = true -> exists l, lifetime h = Some l.
Proof. unfold running. destruct (lifetime h) as [l|]; [eauto|done]. Qed.

(** Interactions of other goroutines and of the outside. *)
Lemma life_inv_ordinary w0 w w' sys m s ts ts' :
  ordinary_since w w' -> Forall quiet ts' ->
  life_inv w0 (Proc w sys m s ts) -> life_inv w0 (Proc w' sys m s ts').
Proof.
  intros Ho Hq [_ H]. split; [done|]. cbn in *. rewrite (lifetime_since _ _ Ho). intros l Hl.
  apply same_launch_ordinary in Ho. destruct (H l Hl) as [He|[Hm Hs]].
  - left. by eapply ended_later.
  - right. split; [done|]. by eapply server_at_later.
Qed.

Lemma life_inv_launch c r w' :
  run (main_start cfg) (launch (pr_world c)) = Done r w' -> lifetime (w_hist w') = Some [].
Proof.
  intros E. pose proof (all_steps_run ordinary_since (main_start cfg) (launch (pr_world c))
    (quiet_main_start cfg)) as H. rewrite E in H. by rewrite (lifetime_since _ _ H).
Qed.

Context `{SL : !HttpServerLaws}.

Lemma life_inv_server w0 w sys m s ts s' w' :
  running (w_hist w) = true -> step1 s w = Some (s', w') ->
  life_inv w0 (Proc w sys m s ts) -> life_inv w0 (Proc w' sys m s' ts).
Proof.
  intros Hr E Hinv. destruct (running_lifetime _ Hr) as [l Hl].
  destruct (life_inv_running _ _ _ Hinv Hr Hl) as [Hm [Hs|[Hs|[Hs Hf]]]]; cbn in Hm, Hs; subst s.
  - cbn in E. destruct (env_Start addr (w_hist w)) as [r|] eqn:Er; [|done]. injection E as <- <-.
    destruct Hinv as [Hq _]. split; [done|]. cbn in *. intros l' Hl'. right.
    rewrite Hl in Hl'. injection Hl' as <-. split; [done|].
    destruct r as [e|]; [|by right; left]. destruct (errors_Is e ErrServerClosed) eqn:Ec;
      [by right; left|]. right; right. split; [done|]. exists (w_hist w), l, e.
    split; [by exists []; split; [|apply not_elem_of_nil]|]. split; [done|]. split; [|done]. intros Hin.
    by rewrite (env_Start_closed _ _ _ _ Hl Hin Er) in Ec.
  - done.
  - cbn in E. injection E as <- <-. destruct Hinv as [Hq _]. split; [done|]. cbn. rewrite Hl.
    intros l' [= <-]. left. apply ended_failed. eapply listener_failed_later; [|exact Hf].
    by apply same_launch_cons.
Qed.

Lemma life_inv_step w0 c c' :
  service_reachable w0 c -> proc_step c c' -> life_inv w0 c -> life_inv w0 c'.
Proof.
  intros Hreach Hstep Hinv. destruct (service_wired _ _ Hreach) as [[Hsys _ _] _]. revert Hreach Hsys Hinv.
  destruct Hstep as [c0 sys w' E|c0 code w' E|w sys m s ts m' w' Hr E|w sys m s ts s' w' Hr E
    |w sys m s ts1 p ts2 p' w' _ E|w sys m s ts p _ Hp|w sys m s ts msg Hr Hm|w w' sys m s ts _ Ho];
    intros Hreach Hsys Hinv.
  - split; [done|]. cbn. apply life_inv_launch in E. rewrite E. intros l [= <-]. right.
    split; [constructor|by left].
  - split; [done|]. cbn. rewrite (life_inv_launch _ _ _ E). intros l [= <-]. left.
    by eapply ended_refused.
  - destruct (running_lifetime _ Hr) as [l Hl].
    destruct (life_inv_running _ _ _ Hinv Hr Hl) as [Hm Hs]. destruct Hinv as [Hq _].
    destruct (main_at_step _ _ _ _ _ Hm Hl E) as (Hsame & l' & Hl' & H). split; [done|]. cbn in *.
    rewrite Hl'. intros l0 [= <-]. destruct H as [H|[_ ->]]; [right|left; constructor].
    split; [done|]. by eapply server_at_later.
  - by eapply life_inv_server.
  - destruct Hinv as [Hq H]. pose proof Hq as Hq'. cbn in Hq'.
    apply Forall_app in Hq' as [H1 [H2 H3]%Forall_cons].
    apply (all_steps_step1 ordinary_since) in E as [Ho Hp']; [|done].
    eapply life_inv_ordinary; [exact Ho| |by split]. by apply Forall_app; split; [|apply Forall_cons].
  - destruct Hinv as [Hq H]. split; [|done]. cbn. apply Forall_cons. split; [|done].
    rewrite (Hsys _ eq_refl) in Hp. by eapply quiet_starts.
  - split; [done|]. cbn. destruct (running_lifetime _ Hr) as [l Hl]. rewrite Hl. intros l' [= <-]. left.
    apply ended_panicked. eexists _, msg. split; [exact Hreach|]. do 2 (split; [done|]).
    by apply same_launch_cons.
  - destruct Hinv as [Hq H]. by eapply life_inv_ordinary.
Qed.

Lemma service_life w0 c :
  lifetime (w_hist w0) = None -> service_reachable w0 c -> life_inv w0 c.
Proof.
  intros H0 Hr. assert (service_reachable w0 c /\ life_inv w0 c) as [_ H]; [|exact H].
  revert c Hr. apply rtc_ind_r.
  - split; [apply rtc_refl|]. split; [done|]. cbn. by rewrite H0.
  - intros c c' _ Hs [Hr H]. split; [by eapply rtc_r|by eapply life_inv_step].
Qed.

(** Wherever [main] is, once the signal is there and the connections are back it
    runs to the end of the process. *)
Lemma main_finishes m l w :
  main_at m l -> lifetime (w_hist w) = Some l -> env_signal (w_hist w) = true ->
  (forall h, env_pool_idle h = true) ->
  exists w', run m w = Done tt w' /\ lifetime (w_hist w') = Some graceful /\ undisturbed w w'.
Proof.
  intros [] Hl Hsig Hidle; cbn; rewrite ?Hsig, ?Hidle; (eexists; split; [done|]); cbn;
    by rewrite Hl.
Qed.

Lemma main_reaches m l w w' sys s ts :
  main_at m l -> lifetime (w_hist w) = Some l -> run m w = Done tt w' ->
  rtc proc_step (Proc w sys m s ts) (Proc w' sys (Ret tt) s ts).
Proof.
  revert l w. induction m as [[]|msg|X f k IH]; intros l w Hm Hl E.
  - injection E as <-. apply rtc_refl.
  - done.
  - cbn in E. destruct (f w) as [[x w1]|] eqn:Ef; [|done].
    assert (step1 (Step f k) w = Some (k x, w1)) as Es by (cbn; by rewrite Ef).
    destruct (main_at_step _ _ _ _ _ Hm Hl Es) as (_ & l' & Hl' & H).
    eapply rtc_l; [apply step_main; [|exact Es]|].
    + unfold running. rewrite Hl. by destruct Hm.
    + destruct H as [Hm'|[Hk _]]; [by eapply IH|]. rewrite Hk in *. injection E as <-. apply rtc_refl.
Qed.

(** C38 The exit status tells how the process ended, in every run of the service
    with launches, crashes and any interleaving of its goroutines.  It is 0 only
    after a graceful stop, in this order: a signal, the workers' context
    cancelled, the server shut down, and the deferred calls, last first: the
    shutdown's context and again the workers' cancelled, the connection to the
    node closed, the database pool closed.  It is 1 only if the listener failed
    since the launch and before any shutdown, or, with nothing started, if the
    startup was refused; 2 only if a goroutine of the running process has panicked
    since the launch, or if the startup was refused; there is no other status. *)
Theorem exit_status w0 c code :
  lifetime (w_hist w0) = None -> service_reachable w0 c ->
  exited_with (w_hist (pr_world c)) = Some code ->
  (code = 0 /\ lifetime (w_hist (pr_world c)) = Some graceful) \/
  (code = 1 /\ listener_failed addr (w_hist (pr_world c))) \/
  (code = 2 /\ goroutine_panicked w0 (w_hist (pr_world c))) \/
  ((code = 1 \/ code = 2) /\ lifetime (w_hist (pr_world c)) = Some [Exited code] /\
   exists w w', run (main_start cfg) (launch w) = Done (Exit code) w').
Proof.
  intros H0 Hr Hx. destruct (service_life _ _ H0 Hr) as [_ H]. unfold exited_with in Hx.
  destruct (lifetime (w_hist (pr_world c))) as [l|]; [|done]. revert Hx.
  destruct (H l eq_refl) as [[code' w w' E| |l' Hf|l' Hp]|[[] _]]; intros Hx; try discriminate Hx; injection Hx as <-.
  - right; right; right. split; [|eauto]. destruct (main_start_run cfg (launch w)) as (r & w1 & E' & _ & Hc).
    rewrite E in E'. by injection E' as <- <-.
  - by left.
  - by right; left.
  - by right; right; left.
Qed.
End service.

(** What kills the process: a panicked goroutine of a service that was first
    started clean has one of the causes of [Wired.panic_cause]. *)
Theorem service_panics `{Env : Environment} `{HO : Host} `{Eth : GoEthereum} `{PG : Postgres} `{PX : PgxPool}
    `{B : Binder} `{SV : HttpServer} `{HL : !HostLaws} `{EL : !GoEthereumLaws} `{UUL : !UuidLaws}
    `{NA : !NodeAccepts} base `{NL : !NodeLaws base} cfg old `{FK : !FreshKeys old} w0 c m :
  let ks := MkKeystore (cfg_KeystoreDir cfg) (cfg_KeystorePassword cfg) in
  clean_start ks old w0 -> service_reachable cfg w0 c -> Panic m ∈ pr_tasks c ->
  panic_cause (wire cfg ks (MkClient (cfg_ChainID cfg))) (w_db (pr_world c)).
Proof.
  intros ks H0 Hr. destruct (service_wired _ _ _ Hr) as [_ Hs].
  by apply (system_panics base cfg ks (MkClient (cfg_ChainID cfg)) old w0 (tasks_of c)).
Qed.

(** After the context is cancelled, a worker whose [select] sees it returns
    without starting another tick. *)
Theorem worker_stops `{Environment} {A} interval (t : prog A) n w :
  0 < interval -> env_ctx_done (w_hist w) = true -> env_select (w_hist w) = true ->
  run (ticker_Run interval t (S n)) w = Done tt (log EvTick w).
Proof.
  intros Hi Hd Hs. unfold ticker_Run. destruct (Z.leb_spec interval 0); [lia|].
  cbn [ticker_loop]. rewrite run_bind. unfold select_stop. rewrite run_action, Hd, Hs. done.
Qed.

(** ** Witnesses *)

Module LifecycleDemo.
Import RefEnv KeystoreDemo MainDemo WiredDemo.

#[local] Instance lifePgx : PgxPool := {
  pgxpool_New url := if HasPrefix url "postgres://" then None else Some (EText "cannot parse");
}.
#[local] Instance lifeBodies : Binder := {
  Bind_createApp _ := Err (EText "no body");
  Bind_relay _ := Err (EText "no body");
  Bind_sweep _ := Err (EText "no body");
}.

Definition shut (h : history) : bool :=
  match lifetime h with
  | Some l => existsb (fun e => match e with ServerShutdown => true | _ => false end) l
  | None => false
  end.

(** The listener ends when the server is shut down; a signal has arrived. *)
#[local] Instance lifeServer : HttpServer := {
  env_Start _ h := if shut h then Some (Some (ESentinel ErrServerClosed)) else None;
  env_signal _ := true;
  env_pool_idle _ := true;
}.
#[local] Instance lifeServerLaws : HttpServerLaws.
Proof.
  split. intros addr h l e _ _. cbn. destruct (shut h); [|done]. by intros [= <-].
Qed.

Definition is_started (o : outcome startup) : bool :=
  match o with Done (Started _) _ => true | _ => false end.

Lemma demo_launch : is_started (run (main_start demo_cfg) (launch empty_world)) = true.
Proof. vm_compute. reflexivity. Qed.

(** The running service, after its launch. *)
Lemma demo_service : exists c, service_reachable demo_cfg empty_world c /\
  running (w_hist (pr_world c)) = true.
Proof.
  pose proof demo_launch as H.
  destruct (run (main_start demo_cfg) (launch empty_world)) as [[code|s] w| |] eqn:E; try discriminate H.
  exists (Proc w (Some s) wait_for_stop (listen_and_serve (cfg_APIListen demo_cfg)) []). split.
  - apply rtc_once. by eapply step_launch.
  - unfold running. cbn [pr_world]. by rewrite (life_inv_launch demo_cfg (stopped empty_world) _ _ E).
Qed.

(** The same service after its stop. *)
Lemma demo_stopped : exists c, service_reachable demo_cfg empty_world c /\
  exited_with (w_hist (pr_world c)) = Some 0.
Proof.
  destruct demo_service as (c & Hr & Hrun). destruct (running_lifetime _ Hrun) as [l Hl].
  destruct (life_inv_running _ _ _ _ (service_life demo_cfg empty_world _ eq_refl Hr) Hrun Hl) as [Hm _].
  destruct (main_finishes _ _ _ Hm Hl eq_refl (fun _ => eq_refl)) as (w' & E & Hg & _).
  exists (Proc w' (pr_system c) (Ret tt) (pr_server c) (pr_tasks c)). split.
  - unfold service_reachable. etrans; [exact Hr|]. destruct c. by eapply main_reaches.
  - unfold exited_with. cbn [pr_world]. by rewrite Hg.
Qed.

Lemma exit_status_witness : exists c, service_reachable demo_cfg empty_world c /\
  (lifetime (w_hist (pr_world c)) = Some graceful \/
   listener_failed (cfg_APIListen demo_cfg) (w_hist (pr_world c))).
Proof.
  destruct demo_stopped as (c & Hr & Hx). exists c. split; [exact Hr|].
  destruct (exit_status demo_cfg empty_world c 0 eq_refl Hr Hx) as [[_ H]|[[H _]|[[H _]|[[H|H] _]]]];
    [left; exact H|discriminate H..].
Defined.

(** With a watcher interval of zero the process starts and then dies with status
    2. *)
Definition zero_cfg : Config := Config_Load zero_getenv.

Lemma zero_launch : is_started (run (main_start zero_cfg) (launch empty_world)) = true.
Proof. vm_compute. reflexivity. Qed.

Lemma zero_interval_exits : exists c, service_reachable zero_cfg empty_world c /\
  exited_with (w_hist (pr_world c)) = Some 2.
Proof.
  pose proof zero_launch as H.
  destruct (run (main_start zero_cfg) (launch empty_world)) as [[code|s] w| |] eqn:E; try discriminate H.
  pose proof (main_start_system zero_cfg _ _ _ E) as Es.
  pose proof (life_inv_launch zero_cfg (stopped empty_world) _ _ E) as El.
  assert (running (w_hist w) = true) as Hr by (unfold running; by rewrite El).
  eexists. split.
  - eapply rtc_l; [by apply (step_launch _ (stopped empty_world) s w)|].
    eapply rtc_l; [apply step_spawn; [exact Hr|apply (starts_watcher s 1)]|].
    apply rtc_once. eapply step_panicked; [exact Hr|]. rewrite Es. apply list_elem_of_here.
  - unfold exited_with. cbn [pr_world stopped w_hist log lifetime reboot set_throttle set_pool].
    by rewrite El.
Qed.
End LifecycleDemo.
